(* ===== verification/_CoqProject ===== *)
-Q . S2P
Prelude.v
Mem.v
Pmm.v
StringLib.v
Literals.v
Printf.v
Scanf.v
Dwarf.v
LineTable.v
HashTable.v
Vmm.v
Pages.v
AddressSpace.v
Kernel.v
Assembly.v
Process.v
Heap.v
HeapList.v
Sched.v
Queues.v
Semaphore.v
Sync.v
Trap.v
Fork.v
Fs.v
Rfs.v
RfsDisk.v
RfsFile.v
Hostfs.v
Vfs.v
ProcFile.v
System.v
Elf.v
Loader.v
UserHeap.v
UserMalloc.v
Syscall.v
Pipe.v
Machine.v
Boot.v
DeviceTree.v
Startup.v
Htif.v
UserLib.v
Apps.v
SemRing.v
SemKernel.v
Shell.v
ShellParser.v
