(* ===== verification/Prelude.v ===== *)
(** * A verification of riscv-pke

    riscv-pke is a proxy kernel for RISC-V: a small operating system in C for up to
    four harts of the Spike simulator, with paging, processes, a scheduler,
    semaphores, a RAM-disk file system, files of the host, an ELF loader with
    debug information, and a shell.  This library translates the program into Rocq
    functions and proves that they do what the program is for.

    ** The parts of the program and how they interact

    Machine mode (kernel/machine/) reads the device tree of the simulator
    (spike_interface/), sets up traps and enters supervisor mode.  There kernel/
    builds the page allocator (pmm.c) and, on top of it, page tables (vmm.c),
    processes (process.c), the scheduler (sched.c), semaphores (semaphore.c) and the
    file systems (vfs.c over rfs.c and hostfs.c, with ramdev.c and
    spike_interface/spike_file.c below them).  A trap (strap.c) enters the kernel
    for a system call (syscall.c), a page fault or a timer tick.  User programs call
    the kernel through user/user_lib.c; zshell/ is the largest of them.  util/ has
    the string, formatting and hash table routines that all parts use.

    ** How code becomes definitions

    A C function is a Rocq function of the same name in the monad [M S]: it takes a
    state and ends with a result and a new state ([Ok]), in a call of [panic] or a
    failed [assert] ([Panic]), with an access that C leaves undefined ([Fault]), or
    does not end within the rounds given to its loops ([Diverge]).  Integers are [Z],
    and [u8], [u32], [u64], [s32] and [s64] are written where C would wrap.  Memory
    is a finite map from addresses to bytes; structures that the program keeps in
    pages by layout (page tables, free list, heap blocks, trap frames, disk blocks,
    ELF and DWARF data) are bytes of it, and structures that only one module
    accesses by field (processes, inodes, dentries, parsed commands) are records in
    maps keyed by their address or index.  A function that works on a part of the
    state is lifted with a [lens] ([zoom]).  Code that is compiled only with a debugging
    macro of kernel/debug_config.h that is off is left out.

    The state grows with the layers: [pmm] (pmm.c), [vm] (vmm.c), [kernel] (processes,
    queues, semaphores, control registers), [fs] (file systems), [sys] (console, pipes,
    debug information), [machine] (machine-mode registers, timer).  User programs have
    a monad of their own, [U], over their memory and a kernel that is a parameter.

    ** Files

    - Prelude: integers, the monad, weakest preconditions, loops, lenses, sequential
      spin locks (kernel/lock.h), tactics.  Mem: bytes, little-endian words and the
      constants of kernel/memlayout.h and kernel/config.h.
    - Pmm: kernel/pmm.c.  Vmm: kernel/vmm.c and the Sv39 macros of kernel/riscv.h.
      Pages: the step "take a page, clear it, map it".  AddressSpace: sequences of
      operations on an address space.
    - StringLib, Literals: util/string.c.  Printf, Scanf: util/snprintf.c and
      util/snscanf.c.  HashTable: util/hash_table.c.
    - Kernel: the structures of kernel/process.h, semaphore.h, proc_file.h.  Process
      and Heap: kernel/process.c; HeapList: theorems on the heap.  Sched: kernel/sched.c;
      Queues: theorems on the queues; Fork: theorem on fork.  Semaphore:
      kernel/semaphore.c.  Trap: page faults and time slices of kernel/strap.c.
    - Assembly: the assembly files (mentry.S, mtrap_vector.S, strap_vector.S,
      load_store.S) as lists of instructions.
    - Sync: the locks of kernel/lock.h and the barrier of kernel/sync_utils.h as
      machines of harts that take steps in any order.
    - Fs: the structures of kernel/vfs.h, rfs.h and ramdev.h.  Rfs: kernel/rfs.c and
      ramdev.c; RfsDisk and RfsFile: theorems on them.  Hostfs: spike_file.c and
      kernel/hostfs.c.  Vfs: kernel/vfs.c.  ProcFile: kernel/proc_file.c.
    - Dwarf: the reader of .debug_line in kernel/elf.c; LineTable: theorem on it.
      Elf: the rest of kernel/elf.c; Loader: theorem on the loader.
    - System: the state [sys] and console output (spike_utils.c).  UserHeap: the heap
      calls of kernel/syscall.c; UserMalloc: theorems on sequences of them.  Syscall: the
      other calls, the dispatch and the trap handler.  Pipe: theorem on pipes.
    - Machine: kernel/machine/.  Boot: kernel/kernel.c.  DeviceTree: dts_parse.c,
      spike_memory.c and the query of spike_htif.c.  Startup: [init_dtb], the start of
      [m_start] and the theorem on memory set-up.  Htif: the rest of spike_htif.c, the
      proxied calls of spike_utils.c, the locks of atomic.h.
    - UserLib: user/user_lib.c.  Apps: the programs of user/app_*.c and test/bench_src/.
      Shell: zshell/; ShellParser: theorem on its parser.
    - SemRing: processes that call P and V, as an abstract machine, and app_semaphore on
      it; SemKernel: the kernel's semaphores and scheduler refine that machine.

    ** What the theorems show

    Memory.  The page allocator refines a pool of pages with reference counts
    ([allocator_refines_pool]); mapping and unmapping change exactly the entries they
    name ([map_pages_correct], [user_vm_unmap_frees]), and over any sequence of
    operations an address space behaves as a finite map ([address_space_refines_map]).
    A copy-on-write fault gives the writer a page of its own and fork shares exactly
    the parent's heap ([cow_fault_isolates], [fork_shares_heap]).  The user heap is
    first fit with coalescing ([first_fit_alloc_correct], [first_fit_free_correct]), and a
    program that allocates and frees blocks of up to a page never gets two live blocks
    that overlap and never sees its data change ([heap_program_correct]).
    From any device tree that describes the memory of the kernel, the start of hart 0
    ends with a well-formed allocator and the direct mapping ([query_mem_correct],
    [start_memory_correct], [kern_vm_init_direct_map]).

    Traps.  A trap from user mode and the return keep the registers of the program, and a
    machine trap those of whatever it interrupted, except t6
    ([user_trap_keeps_registers], [machine_trap_keeps_registers]); since all harts save
    to one frame, two machine traps at the same time mix the registers of two harts
    ([shared_frame_mixes_harts]).

    Harts and processes.  Critical sections under [spin_lock] are atomic for every
    interleaving, slots are not given out twice, and the barrier holds
    ([lock_linearizable], [process_slots_distinct], [barrier_correct]); the locks of
    atomic.h are shown to fail ([atomic_lock_races]).  The queues are FIFO, the
    scheduler runs their heads, time slices go round ([schedule_correct], [round_robin]).
    With the timer firing at any moment, P and V are those of counting semaphores with a
    queue ([semaphores_refine_turns], from [semaphore_P_correct] and its like), and the
    processes of app_semaphore print in turn and never get stuck
    ([semaphore_app_in_order]).  What [wait] does is stated for every case
    ([do_wait_any], [do_wait_pid]).

    Files and programs.  What is written to a file of the RAM disk is read back, and
    no other file changes ([rfs_write_correct], [rfs_read_correct],
    [rfs_write_read_roundtrip], [dinode_roundtrip]); cached paths are resolved
    ([cached_path_lookup]); the loader builds the image of the file ([elf_load_correct])
    and the line tables are those DWARF defines ([make_addr_line_correct]).

    Library, host and shell.  The hash table is a map, the block routines equal byte
    loops, [strtok] yields the words, printed numbers are read back
    ([hash_table_is_map], [memcpy_memset_reference], [strtok_words], [vsnprintf_correct],
    [print_scan_roundtrip]).  A proxied call returns the host's answer whatever the
    console does meanwhile ([frontend_syscall_correct]).  The shell's parser builds the
    commands that a line describes ([build_command_correct]), and a pipe carries the
    first word that is written to it ([pipe_carries_first_word]).

    Some theorems state what the program does where that is not what it is for: a short
    write that destroys the rest of a block ([rfs_write_short_clobbers_tail]), heap
    blocks that are lost ([empty_rest_is_lost]), sizes that are never served from a new
    page ([malloc_gap_fails]), a semaphore that stops the kernel
    ([negative_semaphore_panics]), a slot that is given out again
    ([slot_reused_before_ready]), host files that are never free again
    ([host_file_slot_leaks]).

    ** Bounds and fuel

    A loop gets the number of rounds it may run.  Where C bounds the loop the model
    uses that bound: the size of an array or table, [rounds] for a loop over the pages
    of a range, [queue_fuel] (one more than the number of processes) for a queue.  Where
    the loop follows a string, a list in user memory or a file, the number is an
    argument [fuel]; the theorems name the value that is enough (longer than the string
    or the list, more than the size of the device tree, twice the delay of the host) and
    show that the function returns.  No theorem of the form "if it returns" is used in
    place of one that it returns.

    ** What is assumed

    The host ([Host], [HtifHost], [HostArgs]), the kernel that a user program runs on
    ([UserKernel], [ShellKernel]), the file behind [elf_fpread] ([ReadsFile]) and the
    addresses that the linker chooses ([Symbols], [ElfData], arguments such as
    [kernel_end]) are parameters.  Their laws are the documented behaviour that the code
    relies on, and each theorem that uses them has a witness with a concrete instance.
    Addresses of local variables that are passed to the host or to [elf_fpread] are
    arguments as well.

    ** Not modelled

    The C files start a trap with the trap frame saved; what the assembly code around
    them does is in Assembly, and the two are not composed into one state.  [do_panic],
    [shutdown] and [poweroff] stop the machine and are the outcome [Panic] or the end of
    a run.  Sequential files run one kernel path at a time: interleavings of harts are modelled for locks,
    slots, semaphore identifiers and barriers in Sync, and for atomic.h in Htif, not for
    whole system calls.  Caches, the TLB ([flush_tlb]) and memory ordering are not
    modelled: [fence] and [sfence.vma] do nothing. *)

From Stdlib Require Import ZArith Lia Bool.
From stdpp Require Import base gmap list fin_maps numbers.

Set Default Goal Selector "!".
Open Scope Z_scope.

Declare Scope pke_scope.
Delimit Scope pke_scope with pke.

(** ** Machine integers

    C's unsigned types wrap modulo their width; the signed ones are two's
    complement.  [uint64], [int] and the like are [Z] values kept in range by
    these functions, written wherever the C expression could leave it. *)

Definition u8 (x : Z) : Z := x mod 2 ^ 8.
Definition u32 (x : Z) : Z := x mod 2 ^ 32.
Definition u64 (x : Z) : Z := x mod 2 ^ 64.
Definition s32 (x : Z) : Z := (x + 2 ^ 31) mod 2 ^ 32 - 2 ^ 31.
Definition s64 (x : Z) : Z := (x + 2 ^ 63) mod 2 ^ 64 - 2 ^ 63.

Lemma u64_small x : 0 <= x < 2 ^ 64 -> u64 x = x.
Proof. apply Z.mod_small. Qed.

Lemma u64_range x : 0 <= u64 x < 2 ^ 64.
Proof. apply Z.mod_pos_bound. lia. Qed.

Lemma u8_range x : 0 <= u8 x < 2 ^ 8.
Proof. apply Z.mod_pos_bound. lia. Qed.

Lemma s32_small x : - 2 ^ 31 <= x < 2 ^ 31 -> s32 x = x.
Proof. intros. unfold s32. rewrite Z.mod_small; lia. Qed.

Lemma s32_range x : - 2 ^ 31 <= s32 x < 2 ^ 31.
Proof. unfold s32. pose proof (Z.mod_pos_bound (x + 2 ^ 31) (2 ^ 32)). lia. Qed.

Lemma s64_small x : - 2 ^ 63 <= x < 2 ^ 63 -> s64 x = x.
Proof. intros. unfold s64. rewrite Z.mod_small; lia. Qed.

(** Bits that do not overlap. *)
Lemma lor_disjoint a b k : 0 <= k -> a mod 2 ^ k = 0 -> 0 <= b < 2 ^ k -> Z.lor a b = a + b.
Proof.
  intros Hk Ha Hb. rewrite <- Z.add_lor_land.
  replace (Z.land a b) with 0; [lia|]. symmetry. apply Z.bits_inj'. intros n Hn.
  rewrite Z.land_spec, Z.bits_0. destruct (Z.lt_ge_cases n k).
  - replace (Z.testbit a n) with false; [done|].
    rewrite <- (Z.mod_pow2_bits_low a k) by done. by rewrite Ha, Z.bits_0.
  - replace (Z.testbit b n) with false by (rewrite <- (Z.mod_small b (2 ^ k)) by done;
      by rewrite Z.mod_pow2_bits_high by lia). apply andb_false_r.
Qed.

(** ** The kernel monad

    A C function of the kernel is a state transformer that either returns
    ([Ok]), calls [panic] (which prints and shuts the machine down), performs an
    access that C leaves undefined (a NULL or wild pointer, an array index out
    of its bounds), or never returns (a lock that is never released, a loop that
    exhausts its fuel). *)

Inductive outcome (S A : Type) : Type :=
| Ok (a : A) (s : S)
| Panic
| Fault
| Diverge.

Arguments Ok {S A} a s.
Arguments Panic {S A}.
Arguments Fault {S A}.
Arguments Diverge {S A}.

Definition M (S A : Type) : Type := S -> outcome S A.

Section Monad.
  Context {S : Type}.

Definition ret {A} (a : A) : M S A := fun s => Ok a s.
Definition bind {A B} (m : M S A) (k : A -> M S B) : M S B := fun s =>
  match m s with
  | Ok a s' => k a s'
  | Panic => Panic
  | Fault => Fault
  | Diverge => Diverge
  end.
Definition panic {A} : M S A := fun _ => Panic.
Definition fault {A} : M S A := fun _ => Fault.
Definition diverge {A} : M S A := fun _ => Diverge.
Definition gets {A} (f : S -> A) : M S A := fun s => Ok (f s) s.
Definition modify (f : S -> S) : M S unit := fun s => Ok tt (f s).

(** C's [assert] ends in [kassert_fail], that is, in a panic. *)
Definition assert (b : bool) : M S unit := if b then ret tt else panic.
Definition of_option {A} (o : option A) : M S A :=
  match o with Some a => ret a | None => fault end.

(** A loop whose body either goes round again with new loop variables ([inl])
    or leaves the loop with a result ([inr], for the exit of the condition, a
    [break] or a [return]). *)
Fixpoint loop {A B} (fuel : nat) (body : A -> M S (A + B)) (a : A) : M S B :=
  match fuel with
  | O => diverge
  | Datatypes.S n =>
      bind (body a) (fun r =>
        match r with
        | inl a' => loop n body a'
        | inr b => ret b
        end)
  end.

End Monad.

Notation "'let*' x := m 'in' k" := (bind m (fun x => k))
  (at level 10, x pattern, m at level 200, k at level 200) : pke_scope.
Notation "m ;;; k" := (bind m (fun _ => k))
  (at level 100, right associativity) : pke_scope.

Open Scope pke_scope.

(** ** Weakest preconditions

    [wp m Q s]: run in state [s], [m] returns and the result and final state
    satisfy [Q].  This is total correctness: no panic, no fault, no divergence. *)

Definition wp {S A} (m : M S A) (Q : A -> S -> Prop) (s : S) : Prop :=
  match m s with Ok a s' => Q a s' | _ => False end.

Section Wp.
  Context {S : Type}.

Lemma wp_ret {A} (a : A) Q (s : S) : Q a s -> wp (ret a) Q s.
Proof. done. Qed.

Lemma wp_bind {A B} (m : M S A) (k : A -> M S B) Q (s : S) :
  wp m (fun a s' => wp (k a) Q s') s -> wp (bind m k) Q s.
Proof. unfold wp, bind. by destruct (m s). Qed.

Lemma wp_bind_inv {A B} (m : M S A) (k : A -> M S B) Q (s : S) :
  wp (bind m k) Q s -> wp m (fun a s' => wp (k a) Q s') s.
Proof. unfold wp, bind. by destruct (m s). Qed.

Lemma wp_gets {A} (f : S -> A) Q (s : S) : Q (f s) s -> wp (gets f) Q s.
Proof. done. Qed.

Lemma wp_modify (f : S -> S) Q (s : S) : Q tt (f s) -> wp (modify f) Q s.
Proof. done. Qed.

Lemma wp_assert (b : bool) Q (s : S) : b = true -> Q tt s -> wp (assert b) Q s.
Proof. by intros ->. Qed.

Lemma wp_conseq {A} (m : M S A) (P Q : A -> S -> Prop) (s : S) :
  wp m P s -> (forall a s', P a s' -> Q a s') -> wp m Q s.
Proof. unfold wp. destruct (m s); naive_solver. Qed.

Lemma wp_Ok {A} (m : M S A) (Q : A -> S -> Prop) (s : S) :
  wp m Q s -> exists a s', m s = Ok a s' /\ Q a s'.
Proof. unfold wp. destruct (m s); naive_solver. Qed.

Lemma wp_of_Ok {A} (m : M S A) (Q : A -> S -> Prop) (s : S) a s' :
  m s = Ok a s' -> Q a s' -> wp m Q s.
Proof. unfold wp. by intros ->. Qed.

Lemma wp_and {A} (m : M S A) (P Q : A -> S -> Prop) (s : S) :
  wp m P s -> wp m Q s -> wp m (fun a s' => P a s' /\ Q a s') s.
Proof. unfold wp. destruct (m s); naive_solver. Qed.

(** Total correctness of a loop: an invariant indexed by a bound on the number
    of remaining rounds, and fuel for that many rounds. *)
Lemma wp_loop {A B} (I : nat -> A -> S -> Prop) (body : A -> M S (A + B)) Q :
  (forall n a s, I n a s ->
     wp (body a) (fun r s' =>
       match r with
       | inl a' => exists k, (k < n)%nat /\ I k a' s'
       | inr b => Q b s'
       end) s) ->
  forall fuel n a s, I n a s -> (n < fuel)%nat -> wp (loop fuel body a) Q s.
Proof.
  intros Hbody fuel. induction fuel as [|fuel IH]; intros n a s HI Hlt; [lia|].
  simpl. apply wp_bind. eapply wp_conseq; [by apply Hbody|].
  intros [a'|b] s'; simpl; [|by intros ?].
  intros (k & Hk & HI'). eapply IH; [done|lia].
Qed.

End Wp.

Create HintDb pke.

(** Linear arithmetic with division and modulo by constants. *)
Ltac dlia := zify; Z.div_mod_to_equations; lia.

#[export] Hint Resolve wp_ret wp_gets wp_modify : pke.

(** One step of symbolic execution of a monadic program. *)
Ltac wp_step :=
  match goal with
  | |- wp (bind _ _) _ _ => apply wp_bind
  | |- wp (ret _) _ _ => apply wp_ret
  | |- wp (gets _) _ _ => apply wp_gets
  | |- wp (modify _) _ _ => apply wp_modify
  | |- wp (assert _) _ _ => apply wp_assert
  | |- wp (if ?b then _ else _) _ _ => let E := fresh "E" in destruct b eqn:E
  end.

(** Deterministic steps only: never splits on a condition. *)
Ltac wp_run :=
  repeat match goal with
  | |- wp (bind _ _) _ _ => apply wp_bind
  | |- wp (ret _) _ _ => apply wp_ret
  | |- wp (gets _) _ _ => apply wp_gets
  | |- wp (modify _) _ _ => apply wp_modify
  end; cbn beta.

(** ** Parts of a state

    A component works on its own state record; a component that contains it runs
    the operation on that part with [zoom]. *)

Record lens (S A : Type) : Type := Lens { lget : S -> A; lset : A -> S -> S }.
Arguments Lens {S A} _ _.
Arguments lget {S A} _ _.
Arguments lset {S A} _ _ _.

Class LensLaws {S A} (l : lens S A) : Prop := {
  lget_lset : forall a s, lget l (lset l a s) = a;
  lset_lget : forall s, lset l (lget l s) s = s;
  lset_lset : forall a b s, lset l a (lset l b s) = lset l a s
}.

Definition zoom {S P A} (l : lens S P) (m : M P A) : M S A := fun s =>
  match m (lget l s) with
  | Ok a p => Ok a (lset l p s)
  | Panic => Panic
  | Fault => Fault
  | Diverge => Diverge
  end.

Lemma wp_zoom {S P A} (l : lens S P) (m : M P A) Q s :
  wp m (fun a p => Q a (lset l p s)) (lget l s) -> wp (zoom l m) Q s.
Proof. unfold wp, zoom. by destruct (m (lget l s)). Qed.

(** ** Spin locks as the holder sees them (kernel/lock.h)

    [spin_lock] swaps 1 into the lock until it reads 0 back; on one hart a lock
    that is held makes it spin for ever.  [Sync] models the harts competing. *)

Definition spin_lock {S} (l : lens S Z) : M S unit := fun s =>
  if lget l s =? 0 then Ok tt (lset l 1 s) else Diverge.
Definition spin_unlock {S} (l : lens S Z) : M S unit := modify (lset l 0).

Lemma wp_spin_lock {S} (l : lens S Z) Q s :
  lget l s = 0 -> Q tt (lset l 1 s) -> wp (spin_lock l) Q s.
Proof. intros H HQ. unfold wp, spin_lock. by rewrite H. Qed.
