(* ===== verification/Mem.v ===== *)
(** * Physical memory

    The memory of the emulated machine as bytes.  Kernel code runs on a direct
    mapping of [KERN_BASE, PHYS_TOP), so an access outside that range is an
    undefined access of the C program.  Multi-byte accesses are little-endian,
    as on RISC-V. *)

From S2P Require Import Prelude.
From stdpp Require Import base gmap list fin_maps.
From Stdlib Require Import ZArith Lia Bool.

Set Default Goal Selector "!".
Open Scope Z_scope.

Abbreviation bytes := (gmap Z Z) (only parsing).

(** ** Layout constants (kernel/memlayout.h, kernel/riscv.h, kernel/config.h) *)

Definition PGSIZE : Z := 4096.
Definition PGSHIFT : Z := 12.
Definition DRAM_BASE : Z := 0x80000000.
Definition KERN_BASE : Z := 0x80000000.
Definition PKE_MAX_ALLOWABLE_RAM : Z := 128 * 1024 * 1024.
Definition PHYS_TOP : Z := DRAM_BASE + PKE_MAX_ALLOWABLE_RAM.
Definition USER_STACK_TOP : Z := 0x7ffff000.
Definition USER_FREE_ADDRESS_START : Z := 0x00000000 + PGSIZE * 1024.
Definition NCPU : Z := 4.

(** Unfolds the layout constants everywhere, for arithmetic. *)
Ltac layout :=
  unfold USER_FREE_ADDRESS_START, PHYS_TOP, KERN_BASE, DRAM_BASE,
    PKE_MAX_ALLOWABLE_RAM, PGSIZE, PGSHIFT in *.

(** util/functions.h; the arguments are unsigned 64-bit values, [a - 1] wraps. *)
Definition ROUNDUP (a b : Z) : Z := u64 ((u64 (a - 1) / b + 1) * b).
Definition ROUNDDOWN (a b : Z) : Z := a / b * b.

Lemma ROUNDUP_eq a : 0 < a -> a + PGSIZE < 2 ^ 64 ->
  ROUNDUP a PGSIZE = (a - 1) / PGSIZE * PGSIZE + PGSIZE.
Proof.
  intros. unfold ROUNDUP. layout. rewrite (u64_small (a - 1)) by lia.
  rewrite u64_small by dlia. dlia.
Qed.

Lemma ROUNDUP_aligned a : 0 < a -> a + PGSIZE < 2 ^ 64 -> a mod PGSIZE = 0 ->
  ROUNDUP a PGSIZE = a.
Proof. intros. rewrite ROUNDUP_eq by done. layout. dlia. Qed.

(** ** Bytes and little-endian words *)

Definition load8 (m : bytes) (a : Z) : Z := u8 (default 0 (m !! a)).
Definition store8 (m : bytes) (a v : Z) : bytes := <[a := u8 v]> m.

Fixpoint load_le (n : nat) (m : bytes) (a : Z) : Z :=
  match n with
  | O => 0
  | S n => load8 m a + 256 * load_le n m (a + 1)
  end.

Fixpoint store_le (n : nat) (m : bytes) (a v : Z) : bytes :=
  match n with
  | O => m
  | S n => store_le n (store8 m a v) (a + 1) (v / 256)
  end.

Abbreviation load64 := (load_le 8).
Abbreviation store64 := (store_le 8).
Abbreviation load32 := (load_le 4).
Abbreviation store32 := (store_le 4).

(** A kernel pointer the direct mapping covers, for an access of [n] bytes. *)
Definition in_dram (a n : Z) : bool := (DRAM_BASE <=? a) && (a + n <=? PHYS_TOP).

(** ** Reference block operations *)

Fixpoint fill (n : nat) (m : bytes) (a v : Z) : bytes :=
  match n with
  | O => m
  | S n => fill n (store8 m a v) (a + 1) v
  end.

Fixpoint copy_fwd (n : nat) (m : bytes) (d s : Z) : bytes :=
  match n with
  | O => m
  | S n => copy_fwd n (store8 m d (load8 m s)) (d + 1) (s + 1)
  end.

(** ** Loads after stores *)

Lemma load8_range m a : 0 <= load8 m a < 256.
Proof. apply u8_range. Qed.

Lemma load8_store8 m a b v :
  load8 (store8 m a v) b = if decide (a = b) then u8 v else load8 m b.
Proof.
  unfold load8, store8. rewrite lookup_insert. case_decide; [|done].
  simpl. unfold u8. by rewrite Z.mod_mod by lia.
Qed.

Lemma load8_store8_eq m a v : load8 (store8 m a v) a = u8 v.
Proof. rewrite load8_store8. by case_decide. Qed.

Lemma load8_store8_ne m a b v : a <> b -> load8 (store8 m a v) b = load8 m b.
Proof. rewrite load8_store8. by case_decide. Qed.

Lemma load8_store_le_ne n : forall m a b v,
  b < a \/ a + Z.of_nat n <= b -> load8 (store_le n m a v) b = load8 m b.
Proof.
  induction n as [|n IH]; intros m a b v Hb; simpl; [done|].
  rewrite IH by lia. apply load8_store8_ne. lia.
Qed.

Lemma load_le_ext k : forall m m' b,
  (forall x, b <= x < b + Z.of_nat k -> load8 m x = load8 m' x) ->
  load_le k m b = load_le k m' b.
Proof.
  induction k as [|k IH]; intros m m' b Heq; simpl; [done|].
  rewrite Heq by lia. f_equal. f_equal. apply IH. intros. apply Heq. lia.
Qed.

Lemma load_le_shift n : forall m m' a b,
  (forall i, 0 <= i < Z.of_nat n -> load8 m (a + i) = load8 m' (b + i)) -> load_le n m a = load_le n m' b.
Proof.
  induction n as [|n IH]; intros m m' a b Hi; [done|]. simpl.
  pose proof (Hi 0 ltac:(lia)) as H0. rewrite !Z.add_0_r in H0. rewrite H0.
  rewrite (IH m m' (a + 1) (b + 1)); [done|]. intros i Hr. rewrite <- !Z.add_assoc. apply Hi. lia.
Qed.

Lemma load_store_le_ne n k m a b v :
  b + Z.of_nat k <= a \/ a + Z.of_nat n <= b ->
  load_le k (store_le n m a v) b = load_le k m b.
Proof.
  intros. apply load_le_ext. intros. apply load8_store_le_ne. lia.
Qed.

Lemma load_store_le_eq n : forall m a v,
  load_le n (store_le n m a v) a = v mod 256 ^ Z.of_nat n.
Proof.
  induction n as [|n IH]; intros m a v; simpl.
  { by rewrite Z.mod_1_r. }
  rewrite IH, load8_store_le_ne, load8_store8_eq by lia.
  rewrite Nat2Z.inj_succ, Z.pow_succ_r by lia.
  rewrite Z.rem_mul_r by lia. done.
Qed.

Lemma load_le_range n m a : 0 <= load_le n m a < 256 ^ Z.of_nat n.
Proof.
  revert a. induction n as [|n IH]; intros a; simpl load_le.
  { simpl. lia. }
  pose proof (load8_range m a). specialize (IH (a + 1)).
  rewrite Nat2Z.inj_succ, Z.pow_succ_r by lia. lia.
Qed.

Lemma load64_range m a : 0 <= load64 m a < 2 ^ 64.
Proof. apply (load_le_range 8). Qed.

Lemma load64_store64_eq m a v : load64 (store64 m a v) a = u64 v.
Proof. apply (load_store_le_eq 8). Qed.

Lemma load64_store64_ne m a b v :
  b + 8 <= a \/ a + 8 <= b -> load64 (store64 m a v) b = load64 m b.
Proof. intros. apply (load_store_le_ne 8 8). lia. Qed.

(** ** Block operations: what each byte holds afterwards *)

Lemma load8_fill n : forall m a v b,
  load8 (fill n m a v) b =
  if decide (a <= b < a + Z.of_nat n) then u8 v else load8 m b.
Proof.
  induction n as [|n IH]; intros m a v b; simpl.
  { case_decide; [lia|done]. }
  rewrite IH, load8_store8. repeat case_decide; auto; lia.
Qed.

Lemma load8_copy_fwd n : forall m d s b,
  d <= s \/ s + Z.of_nat n <= d ->
  load8 (copy_fwd n m d s) b =
  if decide (d <= b < d + Z.of_nat n) then load8 m (s + (b - d)) else load8 m b.
Proof.
  induction n as [|n IH]; intros m d s b Hov; simpl.
  { case_decide; [lia|done]. }
  rewrite IH by lia. rewrite !load8_store8.
  assert (u8 (load8 m s) = load8 m s) as Hu.
  { unfold u8. apply Z.mod_small, load8_range. }
  repeat case_decide; subst; try lia; rewrite ?Hu; try done; f_equal; lia.
Qed.

Lemma load_le_fill k n m a v b :
  b + Z.of_nat k <= a \/ a + Z.of_nat n <= b ->
  load_le k (fill n m a v) b = load_le k m b.
Proof.
  intros. apply load_le_ext. intros. rewrite load8_fill. case_decide; [lia|done].
Qed.

Lemma load_le_fill_0 k : forall n m a b,
  a <= b -> b + Z.of_nat k <= a + Z.of_nat n ->
  load_le k (fill n m a 0) b = 0.
Proof.
  induction k as [|k IH]; intros n m a b H1 H2; simpl; [done|].
  rewrite load8_fill. case_decide; [|lia]. rewrite IH by lia. done.
Qed.

(** ** Bytes in sequence *)

Fixpoint bytes_at (m : bytes) (a : Z) (l : list Z) : Prop :=
  match l with
  | [] => True
  | b :: l => load8 m a = b /\ bytes_at m (a + 1) l
  end.

Lemma bytes_at_app m l1 : forall a l2,
  bytes_at m a (l1 ++ l2) <-> bytes_at m a l1 /\ bytes_at m (a + Z.of_nat (length l1)) l2.
Proof.
  induction l1 as [|b l1 IH]; intros a l2; simpl; [rewrite Z.add_0_r; tauto|].
  rewrite IH. replace (a + 1 + Z.of_nat (length l1)) with (a + Z.of_nat (S (length l1))) by lia. tauto.
Qed.

Lemma bytes_at_frame m m' l : forall a,
  (forall x, a <= x < a + Z.of_nat (length l) -> load8 m' x = load8 m x) ->
  bytes_at m a l -> bytes_at m' a l.
Proof.
  induction l as [|b l IH]; intros a Heq; simpl; [done|]. intros [<- Hl].
  simpl in Heq. split; [apply Heq; lia|]. apply IH; [|done]. intros. apply Heq. lia.
Qed.

(** ** Memories with the same bytes

    Two memories the program cannot tell apart: the same byte everywhere.  This
    is coarser than equality of the underlying maps, where an address that was
    never written reads as 0. *)

Definition mem_equiv (m m' : bytes) : Prop := forall a, load8 m a = load8 m' a.

#[export] Instance mem_equiv_equivalence : Equivalence mem_equiv.
Proof.
  split; unfold mem_equiv.
  - done.
  - intros ???; symmetry; auto.
  - intros ????? a. etrans; eauto.
Qed.

#[export] Instance load8_proper : Proper (mem_equiv ==> eq ==> eq) load8.
Proof. intros m m' Hm a ? <-. apply Hm. Qed.

#[export] Instance load_le_proper n : Proper (mem_equiv ==> eq ==> eq) (load_le n).
Proof. intros m m' Hm a ? <-. apply load_le_ext. intros. apply Hm. Qed.

#[export] Instance store8_proper : Proper (mem_equiv ==> eq ==> eq ==> mem_equiv) store8.
Proof.
  intros m m' Hm a ? <- v ? <- b. rewrite !load8_store8. by case_decide.
Qed.

#[export] Instance store_le_proper n :
  Proper (mem_equiv ==> eq ==> eq ==> mem_equiv) (store_le n).
Proof.
  intros m m' Hm a ? <- v ? <-. revert m m' Hm a v.
  induction n as [|n IH]; intros m m' Hm a v; simpl; [done|].
  apply IH. by rewrite Hm.
Qed.

#[export] Hint Resolve load8_range load64_range u64_range : pke.

#[global] Arguments load_le : simpl never.
#[global] Arguments store_le : simpl never.
