(* ===== verification/Pmm.v ===== *)
(** * Physical page allocator (kernel/pmm.c)

    A free list threaded through the first word of the free pages themselves,
    and a reference count per page that copy-on-write shares pages with. *)

From S2P Require Import Prelude Mem.
From stdpp Require Import base gmap list fin_maps.
From Stdlib Require Import ZArith Lia Bool.

Set Default Goal Selector "!".
Open Scope Z_scope.

Definition MAX_PAGES : Z := 0x10000.

(** The static variables of pmm.c, the memory the pages live in, and
    [g_mem_size] of spike_memory.c.  [page_ref_count] is a zero-initialised
    array of [MAX_PAGES] ints, [g_free_mem_list] the [next] field of the list
    head, 0 the NULL pointer. *)
Record pmm : Type := Pmm {
  mem : bytes;
  page_ref_count : gmap Z Z;
  free_mem_start_addr : Z;
  free_mem_end_addr : Z;
  g_free_mem_list : Z;
  g_free_mem_lock : Z;
  g_page_ref_lock : Z;
  g_mem_size : Z
}.

Definition set_mem (m : bytes) (s : pmm) : pmm :=
  Pmm m (page_ref_count s) (free_mem_start_addr s) (free_mem_end_addr s)
    (g_free_mem_list s) (g_free_mem_lock s) (g_page_ref_lock s) (g_mem_size s).
Definition set_page_ref_count (r : gmap Z Z) (s : pmm) : pmm :=
  Pmm (mem s) r (free_mem_start_addr s) (free_mem_end_addr s)
    (g_free_mem_list s) (g_free_mem_lock s) (g_page_ref_lock s) (g_mem_size s).
Definition set_free_mem_start_addr (a : Z) (s : pmm) : pmm :=
  Pmm (mem s) (page_ref_count s) a (free_mem_end_addr s)
    (g_free_mem_list s) (g_free_mem_lock s) (g_page_ref_lock s) (g_mem_size s).
Definition set_free_mem_end_addr (a : Z) (s : pmm) : pmm :=
  Pmm (mem s) (page_ref_count s) (free_mem_start_addr s) a
    (g_free_mem_list s) (g_free_mem_lock s) (g_page_ref_lock s) (g_mem_size s).
Definition set_g_free_mem_list (n : Z) (s : pmm) : pmm :=
  Pmm (mem s) (page_ref_count s) (free_mem_start_addr s) (free_mem_end_addr s)
    n (g_free_mem_lock s) (g_page_ref_lock s) (g_mem_size s).
Definition set_g_free_mem_lock (v : Z) (s : pmm) : pmm :=
  Pmm (mem s) (page_ref_count s) (free_mem_start_addr s) (free_mem_end_addr s)
    (g_free_mem_list s) v (g_page_ref_lock s) (g_mem_size s).
Definition set_g_page_ref_lock (v : Z) (s : pmm) : pmm :=
  Pmm (mem s) (page_ref_count s) (free_mem_start_addr s) (free_mem_end_addr s)
    (g_free_mem_list s) (g_free_mem_lock s) v (g_mem_size s).
Definition set_g_mem_size (v : Z) (s : pmm) : pmm :=
  Pmm (mem s) (page_ref_count s) (free_mem_start_addr s) (free_mem_end_addr s)
    (g_free_mem_list s) (g_free_mem_lock s) (g_page_ref_lock s) v.

Definition free_mem_lock : lens pmm Z := Lens g_free_mem_lock set_g_free_mem_lock.
Definition page_ref_lock : lens pmm Z := Lens g_page_ref_lock set_g_page_ref_lock.

(** ** Memory accesses of the kernel *)

Definition read64 (a : Z) : M pmm Z := fun s =>
  if in_dram a 8 then Ok (load64 (mem s) a) s else Fault.
Definition write64 (a v : Z) : M pmm unit := fun s =>
  if in_dram a 8 then Ok tt (set_mem (store64 (mem s) a v) s) else Fault.

Definition ref_in_array (idx : Z) : bool := (0 <=? idx) && (idx <? MAX_PAGES).
Definition read_ref (idx : Z) : M pmm Z := fun s =>
  if ref_in_array idx then Ok (default 0 (page_ref_count s !! idx)) s else Fault.
Definition write_ref (idx v : Z) : M pmm unit := fun s =>
  if ref_in_array idx
  then Ok tt (set_page_ref_count (<[idx := v]> (page_ref_count s)) s) else Fault.

(** ** Operations *)

Definition get_page_index (pa : Z) : M pmm Z :=
  let* start := gets free_mem_start_addr in
  ret (s32 (Z.shiftr (u64 (pa - start)) PGSHIFT)).

Definition inc_page_ref (pa : Z) : M pmm unit :=
  let* idx := get_page_index pa in
  if (0 <=? idx) && (idx <? MAX_PAGES) then
    spin_lock page_ref_lock ;;;
    let* c := read_ref idx in
    write_ref idx (s32 (c + 1)) ;;;
    spin_unlock page_ref_lock
  else ret tt.

Definition dec_page_ref (pa : Z) : M pmm unit :=
  let* idx := get_page_index pa in
  if (0 <=? idx) && (idx <? MAX_PAGES) then
    spin_lock page_ref_lock ;;;
    let* c := read_ref idx in
    (if 0 <? c then write_ref idx (s32 (c - 1)) else ret tt) ;;;
    spin_unlock page_ref_lock
  else ret tt.

Definition get_page_ref (pa : Z) : M pmm Z :=
  let* idx := get_page_index pa in
  if (0 <=? idx) && (idx <? MAX_PAGES) then
    spin_lock page_ref_lock ;;;
    let* r := read_ref idx in
    spin_unlock page_ref_lock ;;;
    ret r
  else ret 0.

Definition free_page (pa : Z) : M pmm unit :=
  let* start := gets free_mem_start_addr in
  let* stop := gets free_mem_end_addr in
  if negb (pa mod PGSIZE =? 0) || (pa <? start) || (stop <=? pa) then panic
  else
    let* idx := get_page_index pa in
    let* shared :=
      if (idx <? MAX_PAGES) && (0 <=? idx) then
        spin_lock page_ref_lock ;;;
        let* c := read_ref idx in
        if 1 <? c then
          write_ref idx (s32 (c - 1)) ;;;
          spin_unlock page_ref_lock ;;;
          ret true
        else
          write_ref idx 0 ;;;
          spin_unlock page_ref_lock ;;;
          ret false
      else ret false in
    if (shared : bool) then ret tt
    else
      spin_lock free_mem_lock ;;;
      let* next := gets g_free_mem_list in
      write64 pa next ;;;
      modify (set_g_free_mem_list pa) ;;;
      spin_unlock free_mem_lock.

Definition alloc_page : M pmm Z :=
  spin_lock free_mem_lock ;;;
  let* n := gets g_free_mem_list in
  (if negb (n =? 0) then
     let* next := read64 n in
     modify (set_g_free_mem_list next) ;;;
     spin_lock page_ref_lock ;;;
     let* idx := get_page_index n in
     write_ref idx 1 ;;;
     spin_unlock page_ref_lock
   else ret tt) ;;;
  spin_unlock free_mem_lock ;;;
  ret n.

(** The index written is [get_page_ref(p)], the reference count of the page,
    where [get_page_index(p)] was meant; the array is still zero then, so entry
    0 is cleared each time and nothing is lost. *)
Definition create_freepage_list (start stop : Z) : M pmm unit :=
  spin_lock free_mem_lock ;;;
  modify (set_g_free_mem_list 0) ;;;
  spin_unlock free_mem_lock ;;;
  loop (Datatypes.S (Z.to_nat ((stop - ROUNDUP start PGSIZE) / PGSIZE))) (fun p =>
    if u64 (p + PGSIZE) <? stop then
      let* r := get_page_ref p in
      write_ref r 0 ;;;
      free_page p ;;;
      ret (inl (u64 (p + PGSIZE)))
    else ret (inr tt)) (ROUNDUP start PGSIZE).

(** [kernel_end] is the address of the linker symbol [_end]. *)
Definition pmm_init (kernel_end : Z) : M pmm unit :=
  let g_kernel_start := KERN_BASE in
  let g_kernel_end := kernel_end in
  let pke_kernel_size := u64 (g_kernel_end - g_kernel_start) in
  modify (set_free_mem_start_addr (ROUNDUP g_kernel_end PGSIZE)) ;;;
  let* sz := gets g_mem_size in
  modify (set_g_mem_size (if PKE_MAX_ALLOWABLE_RAM <? sz then PKE_MAX_ALLOWABLE_RAM else sz)) ;;;
  let* sz := gets g_mem_size in
  (if sz <? pke_kernel_size then panic else ret tt) ;;;
  modify (set_free_mem_end_addr (u64 (sz + DRAM_BASE))) ;;;
  let* start := gets free_mem_start_addr in
  let* stop := gets free_mem_end_addr in
  create_freepage_list start stop.

(** ** Invariant

    [managed s p]: a page that [create_freepage_list] hands to the allocator.
    [pmm_wf fl s]: the free list is the chain [fl] through memory, it holds
    exactly the managed pages with reference count 0, each once, and no lock is
    held. *)

Definition managed (s : pmm) (p : Z) : Prop :=
  p mod PGSIZE = 0 /\ free_mem_start_addr s <= p /\ p + PGSIZE < free_mem_end_addr s.

Definition pidx (s : pmm) (p : Z) : Z := (p - free_mem_start_addr s) / PGSIZE.
Definition page_ref (s : pmm) (p : Z) : Z := default 0 (page_ref_count s !! pidx s p).

Fixpoint free_chain (m : bytes) (head : Z) (l : list Z) : Prop :=
  match l with
  | [] => head = 0
  | p :: l => head = p /\ free_chain m (load64 m p) l
  end.

Definition unlocked (s : pmm) : Prop := g_free_mem_lock s = 0 /\ g_page_ref_lock s = 0.

Record mem_bounds (s : pmm) : Prop := {
  mb_start : free_mem_start_addr s mod PGSIZE = 0;
  mb_low : DRAM_BASE <= free_mem_start_addr s <= PHYS_TOP;
  mb_high : free_mem_end_addr s <= PHYS_TOP
}.

Record pmm_wf (fl : list Z) (s : pmm) : Prop := {
  wf_bounds : mem_bounds s;
  wf_unlocked : unlocked s;
  wf_chain : free_chain (mem s) (g_free_mem_list s) fl;
  wf_nodup : NoDup fl;
  wf_free : forall p, p ∈ fl <-> managed s p /\ page_ref s p = 0;
  wf_ref : forall p, managed s p -> 0 <= page_ref s p < 2 ^ 31
}.

(** ** Page addresses and their index *)

Section Index.
  Context (s : pmm) (Hb : mem_bounds s).

Lemma managed_range p : managed s p ->
  DRAM_BASE <= p /\ p + PGSIZE < PHYS_TOP /\ p mod PGSIZE = 0.
Proof. destruct Hb. unfold managed. lia. Qed.

Lemma managed_in_dram p : managed s p -> in_dram p 8 = true.
Proof.
  intros H%managed_range. unfold in_dram, PGSIZE in *. lia.
Qed.

Lemma page_div p : p mod PGSIZE = 0 -> exists k, p = k * PGSIZE.
Proof. intros H. exists (p / PGSIZE). unfold PGSIZE in *. dlia. Qed.

Lemma pidx_in_array p : managed s p -> ref_in_array (pidx s p) = true.
Proof.
  intros H. pose proof (managed_range p H) as (Hlo & Hhi & _).
  destruct Hb as [_ Hl Hh]. destruct H as (_ & H1 & H2).
  unfold ref_in_array, pidx, MAX_PAGES. layout. dlia.
Qed.

Lemma page_index_eq p : managed s p ->
  s32 (Z.shiftr (u64 (p - free_mem_start_addr s)) PGSHIFT) = pidx s p.
Proof.
  intros H. pose proof (pidx_in_array p H) as Hi.
  pose proof (managed_range p H) as (Hlo & Hhi & _).
  destruct Hb as [_ Hl Hh]. destruct H as (_ & H1 & H2).
  unfold PGSHIFT. rewrite Z.shiftr_div_pow2 by lia.
  change (2 ^ 12) with PGSIZE.
  rewrite u64_small by (layout; lia). fold (pidx s p).
  unfold ref_in_array, MAX_PAGES in Hi. apply s32_small. lia.
Qed.

Lemma get_page_index_managed p : managed s p -> get_page_index p s = Ok (pidx s p) s.
Proof. intros H. unfold get_page_index, bind, gets, ret. by rewrite page_index_eq. Qed.

Lemma pidx_inj p q : managed s p -> managed s q -> pidx s p = pidx s q -> p = q.
Proof.
  intros (Hp & Hp1 & _) (Hq & Hq1 & _) Heq. destruct Hb as [Hs _ _].
  apply page_div in Hp as [kp ->]. apply page_div in Hq as [kq ->].
  apply page_div in Hs as [ks Hks]. unfold pidx in Heq. rewrite Hks in Heq.
  unfold PGSIZE in *. dlia.
Qed.

End Index.

(** ** The chain of free pages *)

Lemma free_chain_frame m m' l : forall h,
  (forall p, p ∈ l -> load64 m' p = load64 m p) ->
  free_chain m h l -> free_chain m' h l.
Proof.
  induction l as [|p l IH]; intros h Hm; simpl; [done|].
  intros [-> Hc]. split; [done|]. rewrite Hm by set_solver.
  apply IH; [|done]. intros. apply Hm. set_solver.
Qed.

Lemma pages_apart p q : p mod PGSIZE = 0 -> q mod PGSIZE = 0 -> p <> q ->
  p + PGSIZE <= q \/ q + PGSIZE <= p.
Proof.
  intros Hp Hq Hne. apply page_div in Hp as [a ->]. apply page_div in Hq as [b ->].
  unfold PGSIZE in *. lia.
Qed.

(** ** What the two list operations leave behind *)

(** The state after [alloc_page] took [p]. *)
Definition page_taken (p : Z) (s : pmm) : pmm :=
  set_page_ref_count (<[pidx s p := 1]> (page_ref_count s))
    (set_g_free_mem_list (load64 (mem s) p) s).

(** The state after [free_page] put [p] back. *)
Definition page_returned (p : Z) (s : pmm) : pmm :=
  set_g_free_mem_list p
    (set_mem (store64 (mem s) p (g_free_mem_list s))
      (set_page_ref_count (<[pidx s p := 0]> (page_ref_count s)) s)).

(** The state after the count of a shared page changed to [c]. *)
Definition page_counted (p c : Z) (s : pmm) : pmm :=
  set_page_ref_count (<[pidx s p := c]> (page_ref_count s)) s.

Section Exec.
  Context (s : pmm) (Hb : mem_bounds s) (Hu : unlocked s).

Lemma alloc_page_empty : g_free_mem_list s = 0 -> alloc_page s = Ok 0 s.
Proof.
  intros Hh. destruct Hu as [Hf Hr]. destruct s; simpl in *; subst. reflexivity.
Qed.

Lemma alloc_page_run p :
  g_free_mem_list s = p -> managed s p -> alloc_page s = Ok p (page_taken p s).
Proof.
  intros Hh Hm. destruct Hu as [Hf Hr].
  pose proof (managed_in_dram s Hb p Hm) as Hin.
  pose proof (pidx_in_array s Hb p Hm) as Hidx.
  pose proof (managed_range s Hb p Hm) as (Hlo & _).
  unfold alloc_page, bind, spin_lock, gets. simpl. rewrite Hf. simpl.
  rewrite Hh. destruct (Z.eqb_spec p 0); [unfold DRAM_BASE in *; lia|]. simpl.
  unfold bind, read64. rewrite Hin. simpl. rewrite Hr. simpl.
  unfold get_page_index, bind, gets, ret. simpl. rewrite page_index_eq by done.
  unfold write_ref. rewrite Hidx. destruct s; simpl in *; subst. reflexivity.
Qed.

Lemma free_page_rejects p :
  p mod PGSIZE <> 0 \/ p < free_mem_start_addr s \/ free_mem_end_addr s <= p ->
  free_page p s = Panic.
Proof.
  intros H. unfold free_page, bind, gets.
  assert (negb (p mod PGSIZE =? 0) || (p <? free_mem_start_addr s)
    || (free_mem_end_addr s <=? p) = true) as -> by lia.
  done.
Qed.

Lemma free_page_guard p : managed s p ->
  negb (p mod PGSIZE =? 0) || (p <? free_mem_start_addr s)
    || (free_mem_end_addr s <=? p) = false.
Proof. unfold managed, PGSIZE. lia. Qed.

Lemma free_page_run p :
  managed s p -> page_ref s p <= 1 -> free_page p s = Ok tt (page_returned p s).
Proof.
  intros Hm Hc. destruct Hu as [Hf Hr].
  pose proof (managed_in_dram s Hb p Hm) as Hin.
  pose proof (pidx_in_array s Hb p Hm) as Hidx.
  unfold free_page, bind at 1 2, gets. rewrite free_page_guard by done.
  unfold bind at 1. rewrite get_page_index_managed by done.
  replace ((pidx s p <? MAX_PAGES) && (0 <=? pidx s p)) with true
    by (unfold ref_in_array in Hidx; lia).
  unfold bind, spin_lock. simpl. rewrite Hr. simpl.
  unfold read_ref. rewrite Hidx. simpl.
  fold (page_ref s p). replace (1 <? page_ref s p) with false by lia.
  unfold bind, write_ref. rewrite Hidx. simpl. rewrite Hf. simpl.
  unfold write64. rewrite Hin. destruct s; simpl in *; subst. reflexivity.
Qed.

Lemma free_page_shared p :
  managed s p -> 1 < page_ref s p < 2 ^ 31 ->
  free_page p s = Ok tt (page_counted p (page_ref s p - 1) s).
Proof.
  intros Hm Hc. destruct Hu as [Hf Hr].
  pose proof (pidx_in_array s Hb p Hm) as Hidx.
  unfold free_page, bind at 1 2, gets. rewrite free_page_guard by done.
  unfold bind at 1. rewrite get_page_index_managed by done.
  replace ((pidx s p <? MAX_PAGES) && (0 <=? pidx s p)) with true
    by (unfold ref_in_array in Hidx; lia).
  unfold bind, spin_lock. simpl. rewrite Hr. simpl.
  unfold read_ref. rewrite Hidx. simpl.
  fold (page_ref s p). replace (1 <? page_ref s p) with true by lia.
  unfold bind, write_ref. rewrite Hidx. simpl.
  rewrite s32_small by lia. destruct s; simpl in *; subst. reflexivity.
Qed.

Lemma inc_page_ref_run p :
  managed s p -> 0 <= page_ref s p < 2 ^ 31 - 1 ->
  inc_page_ref p s = Ok tt (page_counted p (page_ref s p + 1) s).
Proof.
  intros Hm Hc. destruct Hu as [Hf Hr].
  pose proof (pidx_in_array s Hb p Hm) as Hidx.
  unfold inc_page_ref, bind at 1. rewrite get_page_index_managed by done.
  fold (ref_in_array (pidx s p)). rewrite Hidx.
  unfold bind, spin_lock. simpl. rewrite Hr. simpl.
  unfold read_ref, write_ref. rewrite Hidx. simpl. fold (page_ref s p).
  rewrite s32_small by lia. destruct s; simpl in *; subst. reflexivity.
Qed.

Lemma dec_page_ref_run p :
  managed s p -> 0 < page_ref s p < 2 ^ 31 ->
  dec_page_ref p s = Ok tt (page_counted p (page_ref s p - 1) s).
Proof.
  intros Hm Hc. destruct Hu as [Hf Hr].
  pose proof (pidx_in_array s Hb p Hm) as Hidx.
  unfold dec_page_ref, bind at 1. rewrite get_page_index_managed by done.
  fold (ref_in_array (pidx s p)). rewrite Hidx.
  unfold bind, spin_lock. simpl. rewrite Hr. simpl.
  unfold read_ref, write_ref. rewrite Hidx. simpl. fold (page_ref s p).
  replace (0 <? page_ref s p) with true by lia.
  rewrite s32_small by lia. destruct s; simpl in *; subst. reflexivity.
Qed.

Lemma get_page_ref_run p :
  managed s p -> get_page_ref p s = Ok (page_ref s p) s.
Proof.
  intros Hm. destruct Hu as [Hf Hr].
  pose proof (pidx_in_array s Hb p Hm) as Hidx.
  unfold get_page_ref, bind at 1. rewrite get_page_index_managed by done.
  fold (ref_in_array (pidx s p)). rewrite Hidx.
  unfold bind, spin_lock. simpl. rewrite Hr. simpl.
  unfold read_ref. rewrite Hidx. destruct s; simpl in *; subst. reflexivity.
Qed.

End Exec.

(** ** Preservation *)

Lemma page_ref_counted s p q c :
  mem_bounds s -> managed s p -> managed s q ->
  page_ref (page_counted p c s) q = if decide (p = q) then c else page_ref s q.
Proof.
  intros Hb Hp Hq. unfold page_ref. simpl. rewrite lookup_insert.
  change (pidx (page_counted p c s)) with (pidx s).
  repeat case_decide; subst; try done. by apply pidx_inj in H.
Qed.

Lemma page_ref_taken s p q :
  mem_bounds s -> managed s p -> managed s q ->
  page_ref (page_taken p s) q = if decide (p = q) then 1 else page_ref s q.
Proof. apply (page_ref_counted s p q 1). Qed.

Lemma page_ref_returned s p q :
  mem_bounds s -> managed s p -> managed s q ->
  page_ref (page_returned p s) q = if decide (p = q) then 0 else page_ref s q.
Proof. apply (page_ref_counted s p q 0). Qed.

Section Preserve.
  Context (fl : list Z) (s : pmm) (Hwf : pmm_wf fl s).

Lemma wf_head_managed p fl' : fl = p :: fl' -> managed s p /\ page_ref s p = 0.
Proof using Hwf. intros ->. apply (wf_free _ _ Hwf). set_solver. Qed.

Lemma page_taken_wf p fl' : fl = p :: fl' -> pmm_wf fl' (page_taken p s).
Proof using Hwf.
  intros E. destruct (wf_head_managed _ _ E) as [Hm Hr0].
  destruct Hwf as [Hb Hu Hc Hnd Hf Hr]. subst fl.
  simpl in Hc. destruct Hc as [_ Hc]. apply NoDup_cons in Hnd as [Hni Hnd].
  constructor; [by destruct Hb|done|done|done| |].
  - intros q. split.
    + intros Hq. assert (q ∈ p :: fl') as [Hmq Hq0]%Hf by set_solver.
      split; [done|]. rewrite page_ref_taken by done. case_decide; [set_solver|done].
    + intros [Hmq Hq0]. change (managed s q) in Hmq.
      rewrite page_ref_taken in Hq0 by done. case_decide; [lia|].
      assert (q ∈ p :: fl') by (by apply Hf). set_solver.
  - intros q Hmq. change (managed s q) in Hmq. rewrite page_ref_taken by done.
    case_decide; [lia|]. by apply Hr.
Qed.

Lemma page_returned_wf p :
  managed s p -> 0 < page_ref s p -> pmm_wf (p :: fl) (page_returned p s).
Proof using Hwf.
  intros Hm Hpos. destruct Hwf as [Hb Hu Hc Hnd Hf Hr].
  assert (p ∉ fl) as Hni by (intros [_ ?]%Hf; lia).
  constructor; [by destruct Hb|done| | | |].
  - simpl. split; [done|]. rewrite load64_store64_eq.
    assert (u64 (g_free_mem_list s) = g_free_mem_list s) as ->.
    { destruct fl as [|q fl']; simpl in Hc; [by rewrite Hc|].
      destruct Hc as [-> _]. assert (managed s q) as Hq by (apply Hf; set_solver).
      apply managed_range in Hq as (?&?&_); [|done]. apply u64_small. layout. lia. }
    eapply free_chain_frame; [|done]. intros q Hq.
    assert (managed s q) as Hmq by (by apply Hf).
    destruct (pages_apart p q) as [?|?];
      [apply Hm|apply Hmq|set_solver| |]; apply load64_store64_ne; layout; lia.
  - by apply NoDup_cons.
  - intros q. change (managed (page_returned p s) q) with (managed s q).
    rewrite elem_of_cons, Hf. split.
    + intros [->|[Hmq Hq0]].
      * split; [done|]. rewrite page_ref_returned by done. by case_decide.
      * split; [done|]. rewrite page_ref_returned by done. by case_decide.
    + intros [Hmq Hq0]. rewrite page_ref_returned in Hq0 by done.
      case_decide; [by left|by right].
  - intros q Hmq. change (managed s q) in Hmq. rewrite page_ref_returned by done.
    case_decide; [lia|]. by apply Hr.
Qed.

Lemma page_counted_wf p c :
  managed s p -> 0 < page_ref s p -> 0 < c < 2 ^ 31 -> pmm_wf fl (page_counted p c s).
Proof using Hwf.
  intros Hm Hpos Hcr. destruct Hwf as [Hb Hu Hc Hnd Hf Hr].
  constructor; [by destruct Hb|done|done|done| |].
  - intros q. change (managed (page_counted p c s) q) with (managed s q).
    rewrite Hf. split; intros [Hmq Hq0]; (split; [done|]).
    + rewrite page_ref_counted by done. case_decide; subst; [lia|done].
    + rewrite page_ref_counted in Hq0 by done. case_decide; subst; [lia|done].
  - intros q Hmq. change (managed s q) in Hmq. rewrite page_ref_counted by done.
    case_decide; [lia|]. by apply Hr.
Qed.

(** A write that stays inside allocated pages keeps the invariant. *)
Lemma pmm_wf_frame m :
  (forall q, q ∈ fl -> load64 m q = load64 (mem s) q) -> pmm_wf fl (set_mem m s).
Proof using Hwf.
  intros Hm. destruct Hwf as [Hb Hu Hc Hnd Hf Hr].
  constructor; [by destruct Hb|done| |done|done|done].
  simpl. eapply free_chain_frame; done.
Qed.

End Preserve.

(** ** Building the list *)

Fixpoint page_stack (p : Z) (n : nat) : list Z :=
  match n with
  | O => []
  | Datatypes.S n => (p + Z.of_nat n * PGSIZE) :: page_stack p n
  end.

Lemma page_stack_length p n : length (page_stack p n) = n.
Proof. induction n as [|n IH]; simpl; [done|]. by rewrite IH. Qed.

Lemma elem_of_page_stack p n q :
  q ∈ page_stack p n <-> exists k, 0 <= k < Z.of_nat n /\ q = p + k * PGSIZE.
Proof.
  induction n as [|n IH]; simpl.
  { split; [set_solver|]. intros (k & ? & _). lia. }
  rewrite elem_of_cons, IH. split.
  - intros [->|(k & ? & ->)]; eexists; split; eauto; lia.
  - intros (k & ? & ->). destruct (decide (k = Z.of_nat n)) as [->|]; [by left|].
    right. exists k. split; [lia|done].
Qed.

Lemma page_stack_nodup p n : NoDup (page_stack p n).
Proof.
  induction n as [|n IH]; simpl; [constructor|]. apply NoDup_cons. split; [|done].
  rewrite elem_of_page_stack. intros (k & ? & ?). layout. lia.
Qed.

(** The number of pages [p] with [start <= p] and [p + PGSIZE < stop]. *)
Definition page_count (start stop : Z) : nat := Z.to_nat ((stop - start - 1) / PGSIZE).

Lemma managed_page_stack s q : mem_bounds s ->
  managed s q <-> q ∈ page_stack (free_mem_start_addr s)
    (page_count (free_mem_start_addr s) (free_mem_end_addr s)).
Proof.
  intros [Hs Hl Hh]. rewrite elem_of_page_stack. unfold managed, page_count. split.
  - intros (Hq & H1 & H2). exists ((q - free_mem_start_addr s) / PGSIZE).
    layout. split; dlia.
  - intros (k & Hk & ->). layout. repeat split; dlia.
Qed.

(** A freshly zeroed reference-count array. *)
Definition refs_zero (s : pmm) : Prop :=
  forall i, default 0 (page_ref_count s !! i) = 0.

(** What the loop of [create_freepage_list] maintains after [k] pages. *)
Record building (start stop : Z) (k : nat) (s : pmm) : Prop := {
  bd_bounds : mem_bounds s;
  bd_start : free_mem_start_addr s = start;
  bd_stop : free_mem_end_addr s = stop;
  bd_unlocked : unlocked s;
  bd_refs : refs_zero s;
  bd_chain : free_chain (mem s) (g_free_mem_list s) (page_stack start k);
  bd_count : (k <= page_count start stop)%nat
}.

Lemma building_done start stop s :
  building start stop (page_count start stop) s ->
  pmm_wf (page_stack start (page_count start stop)) s.
Proof.
  intros [Hb <- <- Hu Hr Hc _].
  constructor; [done|done|done|apply page_stack_nodup| |].
  - intros p. rewrite <-managed_page_stack by done. unfold page_ref. rewrite Hr.
    naive_solver.
  - intros p _. unfold page_ref. rewrite Hr. lia.
Qed.

Lemma building_step start stop k s :
  building start stop k s -> (k < page_count start stop)%nat ->
  wp (let* r := get_page_ref (start + Z.of_nat k * PGSIZE) in
      write_ref r 0 ;;; free_page (start + Z.of_nat k * PGSIZE))
     (fun _ s' => building start stop (S k) s') s.
Proof.
  intros [Hb <- <- Hu Hr Hc Hle] Hlt.
  set (start := free_mem_start_addr s) in *. set (p := start + Z.of_nat k * PGSIZE).
  assert (managed s p) as Hm.
  { apply managed_page_stack; [done|]. apply elem_of_page_stack.
    exists (Z.of_nat k). fold start. split; [lia|done]. }
  apply wp_bind. eapply wp_of_Ok; [by apply get_page_ref_run|].
  unfold page_ref at 1. rewrite Hr. apply wp_bind. eapply wp_of_Ok.
  { unfold write_ref. change (ref_in_array 0) with true. reflexivity. }
  set (s1 := set_page_ref_count (<[0:=0]> (page_ref_count s)) s).
  assert (refs_zero s1) as Hr1.
  { intros i. simpl. rewrite lookup_insert. case_decide; [done|apply Hr]. }
  assert (mem_bounds s1) as Hb1 by (by destruct Hb).
  eapply wp_of_Ok.
  { apply free_page_run; [done|done|done|]. unfold page_ref. rewrite Hr1. lia. }
  constructor; [by destruct Hb|done|done|done| | |lia].
  - intros i. simpl. rewrite lookup_insert. case_decide; [done|apply Hr1].
  - simpl. split; [done|]. rewrite load64_store64_eq.
    assert (forall q, q ∈ page_stack start k -> managed s q) as Hin.
    { intros q (j & Hj & ->)%elem_of_page_stack. apply managed_page_stack; [done|].
      apply elem_of_page_stack. exists j. fold start. split; [lia|done]. }
    assert (u64 (g_free_mem_list s) = g_free_mem_list s) as ->.
    { destruct (page_stack start k) as [|q l]; simpl in Hc; [by rewrite Hc|].
      destruct Hc as [-> _]. assert (managed s q) as Hq by (apply Hin; set_solver).
      apply managed_range in Hq as (?&?&_); [|done]. apply u64_small. layout. lia. }
    eapply free_chain_frame; [|done]. intros q Hq. apply load64_store64_ne.
    apply elem_of_page_stack in Hq as (j & Hj & ->). subst p. layout. lia.
Qed.

Lemma create_freepage_list_spec start stop s :
  mem_bounds s -> free_mem_start_addr s = start -> free_mem_end_addr s = stop ->
  unlocked s -> refs_zero s ->
  wp (create_freepage_list start stop)
     (fun _ s' => pmm_wf (page_stack start (page_count start stop)) s' /\
        free_mem_start_addr s' = start /\ free_mem_end_addr s' = stop) s.
Proof.
  intros Hb Hs He Hu Hr. destruct Hb as [Hb1 Hb2 Hb3] eqn:EHb.
  assert (DRAM_BASE <= start <= PHYS_TOP) by lia. assert (stop <= PHYS_TOP) by lia.
  assert (ROUNDUP start PGSIZE = start) as Hru.
  { apply ROUNDUP_aligned; [| |congruence]; layout; lia. }
  unfold create_freepage_list. rewrite Hru.
  apply wp_bind, wp_spin_lock; [apply Hu|].
  apply wp_bind, wp_modify, wp_bind, wp_modify.
  eapply (wp_loop (fun n p s => exists k, building start stop k s /\
    p = start + Z.of_nat k * PGSIZE /\ (n + k = page_count start stop)%nat)).
  - clear s Hb Hs He Hu Hr Hb1 Hb2 Hb3 EHb. intros n p s (k & Hbd & -> & Hn).
    assert (u64 (start + Z.of_nat k * PGSIZE + PGSIZE) = start + (Z.of_nat k + 1) * PGSIZE) as ->.
    { unfold page_count in Hn. layout. rewrite u64_small; dlia. }
    destruct (start + (Z.of_nat k + 1) * PGSIZE <? stop) eqn:E.
    + assert (k < page_count start stop)%nat as Hk.
      { unfold page_count. layout. dlia. }
      pose proof (building_step _ _ _ _ Hbd Hk) as Hstep.
      apply wp_bind_inv in Hstep. apply wp_bind.
      eapply wp_conseq; [exact Hstep|]. intros r s1 H1. apply wp_bind_inv in H1.
      apply wp_bind. eapply wp_conseq; [exact H1|]. intros [] s2 H2. apply wp_bind.
      eapply wp_conseq; [exact H2|]. intros [] s3 H3. apply wp_ret. simpl.
      exists (n - 1)%nat. split; [lia|]. exists (Datatypes.S k).
      split; [done|]. split; [lia|lia].
    + apply wp_ret. assert (k = page_count start stop) as ->.
      { destruct Hbd as [_ _ _ _ _ _ Hle]. unfold page_count in *. layout. dlia. }
      split; [by apply building_done|]. by destruct Hbd.
  - exists O. split; [|split].
    + constructor; [by constructor|done|done| |done|done|lia]. by destruct Hu.
    + lia.
    + rewrite Nat.add_0_r. reflexivity.
  - unfold page_count. layout. dlia.
Qed.

(** [pmm_init] on a machine whose kernel image fits in memory puts every
    whole page between the end of the kernel and the end of RAM, except the very
    last one, on the free list exactly once, with reference count 0 and the
    locks released. *)
Lemma pmm_init_builds_free_list (kernel_end : Z) (s : pmm) :
  KERN_BASE < kernel_end ->
  kernel_end - KERN_BASE <= Z.min PKE_MAX_ALLOWABLE_RAM (g_mem_size s) ->
  unlocked s -> refs_zero s ->
  wp (pmm_init kernel_end) (fun _ s' =>
    pmm_wf (page_stack (ROUNDUP kernel_end PGSIZE)
             (page_count (ROUNDUP kernel_end PGSIZE)
                (DRAM_BASE + Z.min PKE_MAX_ALLOWABLE_RAM (g_mem_size s)))) s' /\
    free_mem_start_addr s' = ROUNDUP kernel_end PGSIZE /\
    free_mem_end_addr s' = DRAM_BASE + Z.min PKE_MAX_ALLOWABLE_RAM (g_mem_size s)) s.
Proof.
  intros H1 H2 Hu Hr. unfold pmm_init.
  assert (u64 (kernel_end - KERN_BASE) = kernel_end - KERN_BASE) as ->.
  { apply u64_small. layout. lia. }
  assert ((if PKE_MAX_ALLOWABLE_RAM <? g_mem_size s then PKE_MAX_ALLOWABLE_RAM
           else g_mem_size s) = Z.min PKE_MAX_ALLOWABLE_RAM (g_mem_size s)) as Hmin
    by (destruct (Z.ltb_spec PKE_MAX_ALLOWABLE_RAM (g_mem_size s)); lia).
  wp_run. simpl. rewrite Hmin.
  destruct (Z.ltb_spec (Z.min PKE_MAX_ALLOWABLE_RAM (g_mem_size s))
    (kernel_end - KERN_BASE)); [lia|]. wp_run. simpl.
  assert (u64 (Z.min PKE_MAX_ALLOWABLE_RAM (g_mem_size s) + DRAM_BASE) =
    DRAM_BASE + Z.min PKE_MAX_ALLOWABLE_RAM (g_mem_size s)) as ->.
  { rewrite u64_small; layout; lia. }
  assert (ROUNDUP kernel_end PGSIZE = (kernel_end - 1) / PGSIZE * PGSIZE + PGSIZE) as Hru.
  { apply ROUNDUP_eq; layout; lia. }
  apply create_freepage_list_spec; [|done|done|done|done].
  constructor; simpl; rewrite ?Hru; layout; dlia.
Qed.

(** [alloc_page] on a well-formed allocator takes the first free page: it
    was free, it is now counted once, every other page keeps its count, and the
    memory is untouched; with no free page it returns NULL and changes nothing. *)
Theorem alloc_page_correct (fl : list Z) (s : pmm) :
  pmm_wf fl s ->
  match fl with
  | [] => alloc_page s = Ok 0 s
  | p :: fl' => exists s',
      alloc_page s = Ok p s' /\ pmm_wf fl' s' /\ mem s' = mem s /\
      managed s p /\ page_ref s p = 0 /\ page_ref s' p = 1 /\
      (forall q, managed s q -> q <> p -> page_ref s' q = page_ref s q)
  end.
Proof.
  intros Hwf. pose proof (wf_bounds _ _ Hwf) as Hb.
  pose proof (wf_unlocked _ _ Hwf) as Hu. pose proof (wf_chain _ _ Hwf) as Hc.
  destruct fl as [|p fl']; simpl in Hc; [by apply alloc_page_empty|].
  destruct (wf_head_managed _ _ Hwf p fl' eq_refl) as [Hm Hr0].
  exists (page_taken p s).
  split_and!; [| |done|done|done| |].
  - apply alloc_page_run; [done|done|apply Hc|done].
  - by eapply page_taken_wf.
  - rewrite page_ref_taken by done. by case_decide.
  - intros q Hq Hne. rewrite page_ref_taken by done. by case_decide.
Qed.

(** Two free pages at the bottom of DRAM. *)
Definition two_pages : pmm :=
  Pmm (store64 ∅ 0x80001000 0x80000000) ∅ 0x80000000 0x80003000 0x80001000 0 0 0x3000.

Lemma two_pages_wf : pmm_wf [0x80001000; 0x80000000] two_pages.
Proof.
  assert (mem_bounds two_pages) as Hb by (by constructor).
  constructor; [done|done|vm_compute; repeat split| | |].
  - repeat constructor; set_solver.
  - intros p. rewrite (managed_page_stack two_pages p Hb). unfold page_ref. simpl.
    change (page_stack 2147483648 (page_count 2147483648 2147495936))
      with [0x80001000; 0x80000000]. rewrite lookup_empty. naive_solver.
  - intros p _. unfold page_ref. simpl. rewrite lookup_empty. simpl. lia.
Qed.

Lemma alloc_page_correct_witness : exists s',
  alloc_page two_pages = Ok 0x80001000 s' /\ page_ref s' 0x80001000 = 1.
Proof.
  destruct (alloc_page_correct _ _ two_pages_wf) as (s' & H & _ & _ & _ & _ & H1 & _).
  exists s'. split; assumption.
Defined.

(** [free_page] on every branch: a misaligned or foreign address panics; a
    shared page loses one reference and stays allocated; the last reference puts
    the page at the head of the free list with count 0.  No other count changes. *)
Theorem free_page_correct (fl : list Z) (s : pmm) (p : Z) :
  pmm_wf fl s ->
  (p mod PGSIZE <> 0 \/ p < free_mem_start_addr s \/ free_mem_end_addr s <= p ->
     free_page p s = Panic) /\
  (managed s p -> 1 < page_ref s p -> exists s',
     free_page p s = Ok tt s' /\ pmm_wf fl s' /\ mem s' = mem s /\
     page_ref s' p = page_ref s p - 1 /\
     (forall q, managed s q -> q <> p -> page_ref s' q = page_ref s q)) /\
  (managed s p -> page_ref s p = 1 -> exists s',
     free_page p s = Ok tt s' /\ pmm_wf (p :: fl) s' /\ page_ref s' p = 0 /\
     (forall q, managed s q -> q <> p -> page_ref s' q = page_ref s q)).
Proof.
  intros Hwf. pose proof (wf_bounds _ _ Hwf) as Hb.
  pose proof (wf_unlocked _ _ Hwf) as Hu. split_and!.
  - intros H. by apply free_page_rejects.
  - intros Hm Hr. pose proof (wf_ref _ _ Hwf _ Hm).
    exists (page_counted p (page_ref s p - 1) s). split_and!.
    + apply free_page_shared; [done|done|done|lia].
    + apply page_counted_wf; [done|done|lia|lia].
    + done.
    + rewrite page_ref_counted by done. by case_decide.
    + intros q Hq Hne. rewrite page_ref_counted by done. by case_decide.
  - intros Hm Hr. exists (page_returned p s). split_and!.
    + apply free_page_run; [done|done|done|lia].
    + apply page_returned_wf; [done|done|lia].
    + rewrite page_ref_returned by done. by case_decide.
    + intros q Hq Hne. rewrite page_ref_returned by done. by case_decide.
Qed.

Lemma free_page_correct_witness :
  free_page 0x80000004 two_pages = Panic.
Proof.
  apply (free_page_correct _ _ 0x80000004 two_pages_wf). left. discriminate.
Defined.

(** A machine with [n] free pages at the bottom of DRAM. *)
Fixpoint link_pages (l : list Z) : bytes :=
  match l with
  | [] => ∅
  | p :: l => store64 (link_pages l) p (hd 0 l)
  end.

Definition free_pages (n : nat) : pmm :=
  let l := page_stack DRAM_BASE n in
  Pmm (link_pages l) ∅ DRAM_BASE (DRAM_BASE + Z.of_nat (Datatypes.S n) * PGSIZE) (hd 0 l) 0 0
    PKE_MAX_ALLOWABLE_RAM.

Lemma link_pages_chain l : NoDup l ->
  (forall p, p ∈ l -> p mod PGSIZE = 0 /\ 0 <= p < 2 ^ 64) ->
  free_chain (link_pages l) (hd 0 l) l.
Proof.
  induction l as [|p l IH]; intros Hnd Hp; simpl; [done|]. split; [done|].
  apply NoDup_cons in Hnd as [Hni Hnd]. destruct (Hp p) as [Hpm _]; [set_solver|].
  rewrite load64_store64_eq, u64_small.
  - eapply free_chain_frame; [|apply IH; [done|set_solver]]. intros q Hq.
    destruct (Hp q) as [Hqm _]; [set_solver|].
    apply load64_store64_ne. destruct (pages_apart p q); [done|done|set_solver|..];
      unfold PGSIZE in *; lia.
  - destruct l as [|q l]; simpl; [lia|]. apply Hp. set_solver.
Qed.

Lemma free_pages_wf n : Z.of_nat n < 32768 ->
  pmm_wf (page_stack DRAM_BASE n) (free_pages n).
Proof.
  intros Hn. assert (mem_bounds (free_pages n)) as Hb.
  { constructor; simpl; [done|layout; lia|layout; lia]. }
  assert (page_count DRAM_BASE (DRAM_BASE + Z.of_nat (Datatypes.S n) * PGSIZE) = n) as Hc.
  { unfold page_count. layout. dlia. }
  constructor; [done|done| |apply page_stack_nodup| |].
  - apply link_pages_chain; [apply page_stack_nodup|].
    intros p (k & Hk & ->)%elem_of_page_stack. layout. split; [dlia|lia].
  - intros p. rewrite (managed_page_stack _ p Hb). cbn [free_pages free_mem_start_addr free_mem_end_addr].
    rewrite Hc. unfold page_ref. simpl. rewrite lookup_empty. naive_solver.
  - intros p _. unfold page_ref. simpl. rewrite lookup_empty. simpl. lia.
Qed.

(** ** Refinement

    What the allocator promises: a pool of pages, each with a reference count;
    allocation finds a page with count 0 and makes it 1, the other operations
    move one count by one.  Where the free pages are and in which order they are
    handed out is the implementation's business. *)

Module Pool.

Abbreviation pool := (gmap Z Z).

Inductive op : Type := Alloc | Free (p : Z) | Inc (p : Z) | Dec (p : Z).

(** What a caller must hold to issue the operation. *)
Definition may (P : pool) (o : op) : Prop :=
  match o with
  | Alloc => True
  | Free p => exists c, P !! p = Some c /\ 1 <= c
  | Inc p => exists c, P !! p = Some c /\ 1 <= c < 2 ^ 31 - 1
  | Dec p => exists c, P !! p = Some c /\ 2 <= c
  end.

Inductive step (P : pool) : op -> Z -> pool -> Prop :=
| step_alloc p : P !! p = Some 0 -> p <> 0 -> step P Alloc p (<[p := 1]> P)
| step_full : (forall p, P !! p <> Some 0) -> step P Alloc 0 P
| step_free p c : P !! p = Some c -> step P (Free p) 0 (<[p := c - 1]> P)
| step_inc p c : P !! p = Some c -> step P (Inc p) 0 (<[p := c + 1]> P)
| step_dec p c : P !! p = Some c -> step P (Dec p) 0 (<[p := c - 1]> P).

Definition run (o : op) : M pmm Z :=
  match o with
  | Alloc => alloc_page
  | Free p => free_page p ;;; ret 0
  | Inc p => inc_page_ref p ;;; ret 0
  | Dec p => dec_page_ref p ;;; ret 0
  end.

Definition rep (P : pool) (s : pmm) : Prop :=
  (exists fl, pmm_wf fl s) /\
  forall p c, P !! p = Some c <-> managed s p /\ page_ref s p = c.

Lemma rep_update P s s' p c :
  rep P s -> managed s p -> (exists fl, pmm_wf fl s') ->
  (forall q, managed s' q <-> managed s q) ->
  (forall q, managed s q -> page_ref s' q = if decide (p = q) then c else page_ref s q) ->
  rep (<[p := c]> P) s'.
Proof.
  intros [_ HP] Hp Hwf Hm Hr. split; [done|]. intros q d. rewrite Hm.
  rewrite lookup_insert. case_decide as Heq.
  - subst. split.
    + intros [= ->]. split; [done|]. rewrite Hr by done. by case_decide.
    + intros [_ Hd]. rewrite Hr in Hd by done. case_decide; [by f_equal|done].
  - rewrite HP. split; intros [Hq Hd]; (split; [done|]).
    + rewrite Hr by done. by case_decide.
    + rewrite Hr in Hd by done. by case_decide.
Qed.

(** One operation of the implementation is one step of the pool. *)
Lemma run_refines P s o :
  rep P s -> may P o ->
  wp (run o) (fun r s' => exists P', step P o r P' /\ rep P' s') s.
Proof.
  intros HR Hmay. destruct HR as [[fl Hwf] HP] eqn:EHR.
  pose proof (wf_bounds _ _ Hwf) as Hb. pose proof (wf_unlocked _ _ Hwf) as Hu.
  destruct o as [|p|p|p]; simpl in *.
  - pose proof (wf_chain _ _ Hwf) as Hc. destruct fl as [|p fl']; simpl in Hc.
    + eapply wp_of_Ok; [by apply alloc_page_empty|]. exists P. split; [|done].
      apply step_full. intros p Hp%HP. apply (wf_free _ _ Hwf) in Hp. set_solver.
    + destruct (wf_head_managed _ _ Hwf p fl' eq_refl) as [Hm Hr0].
      eapply wp_of_Ok; [apply alloc_page_run; [done|done|apply Hc|done]|].
      exists (<[p := 1]> P). split.
      * apply step_alloc; [by apply HP|]. apply managed_range in Hm as (?&_); [|done].
        layout. lia.
      * eapply rep_update; [done|done| |done|].
        { exists fl'. by eapply page_taken_wf. }
        intros q Hq. by apply page_ref_taken.
  - destruct Hmay as (c & [Hm Hc]%HP & Hpos). pose proof (wf_ref _ _ Hwf _ Hm).
    apply wp_bind. destruct (decide (c = 1)) as [->|Hne].
    + eapply wp_of_Ok; [apply free_page_run; [done|done|done|lia]|]. apply wp_ret.
      exists (<[p := 1 - 1]> P). split; [apply step_free; by apply HP|].
      eapply rep_update; [done|done| |done|].
      { exists (p :: fl). apply page_returned_wf; [done|done|lia]. }
      intros q Hq. by apply page_ref_returned.
    + eapply wp_of_Ok; [apply free_page_shared; [done|done|done|lia]|]. apply wp_ret.
      exists (<[p := c - 1]> P). split; [apply step_free; by apply HP|].
      eapply rep_update; [done|done| |done|].
      { exists fl. apply page_counted_wf; [done|done|lia|lia]. }
      intros q Hq. rewrite Hc. by apply page_ref_counted.
  - destruct Hmay as (c & [Hm Hc]%HP & Hpos). pose proof (wf_ref _ _ Hwf _ Hm).
    apply wp_bind. eapply wp_of_Ok; [apply inc_page_ref_run; [done|done|done|lia]|].
    apply wp_ret. exists (<[p := c + 1]> P). split; [apply step_inc; by apply HP|].
    eapply rep_update; [done|done| |done|].
    { exists fl. apply page_counted_wf; [done|done|lia|lia]. }
    intros q Hq. rewrite Hc. by apply page_ref_counted.
  - destruct Hmay as (c & [Hm Hc]%HP & Hpos). pose proof (wf_ref _ _ Hwf _ Hm).
    apply wp_bind. eapply wp_of_Ok; [apply dec_page_ref_run; [done|done|done|lia]|].
    apply wp_ret. exists (<[p := c - 1]> P). split; [apply step_dec; by apply HP|].
    eapply rep_update; [done|done| |done|].
    { exists fl. apply page_counted_wf; [done|done|lia|lia]. }
    intros q Hq. rewrite Hc. by apply page_ref_counted.
Qed.

(** Sequences of operations, each allowed when it is issued. *)
Fixpoint run_all (os : list op) : M pmm (list Z) :=
  match os with
  | [] => ret []
  | o :: os => let* r := run o in let* rs := run_all os in ret (r :: rs)
  end.

Inductive steps : pool -> list op -> list Z -> pool -> Prop :=
| steps_nil P : steps P [] [] P
| steps_cons P o r P1 os rs P2 :
    step P o r P1 -> steps P1 os rs P2 -> steps P (o :: os) (r :: rs) P2.

(** The caller's side of the contract along a sequence. *)
Fixpoint may_all (P : pool) (os : list op) : Prop :=
  match os with
  | [] => True
  | o :: os => may P o /\ forall r P', step P o r P' -> may_all P' os
  end.

(** C1:  The allocator refines the page pool: any sequence of allocations,
    frees and reference changes that respects the pool's contract runs to the
    end without a panic, a fault or a deadlock, and its results are those of a
    run of the pool; in particular a page is only handed out when its count
    is 0. *)
Theorem allocator_refines_pool (os : list op) (P : pool) (s : pmm) :
  rep P s -> may_all P os ->
  wp (run_all os) (fun rs s' => exists P', steps P os rs P' /\ rep P' s') s.
Proof.
  revert P s. induction os as [|o os IH]; intros P s HR Hmay; simpl.
  { apply wp_ret. exists P. split; [constructor|done]. }
  destruct Hmay as [Ho Hos]. apply wp_bind.
  eapply wp_conseq; [by apply run_refines|]. intros r s1 (P1 & Hst & HR1).
  apply wp_bind. eapply wp_conseq; [apply (IH P1); eauto|].
  intros rs s2 (P2 & Hsts & HR2). apply wp_ret. exists P2.
  split; [by econstructor|done].
Qed.

Definition two_pool : pool := {[0x80000000 := 0; 0x80001000 := 0]}.

Lemma two_pool_rep : rep two_pool two_pages.
Proof.
  assert (mem_bounds two_pages) as Hb by (by constructor).
  split; [eexists; apply two_pages_wf|]. intros p c.
  rewrite (managed_page_stack two_pages p Hb).
  change (page_stack _ _) with [0x80001000; 0x80000000].
  unfold page_ref. change (page_ref_count two_pages) with (∅ : gmap Z Z).
  rewrite lookup_empty. simpl. unfold two_pool. split.
  - intros [[<- <-]|[_ [<- <-]%lookup_singleton_Some]]%lookup_insert_Some; set_solver.
  - intros [Hp <-]. apply list_elem_of_In in Hp.
    destruct Hp as [<-|[<-|[]]]; reflexivity.
Qed.

Lemma allocator_refines_pool_witness :
  wp (run_all [Alloc; Alloc; Alloc])
    (fun rs s' => exists P', steps two_pool [Alloc; Alloc; Alloc] rs P' /\ rep P' s') two_pages.
Proof.
  apply (allocator_refines_pool [Alloc; Alloc; Alloc] two_pool two_pages two_pool_rep).
  simpl. tauto.
Defined.

End Pool.
