(* ===== verification/StringLib.v ===== *)
(** * Freestanding string and memory routines (util/string.c)

    Pointers are addresses, [char]s are bytes of memory.  The loops over a
    C string have no bound of their own, so they take the number of rounds they
    may run; the theorems say which number is enough. *)

From S2P Require Import Prelude Mem.
From stdpp Require Import base gmap list fin_maps.
From Stdlib Require Import ZArith Lia Bool.

Set Default Goal Selector "!".
Open Scope Z_scope.

Definition get8 (a : Z) : M bytes Z := gets (fun m => load8 m a).
Definition put8 (a v : Z) : M bytes unit := modify (fun m => store8 m a v).

(** ** Block operations *)

(** The word loop runs when both pointers are 8-byte aligned, the byte loop
    finishes.  At most [len] rounds of each. *)
Definition memcpy (dest src len : Z) : M bytes Z :=
  let fuel := Datatypes.S (Z.to_nat len) in
  let* ds :=
    if Z.land (Z.lor dest src) (8 - 1) =? 0 then
      loop fuel (fun '(d, s) =>
        if d <? u64 (dest + len - (8 - 1)) then
          modify (fun m => store64 m d (load64 m s)) ;;;
          ret (inl (d + 8, s + 8))
        else ret (inr (d, s))) (dest, src)
    else ret (dest, src) in
  loop fuel (fun '(d, s) =>
    if d <? u64 (dest + len) then
      let* c := get8 s in
      put8 d c ;;;
      ret (inl (d + 1, s + 1))
    else ret (inr dest)) ds.

Definition memset (dest byte len : Z) : M bytes Z :=
  let fuel := Datatypes.S (Z.to_nat len) in
  if Z.land (Z.lor dest len) (8 - 1) =? 0 then
    let word := Z.land byte 0xFF in
    let word := Z.lor word (u64 (Z.shiftl word 8)) in
    let word := Z.lor word (u64 (Z.shiftl word 16)) in
    let word := Z.lor word (u64 (Z.shiftl (u64 (Z.shiftl word 16)) 16)) in
    loop fuel (fun d =>
      if d <? u64 (dest + len) then
        modify (fun m => store64 m d word) ;;;
        ret (inl (d + 8))
      else ret (inr dest)) dest
  else
    loop fuel (fun d =>
      if d <? u64 (dest + len) then
        put8 d byte ;;;
        ret (inl (d + 1))
      else ret (inr dest)) dest.

Definition memmove (dst src n : Z) : M bytes Z :=
  let fuel := Datatypes.S (Z.to_nat n) in
  if (src <? dst) && (dst <? u64 (src + n)) then
    loop fuel (fun '(d, s, n) =>
      if 0 <? n then
        let* c := get8 (s - 1) in
        put8 (d - 1) c ;;;
        ret (inl (d - 1, s - 1, n - 1))
      else ret (inr dst)) (dst + n, src + n, n)
  else
    loop fuel (fun '(d, s, n) =>
      if 0 <? n then
        let* c := get8 s in
        put8 d c ;;;
        ret (inl (d + 1, s + 1, n - 1))
      else ret (inr dst)) (dst, src, n).

(** ** C strings *)

Definition strlen (fuel : nat) (s : Z) : M bytes Z :=
  loop fuel (fun p =>
    let* c := get8 p in
    if c =? 0 then ret (inr (p - s)) else ret (inl (p + 1))) s.

Definition strcmp (fuel : nat) (s1 s2 : Z) : M bytes Z :=
  loop fuel (fun '(s1, s2) =>
    let* c1 := get8 s1 in
    let* c2 := get8 s2 in
    if negb (c1 =? 0) && (c1 =? c2) then ret (inl (s1 + 1, s2 + 1))
    else ret (inr (c1 - c2))) (s1, s2).

Definition strcpy (fuel : nat) (dest src : Z) : M bytes Z :=
  loop fuel (fun '(d, s) =>
    let* c := get8 s in
    put8 d c ;;;
    if c =? 0 then ret (inr dest) else ret (inl (d + 1, s + 1))) (dest, src).

(** 0 is the NULL the C function returns when [ch] does not occur. *)
Definition strchr (fuel : nat) (p ch : Z) : M bytes Z :=
  let c := u8 ch in
  loop fuel (fun p =>
    let* x := get8 p in
    if x =? c then ret (inr p)
    else if x =? 0 then ret (inr 0)
    else ret (inl (p + 1))) p.

Definition strcat (fuel : nat) (dst src : Z) : M bytes Z :=
  let* n := strlen fuel dst in
  strcpy fuel (dst + n) src ;;;
  ret dst.

Definition atol (fuel : nat) (str : Z) : M bytes Z :=
  let* str := loop fuel (fun p =>
    let* c := get8 p in
    if c =? 32 then ret (inl (p + 1)) else ret (inr p)) str in
  let* c := get8 str in
  let '(sign, str) :=
    if (c =? 45) || (c =? 43) then (c =? 45, str + 1) else (false, str) in
  let* res := loop fuel (fun '(res, p) =>
    let* c := get8 p in
    if c =? 0 then ret (inr res)
    else
      let res := s64 (res * 10) in
      let res := s64 (res + (c - 48)) in
      ret (inl (res, p + 1))) (0, str) in
  ret (if (sign : bool) then s64 (- res) else res).

(** The [while] of the C code: pre-decrement of [n], then the copy of one byte
    and its test; the byte after the last one copied is set to 0. *)
Definition safestrcpy (s t n : Z) : M bytes Z :=
  let os := s in
  if n <=? 0 then ret os
  else
    let* s := loop (Datatypes.S (Z.to_nat n)) (fun '(s, t, n) =>
      let n := n - 1 in
      if 0 <? n then
        let* c := get8 t in
        put8 s c ;;;
        if c =? 0 then ret (inr (s + 1)) else ret (inl (s + 1, t + 1, n))
      else ret (inr s)) (s, t, n) in
    put8 s 0 ;;;
    ret os.

Definition startwith (fuel : nat) (str prefix : Z) : M bytes Z :=
  loop fuel (fun '(str, prefix) =>
    let* p := get8 prefix in
    if p =? 0 then ret (inr 1)
    else
      let* c := get8 str in
      if negb (p =? c) then ret (inr 0) else ret (inl (str + 1, prefix + 1)))
    (str, prefix).

(** ** Tokenizer

    [tok_current] is the static pointer that survives between calls. *)

Record tok_state : Type := TokState { tk_mem : bytes; tok_current : Z }.

Definition tk : lens tok_state bytes :=
  Lens tk_mem (fun m s => TokState m (tok_current s)).
Definition set_tok_current (p : Z) (s : tok_state) : tok_state := TokState (tk_mem s) p.

Definition strtok (fuel : nat) (str delim : Z) : M tok_state Z :=
  (if negb (str =? 0) then modify (set_tok_current str) else ret tt) ;;;
  let* cur := gets tok_current in
  if cur =? 0 then ret 0
  else
    let* start := loop fuel (fun p =>
      let* c := zoom tk (get8 p) in
      if c =? 0 then ret (inr p)
      else
        let* r := zoom tk (strchr fuel delim c) in
        if negb (r =? 0) then ret (inl (p + 1)) else ret (inr p)) cur in
    let* c := zoom tk (get8 start) in
    if c =? 0 then modify (set_tok_current 0) ;;; gets tok_current
    else
      let* stop := loop fuel (fun p =>
        let* c := zoom tk (get8 p) in
        if c =? 0 then ret (inr p)
        else
          let* r := zoom tk (strchr fuel delim c) in
          if r =? 0 then ret (inl (p + 1)) else ret (inr p)) start in
      let* c := zoom tk (get8 stop) in
      (if negb (c =? 0) then
         zoom tk (put8 stop 0) ;;;
         modify (set_tok_current (stop + 1))
       else modify (set_tok_current 0)) ;;;
      ret start.

(** ** Block operations against the reference ones *)

(** The three shifts spread a byte over the word. *)
Definition splat (b : Z) : Z :=
  let word := Z.land b 0xFF in
  let word := Z.lor word (u64 (Z.shiftl word 8)) in
  let word := Z.lor word (u64 (Z.shiftl word 16)) in
  Z.lor word (u64 (Z.shiftl (u64 (Z.shiftl word 16)) 16)).

Lemma land_ff b : Z.land b 0xFF = u8 b.
Proof. apply (Z.land_ones b 8). lia. Qed.

Lemma splat_u8 b : splat b = splat (u8 b).
Proof.
  unfold splat. rewrite !land_ff. unfold u8. by rewrite Z.mod_mod by lia.
Qed.

Lemma splat_small b : 0 <= b < 256 -> splat b = b * 0x0101010101010101.
Proof.
  intros Hb.
  assert (forallb (fun n => splat (Z.of_nat n) =? Z.of_nat n * 0x0101010101010101)
            (seq 0 256) = true) as H by (vm_compute; reflexivity).
  rewrite forallb_forall in H. specialize (H (Z.to_nat b)).
  rewrite Z2Nat.id in H by lia. apply Z.eqb_eq, H, in_seq. lia.
Qed.

Lemma store_le_S n m a v :
  store_le (S n) m a v = store_le n (store8 m a v) (a + 1) (v / 256).
Proof. done. Qed.

Lemma store8_u8 m a v : store8 m a (u8 v) = store8 m a v.
Proof. unfold store8, u8. by rewrite Z.mod_mod by lia. Qed.

Lemma fill_u8 n : forall m a v, fill n m a (u8 v) = fill n m a v.
Proof. induction n as [|n IH]; intros; simpl; [done|]. by rewrite store8_u8, IH. Qed.

Lemma store_le_repeat n : forall m a b v,
  0 <= b < 256 -> (forall i, 0 <= i < Z.of_nat n -> u8 (v / 256 ^ i) = b) ->
  store_le n m a v = fill n m a b.
Proof.
  induction n as [|n IH]; intros m a b v Hb Hv; simpl; [done|].
  rewrite store_le_S, (IH _ _ b); [|done|].
  - f_equal. rewrite <- (store8_u8 m a v). rewrite <- (Hv 0) at 1 by lia.
    by rewrite Z.div_1_r, store8_u8.
  - intros i Hi. rewrite <- (Hv (i + 1)) by lia.
    rewrite Z.pow_add_r, Z.div_div by lia. do 2 f_equal. lia.
Qed.

Lemma store64_splat m a b : store64 m a (splat b) = fill 8 m a b.
Proof.
  rewrite splat_u8, <- fill_u8. pose proof (u8_range b).
  set (c := u8 b) in *. rewrite splat_small by lia.
  apply store_le_repeat; [lia|]. intros i Hi.
  assert (i = 0 \/ i = 1 \/ i = 2 \/ i = 3 \/ i = 4 \/ i = 5 \/ i = 6 \/ i = 7)
    as Hc by lia.
  unfold u8. destruct_or! Hc; subst i; simpl Z.pow; dlia.
Qed.

Lemma fill_add n k : forall m a v,
  fill (n + k) m a v = fill k (fill n m a v) (a + Z.of_nat n) v.
Proof.
  induction n as [|n IH]; intros m a v; simpl.
  - by rewrite Z.add_0_r.
  - rewrite IH. f_equal. lia.
Qed.

Lemma copy_fwd_add n k : forall m d s,
  copy_fwd (n + k) m d s = copy_fwd k (copy_fwd n m d s) (d + Z.of_nat n) (s + Z.of_nat n).
Proof.
  induction n as [|n IH]; intros m d s; simpl.
  - by rewrite !Z.add_0_r.
  - rewrite IH. f_equal; lia.
Qed.

(** A word copied at once is the word copied byte by byte, when the two words
    do not overlap or coincide. *)
Lemma store_le_copy n : forall m m' d s,
  (forall x, s <= x < s + Z.of_nat n -> load8 m' x = load8 m x) ->
  d <= s \/ s + Z.of_nat n <= d ->
  store_le n m d (load_le n m' s) = copy_fwd n m d s.
Proof.
  induction n as [|n IH]; intros m m' d s Hm Hov; simpl; [done|].
  rewrite store_le_S. change (load_le (S n) m' s) with
    (load8 m' s + 256 * load_le n m' (s + 1)).
  pose proof (load8_range m' s). pose proof (load_le_range n m' (s + 1)).
  replace ((load8 m' s + 256 * load_le n m' (s + 1)) / 256)
    with (load_le n m' (s + 1)) by dlia.
  replace (store8 m d (load8 m' s + 256 * load_le n m' (s + 1)))
    with (store8 m d (load8 m s)).
  - apply IH; [|lia]. intros x Hx. rewrite load8_store8_ne by lia. apply Hm. lia.
  - rewrite Hm by lia. rewrite Hm in * by lia. rewrite <- (store8_u8 m d (_ + _)).
    f_equal. unfold u8. dlia.
Qed.

Lemma fill_words_loop r e b n : forall fuel d m,
  (n < fuel)%nat -> e = d + 8 * Z.of_nat n ->
  loop fuel (fun d =>
    if d <? e then
      modify (fun m => store64 m d (splat b)) ;;; ret (inl (d + 8))
    else ret (inr r)) d m = Ok (r : Z) (fill (8 * n) m d b).
Proof.
  induction n as [|n IH]; intros [|fuel] d m Hf He; try lia; simpl loop; unfold bind at 1.
  - rewrite (proj2 (Z.ltb_ge _ _)) by lia. done.
  - rewrite (proj2 (Z.ltb_lt _ _)) by lia. cbn -[Nat.mul fill].
    rewrite IH, store64_splat by lia.
    replace (8 * S n)%nat with (8 + 8 * n)%nat by lia.
    by rewrite fill_add.
Qed.

Lemma fill_bytes_loop r e b n : forall fuel d m,
  (n < fuel)%nat -> e = d + Z.of_nat n ->
  loop fuel (fun d =>
    if d <? e then put8 d b ;;; ret (inl (d + 1))
    else ret (inr r)) d m = Ok (r : Z) (fill n m d b).
Proof.
  induction n as [|n IH]; intros [|fuel] d m Hf He; try lia; simpl loop; unfold bind at 1.
  - rewrite (proj2 (Z.ltb_ge _ _)) by lia. done.
  - rewrite (proj2 (Z.ltb_lt _ _)) by lia. simpl. by rewrite IH by lia.
Qed.

Lemma copy_words_loop e n : forall fuel d s m,
  (n < fuel)%nat -> d + 8 * Z.of_nat n - 8 < e <= d + 8 * Z.of_nat n ->
  d <= s \/ s + 8 <= d ->
  loop fuel (fun '(d, s) =>
    if d <? e then
      modify (fun m => store64 m d (load64 m s)) ;;; ret (inl (d + 8, s + 8))
    else ret (inr (d, s))) (d, s) m
  = Ok (d + 8 * Z.of_nat n, s + 8 * Z.of_nat n) (copy_fwd (8 * n) m d s).
Proof.
  induction n as [|n IH]; intros [|fuel] d s m Hf He Hov; try lia;
    simpl loop; unfold bind at 1.
  - rewrite (proj2 (Z.ltb_ge _ _)) by lia. simpl. by rewrite !Z.add_0_r.
  - rewrite (proj2 (Z.ltb_lt _ _)) by lia. cbn -[Z.mul Nat.mul copy_fwd].
    rewrite IH by lia.
    replace (8 * S n)%nat with (8 + 8 * n)%nat by lia.
    rewrite copy_fwd_add, (store_le_copy 8) by (done || lia). do 2 f_equal; lia.
Qed.

Lemma copy_bytes_loop r e n : forall fuel d s m,
  (n < fuel)%nat -> e = d + Z.of_nat n ->
  loop fuel (fun '(d, s) =>
    if d <? e then
      let* c := get8 s in put8 d c ;;; ret (inl (d + 1, s + 1))
    else ret (inr r)) (d, s) m = Ok (r : Z) (copy_fwd n m d s).
Proof.
  induction n as [|n IH]; intros [|fuel] d s m Hf He; try lia; simpl loop; unfold bind at 1.
  - rewrite (proj2 (Z.ltb_ge _ _)) by lia. done.
  - rewrite (proj2 (Z.ltb_lt _ _)) by lia. simpl. by rewrite IH by lia.
Qed.

Lemma land_7 x : Z.land x (8 - 1) = x mod 8.
Proof. apply (Z.land_ones x 3). lia. Qed.

Lemma lor_mod_8 x y : Z.lor x y mod 8 = 0 -> x mod 8 = 0 /\ y mod 8 = 0.
Proof.
  rewrite <- !(Z.land_ones _ 3) by lia. intros H.
  rewrite Z.land_lor_distr_l in H. by apply Z.lor_eq_0_iff in H.
Qed.

Lemma memset_run dest byte len m :
  0 <= dest -> 0 <= len -> dest + len < 2 ^ 64 ->
  memset dest byte len m = Ok dest (fill (Z.to_nat len) m dest byte).
Proof.
  intros Hd Hl Ht. unfold memset. rewrite u64_small, land_7 by lia.
  destruct (Z.eqb_spec (Z.lor dest len mod 8) 0) as [E|E].
  - apply lor_mod_8 in E as [E1 E2]. fold (splat byte).
    rewrite (fill_words_loop dest _ byte (Z.to_nat (len / 8))) by dlia.
    do 2 f_equal. dlia.
  - apply fill_bytes_loop; lia.
Qed.

(** The byte loop of [memcpy] picks up where the word loop stopped. *)
Lemma memcpy_tail dest src len k n m :
  0 <= dest -> dest + len < 2 ^ 64 -> len = 8 * Z.of_nat k + Z.of_nat n ->
  loop (S (Z.to_nat len)) (fun '(d, s) =>
    if d <? u64 (dest + len) then
      let* c := get8 s in put8 d c ;;; ret (inl (d + 1, s + 1))
    else ret (inr dest)) (dest + 8 * Z.of_nat k, src + 8 * Z.of_nat k)
    (copy_fwd (8 * k) m dest src)
  = Ok dest (copy_fwd (Z.to_nat len) m dest src).
Proof.
  intros Hd Ht Hn. rewrite u64_small by lia.
  rewrite (copy_bytes_loop dest _ n) by lia.
  replace (Z.to_nat len) with (8 * k + n)%nat by lia.
  rewrite copy_fwd_add. do 2 f_equal; lia.
Qed.

Lemma memcpy_run dest src len m :
  8 <= dest -> 0 <= len -> dest + len < 2 ^ 64 ->
  memcpy dest src len m = Ok dest (copy_fwd (Z.to_nat len) m dest src).
Proof.
  intros Hd Hl Ht. unfold memcpy. rewrite land_7. unfold bind at 1.
  destruct (Z.eqb_spec (Z.lor dest src mod 8) 0) as [E|E].
  - apply lor_mod_8 in E as [E1 E2].
    rewrite (copy_words_loop _ (Z.to_nat (len / 8)));
      [| dlia | rewrite u64_small; dlia | dlia].
    apply (memcpy_tail _ _ _ _ (Z.to_nat (len mod 8))); dlia.
  - pose proof (memcpy_tail dest src len 0 (Z.to_nat len) m) as H.
    simpl in H. rewrite !Z.add_0_r in H. apply H; lia.
Qed.

(** [memmove] as the sum of its two loops: each byte of the destination gets
    the byte the source had before the call. *)
Definition moved (m m' : bytes) (dst src : Z) (n : nat) : Prop :=
  forall b, load8 m' b =
    if decide (dst <= b < dst + Z.of_nat n) then load8 m (src + (b - dst)) else load8 m b.

Lemma u8_load8 m a : u8 (load8 m a) = load8 m a.
Proof. apply Z.mod_small, load8_range. Qed.

Lemma moved_last m dst src n m' :
  src <= dst \/ dst + Z.of_nat (S n) <= src ->
  moved (store8 m (dst + Z.of_nat n) (load8 m (src + Z.of_nat n))) m' dst src n ->
  moved m m' dst src (S n).
Proof.
  intros Hov Hm b. rewrite Hm, !load8_store8, u8_load8.
  repeat case_decide; subst; try lia; f_equal; lia.
Qed.

Lemma moved_first m dst src n m' :
  dst <= src \/ src + Z.of_nat (S n) <= dst ->
  moved (store8 m dst (load8 m src)) m' (dst + 1) (src + 1) n ->
  moved m m' dst src (S n).
Proof.
  intros Hov Hm b. rewrite Hm, !load8_store8, u8_load8.
  repeat case_decide; subst; try lia; f_equal; lia.
Qed.

Lemma move_down_loop r k : forall fuel d s n m,
  (k < fuel)%nat -> n = Z.of_nat k -> d <= s \/ s + n <= d ->
  exists m', loop fuel (fun '(d, s, n) =>
      if 0 <? n then
        let* c := get8 s in put8 d c ;;; ret (inl (d + 1, s + 1, n - 1))
      else ret (inr r)) (d, s, n) m = Ok (r : Z) m' /\ moved m m' d s k.
Proof.
  induction k as [|k IH]; intros [|fuel] d s n m Hf -> Hov; try lia; simpl loop;
    unfold bind at 1.
  - eexists. split; [done|]. intros b. case_decide; [lia|done].
  - destruct (IH fuel (d + 1) (s + 1) (Z.of_nat (S k) - 1) (store8 m d (load8 m s)))
      as (m' & Hl & Hm); [lia|lia|lia|].
    exists m'. split; [exact Hl|]. by apply moved_first; [lia|].
Qed.

Lemma move_up_loop r k : forall fuel d s n m,
  (k < fuel)%nat -> n = Z.of_nat k -> s <= d ->
  exists m', loop fuel (fun '(d, s, n) =>
      if 0 <? n then
        let* c := get8 (s - 1) in put8 (d - 1) c ;;; ret (inl (d - 1, s - 1, n - 1))
      else ret (inr r)) (d + n, s + n, n) m = Ok (r : Z) m' /\ moved m m' d s k.
Proof.
  induction k as [|k IH]; intros [|fuel] d s n m Hf -> Hov; try lia; simpl loop;
    unfold bind at 1.
  - eexists. split; [done|]. intros b. case_decide; [lia|done].
  - destruct (IH fuel d s (Z.of_nat k)
      (store8 m (d + Z.of_nat k) (load8 m (s + Z.of_nat k)))) as (m' & Hl & Hm);
      [lia|done|lia|].
    exists m'. split; [|by apply moved_last; [lia|]].
    rewrite <- Hl. cbn -[Z.of_nat loop].
    replace (d + Z.of_nat (S k) - 1) with (d + Z.of_nat k) by lia.
    replace (s + Z.of_nat (S k) - 1) with (s + Z.of_nat k) by lia.
    by replace (Z.of_nat (S k) - 1) with (Z.of_nat k) by lia.
Qed.

Lemma memmove_run dst src n m :
  0 <= dst -> 0 <= src -> 0 <= n -> dst + n < 2 ^ 64 -> src + n < 2 ^ 64 ->
  exists m', memmove dst src n m = Ok dst m' /\ moved m m' dst src (Z.to_nat n).
Proof.
  intros. unfold memmove. rewrite u64_small by lia.
  destruct (Z.ltb_spec src dst), (Z.ltb_spec dst (src + n)); cbn [andb].
  1: apply move_up_loop; lia.
  all: apply move_down_loop; lia.
Qed.

(** ** C strings *)

(** At [a] there are the bytes of [l], none of them 0, and then a 0. *)
Fixpoint cstr (m : bytes) (a : Z) (l : list Z) : Prop :=
  match l with
  | [] => load8 m a = 0
  | c :: l => load8 m a = c /\ c <> 0 /\ cstr m (a + 1) l
  end.

Lemma cstr_ext l : forall m m' a,
  cstr m a l -> (forall x, a <= x <= a + Z.of_nat (length l) -> load8 m' x = load8 m x) ->
  cstr m' a l.
Proof.
  induction l as [|c l IH]; simpl; intros m m' a.
  - intros <- Hx. apply Hx. lia.
  - intros (Hc & ? & Hl) Hx. rewrite Hx by lia. split_and!; [done|done|].
    apply (IH m); [done|]. intros. apply Hx. lia.
Qed.

Lemma cstr_fun l : forall l' m a, cstr m a l -> cstr m a l' -> l = l'.
Proof.
  induction l as [|c l IH]; intros [|c' l'] m a; simpl; [done|naive_solver..|].
  intros (<- & ? & ?) (<- & ? & ?). f_equal. eauto.
Qed.

Lemma cstr_app l1 : forall l2 m a,
  cstr m a (l1 ++ l2) -> cstr m (a + Z.of_nat (length l1)) l2.
Proof.
  induction l1 as [|c l1 IH]; simpl; intros l2 m a.
  - by rewrite Z.add_0_r.
  - intros (_ & _ & Hl). apply IH in Hl. by replace (a + Z.of_nat (S (length l1)))
      with (a + 1 + Z.of_nat (length l1)) by lia.
Qed.

Lemma cstr_bytes l m a c : cstr m a l -> c ∈ l -> 0 < c < 256.
Proof.
  revert a. induction l as [|d l IH]; intros a; simpl; [by intros _ ?%elem_of_nil|].
  intros (<- & ? & Hl) [->|Hc]%elem_of_cons; [pose proof (load8_range m a); lia|eauto].
Qed.

Lemma strlen_loop l : forall fuel s p m,
  cstr m p l -> (length l < fuel)%nat ->
  loop fuel (fun p =>
    let* c := get8 p in
    if c =? 0 then ret (inr (p - s)) else ret (inl (p + 1))) p m
  = Ok (p + Z.of_nat (length l) - s) m.
Proof.
  induction l as [|c l IH]; intros [|fuel] s p m; simpl; intros Hl Hf; try lia;
    unfold bind at 1, get8, bind, gets.
  - rewrite Hl. simpl. unfold ret. f_equal. lia.
  - destruct Hl as (-> & Hc & Hl). rewrite (proj2 (Z.eqb_neq _ _)) by done.
    simpl. unfold bind, get8, gets in IH. rewrite IH by (done || lia). f_equal. lia.
Qed.

Lemma strlen_run l fuel s m :
  cstr m s l -> (length l < fuel)%nat -> strlen fuel s m = Ok (Z.of_nat (length l)) m.
Proof.
  intros. unfold strlen. rewrite (strlen_loop l) by done. f_equal. lia.
Qed.

(** What [strcmp] computes: the difference of the first bytes that differ, with
    the terminating 0 taking part in the comparison. *)
Fixpoint strcmp_ref (l1 l2 : list Z) : Z :=
  match l1, l2 with
  | [], [] => 0
  | [], c2 :: _ => - c2
  | c1 :: _, [] => c1
  | c1 :: l1, c2 :: l2 => if c1 =? c2 then strcmp_ref l1 l2 else c1 - c2
  end.

Lemma strcmp_run l1 : forall l2 fuel s1 s2 m,
  cstr m s1 l1 -> cstr m s2 l2 -> (length l1 < fuel)%nat ->
  strcmp fuel s1 s2 m = Ok (strcmp_ref l1 l2) m.
Proof.
  unfold strcmp.
  induction l1 as [|c l1 IH]; intros l2 [|fuel] s1 s2 m; simpl; intros H1 H2 Hf; try lia;
    unfold bind at 1, get8, bind, gets.
  - rewrite H1. simpl. destruct l2; simpl in H2; [by rewrite H2|].
    destruct H2 as (-> & _). done.
  - destruct H1 as (-> & Hc & H1). rewrite (proj2 (Z.eqb_neq _ _)) by done. simpl.
    destruct l2 as [|c2 l2]; simpl in H2.
    + rewrite H2. rewrite (proj2 (Z.eqb_neq _ _)) by done. simpl. unfold ret. f_equal. lia.
    + destruct H2 as (-> & Hc2 & H2). destruct (Z.eqb_spec c c2); simpl; [|done].
      unfold bind, get8, gets in IH. by apply IH; [| |lia].
Qed.

Lemma strcmp_ref_eq l1 : forall l2,
  (forall c, c ∈ l1 -> c <> 0) -> (forall c, c ∈ l2 -> c <> 0) ->
  strcmp_ref l1 l2 = 0 <-> l1 = l2.
Proof.
  induction l1 as [|c1 l1 IH]; intros [|c2 l2] H1 H2; simpl; [done|..].
  - split; [|done]. intros. specialize (H2 c2). set_solver by lia.
  - split; [|done]. intros. specialize (H1 c1). set_solver by lia.
  - destruct (Z.eqb_spec c1 c2) as [->|Hne].
    + rewrite IH by set_solver. naive_solver.
    + split; [lia|naive_solver].
Qed.

(** [strcpy] on buffers where the copy does not reach the source. *)
Lemma strcpy_loop r l : forall fuel d s m,
  cstr m s l -> (length l < fuel)%nat ->
  d + Z.of_nat (length l) < s \/ s + Z.of_nat (length l) < d ->
  loop fuel (fun '(d, s) =>
    let* c := get8 s in
    put8 d c ;;; if c =? 0 then ret (inr r) else ret (inl (d + 1, s + 1))) (d, s) m
  = Ok (r : Z) (copy_fwd (S (length l)) m d s).
Proof.
  induction l as [|c l IH]; intros [|fuel] d s m; cbn [cstr length];
    intros Hl Hf Hov; try lia; simpl loop; unfold bind at 1, get8, bind, gets, put8, modify.
  - rewrite Hl. simpl. by rewrite Hl.
  - destruct Hl as (Hc & Hn & Hl). rewrite Hc, (proj2 (Z.eqb_neq _ _)) by done. simpl.
    unfold bind, get8, gets, put8, modify in IH. rewrite Hc, IH; [done| |lia|lia].
    apply (cstr_ext _ m); [done|]. intros. rewrite load8_store8_ne by lia. done.
Qed.

Lemma strcpy_run l fuel d s m :
  cstr m s l -> (length l < fuel)%nat ->
  d + Z.of_nat (length l) < s \/ s + Z.of_nat (length l) < d ->
  strcpy fuel d s m = Ok d (copy_fwd (S (length l)) m d s).
Proof. intros. by apply strcpy_loop. Qed.

(** A string copied elsewhere is the same string there. *)
Lemma cstr_copy l m d s k :
  cstr m s l -> (length l < k)%nat ->
  d + Z.of_nat k <= s \/ s + Z.of_nat k <= d ->
  cstr (copy_fwd k m d s) d l.
Proof.
  revert d s. intros d s Hl Hk Hov.
  assert (forall j l, cstr m (s + Z.of_nat j) l -> (j + length l < k)%nat ->
    cstr (copy_fwd k m d s) (d + Z.of_nat j) l) as H.
  2: { rewrite <- (Z.add_0_r s) in Hl. rewrite <- (Z.add_0_r d) at 2. by apply (H O). }
  clear l Hl Hk. intros j l. revert j.
  induction l as [|c l IH]; intros j; simpl; intros Hl Hk; rewrite load8_copy_fwd by lia;
    (case_decide; [|lia]); replace (s + (d + Z.of_nat j - d)) with (s + Z.of_nat j) by lia.
  - done.
  - destruct Hl as (? & ? & Hl). split_and!; [done|done|].
    replace (d + Z.of_nat j + 1) with (d + Z.of_nat (S j)) by lia.
    apply IH; [|lia]. by replace (s + Z.of_nat (S j)) with (s + Z.of_nat j + 1) by lia.
Qed.

Lemma cstr_fuse l1 : forall l2 m a,
  cstr m (a + Z.of_nat (length l1)) l2 ->
  (forall i c, l1 !! i = Some c -> load8 m (a + Z.of_nat i) = c /\ c <> 0) ->
  cstr m a (l1 ++ l2).
Proof.
  induction l1 as [|c l1 IH]; simpl; intros l2 m a H2 H1.
  - by rewrite Z.add_0_r in H2.
  - destruct (H1 0%nat c) as [H ?]; [done|]. rewrite Z.add_0_r in H.
    split_and!; [done|done|]. apply IH.
    + by replace (a + 1 + Z.of_nat (length l1)) with (a + Z.of_nat (S (length l1))) by lia.
    + intros i d Hd. destruct (H1 (S i) d Hd). split; [|done].
      by replace (a + 1 + Z.of_nat i) with (a + Z.of_nat (S i)) by lia.
Qed.

Lemma cstr_lookup l m a i c :
  cstr m a l -> l !! i = Some c -> load8 m (a + Z.of_nat i) = c /\ c <> 0.
Proof.
  revert a i. induction l as [|d l IH]; intros a [|i]; simpl; try done.
  - intros (<- & ? & _) [= <-]. by rewrite Z.add_0_r.
  - intros (_ & _ & Hl) Hi. destruct (IH _ _ Hl Hi). split; [|done].
    by replace (a + Z.of_nat (S i)) with (a + 1 + Z.of_nat i) by lia.
Qed.

Lemma strcat_run l1 l2 fuel d s m :
  cstr m d l1 -> cstr m s l2 -> (length l1 < fuel)%nat -> (length l2 < fuel)%nat ->
  d + Z.of_nat (length l1 + length l2) < s \/ s + Z.of_nat (length l2) < d ->
  exists m', strcat fuel d s m = Ok d m' /\ cstr m' d (l1 ++ l2) /\
    (forall b, b < d + Z.of_nat (length l1) \/
               d + Z.of_nat (length l1 + length l2) < b -> load8 m' b = load8 m b).
Proof.
  intros H1 H2 Hf1 Hf2 Hov. unfold strcat, bind.
  rewrite (strlen_run l1), (strcpy_run l2) by (done || lia).
  eexists. split; [done|]. split.
  - apply cstr_fuse; [apply cstr_copy; [done|lia|lia]|].
    intros i c Hc. pose proof (lookup_lt_Some _ _ _ Hc).
    rewrite load8_copy_fwd by lia. case_decide; [lia|]. by apply (cstr_lookup l1).
  - intros b Hb. rewrite load8_copy_fwd by lia. case_decide; [lia|done].
Qed.

(** [safestrcpy] never writes more than [n] bytes, whatever the source holds,
    and leaves the longest prefix of the source that fits. *)
Lemma safestrcpy_loop l : forall fuel s t n m,
  cstr m t l -> (Z.to_nat n <= fuel)%nat -> 0 < n ->
  s + n <= t \/ t + Z.of_nat (length l) < s ->
  exists s' m',
    loop fuel (fun '(s, t, n) =>
      let n := n - 1 in
      if 0 <? n then
        let* c := get8 t in
        put8 s c ;;; if c =? 0 then ret (inr (s + 1)) else ret (inl (s + 1, t + 1, n))
      else ret (inr s)) (s, t, n) m = Ok s' m' /\
    s <= s' < s + n /\
    cstr (store8 m' s' 0) s (take (Z.to_nat (n - 1)) l) /\
    (forall b, b < s \/ s + n <= b -> load8 m' b = load8 m b).
Proof.
  induction l as [|c l IH]; intros [|fuel] s t n m; cbn [cstr length];
    intros Hl Hf Hn Hov; try lia; simpl loop; unfold bind at 1, get8, bind, gets, put8, modify;
    (destruct (Z.ltb_spec 0 (n - 1)) as [Hn1|Hn1]; simpl;
     [|exists s, m; split_and!; [done|lia|lia| |done];
       replace (Z.to_nat (n - 1)) with 0%nat by lia; simpl; by rewrite load8_store8_eq]).
  - rewrite Hl. simpl. eexists _, _. split_and!; [done|lia|lia| |].
    + destruct (Z.to_nat (n - 1)); simpl;
        rewrite load8_store8_ne by lia; by rewrite load8_store8_eq.
    + intros b Hb. rewrite load8_store8_ne by lia. done.
  - destruct Hl as (Hc & Hc0 & Hl). rewrite Hc, (proj2 (Z.eqb_neq _ _)) by done. simpl.
    destruct (IH fuel (s + 1) (t + 1) (n - 1) (store8 m s c)) as (s' & m' & Hr & Hs & Hcs & Hfr);
      [|lia|lia|lia|].
    { apply (cstr_ext _ m); [done|]. intros. by rewrite load8_store8_ne by lia. }
    exists s', m'. split_and!; [exact Hr|lia|lia| |].
    + replace (Z.to_nat (n - 1)) with (S (Z.to_nat (n - 1 - 1))) by lia. simpl.
      split_and!; [|done|done].
      rewrite load8_store8_ne, Hfr, load8_store8_eq by lia.
      rewrite <- Hc. apply u8_load8.
    + intros b Hb. rewrite Hfr, load8_store8_ne by lia. done.
Qed.

Lemma safestrcpy_run l s t n m :
  cstr m t l -> 0 < n -> s + n <= t \/ t + Z.of_nat (length l) < s ->
  exists m', safestrcpy s t n m = Ok s m' /\
    cstr m' s (take (Z.to_nat (n - 1)) l) /\
    (forall b, b < s \/ s + n <= b -> load8 m' b = load8 m b).
Proof.
  intros Hl Hn Hov. unfold safestrcpy. destruct (Z.leb_spec n 0); [lia|].
  destruct (safestrcpy_loop l (S (Z.to_nat n)) s t n m) as (s' & m' & Hr & Hs & Hcs & Hfr);
    [done|lia|lia|lia|].
  cbv zeta in Hr |- *. unfold bind at 1. rewrite Hr. cbn. eexists. split_and!; [done|done|].
  intros b Hb. rewrite load8_store8_ne by lia. auto.
Qed.

(** ** Numbers *)

Definition digit (c : Z) : Prop := 48 <= c <= 57.

Fixpoint dec_value (acc : Z) (l : list Z) : Z :=
  match l with
  | [] => acc
  | c :: l => dec_value (acc * 10 + (c - 48)) l
  end.

Lemma dec_value_mono l : forall acc, 0 <= acc -> Forall digit l -> acc <= dec_value acc l.
Proof.
  unfold digit. induction l as [|c l IH]; intros acc Ha Hl; simpl; [lia|].
  inversion_clear Hl. etrans; [|apply IH; [lia|done]]. lia.
Qed.

Lemma atol_digits l : forall fuel acc p m,
  cstr m p l -> Forall digit l -> (length l < fuel)%nat -> 0 <= acc ->
  dec_value acc l < 2 ^ 63 ->
  loop fuel (fun '(res, p) =>
    let* c := get8 p in
    if c =? 0 then ret (inr res)
    else
      let res := s64 (res * 10) in
      let res := s64 (res + (c - 48)) in
      ret (inl (res, p + 1))) (acc, p) m = Ok (dec_value acc l) m.
Proof.
  unfold digit. induction l as [|c l IH]; intros [|fuel] acc p m; cbn [cstr length dec_value];
    intros Hl Hd Hf Ha Hv; try lia; simpl loop; unfold bind at 1, get8, bind, gets.
  - by rewrite Hl.
  - destruct Hl as (-> & ? & Hl). inversion_clear Hd as [|? ? Hc Hd'].
    rewrite (proj2 (Z.eqb_neq _ _)) by done. simpl.
    pose proof (dec_value_mono l (acc * 10 + (c - 48))) as Hm.
    specialize (Hm ltac:(lia) Hd').
    rewrite !s64_small by (rewrite ?s64_small; lia).
    unfold get8, bind, gets in IH. apply IH; [done|done|lia|lia|done].
Qed.

Lemma atol_spaces k : forall fuel p l m,
  cstr m p (repeat 32 k ++ l) -> (forall l', l <> 32 :: l') -> (k < fuel)%nat ->
  loop fuel (fun p =>
    let* c := get8 p in
    if c =? 32 then ret (inl (p + 1)) else ret (inr p)) p m = Ok (p + Z.of_nat k) m.
Proof.
  induction k as [|k IH]; intros [|fuel] p l m; cbn [repeat app cstr]; intros Hl Hne Hf;
    try lia; simpl loop; unfold bind at 1, get8, bind, gets.
  - destruct (Z.eqb_spec (load8 m p) 32) as [E|E]; [|simpl; unfold ret; f_equal; lia].
    destruct l; simpl in Hl; [lia|]. destruct Hl as (Hl & _). exfalso.
    apply (Hne l). f_equal. lia.
  - destruct Hl as (-> & _ & Hl). simpl. unfold get8, bind, gets in IH.
    rewrite (IH _ _ l) by (done || lia). f_equal. lia.
Qed.

Lemma atol_run k sg ds fuel str m :
  sg = [] \/ sg = [43] \/ sg = [45] ->
  cstr m str (repeat 32 k ++ sg ++ ds) -> Forall digit ds ->
  (k < fuel)%nat -> (length ds < fuel)%nat -> dec_value 0 ds < 2 ^ 63 ->
  atol fuel str m =
    Ok (if bool_decide (sg = [45]) then - dec_value 0 ds else dec_value 0 ds) m.
Proof.
  intros Hsg Hl Hd Hf1 Hf2 Hv. unfold atol, bind at 1.
  rewrite (atol_spaces k _ _ (sg ++ ds)); [|done| |done].
  2: { intros l'. destruct_or! Hsg; subst; simpl; try naive_solver.
       intros ->. inversion_clear Hd. unfold digit in *. lia. }
  apply cstr_app in Hl. rewrite repeat_length in Hl.
  set (q := str + Z.of_nat k) in *. clearbody q.
  pose proof (dec_value_mono ds 0 ltac:(lia) Hd) as H0.
  assert (forall p, cstr m p ds -> _) as Hrun
    by exact (fun p Hp => atol_digits ds fuel 0 p m Hp Hd Hf2 ltac:(lia) Hv).
  unfold bind at 1, get8 at 1, gets. destruct_or! Hsg; subst sg; simpl in Hl.
  - assert ((load8 m q =? 45) || (load8 m q =? 43) = false) as ->.
    { destruct ds as [|c ds]; simpl in Hl; [by rewrite Hl|]. destruct Hl as (-> & _).
      inversion_clear Hd. unfold digit in *. lia. }
    unfold bind at 1. rewrite Hrun by done. rewrite bool_decide_false by done. done.
  - destruct Hl as (-> & _ & Hl). simpl. unfold bind at 1. by rewrite Hrun.
  - destruct Hl as (-> & _ & Hl). simpl. unfold bind at 1. rewrite Hrun by done.
    unfold ret. by rewrite s64_small by lia.
Qed.

(** ** Tokens *)

Lemma strchr_run l c : forall fuel p m,
  cstr m p l -> (length l < fuel)%nat -> 0 < p -> 0 < c < 256 ->
  exists r, strchr fuel p c m = Ok r m /\ (r =? 0) = negb (bool_decide (c ∈ l)).
Proof.
  unfold strchr. replace (u8 c) with (u8 (u8 c)) by (unfold u8; by rewrite Z.mod_mod).
  intros fuel p m Hl Hf Hp Hc. replace (u8 (u8 c)) with c by (unfold u8; dlia).
  revert fuel p Hl Hf Hp.
  induction l as [|d l IH]; intros [|fuel] p; cbn [cstr length]; intros Hl Hf Hp; try lia;
    simpl loop; unfold bind at 1, get8, bind, gets.
  - rewrite Hl. rewrite (proj2 (Z.eqb_neq 0 c)) by lia. by exists 0.
  - destruct Hl as (-> & Hd & Hl). destruct (Z.eqb_spec d c) as [->|Hne]; simpl.
    + exists p. split; [done|]. rewrite bool_decide_true by set_solver. simpl. lia.
    + rewrite (proj2 (Z.eqb_neq d 0)) by done. simpl.
      destruct (IH fuel (p + 1)) as (r & Hr & Hb); [done|lia|lia|].
      exists r. split; [exact Hr|]. rewrite Hb. f_equal.
      apply bool_decide_ext. set_solver.
Qed.

Definition is_delim (ds : list Z) (c : Z) : bool := bool_decide (c ∈ ds).

Fixpoint take_while (f : Z -> bool) (l : list Z) : list Z :=
  match l with [] => [] | c :: l => if f c then c :: take_while f l else [] end.
Fixpoint drop_while (f : Z -> bool) (l : list Z) : list Z :=
  match l with [] => [] | c :: l' => if f c then drop_while f l' else l end.

Lemma take_drop_while f l : take_while f l ++ drop_while f l = l.
Proof. induction l as [|c l IH]; simpl; [done|]. destruct (f c); simpl; [by rewrite IH|done]. Qed.

Lemma drop_while_length f l : (length (drop_while f l) <= length l)%nat.
Proof. induction l as [|c l IH]; simpl; [lia|]. destruct (f c); simpl; lia. Qed.

Lemma drop_while_head f l c l' : drop_while f l = c :: l' -> f c = false.
Proof.
  induction l as [|d l IH]; simpl; [done|]. destruct (f d) eqn:E; [done|]. by intros [= <- _].
Qed.

(** The words of a string: the maximal runs of bytes that are no delimiters. *)
Fixpoint words_from (ds cur l : list Z) : list (list Z) :=
  let flush := match cur with [] => [] | _ => [cur] end in
  match l with
  | [] => flush
  | c :: l =>
      if is_delim ds c then flush ++ words_from ds [] l
      else words_from ds (cur ++ [c]) l
  end.
Definition words (ds l : list Z) : list (list Z) := words_from ds [] l.

Lemma words_from_span ds l : forall cur, cur <> [] ->
  words_from ds cur l =
    (cur ++ take_while (fun c => negb (is_delim ds c)) l) ::
    words ds (drop_while (fun c => negb (is_delim ds c)) l).
Proof.
  induction l as [|c l IH]; intros cur Hc; simpl.
  - rewrite app_nil_r. by destruct cur.
  - destruct (is_delim ds c) eqn:E; simpl.
    + rewrite app_nil_r. destruct cur; [done|]. unfold words. simpl. by rewrite E.
    + rewrite IH by (by destruct cur). by rewrite <- app_assoc.
Qed.

Lemma words_skip ds l : words ds l = words ds (drop_while (is_delim ds) l).
Proof.
  unfold words. induction l as [|c l IH]; simpl; [done|].
  destruct (is_delim ds c) eqn:E; simpl; [done|]. by rewrite E.
Qed.

Lemma words_unfold ds l :
  words ds l =
    match drop_while (is_delim ds) l with
    | [] => []
    | l' => take_while (fun c => negb (is_delim ds c)) l' ::
            words ds (drop_while (fun c => negb (is_delim ds c)) l')
    end.
Proof.
  rewrite words_skip. destruct (drop_while (is_delim ds) l) as [|c l'] eqn:E; [done|].
  apply drop_while_head in E. unfold words at 1. simpl. rewrite E. simpl.
  by rewrite words_from_span.
Qed.

(** Either of the two scanning loops of [strtok]: [t] is its test of the result
    of [strchr], [f] the set of bytes it runs over. *)
Lemma scan_loop (t : Z -> bool) (f : Z -> bool) ds delim F l : forall fuel p s,
  (forall r c, (r =? 0) = negb (is_delim ds c) -> t r = f c) ->
  cstr (tk_mem s) delim ds -> (length ds < F)%nat -> 0 < delim ->
  cstr (tk_mem s) p l -> (length l < fuel)%nat ->
  loop fuel (fun p =>
    let* c := zoom tk (get8 p) in
    if c =? 0 then ret (inr p)
    else
      let* r := zoom tk (strchr F delim c) in
      if t r then ret (inl (p + 1)) else ret (inr p)) p s
  = Ok (p + Z.of_nat (length (take_while f l))) s.
Proof.
  intros fuel p s Ht Hds HF Hdel. destruct s as [m cur]. simpl in *. revert fuel p.
  induction l as [|c l IH]; intros [|fuel] p; cbn [cstr length take_while];
    intros Hl Hf; try lia; simpl loop; unfold bind at 1, bind at 1, zoom at 1, get8 at 1, gets;
    cbn [tk lget lset tk_mem tok_current].
  - rewrite Hl. simpl. unfold ret. f_equal. lia.
  - destruct Hl as (Hc & Hc0 & Hl). rewrite Hc, (proj2 (Z.eqb_neq _ _)) by done.
    pose proof (load8_range m p).
    destruct (strchr_run ds c F delim m) as (r & Hr & Hb); [done|done|done|lia|].
    unfold bind at 1, zoom at 1. cbn [tk lget lset tk_mem tok_current]. rewrite Hr.
    rewrite (Ht r c) by done. destruct (f c); cbn.
    + rewrite IH by (done || lia). f_equal. lia.
    + unfold ret. f_equal. lia.
Qed.

Definition tok_at (str : Z) (s : tok_state) : Z := if str =? 0 then tok_current s else str.

(** One call: what it returns and what it leaves for the next one. *)
Lemma strtok_run fuel str delim ds l s :
  0 < tok_at str s -> 0 < delim ->
  cstr (tk_mem s) (tok_at str s) l -> cstr (tk_mem s) delim ds ->
  (length l < fuel)%nat -> (length ds < fuel)%nat ->
  strtok fuel str delim s =
    let start := tok_at str s + Z.of_nat (length (take_while (is_delim ds) l)) in
    let l' := drop_while (is_delim ds) l in
    let stop := start + Z.of_nat (length (take_while (fun c => negb (is_delim ds c)) l')) in
    match l' with
    | [] => Ok 0 (TokState (tk_mem s) 0)
    | _ => match drop_while (fun c => negb (is_delim ds c)) l' with
           | [] => Ok start (TokState (tk_mem s) 0)
           | _ => Ok start (TokState (store8 (tk_mem s) stop 0) (stop + 1))
           end
    end.
Proof.
  intros Hp Hdel Hl Hds Hf Hfd. destruct s as [m cur]. unfold strtok.
  set (q := tok_at str (TokState m cur)) in *.
  assert ((if negb (str =? 0) then modify (set_tok_current str) else ret tt) (TokState m cur)
    = Ok tt (TokState m q)) as Hset.
  { unfold q, tok_at. by destruct (str =? 0). }
  unfold bind at 1. rewrite Hset. unfold bind at 1, gets at 1. cbn [tok_current].
  rewrite (proj2 (Z.eqb_neq q 0)) by lia. simpl in Hl, Hds. clearbody q. clear Hset.
  pose proof (scan_loop (fun r => negb (r =? 0)) (is_delim ds) ds delim fuel l fuel q
    (TokState m q)) as H1. cbn beta in H1.
  unfold bind at 1. rewrite H1; clear H1; try done; [|intros r c ->; by rewrite negb_involutive].
  pose proof (cstr_app (take_while (is_delim ds) l) (drop_while (is_delim ds) l) m q) as Hl'.
  rewrite take_drop_while in Hl'. specialize (Hl' Hl).
  pose proof (drop_while_length (is_delim ds) l) as Hlen.
  set (start := q + Z.of_nat (length (take_while (is_delim ds) l))) in *. clearbody start.
  set (l' := drop_while (is_delim ds) l) in *. clearbody l'. cbv zeta.
  unfold bind at 1, zoom at 1, get8 at 1, gets at 1. cbn [tk lget lset tk_mem tok_current].
  destruct l' as [|c l']; [simpl in Hl'; by rewrite Hl'|].
  assert ((load8 m start =? 0) = false) as -> by (simpl in Hl'; naive_solver lia).
  pose proof (scan_loop (fun r => r =? 0) (fun c => negb (is_delim ds c)) ds delim fuel
    (c :: l') fuel start (TokState m q)) as H1. cbn beta in H1.
  unfold bind at 1. rewrite H1; clear H1; try done; [|simpl in *; lia].
  pose proof (cstr_app (take_while (fun c => negb (is_delim ds c)) (c :: l'))
    (drop_while (fun c => negb (is_delim ds c)) (c :: l')) m start) as Hr.
  rewrite take_drop_while in Hr. specialize (Hr Hl').
  set (stop := start + _) in *. clearbody stop.
  destruct (drop_while _ (c :: l')) as [|d r]; simpl in Hr.
  - unfold bind, zoom, get8, gets. simpl. by rewrite Hr.
  - destruct Hr as (Hd & Hd0 & _). unfold bind, zoom, get8, gets. simpl. rewrite Hd.
    by rewrite (proj2 (Z.eqb_neq d 0)).
Qed.

(** The way callers use it: a first call with the string, then calls with NULL
    until NULL comes back. *)
Fixpoint strtok_all (n fuel : nat) (str delim : Z) : M tok_state (list Z) :=
  match n with
  | O => ret []
  | S n =>
      let* t := strtok fuel str delim in
      if t =? 0 then ret []
      else let* ts := strtok_all n fuel 0 delim in ret (t :: ts)
  end.

Lemma cstr_cut l1 l2 m p :
  cstr m p (l1 ++ l2) -> cstr (store8 m (p + Z.of_nat (length l1)) 0) p l1.
Proof.
  revert p. induction l1 as [|c l1 IH]; simpl; intros p.
  - rewrite Z.add_0_r. intros _. by rewrite load8_store8_eq.
  - intros (Hc & ? & Hl). rewrite load8_store8_ne by lia. split_and!; [done|done|].
    apply IH in Hl. by replace (p + Z.of_nat (S (length l1)))
      with (p + 1 + Z.of_nat (length l1)) by lia.
Qed.

Lemma strtok_all_done n fuel delim m : strtok_all (S n) fuel 0 delim (TokState m 0)
  = Ok [] (TokState m 0).
Proof. done. Qed.

Lemma strtok_all_run delim ds fuel : forall n str l s,
  0 < tok_at str s -> 0 < delim ->
  cstr (tk_mem s) (tok_at str s) l -> cstr (tk_mem s) delim ds ->
  delim + Z.of_nat (length ds) < tok_at str s \/
    tok_at str s + Z.of_nat (length l) < delim ->
  (length l < fuel)%nat -> (length ds < fuel)%nat -> (length l < n)%nat ->
  exists ts m', strtok_all (S n) fuel str delim s = Ok ts (TokState m' 0) /\
    Forall2 (cstr m') ts (words ds l) /\
    (forall x, x < tok_at str s \/ tok_at str s + Z.of_nat (length l) <= x ->
       load8 m' x = load8 (tk_mem s) x).
Proof.
  induction n as [|n IH]; intros str l s Hp Hdel Hl Hds Hov Hf Hfd Hn; [lia|].
  remember (S n) as n1. cbn [strtok_all]. unfold bind at 1.
  rewrite (strtok_run _ _ _ ds l) by done. rewrite words_unfold. cbv zeta.
  pose proof (take_drop_while (is_delim ds) l) as Hsp.
  set (skip := take_while (is_delim ds) l) in *.
  set (l' := drop_while (is_delim ds) l) in *. clearbody skip l'.
  set (q := tok_at str s) in *. clearbody q. subst l.
  rewrite length_app in *. apply cstr_app in Hl.
  destruct l' as [|c l']; [by exists [], (tk_mem s)|].
  pose proof (take_drop_while (fun c => negb (is_delim ds c)) (c :: l')) as Hsp.
  set (tok := take_while _ (c :: l')) in *.
  destruct (drop_while _ (c :: l')) as [|d r] eqn:Hdr; clearbody tok; rewrite <- Hsp in *;
    rewrite length_app in *.
  - rewrite (proj2 (Z.eqb_neq _ 0)) by lia. unfold bind. subst n1.
    rewrite strtok_all_done. eexists _, _. split; [done|]. split; [|done].
    rewrite app_nil_r in *. by repeat constructor.
  - rewrite (proj2 (Z.eqb_neq _ 0)) by lia. unfold bind at 1. subst n1.
    set (start := q + Z.of_nat (length skip)) in *.
    set (stop := start + Z.of_nat (length tok)) in *.
    pose proof (cstr_app _ _ _ _ Hl) as (Hd & Hd0 & Hr). fold stop in Hr.
    set (m1 := store8 (tk_mem s) stop 0) in *.
    assert (forall x, x <> stop -> load8 m1 x = load8 (tk_mem s) x) as Hm1.
    { intros x Hx. unfold m1. by rewrite load8_store8_ne. }
    simpl length in *.
    destruct (IH 0 r (TokState m1 (stop + 1))) as (ts & m' & Hts & Hw & Hfr);
      unfold tok_at in *; cbn [tk_mem tok_current Z.eqb] in *; try lia.
    { apply (cstr_ext _ (tk_mem s)); [done|]. intros. apply Hm1. lia. }
    { apply (cstr_ext _ (tk_mem s)); [done|]. intros. apply Hm1. lia. }
    rewrite Hts. eexists _, m'. split; [done|]. split.
    + apply drop_while_head, negb_false_iff in Hdr.
      unfold words at 1. simpl. rewrite Hdr. constructor.
      * apply (cstr_ext _ m1); [by apply cstr_cut in Hl|]. intros. apply Hfr. lia.
      * done.
    + intros x Hx. rewrite Hfr, Hm1 by lia. done.
Qed.

(** ** Properties *)

(** C29: the block routines, with their word-at-a-time fast paths, write exactly
    what the byte-by-byte reference operations write, for every alignment and
    length that does not wrap the address space. *)
Theorem memcpy_memset_reference dest src byte len m :
  8 <= dest -> 0 <= len -> dest + len < 2 ^ 64 ->
  memcpy dest src len m = Ok dest (copy_fwd (Z.to_nat len) m dest src) /\
  memset dest byte len m = Ok dest (fill (Z.to_nat len) m dest byte).
Proof. intros. split; [by apply memcpy_run|apply memset_run; lia]. Qed.

Fixpoint put_list (m : bytes) (a : Z) (l : list Z) : bytes :=
  match l with [] => m | c :: l => put_list (store8 m a c) (a + 1) l end.

Lemma memcpy_memset_reference_witness :
  memcpy 64 128 19 (put_list ∅ 128 [1; 2; 3]) =
    Ok 64 (copy_fwd 19 (put_list ∅ 128 [1; 2; 3]) 64 128) /\
  memset 64 (-1) 19 (put_list ∅ 128 [1; 2; 3]) =
    Ok 64 (fill 19 (put_list ∅ 128 [1; 2; 3]) 64 (-1)).
Proof. apply (memcpy_memset_reference 64 128 (-1) 19); lia. Defined.

(** [memmove] copies a block correctly however source and destination
    overlap: every destination byte holds what the source byte held before the
    call, and no other byte changes. *)
Theorem memmove_correct dst src n m :
  0 <= dst -> 0 <= src -> 0 <= n -> dst + n < 2 ^ 64 -> src + n < 2 ^ 64 ->
  exists m', memmove dst src n m = Ok dst m' /\
    forall b, load8 m' b =
      if decide (dst <= b < dst + n) then load8 m (src + (b - dst)) else load8 m b.
Proof.
  intros. destruct (memmove_run dst src n m) as (m' & Hr & Hm); try done.
  exists m'. split; [done|]. intros b. rewrite Hm, Z2Nat.id by done. done.
Qed.

Lemma memmove_correct_witness :
  exists m', memmove 101 100 3 (put_list ∅ 100 [1; 2; 3]) = Ok 101 m' /\
    forall b, load8 m' b =
      if decide (101 <= b < 101 + 3) then load8 (put_list ∅ 100 [1; 2; 3]) (100 + (b - 101))
      else load8 (put_list ∅ 100 [1; 2; 3]) b.
Proof. apply (memmove_correct 101 100 3); lia. Defined.

(** [strlen], [strcmp], [strcat] and [safestrcpy] on NUL-terminated
    strings: the length, a difference that is 0 exactly for equal strings, the
    concatenation written after the first string and nowhere else, and the
    truncated copy that stays inside its [n] bytes and is always terminated. *)
Theorem string_functions_correct fuel a b la lb n m :
  cstr m a la -> cstr m b lb ->
  (length la < fuel)%nat -> (length lb < fuel)%nat -> 0 < n ->
  a + Z.of_nat (length la + length lb) < b -> a + n <= b ->
  strlen fuel a m = Ok (Z.of_nat (length la)) m /\
  (exists r, strcmp fuel a b m = Ok r m /\ (r = 0 <-> la = lb)) /\
  (exists m', strcat fuel a b m = Ok a m' /\ cstr m' a (la ++ lb) /\
     forall x, x < a + Z.of_nat (length la) \/ a + Z.of_nat (length la + length lb) < x ->
       load8 m' x = load8 m x) /\
  (exists m', safestrcpy a b n m = Ok a m' /\ cstr m' a (take (Z.to_nat (n - 1)) lb) /\
     forall x, x < a \/ a + n <= x -> load8 m' x = load8 m x).
Proof.
  intros Ha Hb Hfa Hfb Hn Hov1 Hov2. split_and!.
  - by apply strlen_run.
  - exists (strcmp_ref la lb). split; [by apply strcmp_run|].
    apply strcmp_ref_eq; intros c Hc; [eapply cstr_bytes in Hc|eapply cstr_bytes in Hc];
      eauto; lia.
  - apply strcat_run; auto.
  - apply safestrcpy_run; auto.
Qed.

Definition two_strings : bytes := put_list (put_list ∅ 100 [114; 97; 109]) 200 [47; 98].

Lemma string_functions_correct_witness :
  strlen 10 100 two_strings = Ok 3 two_strings /\
  (exists r, strcmp 10 100 200 two_strings = Ok r two_strings /\
     (r = 0 <-> [114; 97; 109] = [47; 98])) /\
  (exists m', strcat 10 100 200 two_strings = Ok 100 m' /\
     cstr m' 100 ([114; 97; 109] ++ [47; 98]) /\
     forall x, x < 100 + 3 \/ 100 + 5 < x -> load8 m' x = load8 two_strings x) /\
  (exists m', safestrcpy 100 200 2 two_strings = Ok 100 m' /\
     cstr m' 100 (take 1 [47; 98]) /\
     forall x, x < 100 \/ 100 + 2 <= x -> load8 m' x = load8 two_strings x).
Proof.
  apply (string_functions_correct 10 100 200 [114; 97; 109] [47; 98] 2 two_strings);
    try (vm_compute; split_and!; done); simpl; lia.
Defined.

(** C30: calling [strtok] with a string and then with NULL until it returns
    NULL yields exactly the words of the string, the maximal runs of
    non-delimiters, in order; each is a NUL-terminated string in place, and no
    byte outside the string is touched. *)
Theorem strtok_words n fuel p delim ds l s :
  0 < p -> 0 < delim -> cstr (tk_mem s) p l -> cstr (tk_mem s) delim ds ->
  delim + Z.of_nat (length ds) < p \/ p + Z.of_nat (length l) < delim ->
  (length l < fuel)%nat -> (length ds < fuel)%nat -> (length l < n)%nat ->
  exists ts m', strtok_all (S n) fuel p delim s = Ok ts (TokState m' 0) /\
    Forall2 (cstr m') ts (words ds l) /\
    (forall x, x < p \/ p + Z.of_nat (length l) <= x -> load8 m' x = load8 (tk_mem s) x).
Proof.
  intros Hp ? Hl ? ? ? ? ?. assert (tok_at p s = p) as E.
  { unfold tok_at. by rewrite (proj2 (Z.eqb_neq p 0)) by lia. }
  destruct (strtok_all_run delim ds fuel n p l s) as (ts & m' & Hts); rewrite ?E; try done.
  rewrite E in Hts. by exists ts, m'.
Qed.

(** The path "/a//bc/" cut at "/". *)
Lemma strtok_words_witness :
  exists ts m', strtok_all 9 8 100 50
      (TokState (put_list (put_list ∅ 50 [47]) 100 [47; 97; 47; 47; 98; 99; 47]) 0)
    = Ok ts (TokState m' 0) /\
    Forall2 (cstr m') ts [[97]; [98; 99]] /\
    (forall x, x < 100 \/ 100 + 7 <= x -> load8 m' x =
       load8 (put_list (put_list ∅ 50 [47]) 100 [47; 97; 47; 47; 98; 99; 47]) x).
Proof.
  apply (strtok_words 8 8 100 50 [47] [47; 97; 47; 47; 98; 99; 47]
    (TokState (put_list (put_list ∅ 50 [47]) 100 [47; 97; 47; 47; 98; 99; 47]) 0));
    try (vm_compute; split_and!; done); simpl; lia.
Defined.

(** [atol] reads leading blanks, an optional sign and a run of digits as
    the number they denote, provided it is below 2^63. *)
Theorem atol_correct k sg ds fuel str m :
  sg = [] \/ sg = [43] \/ sg = [45] ->
  cstr m str (repeat 32 k ++ sg ++ ds) -> Forall digit ds ->
  (k < fuel)%nat -> (length ds < fuel)%nat -> dec_value 0 ds < 2 ^ 63 ->
  atol fuel str m =
    Ok (if bool_decide (sg = [45]) then - dec_value 0 ds else dec_value 0 ds) m.
Proof. apply atol_run. Qed.

Lemma atol_correct_witness :
  atol 9 100 (put_list ∅ 100 [32; 45; 52; 50]) = Ok (- 42) (put_list ∅ 100 [32; 45; 52; 50]).
Proof.
  refine (atol_correct 1 [45] [52; 50] 9 100 _ _ _ _ _ _ _);
    try (vm_compute; split_and!; done); try (simpl; lia); [by right; right|].
  repeat constructor; lia.
Defined.
