(* ===== verification/Literals.v ===== *)
(** * String literals of the source

    A literal is the list of its bytes; comparing a string in memory with one is
    comparing lists. *)

From Stdlib Require Import String Ascii.
From S2P Require Import Prelude Mem StringLib.
From stdpp Require Import base gmap list fin_maps.
From Stdlib Require Import ZArith Lia Bool.

Set Default Goal Selector "!".
Open Scope Z_scope.

(** The bytes of a literal, without the terminating 0. *)
Definition str (s : string) : list Z := (fun c => Z.of_N (N_of_ascii c)) <$> list_ascii_of_string s.

(** [!strcmp(a, l)] for a literal [l]. *)
Fixpoint streq (m : bytes) (a : Z) (l : list Z) : bool :=
  match l with
  | [] => load8 m a =? 0
  | c :: l => (load8 m a =? c) && streq m (a + 1) l
  end.

(** Comparing with a literal is comparing the strings. *)
Lemma streq_cstr l : forall m a name, Forall (fun c => c <> 0) l -> cstr m a name ->
  streq m a l = bool_decide (name = l).
Proof.
  induction l as [|c l IH]; intros m a [|c' name]; cbn [streq cstr]; intros Hl Hn.
  - by rewrite Hn.
  - destruct Hn as (-> & Hc & _). apply Z.eqb_neq in Hc. rewrite Hc. by rewrite bool_decide_false.
  - rewrite Hn. inversion_clear Hl. rewrite (proj2 (Z.eqb_neq 0 c)) by lia. by rewrite bool_decide_false.
  - destruct Hn as (-> & Hc & Hn). inversion_clear Hl. rewrite (IH _ _ name) by done.
    destruct (Z.eqb_spec c' c) as [->|]; cbn [andb].
    + apply bool_decide_ext. naive_solver.
    + rewrite bool_decide_false by congruence. done.
Qed.
