(* ===== verification/Printf.v ===== *)
(** * Formatted output (util/snprintf.c)

    [vsnprintf] over a buffer of [n] bytes, and what it must produce: a text
    built without a buffer, of which the buffer receives what fits. *)

From S2P Require Import Prelude Mem StringLib.
From stdpp Require Import base gmap list fin_maps.
From Stdlib Require Import ZArith Lia Bool.

Set Default Goal Selector "!".
Open Scope Z_scope.

(** What [va_arg] finds: an integer register or a pointer to a string. *)
Inductive va_slot : Type := VNum (z : Z) | VStr (l : list Z).

(** ** The function *)

(** [pos] and the memory that holds the buffer. *)
Abbreviation outbuf := (Z * bytes)%type.

Section vsnprintf.
Context (out n : Z).

(** [if (++pos < n) out[pos - 1] = c;] *)
Definition emit (c : Z) (st : outbuf) : outbuf :=
  let '(pos, m) := st in
  (pos + 1, if pos + 1 <? n then store8 m (out + pos) c else m).

Definition hex_digit (d : Z) : Z := if d <? 10 then 48 + d else 97 + d - 10.

(** The loop over [i] from [k - 1] down to 0. *)
Fixpoint put_hex (k : nat) (num : Z) (st : outbuf) : outbuf :=
  match k with
  | O => st
  | S i => put_hex i num (emit (hex_digit (Z.land (Z.shiftr num (4 * Z.of_nat i)) 0xF)) st)
  end.

(** [for (long nn = num; nn /= 10; digits++);] *)
Fixpoint count_digits (fuel : nat) (nn digits : Z) : option Z :=
  match fuel with
  | O => None
  | S fuel =>
      let nn := Z.quot nn 10 in
      if nn =? 0 then Some digits else count_digits fuel nn (digits + 1)
  end.

(** The loop over [i] from [digits - 1] down to 0. *)
Fixpoint put_digits (k : nat) (pos num : Z) (m : bytes) : bytes :=
  match k with
  | O => m
  | S i =>
      let m := if pos + Z.of_nat i + 1 <? n
               then store8 m (out + (pos + Z.of_nat i)) (48 + Z.rem num 10) else m in
      put_digits i pos (Z.quot num 10) m
  end.

Fixpoint put_text (l : list Z) (st : outbuf) : outbuf :=
  match l with
  | [] => st
  | c :: l => put_text l (emit c st)
  end.

Definition take_num (longarg : bool) (vl : list va_slot) : option (Z * list va_slot) :=
  match vl with
  | VNum z :: vl => Some (if longarg then s64 z else s32 z, vl)
  | _ => None
  end.

(** [-num] of the least [long] overflows. *)
Definition put_decimal (num : Z) (st : outbuf) : option outbuf :=
  if num =? - 2 ^ 63 then None
  else
    let st := if num <? 0 then emit 45 st else st in
    let num := Z.abs num in
    digits ← count_digits 20 num 1;
    let '(pos, m) := st in
    Some (pos + digits, put_digits (Z.to_nat digits) pos num m).

(** One character of the format: the flags [format] and [longarg], the buffer and
    the remaining arguments.  The argument of [%c] is taken only when there is room
    for it. *)
Definition format_step (c : Z) (format longarg : bool) (st : outbuf) (vl : list va_slot)
    : option (bool * bool * outbuf * list va_slot) :=
  if format then
    if c =? 108 then Some (true, true, st, vl)
    else if (c =? 112) || (c =? 120) then
      let longarg := (c =? 112) || longarg in
      let st := if c =? 112 then emit 120 (emit 48 st) else st in
      '(num, vl) ← take_num longarg vl;
      Some (false, false, put_hex (if longarg then 16 else 8) num st, vl)
    else if c =? 100 then
      '(num, vl) ← take_num longarg vl;
      st ← put_decimal num st;
      Some (false, false, st, vl)
    else if c =? 115 then
      match vl with
      | VStr l :: vl => Some (false, false, put_text l st, vl)
      | _ => None
      end
    else if c =? 99 then
      if st.1 + 1 <? n then
        '(z, vl) ← take_num false vl;
        Some (false, false, emit z st, vl)
      else Some (false, false, emit 0 st, vl)
    else Some (true, longarg, st, vl)
  else if c =? 37 then Some (true, longarg, st, vl)
  else Some (false, longarg, emit c st, vl).

Fixpoint run_format (s : list Z) (format longarg : bool) (st : outbuf) (vl : list va_slot)
    : option outbuf :=
  match s with
  | [] => Some st
  | c :: s =>
      '(format, longarg, st, vl) ← format_step c format longarg st vl;
      run_format s format longarg st vl
  end.

Definition vsnprintf (s : list Z) (vl : list va_slot) (m : bytes) : option (Z * bytes) :=
  '(pos, m) ← run_format s false false (0, m) vl;
  Some (s32 pos,
        if pos <? n then store8 m (out + pos) 0
        else if negb (n =? 0) then store8 m (out + (n - 1)) 0 else m).

End vsnprintf.

(** ** The text *)

Definition hex_text (k : nat) (num : Z) : list Z :=
  (fun i => hex_digit (Z.land (Z.shiftr num (4 * Z.of_nat i)) 0xF)) <$> rev (seq 0 k).

(** The decimal digits of [num >= 0], without leading zeros. *)
Fixpoint dec_digits (fuel : nat) (num : Z) : list Z :=
  match fuel with
  | O => []
  | S fuel => if num <? 10 then [48 + num] else dec_digits fuel (num / 10) ++ [48 + num mod 10]
  end.

Definition dec_text (num : Z) : list Z :=
  (if num <? 0 then [45] else []) ++ dec_digits 20 (Z.abs num).

(** The text of a format with its arguments. *)
Fixpoint render (s : list Z) (format longarg : bool) (vl : list va_slot) : option (list Z) :=
  match s with
  | [] => Some []
  | c :: s =>
      if format then
        if c =? 108 then render s true true vl
        else if (c =? 112) || (c =? 120) then
          let longarg := (c =? 112) || longarg in
          '(num, vl) ← take_num longarg vl;
          app ((if c =? 112 then [48; 120] else []) ++ hex_text (if longarg then 16 else 8) num) <$>
            render s false false vl
        else if c =? 100 then
          '(num, vl) ← take_num longarg vl;
          if num =? - 2 ^ 63 then None else app (dec_text num) <$> render s false false vl
        else if c =? 115 then
          match vl with
          | VStr l :: vl => app l <$> render s false false vl
          | _ => None
          end
        else if c =? 99 then
          '(z, vl) ← take_num false vl;
          cons z <$> render s false false vl
        else render s true longarg vl
      else if c =? 37 then render s true longarg vl
      else cons c <$> render s false longarg vl
  end.

(** The format has a [%c]. *)
Fixpoint uses_c (s : list Z) (format : bool) : bool :=
  match s with
  | [] => false
  | c :: s =>
      if format then
        (c =? 99) || uses_c s (negb (existsb (Z.eqb c) [112; 120; 100; 115]))
      else uses_c s (c =? 37)
  end.

(** ** Numbers *)

Lemma dec_value_snoc l c : forall acc, dec_value acc (l ++ [c]) = dec_value acc l * 10 + (c - 48).
Proof. induction l as [|d l IH]; intros acc; simpl; [done|]. apply IH. Qed.

Lemma dec_digits_spec fuel : forall num,
  (0 < fuel)%nat -> 0 <= num < 10 ^ Z.of_nat fuel ->
  Forall digit (dec_digits fuel num) /\ dec_value 0 (dec_digits fuel num) = num /\
  (exists c l, dec_digits fuel num = c :: l /\ (0 < num -> c <> 48)) /\
  (num = 0 -> dec_digits fuel num = [48]).
Proof.
  induction fuel as [|fuel IH]; intros num Hf Hn; [lia|].
  rewrite Nat2Z.inj_succ, Z.pow_succ_r in Hn by lia. cbn [dec_digits].
  destruct (Z.ltb_spec num 10) as [H|H].
  - split_and!; [|simpl; lia|exists (48 + num), []; split; [done|lia]|by intros ->].
    repeat constructor; unfold digit; lia.
  - destruct (decide (fuel = 0%nat)) as [->|Hf0]; [simpl in Hn; lia|].
    destruct (IH (num / 10)) as (Hd & Hv & (c & l & Hc & Hc0) & _); [lia|dlia|].
    split_and!; [|rewrite dec_value_snoc, Hv; dlia| |lia].
    + apply Forall_app. split; [done|]. repeat constructor; unfold digit; dlia.
    + exists c, (l ++ [48 + num mod 10]). rewrite Hc. split; [done|]. intros _. apply Hc0. dlia.
Qed.

Lemma count_digits_spec fuel : forall num d,
  (0 < fuel)%nat -> 0 <= num < 10 ^ Z.of_nat fuel ->
  count_digits fuel num d = Some (d + Z.of_nat (length (dec_digits fuel num)) - 1).
Proof.
  induction fuel as [|fuel IH]; intros num d Hf Hn; [lia|].
  rewrite Nat2Z.inj_succ, Z.pow_succ_r in Hn by lia. cbn [dec_digits count_digits].
  rewrite Z.quot_div_nonneg by lia.
  destruct (Z.ltb_spec num 10) as [H|H].
  - rewrite (proj2 (Z.eqb_eq _ _)) by dlia. simpl. f_equal. lia.
  - destruct (decide (fuel = 0%nat)) as [->|Hf0]; [simpl in Hn; lia|].
    rewrite (proj2 (Z.eqb_neq _ _)), IH by dlia. rewrite length_app. simpl. f_equal. lia.
Qed.

(** The value of a hexadecimal text. *)
Definition hex_digit_value (c : Z) : Z := if c <? 58 then c - 48 else c - 97 + 10.

Fixpoint hex_value (acc : Z) (l : list Z) : Z :=
  match l with
  | [] => acc
  | c :: l => hex_value (acc * 16 + hex_digit_value c) l
  end.

Lemma hex_text_S k num :
  hex_text (S k) num =
    hex_digit (Z.land (Z.shiftr num (4 * Z.of_nat k)) 0xF) :: hex_text k num.
Proof. unfold hex_text. by rewrite seq_S, rev_app_distr. Qed.

Lemma hex_text_length k num : length (hex_text k num) = k.
Proof. unfold hex_text. by rewrite length_fmap, length_rev, length_seq. Qed.

Lemma nibble num k : Z.land (Z.shiftr num (4 * Z.of_nat k)) 0xF = (num / 16 ^ Z.of_nat k) mod 16.
Proof.
  change 0xF with (Z.ones 4). rewrite Z.land_ones, Z.shiftr_div_pow2, Z.pow_mul_r by lia. done.
Qed.

Lemma hex_digit_value_of d : 0 <= d < 16 -> hex_digit_value (hex_digit d) = d.
Proof.
  intros. unfold hex_digit, hex_digit_value.
  destruct (Z.ltb_spec d 10); [rewrite (proj2 (Z.ltb_lt _ _)) by lia|
    rewrite (proj2 (Z.ltb_ge _ _)) by lia]; lia.
Qed.

Lemma hex_text_value k num : forall acc,
  hex_value acc (hex_text k num) = acc * 16 ^ Z.of_nat k + num mod 16 ^ Z.of_nat k.
Proof.
  induction k as [|k IH]; intros acc; [cbn; rewrite Z.mod_1_r; lia|].
  rewrite hex_text_S. cbn [hex_value]. rewrite nibble, hex_digit_value_of, IH by dlia.
  rewrite Nat2Z.inj_succ, Z.pow_succ_r, (Z.mul_comm 16) by lia.
  rewrite Z.rem_mul_r by lia. lia.
Qed.

(** ** The buffer *)

Section buffer.
Context (out n : Z) (m0 : bytes).

(** The buffer holds what fits of [text]; everything else is as in [m0]. *)
Definition written (text : list Z) (st : outbuf) : Prop :=
  st.1 = Z.of_nat (length text) /\
  forall x, load8 st.2 x =
    match text !! Z.to_nat (x - out) with
    | Some c => if bool_decide (out <= x < out + n - 1) then u8 c else load8 m0 x
    | None => load8 m0 x
    end.

(** [l] is stored from [pos] on, as far as it fits. *)
Definition stored (l : list Z) (pos : Z) (m m' : bytes) : Prop :=
  forall x, load8 m' x =
    match l !! Z.to_nat (x - out - pos) with
    | Some c => if bool_decide (out + pos <= x < out + n - 1) then u8 c else load8 m x
    | None => load8 m x
    end.

Lemma written_app text l pos m m' :
  written text (pos, m) -> stored l pos m m' ->
  written (text ++ l) (pos + Z.of_nat (length l), m').
Proof.
  intros [Hp Hm] Hl. simpl in *. subst pos. split; [simpl; rewrite length_app; lia|].
  intros x. simpl. rewrite Hl, Hm.
  destruct (decide (out <= x)) as [Hx|Hx].
  - destruct (decide (Z.to_nat (x - out) < length text)%nat).
    + rewrite lookup_app_l by lia. replace (Z.to_nat (_ - _ - _)) with 0%nat by lia.
      rewrite bool_decide_false by lia. by destruct (l !! _).
    + rewrite lookup_app_r, lookup_ge_None_2 with (l := text) by lia.
      replace (Z.to_nat (_ - _ - _)) with (Z.to_nat (x - out) - length text)%nat by lia.
      destruct (l !! _); [|done].
      by rewrite (bool_decide_ext _ (out <= x < out + n - 1)) by lia.
  - rewrite !bool_decide_false by lia. by destruct (text !! _), (l !! _), ((text ++ l) !! _).
Qed.

Lemma put_text_pos l : forall st, (put_text out n l st).1 = st.1 + Z.of_nat (length l).
Proof.
  induction l as [|c l IH]; intros [pos m]; simpl; [lia|]. rewrite IH. simpl. lia.
Qed.

Lemma put_text_stored l : forall pos m,
  stored l pos m (put_text out n l (pos, m)).2.
Proof.
  induction l as [|c l IH]; intros pos m x; [done|].
  cbn [put_text emit]. rewrite IH.
  destruct (decide (out + pos < x)) as [Hx|Hx].
  - replace (Z.to_nat (x - out - pos)) with (S (Z.to_nat (x - out - (pos + 1)))) by lia. simpl.
    assert (load8 (if pos + 1 <? n then store8 m (out + pos) c else m) x = load8 m x) as ->.
    { case_match; [|done]. apply load8_store8_ne. lia. }
    destruct (l !! _); [|done]. by rewrite (bool_decide_ext _ (out + pos <= x < out + n - 1)) by lia.
  - replace (Z.to_nat (x - out - pos)) with 0%nat by lia. simpl.
    rewrite bool_decide_false by lia.
    transitivity (load8 (if pos + 1 <? n then store8 m (out + pos) c else m) x); [by destruct (l !! _)|].
    destruct (Z.ltb_spec (pos + 1) n).
    + rewrite load8_store8. case_decide; case_bool_decide; done || lia.
    + by rewrite bool_decide_false by lia.
Qed.

Lemma written_put_text l text st :
  written text st -> written (text ++ l) (put_text out n l st).
Proof.
  destruct st as [pos m]. intros H.
  pose proof (written_app text l pos m _ H (put_text_stored l pos m)) as Hw.
  pose proof (put_text_pos l (pos, m)) as Hp. simpl in Hp. rewrite <- Hp in Hw.
  by destruct (put_text out n l (pos, m)).
Qed.

Lemma written_emit text st c : written text st -> written (text ++ [c]) (emit out n c st).
Proof. apply (written_put_text [c]). Qed.

Lemma put_hex_text k num : forall st, put_hex out n k num st = put_text out n (hex_text k num) st.
Proof. induction k as [|k IH]; intros st; [done|]. rewrite hex_text_S. simpl. apply IH. Qed.


(** The digits are stored from the last one. *)
Lemma put_digits_stored fuel : forall num pos m,
  (0 < fuel)%nat -> 0 <= num < 10 ^ Z.of_nat fuel ->
  stored (dec_digits fuel num) pos m
    (put_digits out n (length (dec_digits fuel num)) pos num m).
Proof.
  induction fuel as [|fuel IH]; intros num pos m Hf Hn x; [lia|].
  rewrite Nat2Z.inj_succ, Z.pow_succ_r in Hn by lia. cbn [dec_digits].
  destruct (Z.ltb_spec num 10) as [H|H].
  - cbn [length put_digits]. rewrite Z.rem_mod_nonneg, Z.mod_small by lia.
    pose proof (put_text_stored [48 + num] pos m x) as Hx. simpl in Hx.
    by rewrite !Z.add_0_r.
  - destruct (decide (fuel = 0%nat)) as [->|Hf0]; [simpl in Hn; lia|].
    set (ds := dec_digits fuel (num / 10)). rewrite length_app, Nat.add_comm. cbn [length Nat.add put_digits].
    rewrite Z.quot_div_nonneg, Z.rem_mod_nonneg by lia.
    set (m1 := if _ <? n then _ else m).
    etrans; [apply (IH (num / 10) pos m1); dlia|]. fold ds.
    assert (load8 m1 x = if bool_decide (pos + Z.of_nat (length ds) + 1 < n /\ x = out + (pos + Z.of_nat (length ds)))
      then u8 (48 + num mod 10) else load8 m x) as ->.
    { unfold m1. destruct (Z.ltb_spec (pos + Z.of_nat (length ds) + 1) n).
      - rewrite load8_store8. case_decide; case_bool_decide; done || lia.
      - by rewrite bool_decide_false by lia. }
    assert (0 < length ds)%nat.
    { destruct (dec_digits_spec fuel (num / 10)) as (_ & _ & (c & l & Hc & _) & _); [lia|dlia|].
      unfold ds. rewrite Hc. simpl. lia. }
    destruct (decide (Z.to_nat (x - out - pos) < length ds)%nat).
    + rewrite lookup_app_l by done. destruct (ds !! _); [|]; repeat case_bool_decide; done || lia.
    + rewrite lookup_app_r, lookup_ge_None_2 with (l := ds) by lia.
      destruct (decide (x = out + (pos + Z.of_nat (length ds)))) as [->|].
      * replace (_ - length ds)%nat with 0%nat by lia. simpl. repeat case_bool_decide; done || lia.
      * rewrite bool_decide_false, (lookup_ge_None_2 [_]) by (simpl; lia). done.
Qed.

Lemma written_put_decimal text st num :
  - 2 ^ 63 < num < 2 ^ 63 -> written text st ->
  exists st', put_decimal out n num st = Some st' /\ written (text ++ dec_text num) st'.
Proof.
  intros Hn Hw. unfold put_decimal, dec_text. rewrite (proj2 (Z.eqb_neq _ _)) by lia.
  rewrite count_digits_spec by lia. unfold mbind, option_bind.
  assert (written (text ++ (if num <? 0 then [45] else [])) (if num <? 0 then emit out n 45 st else st)) as Hw'.
  { destruct (num <? 0); [by apply written_emit|by rewrite app_nil_r]. }
  destruct (if num <? 0 then emit out n 45 st else st) as [pos m].
  rewrite app_assoc. eexists. split; [done|].
  replace (1 + _ - 1) with (Z.of_nat (length (dec_digits 20 (Z.abs num)))) by lia. rewrite Nat2Z.id.
  apply (written_app _ _ _ m); [done|]. apply put_digits_stored; lia.
Qed.

Lemma take_num_range longarg vl num vl' :
  take_num longarg vl = Some (num, vl') -> - 2 ^ 63 <= num < 2 ^ 63.
Proof.
  destruct vl as [|[z|l] vl]; simpl; try done. intros [= <- <-].
  destruct longarg; [unfold s64; dlia|pose proof (s32_range z); lia].
Qed.

(** There is room for every [%c] of [s]. *)
Definition room (s : list Z) (format : bool) (len : nat) : Prop :=
  uses_c s format = false \/ Z.of_nat len < n.

(** One step appends a piece to the text. *)
Lemma format_step_written c s format longarg st vl text0 text :
  render (c :: s) format longarg vl = Some text -> written text0 st ->
  room (c :: s) format (length (text0 ++ text)) ->
  exists format' longarg' st' vl' piece rest,
    format_step out n c format longarg st vl = Some (format', longarg', st', vl') /\
    render s format' longarg' vl' = Some rest /\ text = piece ++ rest /\
    written (text0 ++ piece) st' /\ room s format' (length (text0 ++ text)).
Proof.
  intros Hr Hw Hroom. cbn [render] in Hr. unfold format_step. unfold room in *. cbn [uses_c existsb] in Hroom.
  destruct format.
  2: { destruct (Z.eqb_spec c 37).
       - eexists _, _, _, _, [], text. rewrite app_nil_r. done.
       - apply fmap_Some in Hr as (rest & Hr & ->).
         eexists _, _, _, _, [c], rest. split; [done|]. auto using written_emit. }
  destruct (Z.eqb_spec c 108) as [->|H1].
  { eexists _, _, _, _, [], text. rewrite app_nil_r. done. }
  destruct ((c =? 112) || (c =? 120)) eqn:E2.
  { destruct (take_num _ vl) as [[num vl']|]; [|done]. simpl in Hr |- *.
    apply fmap_Some in Hr as (rest & Hr & ->).
    eexists _, _, _, _, _, rest. split; [done|]. do 2 (split; [done|]). split.
    - rewrite app_assoc, put_hex_text. apply written_put_text.
      destruct (c =? 112); [apply (written_put_text [48; 120])|rewrite app_nil_r]; done.
    - destruct (Z.eqb_spec c 112), (Z.eqb_spec c 120); try done; subst; auto. }
  apply orb_false_iff in E2 as [E2 E3]. rewrite E2, E3 in Hroom.
  destruct (Z.eqb_spec c 100) as [->|H4].
  { destruct (take_num _ vl) as [[num vl']|] eqn:Et; [|done]. simpl in Hr |- *.
    destruct (Z.eqb_spec num (- 2 ^ 63)) as [|Hm]; [done|].
    apply fmap_Some in Hr as (rest & Hr & ->). apply take_num_range in Et.
    destruct (written_put_decimal text0 st num) as (st' & Hst & Hw'); [lia|done|].
    rewrite Hst. eexists _, _, _, _, _, rest. split; [done|]. auto. }
  destruct (Z.eqb_spec c 115) as [->|H5].
  { destruct vl as [|[z|l] vl]; try done. apply fmap_Some in Hr as (rest & Hr & ->).
    eexists _, _, _, _, l, rest. split; [done|]. auto using written_put_text. }
  destruct (Z.eqb_spec c 99) as [->|H6].
  { destruct (take_num false vl) as [[z vl']|]; [|done]. simpl in Hr |- *.
    apply fmap_Some in Hr as (rest & Hr & ->). destruct Hroom as [|Hroom]; [done|].
    pose proof Hw as [Hp _]. rewrite length_app in Hroom. cbn [length] in Hroom.
    rewrite (proj2 (Z.ltb_lt _ _)) by (simpl in *; lia).
    eexists _, _, _, _, [z], rest. split; [done|]. do 2 (split; [done|]).
    split; [by apply written_emit|]. right. rewrite length_app. simpl in *. lia. }
  eexists _, _, _, _, [], text. rewrite app_nil_r. done.
Qed.

Lemma run_format_written s : forall format longarg st vl text0 text,
  render s format longarg vl = Some text -> written text0 st ->
  room s format (length (text0 ++ text)) ->
  exists st', run_format out n s format longarg st vl = Some st' /\ written (text0 ++ text) st'.
Proof.
  induction s as [|c s IH]; intros format longarg st vl text0 text Hr Hw Hroom.
  { simpl in Hr. injection Hr as <-. rewrite app_nil_r. by exists st. }
  destruct (format_step_written c s format longarg st vl text0 text) as
    (format' & longarg' & st' & vl' & piece & rest & Hs & Hrest & -> & Hw' & Hroom'); try done.
  cbn [run_format]. rewrite Hs. simpl. rewrite app_assoc in Hroom' |- *. by apply (IH _ _ _ vl').
Qed.

Lemma vsnprintf_run s vl text :
  render s false false vl = Some text -> room s false (length text) -> 0 <= n ->
  exists m, vsnprintf out n s vl m0 = Some (s32 (Z.of_nat (length text)), m) /\
    (forall i c, Z.of_nat i < n - 1 -> text !! i = Some c -> load8 m (out + Z.of_nat i) = u8 c) /\
    (0 < n -> load8 m (out + Z.min (Z.of_nat (length text)) (n - 1)) = 0) /\
    (forall x, x < out \/ out + n <= x -> load8 m x = load8 m0 x).
Proof.
  intros Hr Hroom Hn. destruct (run_format_written s false false (0, m0) vl [] text) as ([pos m] & Hs & Hp & Hm);
    [done|done|done|].
  unfold vsnprintf. rewrite Hs. simpl in *. subst pos. eexists. split; [done|].
  set (e := Z.min (Z.of_nat (length text)) (n - 1)).
  assert (forall x, load8 (if Z.of_nat (length text) <? n then store8 m (out + Z.of_nat (length text)) 0
    else if negb (n =? 0) then store8 m (out + (n - 1)) 0 else m) x =
    if bool_decide (0 < n /\ x = out + e) then 0 else load8 m x) as Hx.
  { intros x. destruct (Z.ltb_spec (Z.of_nat (length text)) n), (Z.eqb_spec n 0); cbn [negb];
      rewrite ?load8_store8; repeat case_decide; case_bool_decide; done || lia. }
  split_and!.
  - intros i c Hi Hc. pose proof (lookup_lt_Some _ _ _ Hc). rewrite Hx, Hm, bool_decide_false by lia.
    replace (Z.to_nat _) with i by lia. by rewrite Hc, bool_decide_true by lia.
  - intros. by rewrite Hx, bool_decide_true by lia.
  - intros x Ho. rewrite Hx, Hm, bool_decide_false by lia. destruct (text !! _); [|done].
    by rewrite bool_decide_false by lia.
Qed.

End buffer.

Lemma cstr_intro l : forall m a,
  (forall i c, l !! i = Some c -> load8 m (a + Z.of_nat i) = c /\ c <> 0) ->
  load8 m (a + Z.of_nat (length l)) = 0 -> cstr m a l.
Proof.
  induction l as [|c l IH]; intros m a Hl He; simpl; [by rewrite Z.add_0_r in He|].
  destruct (Hl 0%nat c eq_refl) as [Hc Hc0]. rewrite Z.add_0_r in Hc. do 2 (split; [done|]).
  apply IH.
  - intros i d Hd. destruct (Hl (S i) d Hd) as [Hi Hd0].
    replace (a + 1 + Z.of_nat i) with (a + Z.of_nat (S i)) by lia. done.
  - rewrite <- He. f_equal. simpl. lia.
Qed.

Lemma dec_digits_length fuel : forall num, (length (dec_digits fuel num) <= fuel)%nat.
Proof.
  induction fuel as [|fuel IH]; intros num; simpl; [lia|]. case_match; simpl; [lia|].
  rewrite length_app. specialize (IH (num / 10)). simpl. lia.
Qed.

Lemma dec_text_bytes num c : - 2 ^ 63 < num < 2 ^ 63 -> c ∈ dec_text num -> 0 < c < 256.
Proof.
  intros Hn. unfold dec_text. rewrite elem_of_app. intros [H|H].
  - destruct (num <? 0); [|by apply not_elem_of_nil in H]. apply list_elem_of_singleton in H. lia.
  - destruct (dec_digits_spec 20 (Z.abs num)) as (Hd & _); [lia|lia|].
    rewrite Forall_forall in Hd. apply Hd in H. unfold digit in H. lia.
Qed.

(** ** Properties *)

(** C31: [vsnprintf] into a buffer of [n] bytes returns the length of the whole text of
    the format with its arguments, stores the first [n - 1] characters of that text,
    ends them with a NUL when the buffer is not empty, and writes no byte outside the
    buffer.  It holds for every format when the text fits, and also for a truncated
    text when the format has no [%c]. *)
Theorem vsnprintf_correct out n s vl text m0 :
  render s false false vl = Some text -> 0 <= n -> Z.of_nat (length text) < 2 ^ 31 ->
  uses_c s false = false \/ Z.of_nat (length text) < n ->
  exists m, vsnprintf out n s vl m0 = Some (Z.of_nat (length text), m) /\
    (forall i c, Z.of_nat i < n - 1 -> text !! i = Some c -> load8 m (out + Z.of_nat i) = u8 c) /\
    (0 < n -> load8 m (out + Z.min (Z.of_nat (length text)) (n - 1)) = 0) /\
    (forall x, x < out \/ out + n <= x -> load8 m x = load8 m0 x).
Proof.
  intros Hr Hn Hl Hroom. destruct (vsnprintf_run out n m0 s vl text) as (m & Hv & Hm); [done..|].
  exists m. by rewrite s32_small in Hv by lia.
Qed.

(** [%s=%d;%x] with [hi], [-42] and [255], in a buffer of 8 bytes. *)
Lemma vsnprintf_correct_witness :
  let s := [37; 115; 61; 37; 100; 59; 37; 120] in
  let vl := [VStr [104; 105]; VNum (-42); VNum 255] in
  exists m, vsnprintf 100 8 s vl ∅ = Some (15, m) /\
    (forall i c, Z.of_nat i < 7 -> [104; 105; 61; 45; 52; 50; 59; 48; 48; 48; 48; 48; 48; 102; 102] !! i = Some c ->
       load8 m (100 + Z.of_nat i) = u8 c) /\
    (0 < 8 -> load8 m 107 = 0) /\ (forall x, x < 100 \/ 108 <= x -> load8 m x = load8 ∅ x).
Proof.
  apply (vsnprintf_correct 100 8 [37; 115; 61; 37; 100; 59; 37; 120]
    [VStr [104; 105]; VNum (-42); VNum 255]
    [104; 105; 61; 45; 52; 50; 59; 48; 48; 48; 48; 48; 48; 102; 102]).
  - vm_compute. reflexivity.
  - lia.
  - vm_compute. reflexivity.
  - left. reflexivity.
Defined.

(** A [long] printed with [%ld] into a buffer of at least 22 bytes and read back
    with [atol] is the same number, for every [long] but the least one (whose negation
    overflows). *)
Theorem print_atol_roundtrip out n num fuel m0 :
  - 2 ^ 63 < num < 2 ^ 63 -> 22 <= n -> (21 < fuel)%nat ->
  exists len m, vsnprintf out n [37; 108; 100] [VNum num] m0 = Some (len, m) /\
    atol fuel out m = Ok num m.
Proof.
  intros Hnum Hn Hf. assert (render [37; 108; 100] false false [VNum num] = Some (dec_text num)) as Hr.
  { cbn. rewrite s64_small, (proj2 (Z.eqb_neq _ _)) by lia. simpl. by rewrite app_nil_r. }
  destruct (vsnprintf_run out n m0 _ _ _ Hr) as (m & Hv & Hc & He & _); [by left|lia|].
  eexists _, m. split; [exact Hv|].
  destruct (dec_digits_spec 20 (Z.abs num)) as (Hd & Hval & _); [lia|lia|].
  pose proof (dec_digits_length 20 (Z.abs num)) as Hlen.
  assert (length (dec_text num) <= 21)%nat as Hlt.
  { unfold dec_text. rewrite length_app. destruct (num <? 0); cbn [length]; lia. }
  rewrite (atol_run 0 (if num <? 0 then [45] else []) (dec_digits 20 (Z.abs num))); [| |..|lia|lia|lia].
  - rewrite Hval. destruct (Z.ltb_spec num 0); [rewrite bool_decide_true|rewrite bool_decide_false]; try done;
      f_equal; lia.
  - destruct (num <? 0); auto.
  - cbn [repeat app]. apply cstr_intro; fold (dec_text num).
    + intros i c Hi. pose proof (lookup_lt_Some _ _ _ Hi).
      pose proof (dec_text_bytes num c Hnum (list_elem_of_lookup_2 _ _ _ Hi)).
      rewrite (Hc i c) by (done || lia). unfold u8. rewrite Z.mod_small; lia.
    + rewrite <- He by lia. f_equal. lia.
  - done.
Qed.

Lemma print_atol_roundtrip_witness :
  exists len m, vsnprintf 0 22 [37; 108; 100] [VNum (-9223372036854775807)] ∅ = Some (len, m) /\
    atol 22 0 m = Ok (-9223372036854775807) m.
Proof. apply (print_atol_roundtrip 0 22 (-9223372036854775807) 22 ∅); lia. Defined.

(** [%lx] prints 16 and [%x] 8 hexadecimal digits, zeros included, whose value is
    the argument modulo 2^64 and 2^32; [%p] is [0x] followed by the text of [%lx]. *)
Theorem hex_conversions z :
  (exists t, render [37; 108; 120] false false [VNum z] = Some t /\
     render [37; 112] false false [VNum z] = Some (48 :: 120 :: t) /\
     length t = 16%nat /\ hex_value 0 t = z mod 2 ^ 64) /\
  (exists t, render [37; 120] false false [VNum z] = Some t /\
     length t = 8%nat /\ hex_value 0 t = z mod 2 ^ 32).
Proof.
  split.
  - exists (hex_text 16 (s64 z)). rewrite hex_text_length, hex_text_value. cbn -[hex_text Z.pow]. rewrite app_nil_r.
    do 3 (split; [done|]). unfold s64. change (16 ^ _) with (2 ^ 64). dlia.
  - exists (hex_text 8 (s32 z)). rewrite hex_text_length, hex_text_value. cbn -[hex_text Z.pow]. rewrite app_nil_r.
    do 2 (split; [done|]). unfold s32. change (16 ^ _) with (2 ^ 32). dlia.
Qed.

(** When the buffer is full, [%c] leaves its argument for the next conversion: with one
    byte of room [%c%d] counts the digits of the character instead of the number. *)
Lemma truncated_char_shifts_arguments c z vl m :
  - 2 ^ 31 <= c < 2 ^ 31 ->
  fst <$> vsnprintf 0 1 [37; 99; 37; 100] (VNum c :: VNum z :: vl) m =
    Some (s32 (1 + Z.of_nat (length (dec_text c)))).
Proof.
  intros Hc. unfold vsnprintf. cbn -[put_decimal dec_text s32].
  change (0 + 1) with 1. change (1 <? 1) with false. cbn -[put_decimal dec_text s32].
  rewrite (s32_small c) by lia.
  destruct (written_put_decimal 0 1 m [0] (emit 0 1 0 (0, m)) c) as ([pos m'] & Hs & Hp & _);
    [lia|apply (written_emit 0 1 m []); split; [done|by intros]|].
  change (emit 0 1 0 (0, m)) with (1, m) in Hs. rewrite Hs. simpl in *. subst pos. f_equal. f_equal. lia.
Qed.
