(* ===== verification/Scanf.v ===== *)
(** * Formatted input (util/snscanf.c)

    [vsnscanf] over a buffer of [n] bytes.  Reading past the buffer is a wild
    access; the arguments are the pointers the values go to. *)

From S2P Require Import Prelude Mem StringLib Printf.
From stdpp Require Import base gmap list fin_maps.
From Stdlib Require Import ZArith Lia Bool.

Set Default Goal Selector "!".
Open Scope Z_scope.

(** ** The function *)

Definition is_blank (c : Z) : bool := (c =? 32) || (c =? 9).
Definition is_digit (c : Z) : bool := (48 <=? c) && (c <=? 57).
Definition ends_word (c : Z) : bool := (c =? 10) || (c =? 0) || is_blank c.

(** The variables of the loop over the format. *)
Record scan_state : Type := ScanState {
  sc_format : bool;
  sc_longarg : bool;
  sc_cnt : Z;
  sc_pos : Z;
  sc_vl : list Z
}.

Section vsnscanf.
Context (inp n : Z).

Definition peek (pos : Z) : M bytes Z := fun m =>
  if (0 <=? pos) && (pos <? n) then Ok (load8 m (inp + pos)) m else Fault.
Definition put (k : nat) (a v : Z) : M bytes unit := modify (fun m => store_le k m a v).
Definition next_arg (vl : list Z) : M bytes (Z * list Z) :=
  match vl with a :: vl => ret (a, vl) | [] => fault end.

Definition scan_fuel : nat := S (Z.to_nat n).

(** [while (in[pos] == ' ' || in[pos] == '\t') pos++;] *)
Definition blank_round (pos : Z) : M bytes (Z + Z) :=
  let* c := peek pos in
  if is_blank c then ret (inl (pos + 1)) else ret (inr pos).
Definition skip_blanks (pos : Z) : M bytes Z := loop scan_fuel blank_round pos.

(** The same with [pos < n] tested first. *)
Definition blank_round_lt (pos : Z) : M bytes (Z + Z) :=
  if pos <? n then blank_round pos else ret (inr pos).
Definition skip_blanks_lt (pos : Z) : M bytes Z := loop scan_fuel blank_round_lt pos.

Definition word_round (x : Z * Z) : M bytes (Z * Z + Z) :=
  let '(s_buf, pos) := x in
  let* c := peek pos in
  if ends_word c then put 1 s_buf 0 ;;; ret (inr pos)
  else put 1 s_buf c ;;; ret (inl (s_buf + 1, pos + 1)).
Definition scan_word (s_buf pos : Z) : M bytes Z := loop scan_fuel word_round (s_buf, pos).

(** Signed overflow is undefined. *)
Definition digit_round (x : Z * Z) : M bytes (Z * Z + Z * Z) :=
  let '(digits, pos) := x in
  if pos <? n then
    let* c := peek pos in
    if is_digit c then
      if digits * 10 + (c - 48) <? 2 ^ 63 then ret (inl (digits * 10 + (c - 48), pos + 1))
      else fault
    else ret (inr (digits, pos))
  else ret (inr (digits, pos)).
Definition scan_digits (pos : Z) : M bytes (Z * Z) := loop scan_fuel digit_round (0, pos).

(** The case of [%d]. *)
Definition scan_number (longarg : bool) (vl : list Z) (pos : Z) : M bytes (list Z * Z) :=
  let* pos := skip_blanks pos in
  let* c := peek pos in
  let '(sign, pos) := if c =? 45 then (-1, pos + 1) else if c =? 43 then (1, pos + 1) else (1, pos) in
  let* (digits, pos) := scan_digits pos in
  let* (d_buf, vl) := next_arg vl in
  put (if longarg then 8 else 4)%nat d_buf (sign * digits) ;;;
  ret (vl, pos).

(** One character of the format: [inr] when the loop is left. *)
Definition scan_step (c : Z) (x : scan_state) : M bytes (scan_state + Z) :=
  let '(ScanState format longarg cnt pos vl) := x in
  if format then
    if c =? 115 then
      let* (s_buf, vl) := next_arg vl in
      let* pos := skip_blanks pos in
      let* pos := scan_word s_buf pos in
      ret (inl (ScanState false longarg (cnt + 1) pos vl))
    else if c =? 108 then ret (inl (ScanState true true cnt pos vl))
    else if c =? 99 then
      if pos <? n then
        let* (c_buf, vl) := next_arg vl in
        let* b := peek pos in
        put 1 c_buf b ;;;
        ret (inl (ScanState false longarg (cnt + 1) (pos + 1) vl))
      else ret (inl (ScanState false longarg cnt pos vl))
    else if c =? 100 then
      if pos <? n then
        let* (vl, pos) := scan_number longarg vl pos in
        ret (inl (ScanState false false (cnt + 1) pos vl))
      else ret (inl (ScanState false false cnt pos vl))
    else ret (inl x)
  else if c =? 37 then ret (inl (ScanState true longarg cnt pos vl))
  else
    let* pos := skip_blanks_lt pos in
    if n <=? pos then ret (inr cnt)
    else
      let* b := peek pos in
      if negb (b =? c) then ret (inr cnt)
      else ret (inl (ScanState false longarg cnt (pos + 1) vl)).

Fixpoint run_scan (s : list Z) (x : scan_state) : M bytes Z :=
  match s with
  | [] => ret (sc_cnt x)
  | c :: s =>
      let* r := scan_step c x in
      match r with
      | inl x => if n <=? sc_pos x then ret (sc_cnt x) else run_scan s x
      | inr cnt => ret cnt
      end
  end.

Definition vsnscanf (s : list Z) (vl : list Z) : M bytes Z :=
  let* cnt := run_scan s (ScanState false false 0 0 vl) in
  ret (s32 cnt).

End vsnscanf.

(** ** Runs *)

Section Runs.
Context (inp n : Z).

Lemma peek_run pos m c : 0 <= pos < n -> load8 m (inp + pos) = c -> peek inp n pos m = Ok c m.
Proof. intros H <-. unfold peek. by rewrite (proj2 (Z.leb_le _ _)), (proj2 (Z.ltb_lt _ _)) by lia. Qed.

Lemma blank_round_run pos m c : 0 <= pos < n -> load8 m (inp + pos) = c ->
  blank_round inp n pos m = Ok (if is_blank c then inl (pos + 1) else inr pos) m.
Proof. intros Hp Hc. unfold blank_round, bind. rewrite (peek_run pos m c) by done. by destruct (is_blank c). Qed.

Lemma skip_blanks_stay pos m c : 0 <= pos < n -> load8 m (inp + pos) = c -> is_blank c = false ->
  skip_blanks inp n pos m = Ok pos m /\ skip_blanks_lt inp n pos m = Ok pos m.
Proof.
  intros Hp Hc Hb. unfold skip_blanks, skip_blanks_lt, scan_fuel. cbn [loop]. unfold bind, blank_round_lt.
  rewrite (proj2 (Z.ltb_lt _ _)), (blank_round_run pos m c), Hb by (done || lia). done.
Qed.

Lemma blank_round_lt_run pos m c : 0 <= pos < n -> load8 m (inp + pos) = c ->
  blank_round_lt inp n pos m = Ok (if is_blank c then inl (pos + 1) else inr pos) m.
Proof.
  intros Hp Hc. unfold blank_round_lt. rewrite (proj2 (Z.ltb_lt pos n)) by lia. by apply blank_round_run.
Qed.

(** Blanks are skipped up to the first other character, which ends the loops. *)
Lemma blank_loop bs c : forall fuel pos m, Forall (fun b => is_blank b = true) bs -> is_blank c = false ->
  0 <= pos -> pos + Z.of_nat (length bs) < n -> (length bs < fuel)%nat ->
  bytes_at m (inp + pos) (bs ++ [c]) ->
  loop fuel (blank_round inp n) pos m = Ok (pos + Z.of_nat (length bs)) m /\
  loop fuel (blank_round_lt inp n) pos m = Ok (pos + Z.of_nat (length bs)) m.
Proof.
  induction bs as [|b bs IH]; intros fuel pos m Hbs Hc Hp Hl Hf Hm; (destruct fuel as [|fuel]; [simpl in Hf; lia|]);
    destruct Hm as [H0 Hm]; cbn [length] in *; cbn [loop]; unfold bind;
    rewrite (blank_round_run pos m _ ltac:(lia) H0), (blank_round_lt_run pos m _ ltac:(lia) H0).
  - rewrite Hc, Z.add_0_r. done.
  - apply Forall_cons in Hbs as [Hb Hbs]. rewrite Hb.
    destruct (IH fuel (pos + 1) m) as [H1 H2]; [done|done|lia|lia|lia|by rewrite Z.add_assoc|].
    rewrite H1, H2. split; f_equal; lia.
Qed.

Lemma digit_loop ds c : forall fuel acc pos m, Forall digit ds -> is_digit c = false ->
  0 <= acc -> dec_value acc ds < 2 ^ 63 ->
  0 <= pos -> pos + Z.of_nat (length ds) < n -> (length ds < fuel)%nat ->
  bytes_at m (inp + pos) (ds ++ [c]) ->
  loop fuel (digit_round inp n) (acc, pos) m = Ok (dec_value acc ds, pos + Z.of_nat (length ds)) m.
Proof.
  induction ds as [|d ds IH]; intros fuel acc pos m Hds Hc Ha Hv Hp Hl Hf Hm;
    (destruct fuel as [|fuel]; [simpl in Hf; lia|]);
    destruct Hm as [H0 Hm]; cbn [length] in *; cbn [loop]; unfold bind, digit_round at 1;
    rewrite (proj2 (Z.ltb_lt _ _)) by lia; unfold bind; rewrite (peek_run pos m _ ltac:(lia) H0).
  - rewrite Hc. cbn. by rewrite Z.add_0_r.
  - apply Forall_cons in Hds as [Hd Hds]. cbn [dec_value] in Hv. unfold digit in Hd.
    assert (is_digit d = true) as -> by (unfold is_digit; lia).
    pose proof (dec_value_mono ds (acc * 10 + (d - 48)) ltac:(lia) Hds).
    rewrite (proj2 (Z.ltb_lt _ _)) by lia. cbn.
    rewrite IH; [do 2 f_equal; lia|done|done|lia|done|lia|lia|lia|by rewrite Z.add_assoc].
Qed.

Lemma word_loop w c : forall fuel dst pos m, Forall (fun b => 0 <= b < 256 /\ ends_word b = false) w ->
  ends_word c = true -> 0 <= pos -> pos + Z.of_nat (length w) < n -> (length w < fuel)%nat ->
  bytes_at m (inp + pos) (w ++ [c]) ->
  (dst + Z.of_nat (length w) < inp \/ inp + n <= dst) ->
  exists m', loop fuel (word_round inp n) (dst, pos) m = Ok (pos + Z.of_nat (length w)) m' /\
    bytes_at m' dst (w ++ [0]) /\
    (forall x, x < dst \/ dst + Z.of_nat (length w) < x -> load8 m' x = load8 m x).
Proof.
  induction w as [|b w IH]; intros fuel dst pos m Hw Hc Hp Hl Hf Hm Hd;
    (destruct fuel as [|fuel]; [simpl in Hf; lia|]);
    destruct Hm as [H0 Hm]; cbn [length] in *; cbn [loop]; unfold bind, word_round at 1;
    unfold bind; rewrite (peek_run pos m _ ltac:(lia) H0).
  - rewrite Hc. unfold put, modify, ret. cbn [store_le]. eexists. split; [by rewrite Z.add_0_r|].
    split; [split; [by rewrite load8_store8_eq|done]|]. intros x Hx. apply load8_store8_ne. lia.
  - apply Forall_cons in Hw as [[Hb Hw0] Hw]. rewrite Hw0. unfold put, modify, ret. cbn [store_le].
    destruct (IH fuel (dst + 1) (pos + 1) (store8 m dst b)) as (m' & Hr & Hm' & Hx);
      [done|done|lia|lia|lia| |lia|].
    { apply (bytes_at_frame m); [|by rewrite Z.add_assoc]. intros i Hi. apply load8_store8_ne. rewrite length_app in Hi. simpl in Hi. lia. }
    exists m'. split; [change (store_le 1 m dst b) with (store8 m dst b); rewrite Hr; f_equal; lia|]. split.
    + split; [|done]. rewrite Hx, load8_store8_eq by lia. unfold u8. rewrite Z.mod_small; lia.
    + intros x Hxx. rewrite Hx by lia. apply load8_store8_ne. lia.
Qed.

(** ** Conversions *)

Lemma scan_digits_run ds c pos m : Forall digit ds -> is_digit c = false -> dec_value 0 ds < 2 ^ 63 ->
  0 <= pos -> pos + Z.of_nat (length ds) < n -> bytes_at m (inp + pos) (ds ++ [c]) ->
  scan_digits inp n pos m = Ok (dec_value 0 ds, pos + Z.of_nat (length ds)) m.
Proof. intros. apply (digit_loop ds c); try done; unfold scan_fuel; lia. Qed.

Lemma scan_number_run long v vl dst pos m c : - 2 ^ 63 < v < 2 ^ 63 -> is_digit c = false ->
  0 <= pos -> pos + Z.of_nat (length (dec_text v)) < n -> bytes_at m (inp + pos) (dec_text v ++ [c]) ->
  scan_number inp n long (dst :: vl) pos m =
    Ok (vl, pos + Z.of_nat (length (dec_text v))) (store_le (if long then 8 else 4)%nat m dst v).
Proof.
  intros Hv Hc Hp Hl Hm. unfold scan_number.
  destruct (dec_digits_spec 20 (Z.abs v)) as (Hd & Hval & (d & ds & Hds & _) & _); [lia|lia|].
  unfold dec_text in *. destruct (Z.ltb_spec v 0) as [Hneg|Hpos]; rewrite length_app in *; cbn [length app] in *.
  - destruct Hm as [H0 Hm]. unfold bind at 1.
    rewrite (proj1 (skip_blanks_stay pos m 45 ltac:(lia) H0 eq_refl)).
    unfold bind at 1. rewrite (peek_run pos m 45 ltac:(lia) H0). cbn [Z.eqb Pos.eqb].
    unfold bind at 1. rewrite (scan_digits_run (dec_digits 20 (Z.abs v)) c); [|done|done|lia|lia|lia|by rewrite Z.add_assoc].
    rewrite Hval. unfold bind, next_arg, put, modify, ret.
    replace (-1 * Z.abs v) with v by lia. do 2 f_equal. lia.
  - assert (digit d) as Hd0 by (rewrite Hds in Hd; by apply Forall_cons in Hd as [? _]).
    unfold digit in Hd0. assert (load8 m (inp + pos) = d) as H0 by (rewrite Hds in Hm; apply Hm).
    unfold bind at 1. rewrite (proj1 (skip_blanks_stay pos m d ltac:(lia) H0 ltac:(unfold is_blank; lia))).
    unfold bind at 1. rewrite (peek_run pos m d ltac:(lia) H0).
    rewrite (proj2 (Z.eqb_neq d 45)), (proj2 (Z.eqb_neq d 43)) by lia.
    unfold bind at 1. rewrite (scan_digits_run (dec_digits 20 (Z.abs v)) c); [|done|done|lia|lia|lia|done].
    rewrite Hval. unfold bind, next_arg, put, modify, ret.
    replace (1 * Z.abs v) with v by lia. done.
Qed.

End Runs.

(** A list of numbers, each an [int] or a [long], separated by commas. *)
Definition conv (long : bool) : list Z := if long then [37; 108; 100] else [37; 100].
Fixpoint format_of (vs : list (bool * Z)) : list Z :=
  match vs with
  | [] => []
  | [(b, _)] => conv b
  | (b, _) :: vs => conv b ++ 44 :: format_of vs
  end.
Fixpoint text_of (vs : list (bool * Z)) : list Z :=
  match vs with
  | [] => []
  | [(_, v)] => dec_text v
  | (_, v) :: vs => dec_text v ++ 44 :: text_of vs
  end.
Definition number_ok (x : bool * Z) : Prop :=
  if x.1 then - 2 ^ 63 < x.2 < 2 ^ 63 else - 2 ^ 31 <= x.2 < 2 ^ 31.

Lemma render_conv b v s vl : number_ok (b, v) ->
  render (conv b ++ s) false false (VNum v :: vl) = app (dec_text v) <$> render s false false vl.
Proof.
  unfold number_ok. simpl. intros Hv.
  destruct b; simpl; [rewrite s64_small by lia|rewrite s32_small by lia];
    by rewrite (proj2 (Z.eqb_neq _ _)) by lia.
Qed.

Lemma render_numbers vs : Forall number_ok vs ->
  render (format_of vs) false false ((fun x => VNum x.2) <$> vs) = Some (text_of vs).
Proof.
  induction vs as [|[b v] vs IH]; intros Hv; [done|]. apply Forall_cons in Hv as [Hv Hvs].
  destruct vs as [|[b' v'] vs].
  - simpl format_of. rewrite <- (app_nil_r (conv b)). simpl fmap. rewrite render_conv by done.
    simpl. by rewrite app_nil_r.
  - change (format_of ((b, v) :: (b', v') :: vs)) with (conv b ++ 44 :: format_of ((b', v') :: vs)).
    rewrite fmap_cons, render_conv by done.
    change (render (44 :: ?s) false false ?vl) with (cons 44 <$> render s false false vl).
    rewrite IH by done. done.
Qed.

(** Where the values go: outside the buffer, and apart from one another. *)
Definition width (b : bool) : Z := if b then 8 else 4.
Definition clear_of (p w q v : Z) : Prop := p + w <= q \/ q + v <= p.
Fixpoint outputs (inp n : Z) (vs : list (bool * Z)) (ps : list Z) : Prop :=
  match vs, ps with
  | [], [] => True
  | (b, _) :: vs, p :: ps =>
      clear_of p (width b) inp n /\
      Forall2 (fun x q => clear_of p (width b) q (width x.1)) vs ps /\ outputs inp n vs ps
  | _, _ => False
  end.

Definition holds (m : bytes) (x : bool * Z) (p : Z) : Prop :=
  if x.1 then s64 (load64 m p) = x.2 else s32 (load32 m p) = x.2.

Lemma holds_store b v p m : number_ok (b, v) ->
  holds (store_le (if b then 8 else 4)%nat m p v) (b, v) p.
Proof.
  unfold number_ok, holds. simpl. intros Hv. destruct b; rewrite load_store_le_eq.
  - unfold s64. change (256 ^ Z.of_nat 8) with (2 ^ 64). dlia.
  - unfold s32. change (256 ^ Z.of_nat 4) with (2 ^ 32). dlia.
Qed.

Lemma holds_frame m m' b v p : (forall x, p <= x < p + width b -> load8 m' x = load8 m x) ->
  holds m (b, v) p -> holds m' (b, v) p.
Proof.
  unfold holds, width. simpl. intros Hm. destruct b; intros <-; f_equal; apply load_le_ext;
    intros i Hi; apply Hm; lia.
Qed.

Section Numbers.
Context (inp n : Z).

Lemma run_conv b v s cnt dst vl pos m c : number_ok (b, v) -> is_digit c = false ->
  0 <= pos -> pos + Z.of_nat (length (dec_text v)) < n -> bytes_at m (inp + pos) (dec_text v ++ [c]) ->
  run_scan inp n (conv b ++ s) (ScanState false false cnt pos (dst :: vl)) m =
  run_scan inp n s (ScanState false false (cnt + 1) (pos + Z.of_nat (length (dec_text v))) vl)
    (store_le (if b then 8 else 4)%nat m dst v).
Proof.
  intros Hv Hc Hp Hl Hm.
  assert (- 2 ^ 63 < v < 2 ^ 63) as Hr by (destruct b; unfold number_ok in Hv; simpl in Hv; lia).
  assert ((n <=? pos) = false) as Hn by (apply Z.leb_gt; lia).
  assert ((pos <? n) = true) as Hn' by (apply Z.ltb_lt; lia).
  destruct b; cbn [conv app run_scan scan_step]; unfold bind, ret; cbn; rewrite Hn, ?Hn', ?Hn; cbn;
    rewrite ?Hn, ?Hn'; unfold bind;
    rewrite (scan_number_run inp n _ v vl dst pos m c) by done; cbn -[dec_text];
    by rewrite (proj2 (Z.leb_gt n (pos + Z.of_nat (length (dec_text v))))) by lia.
Qed.

Lemma run_comma s cnt vl pos m : 0 <= pos -> pos + 1 < n -> load8 m (inp + pos) = 44 ->
  run_scan inp n (44 :: s) (ScanState false false cnt pos vl) m =
  run_scan inp n s (ScanState false false cnt (pos + 1) vl) m.
Proof.
  intros Hp Hl Hm. cbn [run_scan scan_step Z.eqb Pos.eqb]. unfold bind.
  rewrite (proj2 (skip_blanks_stay inp n pos m 44 ltac:(lia) Hm eq_refl)).
  rewrite (proj2 (Z.leb_gt n pos)) by lia. rewrite (peek_run inp n pos m 44 ltac:(lia) Hm). cbn.
  by rewrite (proj2 (Z.leb_gt n (pos + 1))) by lia.
Qed.

Lemma run_numbers vs : forall ps cnt pos m, vs <> [] -> Forall number_ok vs -> outputs inp n vs ps ->
  0 <= pos -> pos + Z.of_nat (length (text_of vs)) < n -> bytes_at m (inp + pos) (text_of vs ++ [0]) ->
  exists m', run_scan inp n (format_of vs) (ScanState false false cnt pos ps) m =
      Ok (cnt + Z.of_nat (length vs)) m' /\
    Forall2 (holds m') vs ps /\
    (forall x, Forall2 (fun y p => x < p \/ p + width y.1 <= x) vs ps -> load8 m' x = load8 m x).
Proof.
  induction vs as [|[b v] vs IH]; intros ps cnt pos m Hne Hok Hout Hp Hl Hm; [done|].
  destruct ps as [|dst ps]; [done|]. destruct Hout as (Hclear & Happ & Hout).
  apply Forall_cons in Hok as [Hv Hok].
  assert (forall k x, (if b then 8 else 4)%nat = k -> x < dst \/ dst + width b <= x ->
    load8 (store_le k m dst v) x = load8 m x) as Hst.
  { intros k x <- Hx. apply load8_store_le_ne. unfold width in Hx. destruct b; lia. }
  destruct vs as [|[b' v'] vs].
  - destruct ps; [|done]. simpl format_of. simpl text_of in *. rewrite <- (app_nil_r (conv b)).
    rewrite (run_conv b v [] cnt dst [] pos m 0) by done. cbn [run_scan]. eexists. split; [done|].
    split; [constructor; [by apply holds_store|constructor]|].
    intros x [Hx _]%Forall2_cons. by apply Hst.
  - change (text_of ((b, v) :: (b', v') :: vs)) with (dec_text v ++ 44 :: text_of ((b', v') :: vs)) in *.
    change (format_of ((b, v) :: (b', v') :: vs)) with (conv b ++ 44 :: format_of ((b', v') :: vs)).
    rewrite length_app in Hl. cbn [length] in Hl. rewrite <- app_assoc in Hm.
    apply bytes_at_app in Hm as [Hm1 [Hm2 Hm3]].
    rewrite (run_conv b v _ cnt dst ps pos m 44) by (done || lia || (apply bytes_at_app; done)).
    set (m1 := store_le _ m dst v).
    assert (forall x, inp <= x < inp + n -> load8 m1 x = load8 m x) as Hin.
    { intros x Hx. apply Hst; [done|]. destruct Hclear; lia. }
    rewrite run_comma; [|lia|lia|rewrite Hin by lia; by rewrite Z.add_assoc].
    destruct (IH ps (cnt + 1) (pos + Z.of_nat (length (dec_text v)) + 1) m1)
      as (m' & Hr & Hh & Hf); [done|done|done|lia|lia| |].
    { apply (bytes_at_frame m); [|by rewrite !Z.add_assoc].
      intros x Hx. apply Hin. rewrite length_app in Hx. cbn [length] in Hx. lia. }
    exists m'. split; [rewrite Hr; f_equal; cbn [length]; lia|]. split.
    + constructor; [|done]. apply (holds_frame m1); [|by apply holds_store].
      intros x Hx. apply Hf. eapply Forall2_impl; [exact Happ|]. intros y q Hq. unfold clear_of in Hq. lia.
    + intros x [Hx Hxs]%Forall2_cons. rewrite Hf by done. by apply Hst.
Qed.

End Numbers.

Lemma bytes_at_intro m l : forall a,
  (forall i c, l !! i = Some c -> load8 m (a + Z.of_nat i) = c) -> bytes_at m a l.
Proof.
  induction l as [|b l IH]; intros a H; [done|]. split; [by rewrite <- (H 0%nat b), Z.add_0_r by done|].
  apply IH. intros i c Hi. rewrite <- (H (S i) c) by done. f_equal. lia.
Qed.

Lemma text_of_bytes vs c : Forall number_ok vs -> c ∈ text_of vs -> 0 < c < 256.
Proof.
  induction vs as [|[b v] vs IH]; intros Hok; [by intros ?%not_elem_of_nil|].
  apply Forall_cons in Hok as [Hv Hok].
  assert (- 2 ^ 63 < v < 2 ^ 63) by (destruct b; unfold number_ok in Hv; simpl in Hv; lia).
  destruct vs as [|x vs]; [by apply dec_text_bytes|].
  change (text_of ((b, v) :: x :: vs)) with (dec_text v ++ 44 :: text_of (x :: vs)).
  rewrite elem_of_app, elem_of_cons. intros [Hc|[->|Hc]]; [by apply (dec_text_bytes v)|lia|by apply IH].
Qed.

Lemma dec_text_nonempty v : - 2 ^ 63 < v < 2 ^ 63 -> (0 < length (dec_text v))%nat.
Proof.
  intros Hv. destruct (dec_digits_spec 20 (Z.abs v)) as (_ & _ & (c & l & Hc & _) & _); [lia|lia|].
  unfold dec_text. rewrite Hc, length_app. simpl. lia.
Qed.

Lemma dec_text_head v d t : - 2 ^ 63 < v < 2 ^ 63 -> dec_text v = d :: t -> d = 45 \/ digit d.
Proof.
  intros Hv. destruct (dec_digits_spec 20 (Z.abs v)) as (Hd & _ & (c & l & Hc & _) & _); [lia|lia|].
  unfold dec_text. rewrite Hc. rewrite Hc in Hd. apply Forall_cons in Hd as [Hd _].
  destruct (v <? 0); intros [= <- _]; [by left|by right].
Qed.

(** There are no more numbers than characters. *)
Lemma text_length vs : Forall number_ok vs -> (length vs <= length (text_of vs))%nat.
Proof.
  induction vs as [|[b v] vs IH]; intros Hok; [done|].
  apply Forall_cons in Hok as [Hv Hok].
  assert (- 2 ^ 63 < v < 2 ^ 63) as Hr by (destruct b; unfold number_ok in Hv; simpl in Hv; lia).
  pose proof (dec_text_nonempty v Hr). destruct vs as [|x vs]; [simpl; lia|].
  change (text_of ((b, v) :: x :: vs)) with (dec_text v ++ 44 :: text_of (x :: vs)).
  specialize (IH Hok). rewrite length_app. cbn [length] in *. lia.
Qed.

(** ** Properties *)

(** C32: a list of [int]s and [long]s (the least [long] apart) printed with [vsnprintf] in
    decimal and separated by commas is read back by [vsnscanf] with the same format:
    it returns the number of values, and each value is stored where its pointer says,
    in the 4 or 8 bytes of its type.  Nothing else is written. *)
Theorem print_scan_roundtrip buf n vs ps m0 :
  vs <> [] -> Forall number_ok vs -> outputs buf n vs ps ->
  Z.of_nat (length (text_of vs)) < n -> n < 2 ^ 31 ->
  exists m m', vsnprintf buf n (format_of vs) ((fun x => VNum x.2) <$> vs) m0 =
      Some (Z.of_nat (length (text_of vs)), m) /\
    vsnscanf buf n (format_of vs) ps m = Ok (Z.of_nat (length vs)) m' /\
    Forall2 (holds m') vs ps /\
    (forall x, Forall2 (fun y p => x < p \/ p + width y.1 <= x) vs ps -> load8 m' x = load8 m x).
Proof.
  intros Hne Hok Hout Hl Hn. pose proof (render_numbers vs Hok) as Hr.
  destruct (vsnprintf_run buf n m0 _ _ _ Hr) as (m & Hv & Hc & He & _); [right; lia|lia|].
  rewrite s32_small in Hv by lia.
  assert (bytes_at m (buf + 0) (text_of vs ++ [0])) as Hm.
  { rewrite Z.add_0_r. apply bytes_at_intro. intros i c Hi.
    destruct (Nat.lt_ge_cases i (length (text_of vs))) as [Hlt|Hge].
    - rewrite lookup_app_l in Hi by done. rewrite (Hc i c) by (done || lia).
      pose proof (text_of_bytes vs c Hok (list_elem_of_lookup_2 _ _ _ Hi)). unfold u8. apply Z.mod_small. lia.
    - rewrite lookup_app_r in Hi by done. apply list_lookup_singleton_Some in Hi as [Hi <-].
      rewrite <- He by lia. f_equal. lia. }
  destruct (run_numbers buf n vs ps 0 0 m) as (m' & Hs & Hh & Hf); [done|done|done|lia|lia|done|].
  exists m, m'. split_and!; [done| |done|done]. unfold vsnscanf, bind. rewrite Hs.
  pose proof (text_length vs Hok). unfold ret. rewrite s32_small by lia. done.
Qed.

(** "-7,9000000000,42" with an [int], a [long] and an [int]. *)
Lemma print_scan_roundtrip_witness :
  let vs := [(false, -7); (true, 9000000000); (false, 42)] in
  exists m m', vsnprintf 100 32 (format_of vs) ((fun x => VNum x.2) <$> vs) ∅ = Some (16, m) /\
    vsnscanf 100 32 (format_of vs) [200; 208; 216] m = Ok 3 m' /\
    Forall2 (holds m') vs [200; 208; 216] /\
    (forall x, Forall2 (fun y p => x < p \/ p + width y.1 <= x) vs [200; 208; 216] ->
       load8 m' x = load8 m x).
Proof.
  apply (print_scan_roundtrip 100 32 [(false, -7); (true, 9000000000); (false, 42)] [200; 208; 216] ∅).
  - done.
  - repeat constructor; vm_compute; intuition discriminate.
  - repeat constructor; unfold clear_of, width; simpl; lia.
  - vm_compute. reflexivity.
  - lia.
Defined.

(** [%s] reads one word: after any blanks, the characters up to the next blank,
    newline or NUL are copied to the argument and ended with a NUL, the result is 1,
    and no other byte of memory changes. *)
Theorem scan_word_correct buf n bs w c dst m :
  Forall (fun b => is_blank b = true) bs -> Forall (fun b => 0 <= b < 256 /\ ends_word b = false) w ->
  ends_word c = true -> w <> [] \/ is_blank c = false ->
  bytes_at m buf (bs ++ w ++ [c]) -> Z.of_nat (length (bs ++ w)) < n ->
  clear_of dst (Z.of_nat (length w) + 1) buf n ->
  exists m', vsnscanf buf n [37; 115] [dst] m = Ok 1 m' /\
    bytes_at m' dst (w ++ [0]) /\
    (forall x, x < dst \/ dst + Z.of_nat (length w) < x -> load8 m' x = load8 m x).
Proof.
  intros Hbs Hw Hc Hwc Hm Hl Hd. rewrite length_app in Hl.
  assert (exists d rest, w ++ [c] = d :: rest /\ is_blank d = false) as (d & rest & Hdr & Hdb).
  { destruct w as [|d w]; [exists c, []; split; [done|by destruct Hwc]|].
    exists d, (w ++ [c]). split; [done|]. apply Forall_cons in Hw as [[_ Hd0] _].
    unfold ends_word in Hd0. by apply orb_false_iff in Hd0 as [_ ?]. }
  apply bytes_at_app in Hm as [Hm1 Hm2].
  destruct (blank_loop buf n bs d (scan_fuel n) 0 m) as [Hsk _]; [done|done|lia|lia|unfold scan_fuel; lia| |].
  { rewrite Z.add_0_r. apply bytes_at_app. split; [done|]. rewrite Hdr in Hm2. split; [apply Hm2|done]. }
  destruct (word_loop buf n w c (scan_fuel n) dst (Z.of_nat (length bs)) m) as (m' & Hr & Hm' & Hx);
    [done|done|lia|lia|unfold scan_fuel; lia|done|unfold clear_of in Hd; lia|].
  exists m'. split_and!; [|done|done].
  unfold vsnscanf, bind at 1. cbn [run_scan scan_step Z.eqb Pos.eqb]. unfold bind at 1, ret at 1. cbn [sc_pos].
  rewrite (proj2 (Z.leb_gt n 0)) by lia. cbn [scan_step Z.eqb Pos.eqb next_arg]. unfold bind, ret.
  change (skip_blanks buf n 0 m = Ok (0 + Z.of_nat (length bs)) m) in Hsk.
  change (scan_word buf n dst (Z.of_nat (length bs)) m = Ok (Z.of_nat (length bs) + Z.of_nat (length w)) m') in Hr.
  rewrite Hsk, Z.add_0_l, Hr. cbn [sc_pos sc_cnt].
  by rewrite (proj2 (Z.leb_gt n (Z.of_nat (length bs) + Z.of_nat (length w)))) by lia.
Qed.

Lemma scan_word_correct_witness :
  exists m', vsnscanf 100 8 [37; 115] [200] (store8 (store8 (store8 ∅ 100 32) 101 104) 102 105) = Ok 1 m' /\
    bytes_at m' 200 [104; 105; 0] /\
    (forall x, x < 200 \/ 200 + 2 < x ->
       load8 m' x = load8 (store8 (store8 (store8 ∅ 100 32) 101 104) 102 105) x).
Proof.
  apply (scan_word_correct 100 8 [32] [104; 105] 0 200).
  - repeat constructor.
  - repeat constructor; vm_compute; intuition discriminate.
  - reflexivity.
  - left. discriminate.
  - repeat constructor.
  - vm_compute. reflexivity.
  - right. vm_compute. discriminate.
Defined.

(** A blank in a format matches nothing.  [vsnscanf] skips the blanks of the
    input before it compares, so that the blank of the format is compared with a
    character that is not one: reading two numbers with "%d %d" from a text that has
    both always stops after the first. *)
Theorem blank_in_format_stops buf n v w p q m :
  - 2 ^ 31 <= v < 2 ^ 31 -> - 2 ^ 31 <= w < 2 ^ 31 ->
  bytes_at m buf (dec_text v ++ 32 :: dec_text w ++ [0]) ->
  Z.of_nat (length (dec_text v ++ 32 :: dec_text w)) < n ->
  clear_of p 4 buf n ->
  vsnscanf buf n [37; 100; 32; 37; 100] [p; q] m = Ok 1 (store32 m p v).
Proof.
  intros Hv Hw Hm Hl Hp. rewrite length_app in Hl. cbn [length] in Hl.
  pose proof (dec_text_nonempty w ltac:(lia)) as Hwl.
  destruct (dec_text w) as [|d t] eqn:Hd; [simpl in Hwl; lia|].
  apply bytes_at_app in Hm as [Hm1 [Hm2 [Hm3 _]]]. cbn [length app] in *.
  assert (0 < d < 256 /\ is_blank d = false /\ d <> 32) as (Hd1 & Hd2 & Hd3).
  { destruct (dec_text_head w d t ltac:(lia) Hd) as [->|Hg]; [done|]. unfold digit in Hg. unfold is_blank. lia. }
  unfold vsnscanf, bind.
  change [37; 100; 32; 37; 100] with (conv false ++ [32; 37; 100]).
  rewrite (run_conv buf n false v _ 0 p [q] 0 m 32); [|done|done|lia|lia|rewrite Z.add_0_r; by apply bytes_at_app].
  set (m1 := store_le 4 m p v).
  assert (forall x, buf <= x < buf + n -> load8 m1 x = load8 m x) as Hin.
  { intros x Hx. apply load8_store_le_ne. unfold clear_of in Hp. lia. }
  cbn [run_scan scan_step Z.eqb Pos.eqb]. unfold bind at 1.
  destruct (blank_loop buf n [32] d (scan_fuel n) (0 + Z.of_nat (length (dec_text v))) m1) as [_ Hsk];
    [by repeat constructor|done|lia|simpl; lia|unfold scan_fuel; simpl; lia| |].
  { split; [by rewrite Hin, Z.add_0_l by lia|]. split; [|done]. rewrite Hin, Z.add_0_l by lia. done. }
  unfold bind. unfold skip_blanks_lt. rewrite Hsk. cbn [length].
  rewrite (proj2 (Z.leb_gt _ _)) by lia.
  rewrite (peek_run buf n _ m1 d); [|lia|rewrite Hin by lia; rewrite <- Hm3; f_equal; lia].
  rewrite (proj2 (Z.eqb_neq d 32)) by done. done.
Qed.

(** "1 2". *)
Lemma blank_in_format_stops_witness :
  let m := store8 (store8 (store8 ∅ 100 49) 101 32) 102 50 in
  vsnscanf 100 8 [37; 100; 32; 37; 100] [200; 204] m = Ok 1 (store32 m 200 1).
Proof.
  apply (blank_in_format_stops 100 8 1 2 200 204).
  - lia.
  - lia.
  - vm_compute. repeat constructor.
  - vm_compute. reflexivity.
  - right. vm_compute. discriminate.
Defined.
