(* ===== verification/Dwarf.v ===== *)
(** * DWARF line tables (kernel/elf.c: read_uleb128 ... make_addr_line)

    The [.debug_line] section of an application is read into [debug_line_buf] of
    the hart; [make_addr_line] runs the line-number programs of its compilation
    units and builds, behind the section in the same buffer, the tables of
    directories, files and rows (address, line, file).  The section is read byte
    by byte through a moving pointer, here an address that is passed along; an
    access outside the buffer of the hart is an undefined access.  Every loop
    reads a byte in each round, so the size of the buffer bounds all of them. *)

From S2P Require Import Prelude Mem StringLib.
From stdpp Require Import base gmap list fin_maps.
From Stdlib Require Import ZArith Lia Bool.

Set Default Goal Selector "!".
Open Scope Z_scope.

Definition MAX_DEBUG_LINE_SIZE : Z := 0x10000.

(** [debug_header], packed: the offsets of the fields the code uses. *)
Definition DH_MIN_INSTRUCTION_LENGTH : Z := 10.
Definition DH_LINE_BASE : Z := 12.
Definition DH_LINE_RANGE : Z := 13.
Definition DH_OPCODE_BASE : Z := 14.
Definition SIZEOF_DEBUG_HEADER : Z := 27.

(** [code_file] and [addr_line]. *)
Definition SIZEOF_CODE_FILE : Z := 16.
Definition SIZEOF_ADDR_LINE : Z := 24.

Definition s8 (x : Z) : Z := (x + 2 ^ 7) mod 2 ^ 8 - 2 ^ 7.

Record addr_line : Type := AddrLine { al_addr : Z; al_line : Z; al_file : Z }.

(** [p->dir], [p->file] and [p->line]. *)
Record line_tables : Type := LineTables { t_dir : Z; t_file : Z; t_line : Z }.

Section Buffer.
  (** The address of [debug_line_buf[hartid]]. *)
  Context (buf : Z).

Definition in_buf (a n : Z) : bool := (buf <=? a) && (a + n <=? buf + MAX_DEBUG_LINE_SIZE).

Definition rd8 (a : Z) : M bytes Z := fun m => if in_buf a 1 then Ok (load8 m a) m else Fault.
Definition rd64 (a : Z) : M bytes Z := fun m => if in_buf a 8 then Ok (load64 m a) m else Fault.
Definition wr64 (a v : Z) : M bytes unit := fun m =>
  if in_buf a 8 then Ok tt (store64 m a v) else Fault.

(** Rounds for the loops over the section. *)
Definition ROUNDS : nat := Z.to_nat (MAX_DEBUG_LINE_SIZE + 1).

(** ** Numbers *)

(** One byte of a LEB128 number, with the value so far and its shift.  C leaves a
    shift of a 64-bit value by 64 or more undefined. *)
Definition leb128_round (x : Z * Z * Z) : M bytes (Z * Z * Z + Z * Z * Z * Z) :=
  let '(value, shift, off) := x in
  let* b := rd8 off in
  if 64 <=? shift then fault
  else
    let value := Z.lor value (u64 (Z.shiftl (Z.land b 0x7F) shift)) in
    let shift := shift + 7 in
    if Z.land b 0x80 =? 0 then ret (inr (value, shift, b, off + 1))
    else ret (inl (value, shift, off + 1)).

(** The value and the new position. *)
Definition read_uleb128 (off : Z) : M bytes (Z * Z) :=
  let* (value, _, _, off) := loop 12 leb128_round (0, 0, off) in
  ret (value, off).

(** [1 << shift] is an [int]: undefined from 31 on. *)
Definition read_sleb128 (off : Z) : M bytes (Z * Z) :=
  let* (value, shift, b, off) := loop 12 leb128_round (0, 0, off) in
  let value := s64 value in
  if (shift <? 64) && negb (Z.land b 0x40 =? 0) then
    if 31 <=? shift then fault
    else ret (Z.lor value (- Z.shiftl 1 shift), off)
  else ret (value, off).

(** [read_uint64], [read_uint32] and [read_uint16] with [n] = 8, 4, 2. *)
Fixpoint read_uint_loop (n : nat) (i out off : Z) : M bytes (Z * Z) :=
  match n with
  | O => ret (out, off)
  | S n =>
      let* b := rd8 off in
      read_uint_loop n (i + 1) (Z.lor out (Z.shiftl b (Z.shiftl i 3))) (off + 1)
  end.
Definition read_uint64 (off : Z) : M bytes (Z * Z) := read_uint_loop 8 0 0 off.
Definition read_uint32 (off : Z) : M bytes (Z * Z) := read_uint_loop 4 0 0 off.
Definition read_uint16 (off : Z) : M bytes (Z * Z) := read_uint_loop 2 0 0 off.

(** ** Names *)

(** Moves to the 0 that ends a name. *)
Definition skip_name (off : Z) : M bytes Z :=
  loop ROUNDS (fun off =>
    let* b := rd8 off in
    if b =? 0 then ret (inr off) else ret (inl (off + 1))) off.

(** The directories of a compilation unit: the new index and position. *)
Definition read_dirs (t : line_tables) (x : Z * Z) : M bytes (Z * Z) :=
  loop ROUNDS (fun '(dir_ind, off) =>
    let* b := rd8 off in
    if b =? 0 then ret (inr (dir_ind, off))
    else
      wr64 (t_dir t + 8 * dir_ind) off ;;;
      let* off := skip_name off in
      ret (inl (dir_ind + 1, off + 1))) x.

(** Its files; each has the number of its directory and two numbers that are
    skipped. *)
Definition read_files (t : line_tables) (dir_base : Z) (x : Z * Z) : M bytes (Z * Z) :=
  loop ROUNDS (fun '(file_ind, off) =>
    let* b := rd8 off in
    if b =? 0 then ret (inr (file_ind, off))
    else
      wr64 (t_file t + SIZEOF_CODE_FILE * file_ind + 8) off ;;;
      let* off := skip_name off in
      let* (dir, off) := read_uleb128 (off + 1) in
      wr64 (t_file t + SIZEOF_CODE_FILE * file_ind) (u64 (dir - 1 + dir_base)) ;;;
      let* (_, off) := read_uleb128 off in
      let* (_, off) := read_uleb128 off in
      ret (inl (file_ind + 1, off))) x.

(** ** The line-number program *)

(** A row is appended, in place of the last one if that has the same address. *)
Definition add_row (t : line_tables) (file_base : Z) (regs : addr_line) (line_ind : Z) : M bytes Z :=
  let* same :=
    if 0 <? line_ind then
      (let* a := rd64 (t_line t + SIZEOF_ADDR_LINE * (line_ind - 1)) in ret (a =? al_addr regs))
    else ret false in
  let line_ind := if (same : bool) then line_ind - 1 else line_ind in
  let row := t_line t + SIZEOF_ADDR_LINE * line_ind in
  wr64 row (al_addr regs) ;;;
  wr64 (row + 8) (al_line regs) ;;;
  wr64 (row + 16) (al_file regs) ;;;
  let* f := rd64 (row + 16) in
  wr64 (row + 16) (u64 (f + (file_base - 1))) ;;;
  ret (line_ind + 1).

(** One instruction; [dh] is the address of the header.  [inr] at the end of the
    sequence. *)
Definition line_op (t : line_tables) (file_base dh : Z) (x : addr_line * Z * Z)
    : M bytes (addr_line * Z * Z + Z * Z) :=
  let '(regs, line_ind, off) := x in
  let '(AddrLine addr line file) := regs in
  let* op := rd8 off in
  let off := off + 1 in
  match op with
  | 0 =>
      let* (_, off) := read_uleb128 off in
      let* op := rd8 off in
      let off := off + 1 in
      match op with
      | 1 =>
          let* line_ind := add_row t file_base regs line_ind in
          ret (inr (line_ind, off))
      | 2 =>
          let* (addr, off) := read_uint64 off in
          ret (inl (AddrLine addr line file, line_ind, off))
      | 4 =>
          let* (_, off) := read_uleb128 off in
          ret (inl (regs, line_ind, off))
      | _ => ret (inl (regs, line_ind, off))
      end
  | 1 =>
      let* line_ind := add_row t file_base regs line_ind in
      ret (inl (regs, line_ind, off))
  | 2 =>
      let* (delta, off) := read_uleb128 off in
      let* min := rd8 (dh + DH_MIN_INSTRUCTION_LENGTH) in
      ret (inl (AddrLine (u64 (addr + u64 (delta * min))) line file, line_ind, off))
  | 3 =>
      let* (delta, off) := read_sleb128 off in
      ret (inl (AddrLine addr (u64 (line + delta)) file, line_ind, off))
  | 4 =>
      let* (file, off) := read_uleb128 off in
      ret (inl (AddrLine addr line file, line_ind, off))
  | 5 =>
      let* (_, off) := read_uleb128 off in
      ret (inl (regs, line_ind, off))
  | 6 | 7 => ret (inl (regs, line_ind, off))
  | 8 =>
      let* base := rd8 (dh + DH_OPCODE_BASE) in
      let* range := rd8 (dh + DH_LINE_RANGE) in
      let* min := rd8 (dh + DH_MIN_INSTRUCTION_LENGTH) in
      let adjust := 255 - base in
      if range =? 0 then fault
      else
        let delta := Z.quot adjust range * min in
        ret (inl (AddrLine (u64 (addr + delta)) line file, line_ind, off))
  | 9 =>
      let* (delta, off) := read_uint16 off in
      ret (inl (AddrLine (u64 (addr + delta)) line file, line_ind, off))
  | _ =>
      let* base := rd8 (dh + DH_OPCODE_BASE) in
      let* range := rd8 (dh + DH_LINE_RANGE) in
      let* min := rd8 (dh + DH_MIN_INSTRUCTION_LENGTH) in
      let* line_base := rd8 (dh + DH_LINE_BASE) in
      let adjust := op - base in
      if range =? 0 then fault
      else
        let addr_delta := Z.quot adjust range * min in
        let line_delta := s8 line_base + Z.rem adjust range in
        let regs := AddrLine (u64 (addr + addr_delta)) (u64 (line + line_delta)) file in
        let* line_ind := add_row t file_base regs line_ind in
        ret (inl (regs, line_ind, off))
  end.

Definition run_program (t : line_tables) (file_base dh : Z) (x : addr_line * Z * Z)
    : M bytes (Z * Z) :=
  loop ROUNDS (line_op t file_base dh) x.

(** One compilation unit: the new indices and position. *)
Definition read_unit (t : line_tables) (x : Z * Z * Z * Z) : M bytes (Z * Z * Z * Z) :=
  let '(dir_ind, file_ind, line_ind, off) := x in
  let dh := off in
  let dir_base := dir_ind in
  let file_base := file_ind in
  let* (dir_ind, off) := read_dirs t (dir_ind, off + SIZEOF_DEBUG_HEADER) in
  let* (file_ind, off) := read_files t dir_base (file_ind, off + 1) in
  let* (line_ind, off) := run_program t file_base dh (AddrLine 0 1 1, line_ind, off + 1) in
  ret (dir_ind, file_ind, line_ind, off).

(** The tables behind the section, 64 directories and 64 files, and then rows. *)
Definition tables_behind (debug_line length : Z) : line_tables :=
  let dir := Z.shiftl (Z.shiftr (debug_line + length + 7) 3) 3 in
  let file := dir + 8 * 64 in
  LineTables dir file (file + SIZEOF_CODE_FILE * 64).

(** One round of the loop over the units, up to the end of the section. *)
Definition unit_round (t : line_tables) (stop : Z) (x : Z * Z * Z * Z)
    : M bytes (Z * Z * Z * Z + Z * Z * Z * Z) :=
  let '(dir_ind, file_ind, line_ind, off) := x in
  if off <? stop then
    let* x := read_unit t (dir_ind, file_ind, line_ind, off) in ret (inl x)
  else ret (inr (dir_ind, file_ind, line_ind, off)).

(** The tables and the number of rows, [p->line_ind]. *)
Definition make_addr_line (debug_line length : Z) : M bytes (line_tables * Z) :=
  let t := tables_behind debug_line length in
  let* (_, _, line_ind, _) := loop ROUNDS (unit_round t (debug_line + length)) (0, 0, 0, debug_line) in
  ret (t, line_ind).

End Buffer.

(** ** Encodings

    The reader of LEB128 numbers inverts the writer that DWARF specifies: groups
    of seven bits, the lowest first, with the high bit set on all but the last. *)

(** The groups of a number, lowest first, and the bytes that carry them. *)
Fixpoint gval (gs : list Z) : Z :=
  match gs with [] => 0 | g :: gs => g + 128 * gval gs end.
Fixpoint leb_bytes (gs : list Z) : list Z :=
  match gs with
  | [] => []
  | [g] => [g]
  | g :: gs => (128 + g) :: leb_bytes gs
  end.

Fixpoint ugroups (k : nat) (n : Z) : list Z :=
  match k with
  | O => [n]
  | S k => if n <? 128 then [n] else n mod 128 :: ugroups k (n / 128)
  end.
Fixpoint sgroups (k : nat) (n : Z) : list Z :=
  match k with
  | O => [n mod 128]
  | S k => if (-64 <=? n) && (n <? 64) then [n mod 128] else n mod 128 :: sgroups k (n / 128)
  end.

(** The encodings of 64-bit numbers. *)
Definition uleb (n : Z) : list Z := leb_bytes (ugroups 9 n).
Definition sleb (n : Z) : list Z := leb_bytes (sgroups 9 n).

Lemma leb_last n : 0 <= n < 128 -> Z.land n 0x7F = n /\ (Z.land n 0x80 =? 0) = true.
Proof.
  intros Hn. change 0x7F with (Z.ones 7). rewrite Z.land_ones, Z.mod_small by lia. split; [done|].
  apply Z.eqb_eq. change 0x80 with (2 ^ 7). apply Z.bits_inj'. intros i Hi.
  rewrite Z.land_spec, Z.bits_0, Z.pow2_bits_eqb by lia. destruct (Z.eqb_spec 7 i) as [<-|]; [|apply andb_false_r].
  rewrite <- (Z.mod_small n (2 ^ 7)), Z.mod_pow2_bits_high by lia. done.
Qed.

Lemma leb_more n : 0 <= n < 128 ->
  Z.land (128 + n) 0x7F = n /\ (Z.land (128 + n) 0x80 =? 0) = false.
Proof.
  intros Hn. change 0x7F with (Z.ones 7). rewrite Z.land_ones by lia. split; [dlia|].
  apply Z.eqb_neq. rewrite <- (lor_disjoint 128 n 7) by (done || lia).
  rewrite Z.land_lor_distr_l. destruct (leb_last n Hn) as [_ ->%Z.eqb_eq]. done.
Qed.

Section Leb.
  Context (buf : Z).

Lemma in_buf_le a n : in_buf buf a n = true <-> buf <= a /\ a + n <= buf + MAX_DEBUG_LINE_SIZE.
Proof. unfold in_buf. by rewrite andb_true_iff, !Z.leb_le. Qed.

Lemma in_buf_part a n d k : in_buf buf a n = true -> 0 <= d -> d + k <= n ->
  in_buf buf (a + d) k = true.
Proof. unfold in_buf. lia. Qed.

Lemma rd8_run a m b : in_buf buf a 1 = true -> load8 m a = b -> rd8 buf a m = Ok b m.
Proof. intros H <-. unfold rd8. by rewrite H. Qed.

(** One byte: the value so far is below [2 ^ shift], and the byte adds its seven
    bits above. *)
Lemma leb_value value shift x : 0 <= value < 2 ^ shift -> 0 <= shift -> 0 <= x ->
  x * 2 ^ shift < 2 ^ 64 ->
  Z.lor value (u64 (Z.shiftl x shift)) = value + x * 2 ^ shift.
Proof.
  intros Hv Hs Hx Hb. rewrite Z.shiftl_mul_pow2, u64_small by lia.
  rewrite Z.lor_comm, (lor_disjoint _ _ shift); [lia|done| |done]. apply Z.mod_mul. lia.
Qed.

Lemma groups_run gs : forall fuel m off value shift rest,
  gs <> [] -> Forall (fun g => 0 <= g < 128) gs -> 0 <= value < 2 ^ shift -> 0 <= shift ->
  shift + 7 * (Z.of_nat (length gs) - 1) < 64 -> gval gs * 2 ^ shift < 2 ^ 64 ->
  bytes_at m off (leb_bytes gs ++ rest) -> in_buf buf off (Z.of_nat (length gs)) = true ->
  (length gs < fuel)%nat ->
  loop fuel (leb128_round buf) (value, shift, off) m =
    Ok (value + gval gs * 2 ^ shift, shift + 7 * Z.of_nat (length gs), default 0 (last gs),
        off + Z.of_nat (length gs)) m.
Proof.
  induction gs as [|g gs IH]; intros fuel m off value shift rest Hne Hg Hv Hs Hsh Hlt Hm Hin Hf; [done|].
  destruct fuel as [|fuel]; [lia|]. cbn [loop leb128_round].
  apply Forall_cons in Hg as [Hg Hgs].
  assert (0 <= gval gs) as Hpos.
  { clear -Hgs. induction Hgs; simpl; lia. }
  assert (g * 2 ^ shift < 2 ^ 64) as Hgb by (simpl in Hlt; nia).
  assert (in_buf buf off 1 = true) as Hin1
    by (replace off with (off + 0) by lia; eapply in_buf_part; [done|lia|simpl length; lia]).
  destruct gs as [|g2 gs].
  - simpl in Hm. destruct Hm as [Hb _]. destruct (leb_last g Hg) as [E1 E2].
    unfold bind at 1 2. rewrite (rd8_run _ _ _ Hin1 Hb). rewrite (proj2 (Z.leb_gt 64 shift)) by (simpl in Hsh; lia).
    rewrite E1, E2, leb_value by lia. simpl. rewrite Z.mul_0_r, Z.add_0_r. done.
  - destruct Hm as [Hb Hm]. destruct (leb_more g Hg) as [E1 E2].
    unfold bind at 1 2. rewrite (rd8_run _ _ _ Hin1 Hb).
    rewrite (proj2 (Z.leb_gt 64 shift)) by (simpl length in Hsh; lia).
    rewrite E1, E2, leb_value by lia. cbn [ret].
    assert (2 ^ (shift + 7) = 128 * 2 ^ shift) as Ep by (rewrite Z.pow_add_r by lia; lia).
    rewrite (IH fuel m (off + 1) _ (shift + 7) rest).
    + replace (value + g * 2 ^ shift + gval (g2 :: gs) * 2 ^ (shift + 7))
        with (value + gval (g :: g2 :: gs) * 2 ^ shift) by (rewrite Ep; simpl gval; lia).
      replace (shift + 7 + 7 * Z.of_nat (length (g2 :: gs)))
        with (shift + 7 * Z.of_nat (length (g :: g2 :: gs))) by (simpl length; lia).
      replace (off + 1 + Z.of_nat (length (g2 :: gs)))
        with (off + Z.of_nat (length (g :: g2 :: gs))) by (simpl length; lia).
      done.
    + done.
    + done.
    + rewrite Ep. nia.
    + lia.
    + simpl length in *. lia.
    + rewrite Ep. simpl gval in *. nia.
    + done.
    + apply in_buf_le in Hin. apply in_buf_le. simpl length in *. lia.
    + simpl length in *. lia.
Qed.

Lemma ugroups_spec k : forall n, 0 <= n < 2 ^ (7 * (Z.of_nat k + 1)) ->
  ugroups k n <> [] /\ Forall (fun g => 0 <= g < 128) (ugroups k n) /\ gval (ugroups k n) = n /\
  (length (ugroups k n) <= k + 1)%nat.
Proof.
  induction k as [|k IH]; intros n Hn; simpl.
  { change (7 * (Z.of_nat 0 + 1)) with 7 in Hn. repeat constructor; simpl; try done; lia. }
  destruct (Z.ltb_spec n 128).
  { split; [done|]. split; [repeat constructor; lia|]. simpl. split; lia. }
  destruct (IH (n / 128)) as (H1 & H2 & H3 & H4).
  { replace (7 * (Z.of_nat (S k) + 1)) with (7 * (Z.of_nat k + 1) + 7) in Hn by lia.
    rewrite Z.pow_add_r in Hn by lia. change (2 ^ 7) with 128 in Hn. dlia. }
  split; [done|]. split; [constructor; [dlia|done]|]. simpl. rewrite H3. split; [dlia|lia].
Qed.

Lemma leb_bytes_length gs : length (leb_bytes gs) = length gs.
Proof. induction gs as [|g [|g2 gs] IH]; [done|done|]. simpl in *. by rewrite IH. Qed.

Lemma read_uleb128_run n m off rest : 0 <= n < 2 ^ 64 ->
  bytes_at m off (uleb n ++ rest) -> in_buf buf off (Z.of_nat (length (uleb n))) = true ->
  read_uleb128 buf off m = Ok (n, off + Z.of_nat (length (uleb n))) m.
Proof.
  intros Hn Hm Hin. unfold uleb in *. rewrite leb_bytes_length in *.
  destruct (ugroups_spec 9 n ltac:(simpl; lia)) as (H1 & H2 & H3 & H4).
  unfold read_uleb128, bind. rewrite (groups_run (ugroups 9 n) 12 m off 0 0 rest) by (done || lia).
  rewrite H3. simpl. by rewrite Z.mul_1_r.
Qed.

(** The signed groups: two's complement in the bits there are, as few groups as
    possible, the sign in the last one. *)
Record signed_groups (n : Z) (gs : list Z) : Prop := {
  sg_some : gs <> [];
  sg_groups : Forall (fun g => 0 <= g < 128) gs;
  sg_val : gval gs = n mod 2 ^ (7 * Z.of_nat (length gs));
  sg_fits : - 2 ^ (7 * Z.of_nat (length gs) - 1) <= n < 2 ^ (7 * Z.of_nat (length gs) - 1);
  sg_least : (2 <= length gs)%nat ->
    n < - 2 ^ (7 * Z.of_nat (length gs) - 8) \/ 2 ^ (7 * Z.of_nat (length gs) - 8) <= n;
  sg_last : default 0 (last gs) = n / 2 ^ (7 * Z.of_nat (length gs) - 7) mod 128
}.

Lemma signed_groups_one n : -64 <= n < 64 -> signed_groups n [n mod 128].
Proof.
  intros Hn. constructor; simpl length; change (7 * Z.of_nat 1) with 7; try done.
  - repeat constructor; dlia.
  - simpl gval. change (2 ^ 7) with 128. lia.
  - simpl length. lia.
  - simpl. by rewrite Z.div_1_r.
Qed.

Lemma signed_groups_cons n gs : ~ (-64 <= n < 64) -> signed_groups (n / 128) gs ->
  signed_groups n (n mod 128 :: gs).
Proof.
  intros Hn [H1 H2 H3 H4 H5 H6].
  assert (1 <= length gs)%nat as Hlen by (destruct gs; simpl; [done|lia]).
  set (w := 7 * Z.of_nat (length gs)) in *.
  assert (7 * Z.of_nat (length (n mod 128 :: gs)) = w + 7) as Ew by (unfold w; simpl length; lia).
  assert (7 <= w) as Hw by (unfold w; lia).
  constructor; rewrite ?Ew.
  - done.
  - constructor; [dlia|done].
  - simpl. rewrite H3, Z.pow_add_r, (Z.mul_comm (2 ^ w)), Z.rem_mul_r by lia. done.
  - replace (w + 7 - 1) with (w - 1 + 7) by lia. rewrite Z.pow_add_r by lia.
    change (2 ^ 7) with 128. dlia.
  - intros _. replace (w + 7 - 8) with (w - 1) by lia.
    destruct (Nat.eq_dec (length gs) 1) as [E|E].
    + replace w with 7 by (unfold w; lia). change (2 ^ (7 - 1)) with 64. lia.
    + specialize (H5 ltac:(lia)). replace (w - 1) with (w - 8 + 7) by lia.
      rewrite Z.pow_add_r by (unfold w; lia). change (2 ^ 7) with 128. dlia.
  - replace (w + 7 - 7) with (7 + (w - 7)) by lia. rewrite Z.pow_add_r by lia.
    rewrite <- Z.div_div by lia. change (2 ^ 7) with 128. rewrite <- H6.
    by destruct gs.
Qed.

Lemma sgroups_spec k : forall n,
  - 2 ^ (7 * Z.of_nat (S k) - 1) <= n < 2 ^ (7 * Z.of_nat (S k) - 1) ->
  signed_groups n (sgroups k n) /\ (length (sgroups k n) <= S k)%nat.
Proof.
  induction k as [|k IH]; intros n Hn; simpl sgroups.
  { split; [by apply signed_groups_one|done]. }
  destruct (Z.leb_spec (-64) n), (Z.ltb_spec n 64); simpl.
  - split; [by apply signed_groups_one|lia].
  - destruct (IH (n / 128)) as [H1 H2]; [|split; [apply signed_groups_cons; [lia|done]|simpl; lia]].
    replace (7 * Z.of_nat (S (S k)) - 1) with (7 * Z.of_nat (S k) - 1 + 7) in Hn by lia.
    rewrite Z.pow_add_r in Hn by lia. change (2 ^ 7) with 128 in Hn. dlia.
  - destruct (IH (n / 128)) as [H1 H2]; [|split; [apply signed_groups_cons; [lia|done]|simpl; lia]].
    replace (7 * Z.of_nat (S (S k)) - 1) with (7 * Z.of_nat (S k) - 1 + 7) in Hn by lia.
    rewrite Z.pow_add_r in Hn by lia. change (2 ^ 7) with 128 in Hn. dlia.
  - lia.
Qed.

Lemma sign_bit b : 0 <= b < 128 -> (Z.land b 0x40 =? 0) = (b <? 64).
Proof.
  intros Hb. destruct (Z.ltb_spec b 64) as [H|H].
  - apply Z.eqb_eq. change 0x40 with (2 ^ 6). apply Z.bits_inj'. intros i Hi.
    rewrite Z.land_spec, Z.bits_0, Z.pow2_bits_eqb by lia.
    destruct (Z.eqb_spec 6 i) as [<-|]; [|apply andb_false_r].
    rewrite <- (Z.mod_small b (2 ^ 6)), Z.mod_pow2_bits_high by lia. done.
  - apply Z.eqb_neq. replace b with (64 + (b - 64)) by lia.
    rewrite <- (lor_disjoint 64 (b - 64) 6) by (done || lia). rewrite Z.land_lor_distr_l.
    change (Z.land 64 64) with 64. intros [E _]%Z.lor_eq_0_iff. done.
Qed.

(** The last group tells the sign. *)
Lemma signed_last n gs : signed_groups n gs -> 0 <= default 0 (last gs) < 128 /\
  (default 0 (last gs) <? 64) = (0 <=? n).
Proof.
  intros [H1 H2 H3 H4 H5 ->].
  assert (1 <= length gs)%nat by (destruct gs; simpl; [done|lia]).
  set (w := 7 * Z.of_nat (length gs)) in *. assert (7 <= w) as Hw by (unfold w; lia).
  replace (w - 1) with (w - 7 + 6) in H4 by lia. rewrite Z.pow_add_r in H4 by lia.
  assert (0 < 2 ^ (w - 7)) as Hp by (apply Z.pow_pos_nonneg; lia).
  split; [dlia|].
  assert (-64 <= n / 2 ^ (w - 7) < 64) as Hd.
  { split; [apply Z.div_le_lower_bound|apply Z.div_lt_upper_bound]; lia. }
  destruct (Z.leb_spec 0 n).
  - pose proof (Z.div_pos n (2 ^ (w - 7))). rewrite Z.mod_small by lia. lia.
  - assert (n / 2 ^ (w - 7) < 0) by (apply Z.div_lt_upper_bound; lia).
    apply Z.ltb_ge. dlia.
Qed.

Lemma sleb_groups n : - 2 ^ 62 <= n < 2 ^ 63 ->
  let gs := sgroups 9 n in signed_groups n gs /\ (length gs <= 10)%nat /\
  (n < 0 -> (length gs <= 9)%nat) /\ (- 2 ^ 27 <= n < 0 -> (length gs <= 4)%nat) /\
  (n < - 2 ^ 27 -> (5 <= length gs)%nat).
Proof.
  intros Hn gs. destruct (sgroups_spec 9 n) as [Hs Hl]; [simpl; lia|]. fold gs in Hs, Hl.
  assert (forall k, (k <= length gs)%nat -> (2 <= k)%nat -> n < - 2 ^ (7 * Z.of_nat k - 8) \/ 2 ^ (7 * Z.of_nat k - 8) <= n) as Hk.
  { intros k H1 H2. destruct (sg_least _ _ Hs ltac:(lia)) as [H|H].
    - left. pose proof (Z.pow_le_mono_r 2 (7 * Z.of_nat k - 8) (7 * Z.of_nat (length gs) - 8)). lia.
    - right. pose proof (Z.pow_le_mono_r 2 (7 * Z.of_nat k - 8) (7 * Z.of_nat (length gs) - 8)). lia. }
  split; [done|]. split; [done|]. split_and!.
  - intros H. destruct (Nat.le_gt_cases (length gs) 9); [done|].
    specialize (Hk 10%nat ltac:(lia) ltac:(lia)). simpl in Hk. lia.
  - intros H. destruct (Nat.le_gt_cases (length gs) 4); [done|].
    specialize (Hk 5%nat ltac:(lia) ltac:(lia)). simpl in Hk. lia.
  - intros H. destruct (Nat.le_gt_cases 5 (length gs)); [done|].
    pose proof (Z.pow_le_mono_r 2 (7 * Z.of_nat (length gs) - 1) 27).
    pose proof (sg_fits _ _ Hs). lia.
Qed.

Lemma sleb_value n gs : signed_groups n gs -> (length gs <= 10)%nat -> - 2 ^ 62 <= n < 2 ^ 63 ->
  (n < 0 -> (length gs <= 9)%nat) ->
  gval gs = if 0 <=? n then n else n + 2 ^ (7 * Z.of_nat (length gs)).
Proof.
  intros Hs Hl Hn Hneg. rewrite (sg_val _ _ Hs). pose proof (sg_fits _ _ Hs) as Hf.
  pose proof (sg_some _ _ Hs) as Hne. assert (1 <= length gs)%nat by (destruct gs; simpl; [done|lia]).
  assert (2 ^ (7 * Z.of_nat (length gs)) = 2 * 2 ^ (7 * Z.of_nat (length gs) - 1)) as Ep.
  { rewrite <- Z.pow_succ_r by lia. f_equal. lia. }
  destruct (Z.leb_spec 0 n).
  - apply Z.mod_small. lia.
  - rewrite <- (Z.mod_unique_pos n (2 ^ (7 * Z.of_nat (length gs))) (-1) (n + 2 ^ (7 * Z.of_nat (length gs)))); lia.
Qed.

Lemma read_sleb128_eval n m off rest : - 2 ^ 62 <= n < 2 ^ 63 ->
  bytes_at m off (sleb n ++ rest) -> in_buf buf off (Z.of_nat (length (sleb n))) = true ->
  read_sleb128 buf off m =
    if (0 <=? n) || (- 2 ^ 27 <=? n) then Ok (n, off + Z.of_nat (length (sleb n))) m else Fault.
Proof.
  intros Hn Hm Hin. unfold sleb in *. rewrite leb_bytes_length in *.
  destruct (sleb_groups n Hn) as (Hs & Hl & Hneg & H4 & H5). set (gs := sgroups 9 n) in *.
  pose proof (sleb_value n gs Hs Hl Hn Hneg) as Hv. destruct (signed_last n gs Hs) as [Hb Hsign].
  assert (2 ^ (7 * Z.of_nat (length gs)) <= 2 ^ 63 \/ 0 <= n) as Hp.
  { destruct (Z.leb_spec 0 n) as [|Hlt]; [by right|left]. apply Z.pow_le_mono_r; [lia|].
    specialize (Hneg Hlt). lia. }
  unfold read_sleb128, bind.
  rewrite (groups_run gs 12 m off 0 0 rest); try (done || lia); [|apply Hs|apply Hs|].
  2: { rewrite Hv. destruct (Z.leb_spec 0 n); lia. }
  rewrite sign_bit, Hsign by done. rewrite Z.mul_1_r, Z.add_0_l, Hv.
  destruct (Z.leb_spec 0 n) as [H0|H0]; cbn [negb orb].
  - rewrite andb_false_r. rewrite s64_small by lia. done.
  - rewrite andb_true_r, (proj2 (Z.ltb_lt _ 64)) by (specialize (Hneg H0); lia).
    destruct (Z.leb_spec (- 2 ^ 27) n).
    + rewrite (proj2 (Z.leb_gt 31 _)) by (specialize (H4 ltac:(lia)); lia).
      rewrite s64_small by lia. rewrite Z.shiftl_mul_pow2, Z.mul_1_l by lia.
      pose proof (sg_fits _ _ Hs) as Hf.
      rewrite Z.lor_comm, (lor_disjoint _ _ (7 * Z.of_nat (length gs))); [unfold ret; do 3 f_equal; lia|lia| |].
      * rewrite Z.mod_opp_l_z; [done|lia|]. apply Z.mod_same. lia.
      * assert (1 <= length gs)%nat by (pose proof (sg_some _ _ Hs); destruct gs; simpl; [done|lia]).
        pose proof (Z.pow_lt_mono_r 2 (7 * Z.of_nat (length gs) - 1) (7 * Z.of_nat (length gs))). lia.
    + by rewrite (proj2 (Z.leb_le 31 _)) by (specialize (H5 ltac:(lia)); lia).
Qed.

Lemma load_le_S k m a : load_le (S k) m a = load8 m a + 256 * load_le k m (a + 1).
Proof. done. Qed.

Lemma read_uint_run k : forall m off i out, 0 <= i -> 0 <= out < 2 ^ (8 * i) ->
  in_buf buf off (Z.of_nat k) = true ->
  read_uint_loop buf k i out off m =
    Ok (out + load_le k m off * 2 ^ (8 * i), off + Z.of_nat k) m.
Proof.
  induction k as [|k IH]; intros m off i out Hi Hout Hin; cbn [read_uint_loop].
  { change (load_le 0 m off) with 0. unfold ret. do 2 f_equal; lia. }
  apply in_buf_le in Hin. pose proof (load8_range m off) as Hb.
  assert (2 ^ (8 * (i + 1)) = 256 * 2 ^ (8 * i)) as Ep.
  { replace (8 * (i + 1)) with (8 * i + 8) by lia. rewrite Z.pow_add_r by lia. lia. }
  assert (0 < 2 ^ (8 * i)) by (apply Z.pow_pos_nonneg; lia).
  unfold bind. rewrite (rd8_run _ _ (load8 m off)); [|apply in_buf_le; lia|done].
  rewrite (Z.shiftl_mul_pow2 i 3) by lia. change (2 ^ 3) with 8. rewrite (Z.mul_comm i 8), Z.shiftl_mul_pow2 by lia.
  rewrite Z.lor_comm, (lor_disjoint _ _ (8 * i)); [|lia|apply Z.mod_mul; lia|done].
  rewrite IH; [|lia|rewrite Ep; nia|apply in_buf_le; lia].
  rewrite load_le_S, Ep. f_equal. f_equal; lia.
Qed.

(** A name: bytes that are not 0, and a 0. *)
Definition is_name (nm : list Z) : Prop := Forall (fun b => 0 < b < 256) nm.

Lemma skip_loop nm : forall fuel m off rest, is_name nm -> bytes_at m off (nm ++ 0 :: rest) ->
  in_buf buf off (Z.of_nat (length nm) + 1) = true -> (length nm < fuel)%nat ->
  loop fuel (fun off => let* b := rd8 buf off in
    if b =? 0 then ret (inr off) else ret (inl (off + 1))) off m = Ok (off + Z.of_nat (length nm)) m.
Proof.
  induction nm as [|c nm IH]; intros fuel m off rest Hn Hm Hin Hf;
    (destruct fuel as [|fuel]; [simpl in Hf; lia|]); cbn [loop]; apply in_buf_le in Hin;
    simpl length in *; destruct Hm as [Hb Hm].
  - unfold bind at 1 2. rewrite (rd8_run _ _ 0); [|apply in_buf_le; lia|done]. simpl.
    unfold ret. f_equal. lia.
  - apply Forall_cons in Hn as [Hc Hn]. unfold bind at 1 2.
    rewrite (rd8_run _ _ c); [|apply in_buf_le; lia|done].
    rewrite (proj2 (Z.eqb_neq c 0)) by lia. unfold ret at 1.
    rewrite (IH fuel m (off + 1) rest); [f_equal; lia|done|done|apply in_buf_le; lia|lia].
Qed.

Lemma skip_name_run nm m off rest : is_name nm -> bytes_at m off (nm ++ 0 :: rest) ->
  in_buf buf off (Z.of_nat (length nm) + 1) = true ->
  skip_name buf off m = Ok (off + Z.of_nat (length nm)) m.
Proof.
  intros Hn Hm Hin. eapply skip_loop; [done|done|done|]. apply in_buf_le in Hin.
  unfold ROUNDS. lia.
Qed.

End Leb.
