(* ===== verification/LineTable.v ===== *)
(** * Correctness of the line tables (make_addr_line of kernel/elf.c)

    A compilation unit of [.debug_line] as DWARF defines it, the bytes that encode
    it, and the rows its line-number program yields.  [make_addr_line], run on the
    encoding of any list of units, builds exactly the tables of this reference. *)

From S2P Require Import Prelude Mem Dwarf.
From stdpp Require Import base gmap list fin_maps.
From Stdlib Require Import ZArith Lia Bool.

Set Default Goal Selector "!".
Open Scope Z_scope.

(** ** Compilation units *)

(** The header: the fields that matter and the bytes around them. *)
Record unit_header : Type := UnitHeader {
  h_pre : list Z;
  h_min : Z;
  h_stmt : Z;
  h_line_base : Z;
  h_line_range : Z;
  h_opcode_base : Z;
  h_lengths : list Z
}.

Inductive line_instr : Type :=
| LCopy
| LAdvancePc (d : Z)
| LAdvanceLine (d : Z)
| LSetFile (f : Z)
| LSetColumn (c : Z)
| LNegateStmt
| LBasicBlock
| LConstAddPc
| LFixedAdvancePc (d : Z)
| LSpecial (op : Z)
| LSetAddress (a : Z)
| LDiscriminator (d : Z).

(** A file of a unit: name, directory, time and length. *)
Record unit_file : Type := UnitFile { uf_name : list Z; uf_dir : Z; uf_time : Z; uf_length : Z }.

Record comp_unit : Type := CompUnit {
  u_header : unit_header;
  u_dirs : list (list Z);
  u_files : list unit_file;
  u_program : list line_instr
}.

(** ** Their encoding *)

Fixpoint le_bytes (n : nat) (v : Z) : list Z :=
  match n with O => [] | S n => v mod 256 :: le_bytes n (v / 256) end.

Definition encode_header (h : unit_header) : list Z :=
  h_pre h ++ [h_min h; h_stmt h; h_line_base h; h_line_range h; h_opcode_base h] ++ h_lengths h.

Definition encode_instr (i : line_instr) : list Z :=
  match i with
  | LCopy => [1]
  | LAdvancePc d => 2 :: uleb d
  | LAdvanceLine d => 3 :: sleb d
  | LSetFile f => 4 :: uleb f
  | LSetColumn c => 5 :: uleb c
  | LNegateStmt => [6]
  | LBasicBlock => [7]
  | LConstAddPc => [8]
  | LFixedAdvancePc d => 9 :: le_bytes 2 d
  | LSpecial op => [op]
  | LSetAddress a => [0] ++ uleb 9 ++ [2] ++ le_bytes 8 a
  | LDiscriminator d => [0] ++ uleb (1 + Z.of_nat (length (uleb d))) ++ [4] ++ uleb d
  end.

(** [DW_LNE_end_sequence]. *)
Definition end_sequence : list Z := [0] ++ uleb 1 ++ [1].

Definition encode_file (f : unit_file) : list Z :=
  uf_name f ++ [0] ++ uleb (uf_dir f) ++ uleb (uf_time f) ++ uleb (uf_length f).

Definition encode_unit (u : comp_unit) : list Z :=
  encode_header (u_header u) ++
  concat ((fun d => d ++ [0]) <$> u_dirs u) ++ [0] ++
  concat (encode_file <$> u_files u) ++ [0] ++
  concat (encode_instr <$> u_program u) ++ end_sequence.

(** ** The rows of a unit

    The registers of the state machine and the rows so far, the last one first. *)

Definition emit_row (file_base : Z) (regs : addr_line) (rows : list addr_line) : list addr_line :=
  let r := AddrLine (al_addr regs) (al_line regs) (u64 (al_file regs + (file_base - 1))) in
  match rows with
  | r0 :: rest => if al_addr r0 =? al_addr regs then r :: rest else r :: rows
  | [] => [r]
  end.

Definition advance (h : unit_header) (n : Z) (regs : addr_line) : addr_line :=
  AddrLine (u64 (al_addr regs + n * h_min h)) (al_line regs) (al_file regs).

Definition exec_instr (h : unit_header) (file_base : Z) (x : addr_line * list addr_line)
    (i : line_instr) : addr_line * list addr_line :=
  let '(regs, rows) := x in
  let '(AddrLine addr line file) := regs in
  match i with
  | LCopy => (regs, emit_row file_base regs rows)
  | LAdvancePc d => (advance h d regs, rows)
  | LAdvanceLine d => (AddrLine addr (u64 (line + d)) file, rows)
  | LSetFile f => (AddrLine addr line f, rows)
  | LConstAddPc => (advance h ((255 - h_opcode_base h) / h_line_range h) regs, rows)
  | LFixedAdvancePc d => (AddrLine (u64 (addr + d)) line file, rows)
  | LSpecial op =>
      let adjust := op - h_opcode_base h in
      let regs := advance h (adjust / h_line_range h) regs in
      let regs := AddrLine (al_addr regs)
        (u64 (line + (s8 (h_line_base h) + adjust mod h_line_range h))) file in
      (regs, emit_row file_base regs rows)
  | LSetAddress a => (AddrLine a line file, rows)
  | LSetColumn _ | LNegateStmt | LBasicBlock | LDiscriminator _ => (regs, rows)
  end.

Definition exec_program (h : unit_header) (file_base : Z) (p : list line_instr)
    (rows : list addr_line) : list addr_line :=
  let '(regs, rows) := foldl (exec_instr h file_base) (AddrLine 0 1 1, rows) p in
  emit_row file_base regs rows.

(** The tables: names of directories, names and directory indices of files, and
    rows in reverse. *)
Record tables_of : Type := TablesOf {
  tb_dirs : list (list Z);
  tb_files : list (list Z * Z);
  tb_rows : list addr_line
}.

Definition add_unit (t : tables_of) (u : comp_unit) : tables_of :=
  let dir_base := Z.of_nat (length (tb_dirs t)) in
  let file_base := Z.of_nat (length (tb_files t)) in
  TablesOf (tb_dirs t ++ u_dirs u)
    (tb_files t ++ ((fun f => (uf_name f, u64 (uf_dir f - 1 + dir_base))) <$> u_files u))
    (exec_program (u_header u) file_base (u_program u) (tb_rows t)).

Definition reference_tables (us : list comp_unit) : tables_of :=
  foldl add_unit (TablesOf [] [] []) us.

(** ** Well-formed units *)

Record header_ok (h : unit_header) : Prop := {
  ho_pre : length (h_pre h) = 10%nat;
  ho_min : 0 <= h_min h < 256;
  ho_base : 0 <= h_line_base h < 256;
  ho_range : 0 < h_line_range h < 256;
  ho_opcode : 10 <= h_opcode_base h < 256;
  ho_lengths : length (h_lengths h) = 12%nat
}.

Definition instr_ok (h : unit_header) (i : line_instr) : Prop :=
  match i with
  | LAdvancePc d | LSetFile d | LSetColumn d | LSetAddress d => 0 <= d < 2 ^ 64
  | LDiscriminator d => 0 <= d < 2 ^ 64
  | LAdvanceLine d => - 2 ^ 27 <= d < 2 ^ 63
  | LFixedAdvancePc d => 0 <= d < 2 ^ 16
  | LSpecial op => h_opcode_base h <= op < 256
  | _ => True
  end.

Definition file_ok (f : unit_file) : Prop :=
  is_name (uf_name f) /\ uf_name f <> [] /\ 0 <= uf_dir f < 2 ^ 64 /\
  0 <= uf_time f < 2 ^ 64 /\ 0 <= uf_length f < 2 ^ 64.

Record unit_ok (u : comp_unit) : Prop := {
  uo_header : header_ok (u_header u);
  uo_dirs : Forall (fun d => is_name d /\ d <> []) (u_dirs u);
  uo_files : Forall file_ok (u_files u);
  uo_program : Forall (instr_ok (u_header u)) (u_program u)
}.

(** ** Rows in memory *)

Definition regs_ok (r : addr_line) : Prop :=
  0 <= al_addr r < 2 ^ 64 /\ 0 <= al_line r < 2 ^ 64 /\ 0 <= al_file r < 2 ^ 64.

Lemma le_bytes_length n : forall v, length (le_bytes n v) = n.
Proof. induction n as [|n IH]; intros v; simpl; [done|]. by rewrite IH. Qed.

Lemma load_le_bytes n : forall m off v rest, bytes_at m off (le_bytes n v ++ rest) ->
  load_le n m off = v mod 256 ^ Z.of_nat n.
Proof.
  induction n as [|n IH]; intros m off v rest; cbn [le_bytes].
  { intros _. change (load_le 0 m off) with 0. by rewrite Z.mod_1_r. }
  intros [Hb Hm]. rewrite load_le_S, Hb, (IH _ _ _ _ Hm).
  rewrite Nat2Z.inj_succ, Z.pow_succ_r by lia. by rewrite Z.rem_mul_r by lia.
Qed.

Section Rows.
  Context (buf : Z) (t : line_tables).

Definition row_at (m : bytes) (i : Z) (r : addr_line) : Prop :=
  load64 m (t_line t + SIZEOF_ADDR_LINE * i) = al_addr r /\
  load64 m (t_line t + SIZEOF_ADDR_LINE * i + 8) = al_line r /\
  load64 m (t_line t + SIZEOF_ADDR_LINE * i + 16) = al_file r.

Fixpoint rows_at (m : bytes) (rows : list addr_line) : Prop :=
  match rows with
  | [] => True
  | r :: rest => row_at m (Z.of_nat (length rest)) r /\ rows_at m rest
  end.

Lemma row_at_frame m m' i r : 0 <= i ->
  (forall x, t_line t + SIZEOF_ADDR_LINE * i <= x < t_line t + SIZEOF_ADDR_LINE * (i + 1) ->
    load8 m' x = load8 m x) -> row_at m i r -> row_at m' i r.
Proof.
  intros Hi Heq (H1 & H2 & H3). unfold row_at, SIZEOF_ADDR_LINE in *.
  rewrite <- H1, <- H2, <- H3. split_and!; apply load_le_ext; intros x Hx; apply Heq; lia.
Qed.

Lemma rows_at_frame m m' rows :
  (forall x, t_line t <= x < t_line t + SIZEOF_ADDR_LINE * Z.of_nat (length rows) ->
    load8 m' x = load8 m x) -> rows_at m rows -> rows_at m' rows.
Proof.
  induction rows as [|r rows IH]; intros Heq; [done|]. intros [H1 H2]. split.
  - eapply row_at_frame; [lia| |done]. intros x Hx. apply Heq. simpl length.
    unfold SIZEOF_ADDR_LINE in *. lia.
  - apply IH; [|done]. intros x Hx. apply Heq. simpl length. unfold SIZEOF_ADDR_LINE in *. lia.
Qed.

Lemma wr64_run a v m : in_buf buf a 8 = true -> wr64 buf a v m = Ok tt (store64 m a v).
Proof. intros H. unfold wr64. by rewrite H. Qed.

Lemma rd64_run a m : in_buf buf a 8 = true -> rd64 buf a m = Ok (load64 m a) m.
Proof. intros H. unfold rd64. by rewrite H. Qed.

(** Writing row [i]. *)
Lemma write_row_run fb regs i m : regs_ok regs -> 0 <= i ->
  in_buf buf (t_line t + SIZEOF_ADDR_LINE * i) SIZEOF_ADDR_LINE = true ->
  exists m', (let row := t_line t + SIZEOF_ADDR_LINE * i in
    wr64 buf row (al_addr regs) ;;; wr64 buf (row + 8) (al_line regs) ;;;
    wr64 buf (row + 16) (al_file regs) ;;;
    let* f := rd64 buf (row + 16) in
    wr64 buf (row + 16) (u64 (f + (fb - 1))) ;;; ret (i + 1)) m = Ok (i + 1) m' /\
  row_at m' i (AddrLine (al_addr regs) (al_line regs) (u64 (al_file regs + (fb - 1)))) /\
  (forall x, x < t_line t + SIZEOF_ADDR_LINE * i \/ t_line t + SIZEOF_ADDR_LINE * (i + 1) <= x ->
    load8 m' x = load8 m x).
Proof.
  intros (Ha & Hl & Hf) Hi Hin. apply in_buf_le in Hin. unfold SIZEOF_ADDR_LINE in *.
  set (row := t_line t + 24 * i) in *. cbv zeta.
  assert (forall d, 0 <= d -> d + 8 <= 24 -> in_buf buf (row + d) 8 = true) as Hb
    by (intros; apply in_buf_le; lia).
  pose proof (Hb 0 ltac:(lia) ltac:(lia)) as H0. rewrite Z.add_0_r in H0.
  unfold bind at 1. rewrite (wr64_run _ _ _ H0). unfold bind at 1. rewrite wr64_run by (apply Hb; lia).
  unfold bind at 1. rewrite wr64_run by (apply Hb; lia). unfold bind at 1.
  rewrite rd64_run by (apply Hb; lia). unfold bind at 1. rewrite wr64_run by (apply Hb; lia).
  eexists. split; [done|]. rewrite load64_store64_eq, (u64_small (al_file regs)) by done. split.
  - unfold row_at, SIZEOF_ADDR_LINE. fold row. simpl. split_and!.
    + rewrite !load_store_le_ne by lia. rewrite load64_store64_eq. by apply u64_small.
    + rewrite !load_store_le_ne by lia. rewrite load64_store64_eq. by apply u64_small.
    + rewrite load64_store64_eq. apply u64_small, u64_range.
  - intros x Hx. rewrite !load8_store_le_ne by lia. done.
Qed.

Lemma put_row_run fb regs rows m : regs_ok regs -> rows_at m rows ->
  let i := Z.of_nat (length rows) in
  let r := AddrLine (al_addr regs) (al_line regs) (u64 (al_file regs + (fb - 1))) in
  in_buf buf (t_line t) (SIZEOF_ADDR_LINE * (i + 1)) = true ->
  exists m', (let row := t_line t + SIZEOF_ADDR_LINE * i in
    wr64 buf row (al_addr regs) ;;; wr64 buf (row + 8) (al_line regs) ;;;
    wr64 buf (row + 16) (al_file regs) ;;;
    let* f := rd64 buf (row + 16) in
    wr64 buf (row + 16) (u64 (f + (fb - 1))) ;;; ret (i + 1)) m = Ok (i + 1) m' /\
  rows_at m' (r :: rows) /\ (forall x, x < t_line t -> load8 m' x = load8 m x).
Proof.
  intros Hr Hrows i r Hin. apply in_buf_le in Hin.
  destruct (write_row_run fb regs i m Hr) as (m' & E & H1 & H2);
    [unfold i; lia|apply in_buf_le; unfold SIZEOF_ADDR_LINE in *; lia|].
  exists m'. split; [done|]. split; [split; [done|]|].
  - eapply rows_at_frame; [|done]. intros x Hx. apply H2. left. unfold i, SIZEOF_ADDR_LINE in *. lia.
  - intros x Hx. apply H2. left. unfold i, SIZEOF_ADDR_LINE in *. lia.
Qed.

Lemma add_row_run fb regs rows m : regs_ok regs -> rows_at m rows ->
  in_buf buf (t_line t) (SIZEOF_ADDR_LINE * Z.of_nat (length (emit_row fb regs rows))) = true ->
  exists m', add_row buf t fb regs (Z.of_nat (length rows)) m =
      Ok (Z.of_nat (length (emit_row fb regs rows))) m' /\
    rows_at m' (emit_row fb regs rows) /\ (forall x, x < t_line t -> load8 m' x = load8 m x).
Proof.
  intros Hr Hrows Hin. unfold add_row. destruct rows as [|r0 rows].
  { exact (put_row_run fb regs [] m Hr I Hin). }
  destruct Hrows as [H0 Hrows]. pose proof Hin as Hin'. apply in_buf_le in Hin'. cbn [emit_row] in *.
  rewrite (proj2 (Z.ltb_lt 0 _)) by (simpl length; lia).
  replace (Z.of_nat (length (r0 :: rows)) - 1) with (Z.of_nat (length rows)) by (simpl length; lia).
  unfold bind at 1 2. rewrite rd64_run.
  2: { apply in_buf_le. unfold SIZEOF_ADDR_LINE in *.
       destruct (al_addr r0 =? al_addr regs); simpl length in *; lia. }
  destruct H0 as (E0 & E1 & E2). rewrite E0. unfold ret at 1.
  destruct (al_addr r0 =? al_addr regs).
  - destruct (put_row_run fb regs rows m Hr Hrows) as (m' & E & H1 & H2).
    { apply in_buf_le. simpl length in *. unfold SIZEOF_ADDR_LINE in *. lia. }
    exists m'. split; [|done]. cbv zeta in *. rewrite E. simpl length. f_equal. lia.
  - destruct (put_row_run fb regs (r0 :: rows) m Hr) as (m' & E & H1 & H2).
    { by split. }
    { apply in_buf_le. simpl length in *. unfold SIZEOF_ADDR_LINE in *. lia. }
    exists m'. split; [|done]. cbv zeta in *. rewrite E. simpl length. f_equal. lia.
Qed.

End Rows.

(** ** One instruction *)

Section Program.
  Context (buf : Z) (t : line_tables) (h : unit_header) (fb dh : Z).
  Hypothesis Hh : header_ok h.
  Hypothesis Hdh : in_buf buf dh SIZEOF_DEBUG_HEADER = true.

Definition header_at (m : bytes) : Prop :=
  load8 m (dh + DH_MIN_INSTRUCTION_LENGTH) = h_min h /\ load8 m (dh + DH_LINE_BASE) = h_line_base h /\
  load8 m (dh + DH_LINE_RANGE) = h_line_range h /\ load8 m (dh + DH_OPCODE_BASE) = h_opcode_base h.

Lemma rd_header d m v : 0 <= d < SIZEOF_DEBUG_HEADER -> load8 m (dh + d) = v ->
  rd8 buf (dh + d) m = Ok v m.
Proof using Hdh.
  intros Hd Hv. apply rd8_run; [|done]. apply in_buf_le. apply in_buf_le in Hdh. lia.
Qed.

(** A special opcode reaches the last case of the switch. *)
Lemma special_case {A} op (f0 f1 f2 f3 f4 f5 f67 f8 f9 d : A) : 10 <= op ->
  match op with
  | 0 => f0 | 1 => f1 | 2 => f2 | 3 => f3 | 4 => f4 | 5 => f5 | 6 | 7 => f67 | 8 => f8 | 9 => f9
  | _ => d
  end = d.
Proof using.
  intros Hop. destruct op as [|p|p]; [lia| |done].
  do 4 (destruct p as [p|p|]; try done; try lia).
Qed.

(** What running an instruction must establish. *)
Definition op_result (x : addr_line * Z * Z) (m : bytes) (regs : addr_line) (rows : list addr_line)
    (off : Z) : Prop :=
  exists m', line_op buf t fb dh x m = Ok (inl (regs, Z.of_nat (length rows), off)) m' /\
    rows_at t m' rows /\ regs_ok regs /\ (forall a, a < t_line t -> load8 m' a = load8 m a).

Lemma op_result_same x m regs rows off :
  line_op buf t fb dh x m = Ok (inl (regs, Z.of_nat (length rows), off)) m ->
  rows_at t m rows -> regs_ok regs -> op_result x m regs rows off.
Proof using. intros. by exists m. Qed.

Lemma u64_mul_add a d k : u64 (a + u64 (d * k)) = u64 (a + d * k).
Proof using. unfold u64. by rewrite Zplus_mod_idemp_r. Qed.

Lemma op_uleb op n off m rest : 0 <= n < 2 ^ 64 -> bytes_at m off ((op :: uleb n) ++ rest) ->
  in_buf buf off (Z.of_nat (length (op :: uleb n))) = true ->
  rd8 buf off m = Ok op m /\
  read_uleb128 buf (off + 1) m = Ok (n, off + Z.of_nat (length (op :: uleb n))) m.
Proof using.
  intros Hn [Hb Hm] Hin. apply in_buf_le in Hin. simpl length in *. split.
  - apply rd8_run; [apply in_buf_le; lia|done].
  - rewrite (read_uleb128_run _ n m (off + 1) rest); [do 2 f_equal; lia|done|done|apply in_buf_le; lia].
Qed.

Lemma uleb_length n : 0 <= n < 2 ^ 64 -> (1 <= length (uleb n) <= 10)%nat.
Proof using.
  intros Hn. destruct (ugroups_spec 9 n) as (H1 & _ & _ & H2); [simpl; lia|].
  unfold uleb. rewrite leb_bytes_length. destruct (ugroups 9 n); [done|]. simpl in *. lia.
Qed.

(** [line_op] does what the reference says of instruction [i]. *)
Definition runs (i : line_instr) : Prop := forall regs rows off m rest regs' rows',
  instr_ok h i -> regs_ok regs -> header_at m -> rows_at t m rows ->
  bytes_at m off (encode_instr i ++ rest) ->
  in_buf buf off (Z.of_nat (length (encode_instr i))) = true ->
  exec_instr h fb (regs, rows) i = (regs', rows') ->
  in_buf buf (t_line t) (SIZEOF_ADDR_LINE * Z.of_nat (length rows')) = true ->
  op_result (regs, Z.of_nat (length rows), off) m regs' rows' (off + Z.of_nat (length (encode_instr i))).

Lemma first_byte op bs off m rest : bytes_at m off ((op :: bs) ++ rest) ->
  in_buf buf off (Z.of_nat (length (op :: bs))) = true -> rd8 buf off m = Ok op m.
Proof using.
  intros [Hb _] Hin. apply in_buf_le in Hin. simpl length in Hin.
  apply rd8_run; [apply in_buf_le; lia|done].
Qed.

Ltac intro_instr :=
  intros [addr line file] rows off m rest regs' rows' Hi Hr Hhd Hrows Hm Hin Hex Hcap;
  pose proof Hr as (Ha & Hl & Hf); cbn [al_addr al_line al_file] in *;
  cbn [exec_instr] in Hex; injection Hex as <- <-; cbn [encode_instr instr_ok] in *.

Lemma runs_copy : runs LCopy.
Proof using.
  intro_instr. pose proof (first_byte _ _ _ _ _ Hm Hin) as E0.
  destruct (add_row_run buf t fb (AddrLine addr line file) rows m Hr Hrows Hcap) as (m' & E & H1 & H2).
  exists m'. split; [|done]. unfold line_op, bind at 1. rewrite E0. unfold bind. by rewrite E.
Qed.

Lemma runs_advance_pc d : runs (LAdvancePc d).
Proof using Hdh.
  intro_instr. destruct (op_uleb 2 d off m rest Hi Hm Hin) as [E1 E2].
  apply op_result_same; [|done|split; [apply u64_range|by split]].
  unfold line_op, bind at 1. rewrite E1. unfold bind at 1. rewrite E2. unfold bind.
  rewrite (rd_header _ _ (h_min h)) by (done || apply Hhd). by rewrite u64_mul_add.
Qed.

Lemma runs_advance_line d : runs (LAdvanceLine d).
Proof using.
  intro_instr. pose proof (first_byte _ _ _ _ _ Hm Hin) as E0.
  assert (read_sleb128 buf (off + 1) m = Ok (d, off + Z.of_nat (length (3 :: sleb d))) m) as E2.
  { apply in_buf_le in Hin. simpl length in Hin. destruct Hm as [_ Hm].
    rewrite (read_sleb128_eval _ d m (off + 1) rest); [|lia|done|apply in_buf_le; lia].
    rewrite (proj2 (Z.leb_le (- 2 ^ 27) d)), orb_true_r by lia. simpl length. do 2 f_equal. lia. }
  apply op_result_same; [|done|split; [done|split; [apply u64_range|done]]].
  unfold line_op, bind at 1. rewrite E0. unfold bind. by rewrite E2.
Qed.

Lemma runs_set_file f : runs (LSetFile f).
Proof using.
  intro_instr. destruct (op_uleb 4 f off m rest Hi Hm Hin) as [E1 E2].
  apply op_result_same; [|done|split; [done|by split]].
  unfold line_op, bind at 1. rewrite E1. unfold bind. by rewrite E2.
Qed.

Lemma runs_set_column c : runs (LSetColumn c).
Proof using.
  intro_instr. destruct (op_uleb 5 c off m rest Hi Hm Hin) as [E1 E2].
  apply op_result_same; [|done|done].
  unfold line_op, bind at 1. rewrite E1. unfold bind. by rewrite E2.
Qed.

Lemma runs_negate_stmt : runs LNegateStmt.
Proof using.
  intro_instr. apply op_result_same; [|done|done]. unfold line_op, bind at 1.
  by rewrite (first_byte _ _ _ _ _ Hm Hin).
Qed.

Lemma runs_basic_block : runs LBasicBlock.
Proof using.
  intro_instr. apply op_result_same; [|done|done]. unfold line_op, bind at 1.
  by rewrite (first_byte _ _ _ _ _ Hm Hin).
Qed.

Lemma runs_const_add_pc : runs LConstAddPc.
Proof using Hh Hdh.
  intro_instr. apply op_result_same; [|done|split; [apply u64_range|by split]].
  unfold line_op, bind at 1. rewrite (first_byte _ _ _ _ _ Hm Hin). unfold bind.
  rewrite (rd_header _ _ (h_opcode_base h)) by (done || apply Hhd).
  rewrite (rd_header _ _ (h_line_range h)) by (done || apply Hhd).
  rewrite (rd_header _ _ (h_min h)) by (done || apply Hhd).
  destruct Hh as [_ H2 _ H4 H5 _]. rewrite (proj2 (Z.eqb_neq _ 0)) by lia.
  by rewrite Z.quot_div_nonneg by lia.
Qed.

Lemma runs_fixed_advance_pc d : runs (LFixedAdvancePc d).
Proof using.
  intro_instr. pose proof (first_byte _ _ _ _ _ Hm Hin) as E0.
  assert (read_uint16 buf (off + 1) m = Ok (d, off + Z.of_nat (length (9 :: le_bytes 2 d))) m) as E2.
  { apply in_buf_le in Hin. simpl length in Hin. unfold read_uint16.
    rewrite read_uint_run by (try apply in_buf_le; simpl; lia). destruct Hm as [_ Hm].
    rewrite (load_le_bytes 2 m (off + 1) d rest Hm), Z.mod_small by exact Hi.
    simpl length. do 2 f_equal; lia. }
  apply op_result_same; [|done|split; [apply u64_range|by split]]. unfold line_op, bind at 1.
  rewrite E0. unfold bind. by rewrite E2.
Qed.

Lemma runs_special op : runs (LSpecial op).
Proof using Hh Hdh.
  intro_instr. destruct Hh as [_ H2 H3 H4 H5 _].
  destruct (fun Hr' => add_row_run buf t fb _ rows m Hr' Hrows Hcap) as (m' & E & H1 & H6).
  { split; [apply u64_range|split; [apply u64_range|done]]. }
  exists m'. split; [|split; [done|]; split; [split; [apply u64_range|split; [apply u64_range|done]]|done]].
  unfold line_op, bind at 1. rewrite (first_byte _ _ _ _ _ Hm Hin), special_case by lia. unfold bind.
  rewrite (rd_header _ _ (h_opcode_base h)) by (done || apply Hhd).
  rewrite (rd_header _ _ (h_line_range h)) by (done || apply Hhd).
  rewrite (rd_header _ _ (h_min h)) by (done || apply Hhd).
  rewrite (rd_header _ _ (h_line_base h)) by (done || apply Hhd).
  rewrite (proj2 (Z.eqb_neq _ 0)) by lia.
  rewrite Z.quot_div_nonneg, Z.rem_mod_nonneg by lia. by rewrite E.
Qed.

Lemma runs_set_address a : runs (LSetAddress a).
Proof using.
  intro_instr. change (uleb 9) with [9] in *. apply in_buf_le in Hin. simpl length in *.
  destruct (op_uleb 0 9 off m ([2] ++ le_bytes 8 a ++ rest) ltac:(lia) Hm) as [E1 E2];
    [apply in_buf_le; simpl; lia|]. destruct Hm as (_ & _ & Hb & Hm).
  assert (off + Z.of_nat (length (0 :: uleb 9)) = off + 1 + 1) as E3 by (simpl; lia). rewrite E3 in E2.
  apply op_result_same; [|done|by split].
  unfold line_op, bind at 1. rewrite E1. unfold bind. rewrite E2.
  rewrite (rd8_run _ _ _ 2); [|apply in_buf_le; lia|done]. unfold read_uint64.
  rewrite read_uint_run by (try apply in_buf_le; simpl; lia).
  rewrite (load_le_bytes 8 _ _ a rest Hm), Z.mod_small by exact Hi.
  unfold ret. change (2 ^ (8 * 0)) with 1. rewrite Z.mul_1_r, Z.add_0_l. do 3 f_equal. lia.
Qed.

Lemma runs_discriminator d : runs (LDiscriminator d).
Proof using.
  intro_instr. pose proof (uleb_length d Hi) as Hl10. set (n := 1 + Z.of_nat (length (uleb d))) in *.
  rewrite !length_app in *. apply in_buf_le in Hin. simpl length in Hin.
  destruct (op_uleb 0 n off m ([4] ++ uleb d ++ rest)) as [E1 E2].
  { unfold n. lia. }
  { by rewrite <- !app_assoc in Hm. }
  { apply in_buf_le. simpl length. lia. }
  rewrite <- !app_assoc in Hm. apply bytes_at_app in Hm as [_ Hm]. apply bytes_at_app in Hm as [_ Hm].
  destruct Hm as [Hb Hm]. set (k := Z.of_nat (length (uleb n))) in *.
  assert (off + Z.of_nat (length (0 :: uleb n)) = off + 1 + k) as E3 by (unfold k; simpl length; lia).
  rewrite E3 in E2. change (off + Z.of_nat (length [0]) + k) with (off + 1 + k) in *.
  apply op_result_same; [|done|done]. unfold line_op, bind at 1. rewrite E1. unfold bind. rewrite E2.
  rewrite (rd8_run _ _ _ 4); [|apply in_buf_le; lia|done].
  rewrite (read_uleb128_run _ d m _ rest); [|exact Hi|done|apply in_buf_le; lia].
  unfold ret. do 3 f_equal. simpl length. lia.
Qed.

Lemma line_op_run i : runs i.
Proof using Hh Hdh.
  destruct i; [apply runs_copy|apply runs_advance_pc|apply runs_advance_line|apply runs_set_file
    |apply runs_set_column|apply runs_negate_stmt|apply runs_basic_block|apply runs_const_add_pc
    |apply runs_fixed_advance_pc|apply runs_special|apply runs_set_address|apply runs_discriminator].
Qed.

(** *** A whole program *)

Lemma emit_length regs rows : (length rows <= length (emit_row fb regs rows))%nat.
Proof using. unfold emit_row. destruct rows as [|r0 rows]; simpl; [lia|]. case_match; simpl; lia. Qed.

Lemma exec_length i regs rows regs' rows' : exec_instr h fb (regs, rows) i = (regs', rows') ->
  (length rows <= length rows')%nat.
Proof using.
  destruct regs. destruct i; simpl; intros [= <- <-]; try done; apply emit_length.
Qed.

Lemma exec_all_length p : forall regs rows regs' rows',
  foldl (exec_instr h fb) (regs, rows) p = (regs', rows') -> (length rows <= length rows')%nat.
Proof using.
  induction p as [|i p IH]; intros regs rows regs' rows'; cbn [foldl]; [by intros [= <- <-]|].
  destruct (exec_instr h fb (regs, rows) i) as [r1 rows1] eqn:E. intros Hp%IH.
  apply exec_length in E. lia.
Qed.

Lemma header_at_frame e m m' : dh + SIZEOF_DEBUG_HEADER <= e ->
  (forall a, a < e -> load8 m' a = load8 m a) -> header_at m -> header_at m'.
Proof using.
  intros Hd Heq (H1 & H2 & H3 & H4). unfold header_at, SIZEOF_DEBUG_HEADER in *.
  rewrite <- H1, <- H2, <- H3, <- H4. unfold DH_MIN_INSTRUCTION_LENGTH, DH_LINE_BASE, DH_LINE_RANGE, DH_OPCODE_BASE.
  split_and!; apply Heq; lia.
Qed.

Lemma end_run regs rows off m rest : regs_ok regs -> rows_at t m rows ->
  bytes_at m off (end_sequence ++ rest) -> in_buf buf off (Z.of_nat (length end_sequence)) = true ->
  in_buf buf (t_line t) (SIZEOF_ADDR_LINE * Z.of_nat (length (emit_row fb regs rows))) = true ->
  exists m', line_op buf t fb dh (regs, Z.of_nat (length rows), off) m =
      Ok (inr (Z.of_nat (length (emit_row fb regs rows)), off + Z.of_nat (length end_sequence))) m' /\
    rows_at t m' (emit_row fb regs rows) /\ (forall a, a < t_line t -> load8 m' a = load8 m a).
Proof using.
  intros Hr Hrows Hm Hin Hcap. change end_sequence with [0; 1; 1] in *. apply in_buf_le in Hin.
  simpl length in Hin. destruct (op_uleb 0 1 off m ([1] ++ rest) ltac:(lia) Hm) as [E1 E2];
    [apply in_buf_le; simpl; lia|]. destruct Hm as (_ & _ & Hb & _).
  assert (off + Z.of_nat (length (0 :: uleb 1)) = off + 1 + 1) as E3 by (simpl; lia). rewrite E3 in E2.
  destruct (add_row_run buf t fb regs rows m Hr Hrows Hcap) as (m' & E & H1 & H2).
  exists m'. split; [|done]. destruct regs. unfold line_op, bind at 1. rewrite E1. unfold bind. rewrite E2.
  rewrite (rd8_run _ _ _ 1); [|apply in_buf_le; lia|done]. rewrite E. unfold ret. do 3 f_equal. simpl. lia.
Qed.

Lemma program_loop p : forall fuel regs rows off m rest regs' rows',
  Forall (instr_ok h) p -> regs_ok regs -> header_at m -> rows_at t m rows ->
  dh + SIZEOF_DEBUG_HEADER <= t_line t ->
  let bs := concat (encode_instr <$> p) ++ end_sequence in
  bytes_at m off (bs ++ rest) -> in_buf buf off (Z.of_nat (length bs)) = true ->
  off + Z.of_nat (length (bs ++ rest)) <= t_line t ->
  foldl (exec_instr h fb) (regs, rows) p = (regs', rows') ->
  in_buf buf (t_line t) (SIZEOF_ADDR_LINE * Z.of_nat (length (emit_row fb regs' rows'))) = true ->
  (length p < fuel)%nat ->
  exists m', loop fuel (line_op buf t fb dh) (regs, Z.of_nat (length rows), off) m =
      Ok (Z.of_nat (length (emit_row fb regs' rows')), off + Z.of_nat (length bs)) m' /\
    rows_at t m' (emit_row fb regs' rows') /\ (forall a, a < t_line t -> load8 m' a = load8 m a).
Proof using Hh Hdh.
  induction p as [|i p IH]; intros fuel regs rows off m rest regs' rows' Hp Hr Hhd Hrows Hd bs Hm Hin Hle Hex Hcap Hf;
    (destruct fuel as [|fuel]; [simpl in Hf; lia|]); cbn [loop].
  - cbn [foldl] in Hex. injection Hex as <- <-. unfold bs in *.
    change (concat (encode_instr <$> [])) with (@nil Z) in *. cbn [app] in *.
    destruct (end_run regs rows off m rest Hr Hrows Hm Hin Hcap) as (m' & E & H1 & H2).
    exists m'. split; [|done]. unfold bind. by rewrite E.
  - apply Forall_cons in Hp as [Hi Hp]. cbn [foldl] in Hex.
    destruct (exec_instr h fb (regs, rows) i) as [r1 rows1] eqn:E1.
    pose proof (exec_all_length _ _ _ _ _ Hex) as Hlen. pose proof (emit_length regs' rows') as Hlen2.
    unfold bs in *. rewrite fmap_cons in *. cbn [concat] in *. rewrite <- !app_assoc in Hm.
    rewrite <- app_assoc, length_app in *. apply in_buf_le in Hin. pose proof Hcap as Hcap'.
    apply in_buf_le in Hcap'.
    destruct (line_op_run i regs rows off m _ r1 rows1 Hi Hr Hhd Hrows Hm) as (m1 & E2 & H1 & H2 & H3);
      [apply in_buf_le; lia|done|apply in_buf_le; unfold SIZEOF_ADDR_LINE in *; lia|].
    unfold bind. rewrite E2. apply bytes_at_app in Hm as [_ Hm].
    destruct (IH fuel r1 rows1 (off + Z.of_nat (length (encode_instr i))) m1 rest regs' rows')
      as (m' & E3 & H4 & H5); try done.
    + by eapply header_at_frame.
    + rewrite <- app_assoc. eapply bytes_at_frame; [|exact Hm]. intros x Hx. apply H3.
      rewrite !length_app in *. lia.
    + apply in_buf_le. rewrite !length_app in *. lia.
    + rewrite !length_app in *. lia.
    + simpl in Hf. lia.
    + exists m'. split; [|split; [done|]].
      * rewrite E3. rewrite !length_app. do 2 f_equal. lia.
      * intros a Ha. rewrite H5, H3 by done. done.
Qed.

End Program.

(** ** The tables of names *)

Section Units.
  Context (buf dl len : Z).

Abbreviation t := (tables_behind dl len).

Hypothesis Hsec : in_buf buf dl len = true.
Hypothesis Htab : t_line t <= buf + MAX_DEBUG_LINE_SIZE.

Lemma layout_tables : 0 <= dl -> 0 <= len -> dl + len <= t_dir t /\ t_file t = t_dir t + 512 /\
  t_line t = t_dir t + 1536.
Proof using.
  intros H1 H2. unfold tables_behind. cbn [t_dir t_file t_line]. unfold SIZEOF_CODE_FILE.
  rewrite Z.shiftl_mul_pow2, Z.shiftr_div_pow2 by lia. change (2 ^ 3) with 8. split; [dlia|lia].
Qed.

(** The name [nm] lies in the section at [p]. *)
Definition name_at (m : bytes) (p : Z) (nm : list Z) : Prop :=
  dl <= p /\ p + Z.of_nat (length nm) + 1 <= dl + len /\ bytes_at m p (nm ++ [0]).

Definition dirs_at (m : bytes) (ds : list (list Z)) : Prop := forall i nm, ds !! i = Some nm ->
  name_at m (load64 m (t_dir t + 8 * Z.of_nat i)) nm.

Definition files_at (m : bytes) (fs : list (list Z * Z)) : Prop := forall i nm d,
  fs !! i = Some (nm, d) ->
  load64 m (t_file t + SIZEOF_CODE_FILE * Z.of_nat i) = d /\
  name_at m (load64 m (t_file t + SIZEOF_CODE_FILE * Z.of_nat i + 8)) nm.

Lemma name_at_frame m m' p nm : dl + len <= t_dir t ->
  (forall x, x < t_dir t -> load8 m' x = load8 m x) -> name_at m p nm -> name_at m' p nm.
Proof using.
  intros Hd Heq (H1 & H2 & H3). split; [done|]. split; [done|].
  eapply bytes_at_frame; [|done]. intros x Hx. rewrite length_app in Hx. simpl length in Hx.
  apply Heq. lia.
Qed.

Lemma dirs_at_frame m m' ds : dl + len <= t_dir t ->
  (forall x, x < t_dir t + 8 * Z.of_nat (length ds) -> load8 m' x = load8 m x) ->
  dirs_at m ds -> dirs_at m' ds.
Proof using.
  intros Hd Heq H i nm Hi. pose proof (lookup_lt_Some _ _ _ Hi).
  assert (load64 m' (t_dir t + 8 * Z.of_nat i) = load64 m (t_dir t + 8 * Z.of_nat i)) as ->.
  { apply load_le_ext. intros x Hx. apply Heq. lia. }
  eapply name_at_frame; [done| |by apply H]. intros x Hx. apply Heq. lia.
Qed.

Lemma dirs_at_snoc m ds p nm : dl + len <= t_dir t -> 0 <= p < 2 ^ 64 -> dirs_at m ds -> name_at m p nm ->
  dirs_at (store64 m (t_dir t + 8 * Z.of_nat (length ds)) p) (ds ++ [nm]).
Proof using.
  intros Hd Hp H Hn i nm' Hi. apply lookup_app_Some in Hi as [Hi|[Hge Hi]].
  - eapply dirs_at_frame; [done| |exact H|done]. intros x Hx. apply load8_store_le_ne. lia.
  - apply list_lookup_singleton_Some in Hi as [Hi <-]. replace i with (length ds) by lia.
    rewrite load64_store64_eq, u64_small by done. eapply name_at_frame; [done| |done].
    intros x Hx. apply load8_store_le_ne. lia.
Qed.

Lemma files_at_frame m m' fs : dl + len <= t_dir t -> t_file t = t_dir t + 512 ->
  (forall x, x < t_dir t \/ t_file t <= x < t_file t + SIZEOF_CODE_FILE * Z.of_nat (length fs) ->
    load8 m' x = load8 m x) ->
  files_at m fs -> files_at m' fs.
Proof using.
  intros Hd Hf Heq H i nm d Hi. pose proof (lookup_lt_Some _ _ _ Hi). unfold SIZEOF_CODE_FILE in *.
  destruct (H i nm d Hi) as [H1 H2]. unfold SIZEOF_CODE_FILE in *. split.
  - rewrite <- H1. apply load_le_ext. intros x Hx. apply Heq. lia.
  - assert (load64 m' (t_file t + 16 * Z.of_nat i + 8) = load64 m (t_file t + 16 * Z.of_nat i + 8)) as ->.
    { apply load_le_ext. intros x Hx. apply Heq. lia. }
    eapply name_at_frame; [done| |done]. intros x Hx. apply Heq. lia.
Qed.

Lemma files_at_snoc m fs nm d : dl + len <= t_dir t -> t_file t = t_dir t + 512 ->
  let a := t_file t + SIZEOF_CODE_FILE * Z.of_nat (length fs) in
  0 <= d < 2 ^ 64 -> files_at m fs -> name_at m (load64 m (a + 8)) nm ->
  files_at (store64 m a d) (fs ++ [(nm, d)]).
Proof using.
  intros Hd Hf a Hdr H Hn i nm' d' Hi. unfold SIZEOF_CODE_FILE in *.
  apply lookup_app_Some in Hi as [Hi|[Hge Hi]].
  - eapply files_at_frame; [done|done| |exact H|done]. intros x Hx. apply load8_store_le_ne.
    unfold SIZEOF_CODE_FILE, a in *. lia.
  - apply list_lookup_singleton_Some in Hi as [Hi [= <- <-]]. replace i with (length fs) by lia.
    fold a. unfold SIZEOF_CODE_FILE. fold a. rewrite load64_store64_eq, u64_small by done.
    split; [done|]. rewrite load_store_le_ne by (unfold a; lia).
    eapply name_at_frame; [done| |done]. intros x Hx. apply load8_store_le_ne. unfold a. lia.
Qed.

Lemma in_section a n : dl <= a -> a + n <= dl + len -> in_buf buf a n = true.
Proof using Hsec. intros H1 H2. apply in_buf_le. apply in_buf_le in Hsec. lia. Qed.

Hypothesis Hdl : 0 <= dl.
Hypothesis Hlen : 0 <= len.
Hypothesis Hdl64 : dl + len < 2 ^ 63.

Definition dir_bytes (ds : list (list Z)) : list Z := concat ((fun d => d ++ [0]) <$> ds).

Lemma dirs_loop l : forall fuel ds off m rest,
  Forall (fun d => is_name d /\ d <> []) l -> dl <= off ->
  off + Z.of_nat (length (dir_bytes l ++ 0 :: rest)) <= dl + len ->
  bytes_at m off (dir_bytes l ++ 0 :: rest) -> dirs_at m ds ->
  (length ds + length l <= 64)%nat -> (length l < fuel)%nat ->
  exists m', loop fuel (fun '(dir_ind, off) =>
    let* b := rd8 buf off in
    if b =? 0 then ret (inr (dir_ind, off))
    else
      (wr64 buf (t_dir t + 8 * dir_ind) off ;;;
       let* off := skip_name buf off in
       ret (inl (dir_ind + 1, off + 1)))) (Z.of_nat (length ds), off) m =
    Ok (Z.of_nat (length (ds ++ l)), off + Z.of_nat (length (dir_bytes l))) m' /\
    dirs_at m' (ds ++ l) /\
    (forall x, x < t_dir t \/ t_file t <= x -> load8 m' x = load8 m x).
Proof using All.
  destruct (layout_tables Hdl Hlen) as (L1 & L2 & L3). pose proof Hsec as Hs. apply in_buf_le in Hs.
  induction l as [|nm l IH]; intros fuel ds off m rest Hn Ho Hle Hm Hds H64 Hf;
    (destruct fuel as [|fuel]; [simpl in Hf; lia|]); cbn [loop].
  - change (dir_bytes []) with (@nil Z) in *. cbn [app] in *. exists m. rewrite app_nil_r. split; [|done].
    unfold bind at 1 2. rewrite (rd8_run _ _ _ 0); [|apply in_section; simpl in Hle; lia|apply Hm].
    simpl. unfold ret. do 2 f_equal. lia.
  - apply Forall_cons in Hn as [[Hnm Hne] Hn]. unfold dir_bytes in *. rewrite fmap_cons in *.
    cbn [concat] in *. fold (dir_bytes l) in *. rewrite <- !app_assoc in *. rewrite !length_app in *.
    simpl length in *. destruct nm as [|c nm]; [done|]. pose proof Hnm as [Hc _]%Forall_cons.
    pose proof Hm as Hm'. apply bytes_at_app in Hm' as [Hnmb Hm'].
    destruct Hm' as [Hz Hm'].
    unfold bind at 1 2. rewrite (rd8_run _ _ _ c); [|apply in_section; simpl in *; lia|apply Hm].
    rewrite (proj2 (Z.eqb_neq c 0)) by lia. unfold bind at 1.
    rewrite wr64_run by (apply in_buf_le; lia).
    set (m1 := store64 m (t_dir t + 8 * Z.of_nat (length ds)) off).
    assert (forall x, x < t_dir t \/ t_file t <= x -> load8 m1 x = load8 m x) as Hfr.
    { intros x Hx. apply load8_store_le_ne. lia. }
    assert (bytes_at m1 off ((c :: nm) ++ 0 :: dir_bytes l ++ 0 :: rest)) as Hm1.
    { eapply bytes_at_frame; [|exact Hm]. intros x Hx. apply Hfr. left.
      rewrite !length_app in Hx. simpl length in *. rewrite length_app in Hx. simpl length in *. lia. }
    unfold bind at 1. rewrite (skip_name_run _ (c :: nm) m1 off (dir_bytes l ++ 0 :: rest) Hnm Hm1)
      by (apply in_section; simpl length in *; lia).
    unfold ret at 1. apply bytes_at_app in Hm1 as [_ [_ Hm1]].
    destruct (IH fuel (ds ++ [c :: nm]) (off + Z.of_nat (length (c :: nm)) + 1) m1 rest)
      as (m' & E & H1 & H2); try done.
    + simpl length. lia.
    + rewrite length_app. simpl length in *. lia.
    + apply dirs_at_snoc; [done|lia|done|]. split; [lia|]. split; [simpl length in *; lia|].
      apply bytes_at_app. split; [done|]. by split.
    + rewrite length_app. simpl length in *. lia.
    + simpl in Hf. lia.
    + exists m'. rewrite <- app_assoc in *. simpl app in *. split; [|split; [done|]].
      * rewrite length_app in E. simpl length in E. rewrite Nat2Z.inj_add in E. change (Z.of_nat 1) with 1 in E.
        simpl length. rewrite E. rewrite !length_app. simpl length. do 2 f_equal. lia.
      * intros x Hx. by rewrite H2, Hfr.
Qed.

Definition file_round (dir_base : Z) (x : Z * Z) : M bytes (Z * Z + Z * Z) :=
  let '(file_ind, off) := x in
  let* b := rd8 buf off in
  if b =? 0 then ret (inr (file_ind, off))
  else
    wr64 buf (t_file t + SIZEOF_CODE_FILE * file_ind + 8) off ;;;
    let* off := skip_name buf off in
    let* (dir, off) := read_uleb128 buf (off + 1) in
    wr64 buf (t_file t + SIZEOF_CODE_FILE * file_ind) (u64 (dir - 1 + dir_base)) ;;;
    let* (_, off) := read_uleb128 buf off in
    let* (_, off) := read_uleb128 buf off in
    ret (inl (file_ind + 1, off)).

(** A number of the section, read in a memory that agrees with [m] there. *)
Lemma uleb_in_section n off m rest : 0 <= n < 2 ^ 64 -> dl <= off ->
  off + Z.of_nat (length (uleb n ++ rest)) <= dl + len -> bytes_at m off (uleb n ++ rest) ->
  read_uleb128 buf off m = Ok (n, off + Z.of_nat (length (uleb n))) m.
Proof using Hsec.
  intros Hn Ho Hle Hm. rewrite length_app in Hle.
  apply (read_uleb128_run _ _ _ _ rest); [done|done|]. apply in_section; lia.
Qed.

Lemma file_round_run f db fs off m rest : file_ok f -> dl <= off ->
  off + Z.of_nat (length (encode_file f ++ rest)) <= dl + len ->
  bytes_at m off (encode_file f ++ rest) -> files_at m fs -> (length fs < 64)%nat ->
  exists m', file_round db (Z.of_nat (length fs), off) m =
      Ok (inl (Z.of_nat (length fs) + 1, off + Z.of_nat (length (encode_file f)))) m' /\
    files_at m' (fs ++ [(uf_name f, u64 (uf_dir f - 1 + db))]) /\
    (forall x, x < t_file t \/ t_line t <= x -> load8 m' x = load8 m x).
Proof using All.
  destruct (layout_tables Hdl Hlen) as (L1 & L2 & L3). pose proof Hsec as Hs. apply in_buf_le in Hs.
  intros (Hnm & Hne & Hd & Ht & Hl) Ho Hle Hm Hfs H64. destruct f as [nm d tm ln]. simpl in Hnm, Hne, Hd, Ht, Hl.
  unfold encode_file in *. cbn [uf_name uf_dir uf_time uf_length] in *. rewrite <- !app_assoc in Hm, Hle.
  change (nm ++ [0] ++ uleb d ++ uleb tm ++ uleb ln ++ rest)
    with (nm ++ 0 :: uleb d ++ uleb tm ++ uleb ln ++ rest) in Hm, Hle.
  set (k := Z.of_nat (length fs)) in *. set (a := t_file t + SIZEOF_CODE_FILE * k).
  set (m1 := store64 m (a + 8) off). set (m2 := store64 m1 a (u64 (d - 1 + db))).
  unfold SIZEOF_CODE_FILE in *.
  assert (forall x, x < t_file t \/ t_line t <= x -> load8 m1 x = load8 m x) as F1.
  { intros x Hx. apply load8_store_le_ne. unfold a, k. lia. }
  assert (forall x, x < t_file t \/ t_line t <= x -> load8 m2 x = load8 m x) as F2.
  { intros x Hx. rewrite <- F1 by done. apply load8_store_le_ne. unfold a, k. lia. }
  assert (forall m', (forall x, x < t_file t \/ t_line t <= x -> load8 m' x = load8 m x) ->
    bytes_at m' off (nm ++ 0 :: uleb d ++ uleb tm ++ uleb ln ++ rest)) as Hb.
  { intros m' Hx. eapply bytes_at_frame; [|exact Hm]. intros x Hx'. apply Hx. lia. }
  rewrite length_app in Hle. simpl length in Hle.
  pose proof (Hb m1 F1) as Hm1. pose proof (Hb m2 F2) as Hm2.
  apply bytes_at_app in Hm1 as [Hnm1 [Hz1 Hm1]]. apply bytes_at_app in Hm2 as [_ [_ Hm2]].
  apply bytes_at_app in Hm2 as [_ Hm2]. pose proof Hm2 as Hm3. apply bytes_at_app in Hm3 as [_ Hm3].
  unfold file_round. destruct nm as [|c nm]; [done|]. pose proof Hnm as [Hc _]%Forall_cons.
  unfold bind at 1. rewrite (rd8_run _ _ _ c); [|apply in_section; simpl length in *; lia|apply Hm].
  rewrite (proj2 (Z.eqb_neq c 0)) by lia. unfold bind at 1.
  rewrite wr64_run by (apply in_buf_le; unfold SIZEOF_CODE_FILE, k; lia).
  fold a. fold m1. unfold bind at 1.
  rewrite (skip_name_run _ (c :: nm) m1 off (uleb d ++ uleb tm ++ uleb ln ++ rest));
    [|done|by apply Hb|apply in_section; simpl length in *; lia].
  unfold bind at 1. rewrite (uleb_in_section d _ m1 (uleb tm ++ uleb ln ++ rest));
    [|done|lia|simpl length in *; lia|done].
  fold a. unfold bind at 1. rewrite wr64_run by (apply in_buf_le; unfold a, k, SIZEOF_CODE_FILE; lia). fold m2.
  rewrite !length_app in Hle. unfold bind at 1.
  rewrite (uleb_in_section tm _ m2 (uleb ln ++ rest)); [|done|lia|rewrite !length_app; simpl length in *; lia|done].
  unfold bind at 1.
  rewrite (uleb_in_section ln _ m2 rest); [|done|lia|rewrite !length_app; simpl length in *; lia|done].
  exists m2. split; [|split; [|done]].
  - unfold ret. rewrite !length_app. simpl length. do 3 f_equal. lia.
  - apply (files_at_snoc m1 fs (c :: nm)); [done|done|apply u64_range| |].
    + eapply files_at_frame; [done|done| |done]. intros x Hx. apply load8_store_le_ne.
      unfold SIZEOF_CODE_FILE, a, k in *. lia.
    + unfold SIZEOF_CODE_FILE. fold k. fold a. assert (load64 m1 (a + 8) = off) as ->.
      { unfold m1. rewrite load64_store64_eq. apply u64_small. lia. }
      split; [lia|]. split; [simpl length in *; lia|]. apply bytes_at_app. split; [done|]. by split.
Qed.

Definition file_bytes (fs : list unit_file) : list Z := concat (encode_file <$> fs).
Definition file_rows (db : Z) (fs : list unit_file) : list (list Z * Z) :=
  (fun f => (uf_name f, u64 (uf_dir f - 1 + db))) <$> fs.

Lemma files_loop db l : forall fuel fs off m rest, Forall file_ok l -> dl <= off ->
  off + Z.of_nat (length (file_bytes l ++ 0 :: rest)) <= dl + len ->
  bytes_at m off (file_bytes l ++ 0 :: rest) -> files_at m fs ->
  (length fs + length l <= 64)%nat -> (length l < fuel)%nat ->
  exists m', loop fuel (file_round db) (Z.of_nat (length fs), off) m =
      Ok (Z.of_nat (length fs + length l), off + Z.of_nat (length (file_bytes l))) m' /\
    files_at m' (fs ++ file_rows db l) /\
    (forall x, x < t_file t \/ t_line t <= x -> load8 m' x = load8 m x).
Proof using All.
  destruct (layout_tables Hdl Hlen) as (L1 & L2 & L3). pose proof Hsec as Hs. apply in_buf_le in Hs.
  induction l as [|f l IH]; intros fuel fs off m rest Hok Ho Hle Hm Hfs H64 Hf;
    (destruct fuel as [|fuel]; [simpl in Hf; lia|]); cbn [loop].
  - change (file_bytes []) with (@nil Z) in *. cbn [app] in *. exists m. unfold file_rows.
    rewrite app_nil_r. split; [|done]. unfold bind, file_round.
    unfold bind. rewrite (rd8_run _ _ _ 0); [|apply in_section; simpl in Hle; lia|apply Hm].
    simpl. unfold ret. do 2 f_equal; lia.
  - apply Forall_cons in Hok as [Hf0 Hok]. unfold file_bytes in *. rewrite fmap_cons in *.
    cbn [concat] in *. fold (file_bytes l) in *. rewrite <- !app_assoc in Hm, Hle.
    destruct (file_round_run f db fs off m (file_bytes l ++ 0 :: rest)) as (m1 & E1 & H1 & H2);
      [done|done|done|done|done|simpl in H64; lia|].
    unfold bind. rewrite E1. apply bytes_at_app in Hm as [_ Hm]. rewrite length_app in Hle.
    destruct (IH fuel (fs ++ [(uf_name f, u64 (uf_dir f - 1 + db))])
      (off + Z.of_nat (length (encode_file f))) m1 rest) as (m' & E & H3 & H4); try done.
    + lia.
    + lia.
    + eapply bytes_at_frame; [|exact Hm]. intros x Hx. apply H2. lia.
    + rewrite length_app. simpl in *. lia.
    + simpl in Hf. lia.
    + exists m'. rewrite <- app_assoc in H3. rewrite length_app in E. split; [|split; [done|]].
      * replace (Z.of_nat (length fs + length [(uf_name f, u64 (uf_dir f - 1 + db))]))
          with (Z.of_nat (length fs) + 1) in E by (simpl length; lia).
        rewrite E. rewrite length_app. simpl length. do 2 f_equal; lia.
      * intros x Hx. by rewrite H4, H2.
Qed.

(** *** A compilation unit *)

Definition tables_ok (m : bytes) (T : tables_of) : Prop :=
  dirs_at m (tb_dirs T) /\ files_at m (tb_files T) /\ rows_at t m (tb_rows T).

(** The tables fit in their arrays and in the buffer. *)
Definition tables_fit (T : tables_of) : Prop :=
  (length (tb_dirs T) <= 64)%nat /\ (length (tb_files T) <= 64)%nat /\
  t_line t + SIZEOF_ADDR_LINE * Z.of_nat (length (tb_rows T)) <= buf + MAX_DEBUG_LINE_SIZE.

Lemma encode_header_at h off m rest : header_ok h -> bytes_at m off (encode_header h ++ rest) ->
  header_at h off m /\ length (encode_header h) = 27%nat.
Proof using.
  intros [H1 _ _ _ _ H2] Hm. unfold encode_header in *. split; [|rewrite !length_app; simpl; lia].
  rewrite <- app_assoc in Hm. apply bytes_at_app in Hm as [_ Hm]. rewrite H1 in Hm.
  destruct Hm as (M1 & M2 & M3 & M4 & M5 & _). unfold header_at.
  unfold DH_MIN_INSTRUCTION_LENGTH, DH_LINE_BASE, DH_LINE_RANGE, DH_OPCODE_BASE.
  rewrite <- !Z.add_assoc in *. by split_and!.
Qed.

Lemma encode_instr_length i : (1 <= length (encode_instr i))%nat.
Proof using. destruct i; simpl; lia. Qed.

Lemma program_bytes_length p : (length p <= length (concat (encode_instr <$> p)))%nat.
Proof using.
  induction p as [|i p IH]; [simpl; lia|]. rewrite fmap_cons. cbn [concat length].
  rewrite length_app. pose proof (encode_instr_length i). lia.
Qed.

Lemma add_unit_mono T u : (length (tb_dirs T) <= length (tb_dirs (add_unit T u)))%nat /\
  (length (tb_files T) <= length (tb_files (add_unit T u)))%nat /\
  (length (tb_rows T) <= length (tb_rows (add_unit T u)))%nat.
Proof using.
  unfold add_unit. simpl. rewrite !length_app. split; [lia|]. split; [lia|].
  unfold exec_program. destruct (foldl _ _ _) as [regs rows] eqn:E.
  apply exec_all_length in E. pose proof (emit_length (Z.of_nat (length (tb_files T))) regs rows). lia.
Qed.

Lemma fit_before T u : tables_fit (add_unit T u) -> tables_fit T.
Proof using.
  intros (H1 & H2 & H3). destruct (add_unit_mono T u) as (M1 & M2 & M3).
  unfold tables_fit, SIZEOF_ADDR_LINE in *. split; [lia|]. split; lia.
Qed.

Lemma read_unit_run u T off m rest : unit_ok u -> dl <= off ->
  off + Z.of_nat (length (encode_unit u ++ rest)) <= dl + len ->
  bytes_at m off (encode_unit u ++ rest) -> tables_ok m T -> tables_fit (add_unit T u) ->
  let T' := add_unit T u in
  exists m', read_unit buf t (Z.of_nat (length (tb_dirs T)), Z.of_nat (length (tb_files T)),
      Z.of_nat (length (tb_rows T)), off) m =
    Ok (Z.of_nat (length (tb_dirs T')), Z.of_nat (length (tb_files T')),
      Z.of_nat (length (tb_rows T')), off + Z.of_nat (length (encode_unit u))) m' /\
    tables_ok m' T' /\ (forall x, x < t_dir t -> load8 m' x = load8 m x).
Proof using All.
  intros [Hh Hds Hfs Hp] Ho Hle Hm (D1 & D2 & D3) (F1 & F2 & F3) T'.
  destruct (layout_tables Hdl Hlen) as (L1 & L2 & L3). pose proof Hsec as Hs. apply in_buf_le in Hs.
  set (h := u_header u) in *. set (prog := concat (encode_instr <$> u_program u) ++ end_sequence).
  assert (encode_unit u ++ rest = encode_header h ++ dir_bytes (u_dirs u) ++ 0 ::
    file_bytes (u_files u) ++ 0 :: prog ++ rest) as Eu.
  { unfold encode_unit, dir_bytes, file_bytes, prog. rewrite <- !app_assoc. done. }
  pose proof Hle as Hle'. rewrite length_app in Hle'. rewrite Eu in Hm, Hle.
  destruct (encode_header_at h off m _ Hh Hm) as [Hhd E27]. apply bytes_at_app in Hm as [_ Hm].
  rewrite !length_app, E27 in Hle. cbn [length] in Hle. rewrite length_app in Hle. cbn [length] in Hle.
  rewrite length_app in Hle. rewrite E27 in Hm. change (Z.of_nat 27) with 27 in Hm.
  apply (f_equal length) in Eu. rewrite !length_app, E27 in Eu. cbn [length] in Eu.
  rewrite length_app in Eu. cbn [length] in Eu. rewrite length_app in Eu.
  unfold T', add_unit, tables_fit in *. cbn [tb_dirs tb_files tb_rows] in *. rewrite !length_app in *.
  rewrite length_fmap in *.
  (* directories *)
  destruct (dirs_loop (u_dirs u) ROUNDS (tb_dirs T) (off + 27) m
    (file_bytes (u_files u) ++ 0 :: prog ++ rest)) as (m1 & X1 & A1 & B1);
    [done|lia|rewrite length_app; cbn [length]; rewrite length_app; cbn [length]; rewrite length_app; lia
    |done|done|done|unfold ROUNDS, MAX_DEBUG_LINE_SIZE; lia|].
  apply bytes_at_app in Hm as [_ [_ Hm]].
  set (o1 := off + 27 + Z.of_nat (length (dir_bytes (u_dirs u)))) in *.
  (* files *)
  destruct (files_loop (Z.of_nat (length (tb_dirs T))) (u_files u) ROUNDS (tb_files T) (o1 + 1) m1
    (prog ++ rest)) as (m2 & X2 & A2 & B2);
    [done|unfold o1; lia|rewrite length_app; cbn [length]; rewrite length_app; unfold o1; lia
    | | |done|unfold ROUNDS, MAX_DEBUG_LINE_SIZE; lia|].
  { eapply bytes_at_frame; [|exact Hm]. intros x Hx. rewrite length_app in Hx. cbn [length] in Hx.
    rewrite length_app in Hx. apply B1. unfold o1 in *. lia. }
  { eapply files_at_frame; [done|done| |done]. intros x Hx. apply B1. lia. }
  apply bytes_at_app in Hm as [_ [_ Hm]].
  set (o2 := o1 + 1 + Z.of_nat (length (file_bytes (u_files u)))) in *.
  assert (forall x, x < t_dir t -> load8 m2 x = load8 m x) as B12.
  { intros x Hx. rewrite B2, B1 by lia. done. }
  (* program *)
  unfold exec_program in *.
  destruct (foldl (exec_instr h (Z.of_nat (length (tb_files T)))) (AddrLine 0 1 1, tb_rows T) (u_program u))
    as [regs' rows'] eqn:Ex. fold h in F3 |- *. rewrite Ex in F3 |- *.
  destruct (program_loop buf t h (Z.of_nat (length (tb_files T))) off Hh
    ltac:(apply in_section; unfold SIZEOF_DEBUG_HEADER; lia) (u_program u) ROUNDS (AddrLine 0 1 1)
    (tb_rows T) (o2 + 1) m2 rest regs' rows' Hp) as (m3 & X3 & A3 & B3).
  { by split_and!. }
  { eapply (header_at_frame h off (t_dir t)); [unfold SIZEOF_DEBUG_HEADER; lia|exact B12|done]. }
  { eapply rows_at_frame; [|done]. intros x Hx. rewrite B2, B1 by lia. done. }
  { unfold SIZEOF_DEBUG_HEADER. lia. }
  { fold prog. eapply bytes_at_frame; [|exact Hm]. intros x Hx. rewrite length_app in Hx.
    apply B12. unfold o2, o1 in *. lia. }
  { fold prog. apply in_section; unfold o2, o1; lia. }
  { fold prog. rewrite length_app. unfold o2, o1. lia. }
  { done. }
  { apply in_buf_le. lia. }
  { pose proof (program_bytes_length (u_program u)). unfold prog in Hle. rewrite length_app in Hle.
    unfold ROUNDS. lia. }
  exists m3. split; [|split].
  - unfold read_unit, bind at 1. unfold read_dirs. unfold SIZEOF_DEBUG_HEADER. rewrite X1. fold o1.
    unfold bind at 1. unfold read_files. fold (file_round (Z.of_nat (length (tb_dirs T)))).
    rewrite X2. fold o2. unfold bind, run_program. rewrite X3. fold prog.
    unfold ret. rewrite length_app. do 2 f_equal. unfold o2, o1. lia.
  - split; [|split; [|done]].
    + eapply dirs_at_frame; [done| |exact A1]. intros x Hx. cbn [tb_dirs] in Hx. rewrite length_app in Hx.
      rewrite B3, B2 by lia. done.
    + eapply files_at_frame; [done|done| |exact A2]. intros x Hx. cbn [tb_files] in Hx.
      rewrite length_app, length_fmap in Hx. unfold SIZEOF_CODE_FILE in Hx. apply B3. lia.
  - intros x Hx. rewrite B3 by lia. by apply B12.
Qed.

Lemma fit_all us : forall T, tables_fit (foldl add_unit T us) -> tables_fit T.
Proof using.
  induction us as [|u us IH]; intros T; cbn [foldl]; [done|]. intros H%IH. by eapply fit_before.
Qed.

Lemma encode_unit_length u : header_ok (u_header u) -> (1 <= length (encode_unit u))%nat.
Proof using.
  intros [H _ _ _ _ _]. unfold encode_unit, encode_header. rewrite !length_app, H. lia.
Qed.

Lemma units_loop us : forall fuel T off m, Forall unit_ok us -> dl <= off ->
  off + Z.of_nat (length (concat (encode_unit <$> us))) = dl + len ->
  bytes_at m off (concat (encode_unit <$> us)) -> tables_ok m T -> tables_fit (foldl add_unit T us) ->
  (length us < fuel)%nat ->
  let T' := foldl add_unit T us in
  exists m', loop fuel (unit_round buf t (dl + len)) (Z.of_nat (length (tb_dirs T)), Z.of_nat (length (tb_files T)),
      Z.of_nat (length (tb_rows T)), off) m =
    Ok (Z.of_nat (length (tb_dirs T')), Z.of_nat (length (tb_files T')),
      Z.of_nat (length (tb_rows T')), dl + len) m' /\
    tables_ok m' T' /\ (forall x, x < t_dir t -> load8 m' x = load8 m x).
Proof using All.
  destruct (layout_tables Hdl Hlen) as (L1 & L2 & L3).
  induction us as [|u us IH]; intros fuel T off m Hok Ho Hle Hm Ht Hfit Hf T';
    (destruct fuel as [|fuel]; [simpl in Hf; lia|]); cbn [loop unit_round].
  - simpl in Hle. rewrite Z.add_0_r in Hle. exists m. split; [|done].
    rewrite (proj2 (Z.ltb_ge off (dl + len))) by lia. by rewrite <- Hle.
  - apply Forall_cons in Hok as [Hu Hok]. rewrite fmap_cons in Hm, Hle. cbn [concat] in Hm, Hle.
    cbn [foldl] in Hfit. pose proof (encode_unit_length u (uo_header _ Hu)) as Hl1. rewrite length_app in Hle.
    rewrite (proj2 (Z.ltb_lt off (dl + len))) by lia.
    destruct (read_unit_run u T off m (concat (encode_unit <$> us)) Hu Ho) as (m1 & E1 & H1 & H2).
    { rewrite length_app. lia. }
    { done. } { done. } { by eapply fit_all. }
    unfold bind at 1 2. rewrite E1. unfold ret at 1.
    apply bytes_at_app in Hm as [_ Hm].
    destruct (IH fuel (add_unit T u) (off + Z.of_nat (length (encode_unit u))) m1 Hok)
      as (m' & E2 & H3 & H4); try done.
    + lia.
    + lia.
    + eapply bytes_at_frame; [|exact Hm]. intros x Hx. apply H2. lia.
    + simpl in Hf. lia.
    + exists m'. split; [exact E2|]. split; [done|]. intros x Hx. by rewrite H4, H2.
Qed.

End Units.

(** The rows of the table, first one first. *)
Lemma rows_at_lookup t m rows i r : rows_at t m rows -> rev rows !! i = Some r ->
  row_at t m (Z.of_nat i) r.
Proof.
  induction rows as [|r0 rows IH]; simpl; [done|]. intros [H1 H2].
  rewrite lookup_app_Some, length_rev. intros [Hi|[Hge Hi]]; [by apply IH|].
  apply list_lookup_singleton_Some in Hi as [Hi <-]. by replace i with (length rows) by lia.
Qed.

(** C16: [make_addr_line] decodes what DWARF encodes.  Run on the encoding of any
    list of well-formed compilation units, with tables that fit in the buffer, it
    always returns; the directory and file tables point to the names in the
    section, in order and with the right directory indices, and the row table
    holds exactly the rows (address, line, file) that the line-number programs
    define, a later row replacing an earlier one for the same address. *)
Theorem make_addr_line_correct buf dl us m :
  let bs := concat (encode_unit <$> us) in
  let len := Z.of_nat (length bs) in
  let t := tables_behind dl len in
  let T := reference_tables us in
  Forall unit_ok us -> bytes_at m dl bs -> 0 <= dl -> dl + len < 2 ^ 63 ->
  in_buf buf dl len = true ->
  (length (tb_dirs T) <= 64)%nat -> (length (tb_files T) <= 64)%nat ->
  t_line t + SIZEOF_ADDR_LINE * Z.of_nat (length (tb_rows T)) <= buf + MAX_DEBUG_LINE_SIZE ->
  exists m', make_addr_line buf dl len m = Ok (t, Z.of_nat (length (tb_rows T))) m' /\
    bytes_at m' dl bs /\
    (forall i nm, tb_dirs T !! i = Some nm ->
      name_at dl len m' (load64 m' (t_dir t + 8 * Z.of_nat i)) nm) /\
    (forall i nm d, tb_files T !! i = Some (nm, d) ->
      load64 m' (t_file t + SIZEOF_CODE_FILE * Z.of_nat i) = d /\
      name_at dl len m' (load64 m' (t_file t + SIZEOF_CODE_FILE * Z.of_nat i + 8)) nm) /\
    (forall i r, rev (tb_rows T) !! i = Some r -> row_at t m' (Z.of_nat i) r).
Proof.
  intros bs len t T Hok Hm Hdl H63 Hin H1 H2 H3.
  assert (0 <= len) as Hlen by (unfold len; lia).
  destruct (layout_tables dl len Hdl Hlen) as (L1 & L2 & L3). pose proof Hin as Hin'. apply in_buf_le in Hin'.
  assert (length us <= length bs)%nat as Hus.
  { unfold bs. clear -Hok. induction Hok as [|u us [Hu _ _ _] _ IH]; [done|].
    rewrite fmap_cons. cbn [concat length]. rewrite length_app. pose proof (encode_unit_length u Hu). lia. }
  destruct (units_loop buf dl len Hin ltac:(unfold t, SIZEOF_ADDR_LINE in *; lia) Hdl Hlen H63 us ROUNDS
    (TablesOf [] [] []) dl m) as (m' & E & (A1 & A2 & A3) & B); try done.
  - unfold ROUNDS. lia.
  - exists m'. split_and!.
    + unfold make_addr_line, bind. cbn [tb_dirs tb_files tb_rows length] in E. change (Z.of_nat 0) with 0 in E.
      by rewrite E.
    + eapply bytes_at_frame; [|exact Hm]. intros x Hx. apply B. fold len in Hx. lia.
    + exact A1.
    + exact A2.
    + intros i r Hi. by eapply rows_at_lookup.
Qed.

(** One unit with a directory, a file and three rows, laid out at the start of
    the buffer. *)
Definition demo_unit : comp_unit :=
  CompUnit (UnitHeader (replicate 10 0) 1 1 251 14 13 (replicate 12 1))
    [[115; 114; 99]] [UnitFile [109; 46; 99] 1 0 0]
    [LSetAddress 0x10000; LCopy; LAdvanceLine (-3); LSpecial 0x4b; LAdvancePc 300; LCopy].

Definition put_bytes (a : Z) (l : list Z) : bytes :=
  foldr (fun p m => store8 m p.1 p.2) ∅ (imap (fun i b => (a + Z.of_nat i, b)) l).

Lemma make_addr_line_correct_witness : exists m m',
  make_addr_line 0x80000000 0x80000000 (Z.of_nat (length (encode_unit demo_unit))) m =
    Ok (tables_behind 0x80000000 (Z.of_nat (length (encode_unit demo_unit))), 3) m'.
Proof.
  destruct (make_addr_line_correct 0x80000000 0x80000000 [demo_unit]
    (put_bytes 0x80000000 (encode_unit demo_unit))) as (m' & E & _).
  - repeat constructor; try done; simpl; lia.
  - vm_compute. repeat split.
  - lia.
  - vm_compute. done.
  - vm_compute. done.
  - vm_compute. lia.
  - vm_compute. lia.
  - vm_compute. done.
  - eexists _, m'. exact E.
Defined.
