(* ===== verification/HashTable.v ===== *)
(** * The kernel's hash table (util/hash_table.c)

    A table of [HASH_TABLE_SIZE] chains of nodes, each node on a page of its own.
    The operations are those of [hash_table_init]'s defaults, written for any key
    type with the two functions the table is initialised with ([HashKey]) and for
    any state that holds a table and a page allocator ([PageSource]).  The
    theorems show that the table is a finite map from keys to values. *)

From S2P Require Import Prelude Mem Pmm.
From stdpp Require Import base gmap list fin_maps.
From Stdlib Require Import ZArith Lia Bool.

Set Default Goal Selector "!".
Open Scope Z_scope.

Definition HASH_TABLE_SIZE : Z := 128.

(** The functions a table is initialised with: [virtual_hash_func] and
    [virtual_hash_equal].  Keys are taken by contents. *)
Class HashKey (K : Type) : Type := {
  hash_func : K -> Z;
  hash_equal : K -> K -> bool;
  hash_equal_spec : forall a b, hash_equal a b = true <-> a = b
}.

(** Where the nodes live. *)
Class PageSource (S : Type) : Type := {
  page_alloc : M S Z;
  page_release : Z -> M S unit
}.

#[export] Instance pmm_pages : PageSource pmm := {|
  page_alloc := alloc_page; page_release := free_page |}.

(** [struct hash_node], with the address of its page. *)
Record hash_node (K : Type) : Type := HashNode { node : Z; key : K; value : Z }.
Arguments HashNode {K} _ _ _.
Arguments node {K} _.
Arguments key {K} _.
Arguments value {K} _.

(** The chains behind the 128 heads. *)
Abbreviation hash_table K := (gmap Z (list (hash_node K))).
Definition chain {K} (t : hash_table K) (i : Z) : list (hash_node K) := default [] (t !! i).

Section Operations.
  Context {K S : Type} `{HashKey K} `{PageSource S}.
  Variable tbl : lens S (hash_table K).

Definition hash_table_init : M S Z := modify (lset tbl ∅) ;;; ret 0.

(** [head + index] must be one of the heads. *)
Definition head_index (k : K) : M S Z :=
  if (0 <=? hash_func k) && (hash_func k <? HASH_TABLE_SIZE) then ret (hash_func k) else fault.

Fixpoint find_node (l : list (hash_node K)) (k : K) : Z :=
  match l with
  | [] => 0
  | n :: l => if hash_equal (key n) k then value n else find_node l k
  end.

Definition default_get (k : K) : M S Z :=
  let* index := head_index k in
  let* t := gets (lget tbl) in
  ret (find_node (chain t index) k).

Definition default_put (k : K) (v : Z) : M S Z :=
  let* n := page_alloc in
  let* old := default_get k in
  if negb (old =? 0) then ret (-1)
  else if n =? 0 then fault
  else
    let* index := head_index k in
    modify (fun s => let t := lget tbl s in
      lset tbl (<[index := HashNode n k v :: chain t index]> t) s) ;;;
    ret 0.

(** The chain without its first node for [k], and that node. *)
Fixpoint unchain (l : list (hash_node K)) (k : K) : option (hash_node K * list (hash_node K)) :=
  match l with
  | [] => None
  | n :: l =>
      if hash_equal (key n) k then Some (n, l)
      else match unchain l k with
           | Some (x, l') => Some (x, n :: l')
           | None => None
           end
  end.

Definition default_erase (k : K) : M S Z :=
  let* index := head_index k in
  let* t := gets (lget tbl) in
  match unchain (chain t index) k with
  | Some (n, l) =>
      modify (lset tbl (<[index := l]> t)) ;;;
      page_release (node n) ;;;
      ret 0
  | None => ret (-1)
  end.

End Operations.

(** ** The table as a map *)

Section Theory.
  Context {K S : Type} `{HashKey K}.

Definition ok_key (k : K) : Prop := 0 <= hash_func k < HASH_TABLE_SIZE.

(** The value the table holds for a key, NULL (0) for none. *)
Definition contents (t : hash_table K) (k : K) : Z := find_node (chain t (hash_func k)) k.

(** Every node is in the chain of its key, holds a value other than NULL, and no
    chain has two nodes for one key. *)
Record table_wf (t : hash_table K) : Prop := {
  tw_place : forall i n, n ∈ chain t i -> hash_func (key n) = i;
  tw_value : forall i n, n ∈ chain t i -> value n <> 0;
  tw_nodup : forall i, NoDup (key <$> chain t i)
}.

Lemma hash_equal_true k : hash_equal k k = true.
Proof. by apply hash_equal_spec. Qed.

Lemma find_node_absent l k : k ∉ (key <$> l) -> find_node l k = 0.
Proof.
  induction l as [|n l IH]; simpl; [done|]. intros [Hne Hk]%not_elem_of_cons.
  destruct (hash_equal (key n) k) eqn:E; [|auto]. apply hash_equal_spec in E. by subst.
Qed.

Lemma find_node_0 l k : (forall n, n ∈ l -> value n <> 0) -> find_node l k = 0 -> k ∉ (key <$> l).
Proof.
  induction l as [|n l IH]; simpl; intros Hv Hf; [by apply not_elem_of_nil|].
  destruct (hash_equal (key n) k) eqn:E.
  - exfalso. apply (Hv n); [by left|done].
  - apply not_elem_of_cons. split.
    + intros ->. by rewrite hash_equal_true in E.
    + apply IH; [|done]. intros m Hm. apply Hv. by right.
Qed.

Lemma chain_insert (t : hash_table K) i j l :
  chain (<[i := l]> t) j = if decide (i = j) then l else chain t j.
Proof. unfold chain. rewrite lookup_insert. by case_decide. Qed.

Lemma unchain_None l k : unchain l k = None -> find_node l k = 0.
Proof.
  induction l as [|n l IH]; simpl; [done|]. destruct (hash_equal (key n) k); [done|].
  destruct (unchain l k) as [[]|]; [done|]. auto.
Qed.

Lemma unchain_Some l : forall k n l', unchain l k = Some (n, l') ->
  l ≡ₚ n :: l' /\ key n = k /\ forall k2, k2 <> k -> find_node l' k2 = find_node l k2.
Proof.
  induction l as [|m l IH]; simpl; intros k n l' Hu; [done|].
  destruct (hash_equal (key m) k) eqn:E.
  - injection Hu as -> ->. apply hash_equal_spec in E. split_and!; [done|done|].
    intros k2 Hne. destruct (hash_equal (key n) k2) eqn:E2; [|done].
    apply hash_equal_spec in E2. congruence.
  - destruct (unchain l k) as [[x l1]|] eqn:Eu; [|done]. injection Hu as -> <-.
    destruct (IH k n l1 Eu) as (Hp & Hk & Hf). split_and!; [|done|].
    + rewrite Hp. apply perm_swap.
    + intros k2 Hne. simpl. destruct (hash_equal (key m) k2); auto.
Qed.

Lemma table_wf_insert t k v n : table_wf t -> v <> 0 -> contents t k = 0 ->
  table_wf (<[hash_func k := HashNode n k v :: chain t (hash_func k)]> t).
Proof.
  intros [P V N] Hv Hk. constructor; intros i; rewrite chain_insert; case_decide as E; eauto.
  - intros m [->|Hm]%elem_of_cons; [done|]. subst i. auto.
  - intros m [->|Hm]%elem_of_cons; [done|]. subst i. eauto.
  - simpl. apply NoDup_cons. split; [|done]. apply find_node_0; [apply V|]. exact Hk.
Qed.

Lemma contents_insert t k v n k2 :
  contents (<[hash_func k := HashNode n k v :: chain t (hash_func k)]> t) k2 =
  if hash_equal k k2 then v else contents t k2.
Proof.
  unfold contents. rewrite chain_insert. case_decide as E; [by rewrite E|].
  destruct (hash_equal k k2) eqn:E2; [|done]. apply hash_equal_spec in E2. congruence.
Qed.

Lemma table_wf_unchain t k n l : table_wf t -> unchain (chain t (hash_func k)) k = Some (n, l) ->
  table_wf (<[hash_func k := l]> t) /\
  forall k2, contents (<[hash_func k := l]> t) k2 = if hash_equal k k2 then 0 else contents t k2.
Proof.
  intros [P V N] Hu. destruct (unchain_Some _ _ _ _ Hu) as (Hp & Hk & Hf).
  assert (forall m, m ∈ l -> m ∈ chain t (hash_func k)) as Hin.
  { intros m Hm. rewrite Hp. by right. }
  assert (NoDup (key n :: (key <$> l))) as [Hn Hnd]%NoDup_cons.
  { specialize (N (hash_func k)). by rewrite Hp in N. }
  split.
  - constructor; intros i; rewrite chain_insert; case_decide as E; subst; eauto.
  - intros k2. unfold contents. rewrite chain_insert.
    destruct (hash_equal k k2) eqn:E.
    + apply hash_equal_spec in E. subst k2. rewrite decide_True by done.
      apply find_node_absent. by rewrite <- Hk at 1.
    + assert (k2 <> k) by (intros ->; by rewrite hash_equal_true in E).
      case_decide as Ei; [|done]. rewrite Hf by done. by rewrite Ei.
Qed.

Lemma table_wf_empty : table_wf ∅.
Proof. constructor; intros i; simpl; try (intros n Hn; by apply elem_of_nil in Hn); constructor. Qed.

End Theory.

(** ** The operations against the map *)

(** What a client of the table needs from the state it lives in: the allocator
    does not touch the table. *)
Class TableState {S K : Type} `{PageSource S} (tbl : lens S (hash_table K)) : Prop := {
  ts_laws :: LensLaws tbl;
  ts_alloc : forall s n s', page_alloc s = Ok n s' -> lget tbl s' = lget tbl s;
  ts_release : forall s n s', page_release n s = Ok tt s' -> lget tbl s' = lget tbl s
}.

Section Spec.
  Context {K S : Type} `{HashKey K} `{PageSource S} (tbl : lens S (hash_table K)).
  Context `{!TableState tbl}.

Lemma head_index_run k (s : S) : ok_key k -> head_index k s = Ok (hash_func k) s.
Proof.
  unfold ok_key, head_index. intros Hk.
  by replace ((0 <=? hash_func k) && (hash_func k <? HASH_TABLE_SIZE)) with true by lia.
Qed.

Lemma default_get_run k s : ok_key k -> default_get tbl k s = Ok (contents (lget tbl s) k) s.
Proof. intros Hk. unfold default_get, bind. by rewrite head_index_run. Qed.

Lemma default_put_run k v s n s1 : ok_key k -> page_alloc s = Ok n s1 -> n <> 0 ->
  default_put tbl k v s =
    if contents (lget tbl s) k =? 0 then
      Ok 0 (lset tbl (<[hash_func k := HashNode n k v :: chain (lget tbl s) (hash_func k)]>
        (lget tbl s)) s1)
    else Ok (-1) s1.
Proof.
  intros Hk Ha Hn. unfold default_put, bind at 1. rewrite Ha. unfold bind at 1.
  rewrite default_get_run, (ts_alloc _ _ _ Ha) by done.
  destruct (contents (lget tbl s) k =? 0); [|done]. cbn [negb].
  rewrite (proj2 (Z.eqb_neq n 0)) by done. unfold bind. rewrite head_index_run by done.
  unfold modify, ret. by rewrite (ts_alloc _ _ _ Ha).
Qed.

(** C23: the hash table is a map.  [get] returns the value last put for an
    equal key, NULL when there is none.  [put] adds a binding for a new key and
    returns 0, and returns -1 without changing the map when the key is bound;
    [erase] removes the binding, gives its page back and returns 0, or returns
    -1 when there is none.  Every other key keeps its value, and the chains stay
    well formed. *)
Theorem hash_table_is_map k v s : table_wf (lget tbl s) -> ok_key k -> v <> 0 ->
  let c := contents (lget tbl s) in
  default_get tbl k s = Ok (c k) s /\
  (forall n s1, page_alloc s = Ok n s1 -> n <> 0 ->
     exists s', default_put tbl k v s = Ok (if c k =? 0 then 0 else -1) s' /\
       table_wf (lget tbl s') /\
       forall k2, contents (lget tbl s') k2 =
         if hash_equal k k2 && (c k =? 0) then v else c k2) /\
  (c k = 0 -> default_erase tbl k s = Ok (-1) s) /\
  (c k <> 0 -> exists n s1, n ∈ chain (lget tbl s) (hash_func k) /\ key n = k /\
     table_wf (lget tbl s1) /\
     (forall k2, contents (lget tbl s1) k2 = if hash_equal k k2 then 0 else c k2) /\
     default_erase tbl k s = (page_release (node n) ;;; ret 0) s1).
Proof.
  intros Hwf Hk Hv c. split_and!.
  - by apply default_get_run.
  - intros n s1 Ha Hn. rewrite (default_put_run k v s n s1) by done. fold c.
    destruct (Z.eqb_spec (c k) 0) as [E|E]; eexists; (split; [done|]).
    + rewrite lget_lset. split; [by apply table_wf_insert|]. intros k2.
      rewrite contents_insert. by rewrite andb_true_r.
    + rewrite (ts_alloc _ _ _ Ha). split; [done|]. intros k2. by rewrite andb_false_r.
  - intros E. unfold default_erase, bind. rewrite head_index_run by done. unfold gets.
    destruct (unchain (chain (lget tbl s) (hash_func k)) k) as [[n l]|] eqn:Eu; [|done].
    destruct (unchain_Some _ _ _ _ Eu) as (Hp & Hkn & _). exfalso.
    apply (find_node_0 (chain (lget tbl s) (hash_func k)) k); [apply Hwf|done|].
    rewrite Hp. simpl. rewrite Hkn. by left.
  - intros E. unfold default_erase, bind at 1. rewrite head_index_run by done.
    unfold bind at 1, gets.
    destruct (unchain (chain (lget tbl s) (hash_func k)) k) as [[n l]|] eqn:Eu.
    2: { destruct E. by apply unchain_None. }
    destruct (table_wf_unchain _ _ _ _ Hwf Eu) as [Hwf' Hc].
    destruct (unchain_Some _ _ _ _ Eu) as (Hp & Hkn & _).
    exists n, (lset tbl (<[hash_func k := l]> (lget tbl s)) s). rewrite lget_lset.
    split_and!; [rewrite Hp; by left|done|done|done|done].
Qed.

End Spec.

(** A table of integers next to the page allocator, for the examples. *)
Module Demo.

#[local] Instance int_key : HashKey Z.
Proof. refine {| hash_func := fun k => k mod 128; hash_equal := Z.eqb |}. apply Z.eqb_eq. Defined.

Definition state : Type := pmm * hash_table Z.
Definition left : lens state pmm := Lens fst (fun p s => (p, snd s)).
Definition tbl : lens state (hash_table Z) := Lens snd (fun t s => (fst s, t)).

#[local] Instance demo_pages : PageSource state := {|
  page_alloc := zoom left alloc_page; page_release := fun p => zoom left (free_page p) |}.

#[local] Instance demo_table : TableState tbl.
Proof.
  constructor.
  - constructor; [done|by intros []|done].
  - intros s n s' E. unfold page_alloc in E. simpl in E. unfold zoom in E.
    destruct (alloc_page _); naive_solver.
  - intros s n s' E. unfold page_release in E. simpl in E. unfold zoom in E.
    destruct (free_page _ _); naive_solver.
Qed.

Lemma hash_table_is_map_witness : exists s',
  default_put tbl 5 7 (free_pages 2, ∅) = Ok 0 s' /\ contents (lget tbl s') 5 = 7.
Proof.
  destruct (hash_table_is_map tbl 5 7 (free_pages 2, ∅)) as (_ & H & _);
    [apply table_wf_empty|unfold ok_key, HASH_TABLE_SIZE; vm_compute; split; congruence|lia|].
  pose proof (free_pages_wf 2 ltac:(lia)) as Hwf.
  destruct (H 0x80001000 (page_taken 0x80001000 (free_pages 2), ∅)) as (s' & H1 & _ & H2).
  - unfold page_alloc. simpl. unfold zoom, left. cbn [lget fst].
    rewrite (alloc_page_run (free_pages 2) (wf_bounds _ _ Hwf) (wf_unlocked _ _ Hwf) 0x80001000);
      [reflexivity|reflexivity|].
    apply (wf_head_managed _ _ Hwf _ [0x80000000] eq_refl).
  - lia.
  - exists s'. split; [exact H1|]. rewrite H2. reflexivity.
Defined.

End Demo.
