(* ===== verification/Vmm.v ===== *)
(** * Virtual memory (kernel/vmm.c, the Sv39 macros of kernel/riscv.h)

    Three-level page tables kept in physical pages.  The walk, the mapping and
    the unmapping are the C loops; the theorems read a table through the entry
    its leaf level holds for each virtual page. *)

From S2P Require Import Prelude Mem Pmm StringLib.
From stdpp Require Import base gmap list fin_maps.
From Stdlib Require Import ZArith Lia Bool.

Set Default Goal Selector "!".
Open Scope Z_scope.

#[local] Opaque fill copy_fwd.

(** ** Page table entries *)

Definition PTE_V : Z := Z.shiftl 1 0.
Definition PTE_R : Z := Z.shiftl 1 1.
Definition PTE_W : Z := Z.shiftl 1 2.
Definition PTE_X : Z := Z.shiftl 1 3.
Definition PTE_U : Z := Z.shiftl 1 4.
Definition PTE_G : Z := Z.shiftl 1 5.
Definition PTE_A : Z := Z.shiftl 1 6.
Definition PTE_D : Z := Z.shiftl 1 7.
Definition PTE_COW : Z := Z.shiftl 1 8.

Definition PA2PTE (pa : Z) : Z := u64 (Z.shiftl (Z.shiftr pa 12) 10).
Definition PTE2PA (pte : Z) : Z := u64 (Z.shiftl (Z.shiftr pte 10) 12).
Definition PTE_FLAGS (pte : Z) : Z := Z.land pte 0x3FF.
Definition PXMASK : Z := 0x1FF.
Definition PXSHIFT (level : Z) : Z := PGSHIFT + 9 * level.
Definition PX (level va : Z) : Z := Z.land (Z.shiftr va (PXSHIFT level)) PXMASK.
Definition MAXVA : Z := Z.shiftl 1 (9 + 9 + 9 + 12 - 1).
Definition SATP_SV39 : Z := u64 (Z.shiftl 8 60).
Definition MAKE_SATP (pagetable : Z) : Z := Z.lor SATP_SV39 (Z.shiftr pagetable 12).

Definition PROT_NONE : Z := 0.
Definition PROT_READ : Z := 1.
Definition PROT_WRITE : Z := 2.
Definition PROT_EXEC : Z := 4.

(** A bit test [x & flag] used as a condition. *)
Definition has (x flag : Z) : bool := negb (Z.land x flag =? 0).

Definition prot_to_type (prot user : Z) : Z :=
  let perm := 0 in
  let perm := if has prot PROT_READ then Z.lor perm (Z.lor PTE_R PTE_A) else perm in
  let perm := if has prot PROT_WRITE then Z.lor perm (Z.lor PTE_W PTE_D) else perm in
  let perm := if has prot PROT_EXEC then Z.lor perm (Z.lor PTE_X PTE_A) else perm in
  let perm := if perm =? 0 then PTE_R else perm in
  if negb (user =? 0) then Z.lor perm PTE_U else perm.

(** ** Block accesses of the kernel *)

Definition kmem : lens pmm bytes := Lens mem set_mem.

Definition kmemset (a v n : Z) : M pmm Z :=
  if in_dram a n then zoom kmem (memset a v n) else fault.
Definition kmemcpy (d s n : Z) : M pmm Z :=
  if in_dram d n && in_dram s n then zoom kmem (memcpy d s n) else fault.

(** ** Walking and changing a table *)

(** One round of the loop over the levels. *)
Definition walk_level (va : Z) (alloc : bool) (x : Z * Z) : M pmm (Z * Z + Z) :=
  let '(pt, level) := x in
  if 0 <? level then
    let pte := pt + 8 * PX level va in
    let* e := read64 pte in
    if has e PTE_V then ret (inl (PTE2PA e, level - 1))
    else if alloc then
      let* pt := alloc_page in
      if negb (pt =? 0) then
        kmemset pt 0 PGSIZE ;;;
        write64 pte (Z.lor (PA2PTE pt) PTE_V) ;;;
        ret (inl (pt, level - 1))
      else ret (inr 0)
    else ret (inr 0)
  else ret (inr (pt + 8 * PX 0 va)).

Definition page_walk (page_dir va : Z) (alloc : bool) : M pmm Z :=
  if MAXVA <=? va then panic
  else loop 3 (walk_level va alloc) (page_dir, 2).

Definition lookup_pa (pagetable va : Z) : M pmm Z :=
  if MAXVA <=? va then ret 0
  else
    let* pte := page_walk pagetable va false in
    if pte =? 0 then ret 0
    else
      let* e := read64 pte in
      if negb (has e PTE_V) || (negb (has e PTE_R) && negb (has e PTE_W)) then ret 0
      else ret (PTE2PA e).

(** Rounds enough for a loop that goes from one address to another a page at a
    time: it leaves the range or [page_walk] panics before they are used up. *)
Definition rounds (first limit : Z) : nat := Z.to_nat ((limit - first) / PGSIZE + 2).

Definition map_pages (page_dir va size pa perm : Z) : M pmm Z :=
  let last := ROUNDDOWN (u64 (va + size - 1)) PGSIZE in
  loop (rounds (ROUNDDOWN va PGSIZE) last) (fun '(first, pa) =>
    if first <=? last then
      let* pte := page_walk page_dir first true in
      if pte =? 0 then ret (inr (-1))
      else
        let* e := read64 pte in
        if has e PTE_V then panic
        else
          write64 pte (Z.lor (Z.lor (PA2PTE pa) (u64 perm)) PTE_V) ;;;
          ret (inl (u64 (first + PGSIZE), u64 (pa + PGSIZE)))
    else ret (inr 0)) (ROUNDDOWN va PGSIZE, pa).

Definition kern_vm_map (page_dir va pa sz perm : Z) : M pmm unit :=
  let* r := map_pages page_dir va sz pa perm in
  if negb (r =? 0) then panic else ret tt.

Definition user_va_to_pa (page_dir va : Z) : M pmm Z :=
  let* pa := lookup_pa page_dir va in
  if pa =? 0 then ret 0
  else ret (u64 (pa + Z.land va (Z.shiftl 1 PGSHIFT - 1))).

Definition user_vm_map (page_dir va size pa perm : Z) : M pmm unit :=
  let* r := map_pages page_dir va size pa perm in
  if negb (r =? 0) then panic else ret tt.

Definition user_vm_unmap (page_dir va size : Z) (free : bool) : M pmm unit :=
  if negb (va mod PGSIZE =? 0) then panic
  else
    loop (rounds va (u64 (va + size))) (fun a =>
      if a <? u64 (va + size) then
        let* pte := page_walk page_dir a false in
        if pte =? 0 then panic
        else
          let* e := read64 pte in
          if negb (has e PTE_V) then panic
          else if PTE_FLAGS e =? PTE_V then panic
          else
            (if free then free_page (PTE2PA e) else ret tt) ;;;
            write64 pte 0 ;;;
            ret (inl (u64 (a + PGSIZE)))
      else ret (inr tt)) va.

(** ** The kernel's own table *)

Record vm : Type := Vm { vm_pmm : pmm; g_kernel_pagetable : Z }.
Definition vm_mem : lens vm pmm := Lens vm_pmm (fun p s => Vm p (g_kernel_pagetable s)).
Definition set_g_kernel_pagetable (t : Z) (s : vm) : vm := Vm (vm_pmm s) t.

(** [etext] is the address of the linker symbol [_etext]. *)
Definition kern_vm_init (etext : Z) : M vm unit :=
  let* t_page_dir := zoom vm_mem alloc_page in
  zoom vm_mem (kmemset t_page_dir 0 PGSIZE) ;;;
  zoom vm_mem (kern_vm_map t_page_dir KERN_BASE DRAM_BASE (u64 (etext - KERN_BASE))
    (prot_to_type (Z.lor PROT_READ PROT_EXEC) 0)) ;;;
  zoom vm_mem (kern_vm_map t_page_dir etext etext (u64 (PHYS_TOP - etext))
    (prot_to_type (Z.lor PROT_READ PROT_WRITE) 0)) ;;;
  modify (set_g_kernel_pagetable t_page_dir).

(** ** Arithmetic of the macros *)

Lemma has_V e : has e PTE_V = Z.odd e.
Proof.
  unfold has, PTE_V. change (Z.shiftl 1 0) with (Z.ones 1).
  rewrite Z.land_ones by lia. rewrite Zodd_mod. change (2 ^ 1) with 2.
  pose proof (Z.mod_pos_bound e 2). dlia.
Qed.

Lemma PA2PTE_eq pa : 0 <= pa < 2 ^ 56 -> PA2PTE pa = pa / PGSIZE * 1024.
Proof.
  intros. unfold PA2PTE, PGSIZE. rewrite Z.shiftr_div_pow2, Z.shiftl_mul_pow2 by lia.
  change (2 ^ 12) with 4096. change (2 ^ 10) with 1024. apply u64_small. dlia.
Qed.

Lemma PTE2PA_eq pte : 0 <= pte < 2 ^ 54 -> PTE2PA pte = pte / 1024 * PGSIZE.
Proof.
  intros. unfold PTE2PA, PGSIZE. rewrite Z.shiftr_div_pow2, Z.shiftl_mul_pow2 by lia.
  change (2 ^ 12) with 4096. change (2 ^ 10) with 1024. apply u64_small. dlia.
Qed.

(** The entry for page [pa] with the given flags. *)
Definition pte (pa flags : Z) : Z := pa / PGSIZE * 1024 + flags.

Lemma pte_lor pa flags : 0 <= pa < 2 ^ 56 -> 0 <= flags < 1024 ->
  Z.lor (PA2PTE pa) flags = pte pa flags.
Proof.
  intros. rewrite PA2PTE_eq by done. unfold pte.
  apply (lor_disjoint _ _ 10); [lia| |done]. apply Z.mod_mul. lia.
Qed.

Lemma pte_range pa flags : 0 <= pa < 2 ^ 56 -> 0 <= flags < 1024 ->
  0 <= pte pa flags < 2 ^ 54.
Proof. intros. unfold pte, PGSIZE. dlia. Qed.

Lemma PTE2PA_pte pa flags : 0 <= pa < 2 ^ 56 -> 0 <= flags < 1024 ->
  PTE2PA (pte pa flags) = pa / PGSIZE * PGSIZE.
Proof.
  intros. rewrite PTE2PA_eq by (by apply pte_range). unfold pte, PGSIZE. dlia.
Qed.

Lemma PTE_FLAGS_pte pa flags : 0 <= flags < 1024 -> PTE_FLAGS (pte pa flags) = flags.
Proof.
  intros. unfold PTE_FLAGS, pte. change 0x3FF with (Z.ones 10). rewrite Z.land_ones by lia.
  change (2 ^ 10) with 1024. dlia.
Qed.

(** A flag below bit 10 is read from the flags of the entry. *)
Lemma has_pte pa flags f : 0 <= flags < 1024 -> Z.land f 0x3FF = f ->
  has (pte pa flags) f = has flags f.
Proof.
  intros Hf Hff. unfold has. rewrite <- Hff at 1. rewrite Z.land_comm, <- Z.land_assoc.
  rewrite (Z.land_comm 0x3FF). fold (PTE_FLAGS (pte pa flags)).
  rewrite PTE_FLAGS_pte by done. by rewrite Z.land_comm.
Qed.

Lemma PX_eq level va : 0 <= level -> PX level va = va / 2 ^ (12 + 9 * level) mod 512.
Proof.
  intros. unfold PX, PXSHIFT, PXMASK, PGSHIFT. change 0x1FF with (Z.ones 9).
  rewrite Z.land_ones, Z.shiftr_div_pow2 by lia. done.
Qed.

Lemma PX_range level va : 0 <= level -> 0 <= PX level va < 512.
Proof. intros. rewrite PX_eq by done. apply Z.mod_pos_bound. lia. Qed.

Lemma MAXVA_eq : MAXVA = 2 ^ 38.
Proof. done. Qed.

(** The indices from the page number. *)
Lemma PX_page va : PX 0 va = va / PGSIZE mod 512 /\
  PX 1 va = va / PGSIZE / 512 mod 512 /\ PX 2 va = va / PGSIZE / 512 / 512 mod 512.
Proof.
  rewrite !PX_eq by lia. unfold PGSIZE. rewrite !Z.div_div by lia. done.
Qed.

(** The three indices determine the page. *)
Lemma PX_inj va vb : 0 <= va < MAXVA -> 0 <= vb < MAXVA ->
  PX 2 va = PX 2 vb -> PX 1 va = PX 1 vb -> PX 0 va = PX 0 vb ->
  va / PGSIZE = vb / PGSIZE.
Proof.
  rewrite MAXVA_eq. pose proof (PX_page va) as (-> & -> & ->).
  pose proof (PX_page vb) as (-> & -> & ->). unfold PGSIZE. intros. dlia.
Qed.

(** ** Tables in memory

    [T] gives the page of each table by its path of indices from the root:
    [[]] the directory, [[i]] and [[i; j]] the tables below it.  Each entry of
    the two upper levels either points to the table at that path or is not
    valid; no page holds two tables, and all of them are allocated. *)

Definition owned (s : pmm) (p : Z) : Prop := managed s p /\ 0 < page_ref s p.

Abbreviation tables := (gmap (list Z) Z) (only parsing).

Record vspace (root : Z) (T : tables) (s : pmm) : Prop := {
  vs_root : T !! [] = Some root;
  vs_inj : forall p q a, T !! p = Some a -> T !! q = Some a -> p = q;
  vs_entry : forall p a i, T !! p = Some a -> (length p < 2)%nat -> 0 <= i < 512 ->
    match T !! (p ++ [i]) with
    | Some b => load64 (mem s) (a + 8 * i) = pte b PTE_V
    | None => Z.odd (load64 (mem s) (a + 8 * i)) = false
    end;
  vs_parent : forall p i, is_Some (T !! (p ++ [i])) -> is_Some (T !! p);
  vs_owned : forall p a, T !! p = Some a -> owned s a
}.

Definition walk_path (va : Z) : list Z := [PX 2 va; PX 1 va].

(** The leaf entry of a virtual address; 0 where the tables do not reach. *)
Definition leaf (T : tables) (m : bytes) (va : Z) : Z :=
  match T !! walk_path va with
  | Some a => load64 m (a + 8 * PX 0 va)
  | None => 0
  end.

Lemma owned_not_free fl s p : pmm_wf fl s -> owned s p -> p ∉ fl.
Proof. intros Hwf [_ Hp] [_ H]%(wf_free _ _ Hwf). lia. Qed.

Lemma entry_in_dram s p i : mem_bounds s -> managed s p -> 0 <= i < 512 ->
  in_dram (p + 8 * i) 8 = true.
Proof.
  intros Hb H Hi. apply managed_range in H as (? & ? & _); [|done].
  unfold in_dram. layout. lia.
Qed.

Lemma managed_56 s p : mem_bounds s -> managed s p -> 0 <= p < 2 ^ 56 /\ p mod PGSIZE = 0.
Proof.
  intros Hb H. apply managed_range in H as (? & ? & ?); [|done]. layout. lia.
Qed.

Lemma PTE2PA_page s p flags : mem_bounds s -> managed s p -> 0 <= flags < 1024 ->
  PTE2PA (pte p flags) = p.
Proof.
  intros Hb H Hf. apply managed_56 in H as (? & ?); [|done].
  rewrite PTE2PA_pte by done. unfold PGSIZE in *. dlia.
Qed.

Lemma odd_pte p flags : Z.odd (pte p flags) = Z.odd flags.
Proof.
  unfold pte. rewrite Z.odd_add, Z.odd_mul. change (Z.odd 1024) with false.
  by rewrite andb_false_r, xorb_false_l.
Qed.

(** Words of one page, and of two pages, do not overlap. *)
Lemma words_apart p q i j : p mod PGSIZE = 0 -> q mod PGSIZE = 0 ->
  0 <= i < 512 -> 0 <= j < 512 -> (p, i) <> (q, j) ->
  p + 8 * i + 8 <= q + 8 * j \/ q + 8 * j + 8 <= p + 8 * i.
Proof.
  intros Hp Hq Hi Hj Hne. destruct (decide (p = q)) as [->|Hpq].
  - assert (i <> j) by naive_solver. lia.
  - destruct (pages_apart p q Hp Hq Hpq); unfold PGSIZE in *; lia.
Qed.

(** ** Walking without allocation *)

Section Walk.
  Context (root : Z) (T : tables) (s : pmm).
  Hypothesis Hb : mem_bounds s.
  Hypothesis Hvs : vspace root T s.

Lemma read_entry p a i : T !! p = Some a -> 0 <= i < 512 ->
  read64 (a + 8 * i) s = Ok (load64 (mem s) (a + 8 * i)) s.
Proof using Hb Hvs.
  intros Ha Hi. unfold read64. rewrite (entry_in_dram s); try done.
  by eapply vs_owned.
Qed.

Lemma entry_some p a i b : T !! p = Some a -> (length p < 2)%nat -> 0 <= i < 512 ->
  T !! (p ++ [i]) = Some b ->
  has (load64 (mem s) (a + 8 * i)) PTE_V = true /\
  PTE2PA (load64 (mem s) (a + 8 * i)) = b.
Proof using Hb Hvs.
  intros Ha Hl Hi Hn. pose proof (vs_entry _ _ _ Hvs p a i Ha Hl Hi) as He.
  rewrite Hn in He. rewrite He, has_V, odd_pte. split; [done|].
  apply (PTE2PA_page s); [done|by eapply vs_owned|done].
Qed.

Lemma entry_none p a i : T !! p = Some a -> (length p < 2)%nat -> 0 <= i < 512 ->
  T !! (p ++ [i]) = None -> has (load64 (mem s) (a + 8 * i)) PTE_V = false.
Proof using Hvs.
  intros Ha Hl Hi Hn. pose proof (vs_entry _ _ _ Hvs p a i Ha Hl Hi) as He.
  rewrite Hn in He. by rewrite has_V.
Qed.

Lemma path_prefix va : is_Some (T !! walk_path va) -> is_Some (T !! [PX 2 va]).
Proof using Hvs. apply (vs_parent _ _ _ Hvs [PX 2 va]). Qed.

Lemma walk_level_run va level p a : 0 < level -> T !! p = Some a -> (length p < 2)%nat ->
  walk_level va false (a, level) s =
    Ok (match T !! (p ++ [PX level va]) with
        | Some b => inl (b, level - 1)
        | None => inr 0
        end) s.
Proof using Hb Hvs.
  intros Hlv Ha Hl. unfold walk_level. rewrite (proj2 (Z.ltb_lt _ _)) by done.
  pose proof (PX_range level va ltac:(lia)) as Hi. cbv zeta. unfold bind.
  rewrite (read_entry p a) by done. destruct (T !! (p ++ [PX level va])) as [b|] eqn:E.
  - by destruct (entry_some p a (PX level va) b) as [-> ->].
  - by rewrite (entry_none p a).
Qed.

Lemma page_walk_run va : 0 <= va < MAXVA ->
  page_walk root va false s =
    Ok (match T !! walk_path va with Some a => a + 8 * PX 0 va | None => 0 end) s.
Proof using Hb Hvs.
  intros Hva. unfold page_walk. rewrite (proj2 (Z.leb_gt _ _)) by lia.
  cbn [loop]. unfold bind at 1.
  rewrite (walk_level_run va 2 []) by (done || apply Hvs || (simpl; lia)). cbn [app].
  destruct (T !! [PX 2 va]) as [a|] eqn:E2.
  2: { destruct (T !! walk_path va) eqn:E; [|done].
       destruct (path_prefix va); [by rewrite E|congruence]. }
  unfold bind at 1. rewrite (walk_level_run va (2 - 1) [PX 2 va]) by (done || (simpl; lia)).
  change (2 - 1) with 1. cbn [app]. fold (walk_path va). by destruct (T !! walk_path va).
Qed.

Lemma read_leaf va a : T !! walk_path va = Some a ->
  read64 (a + 8 * PX 0 va) s = Ok (leaf T (mem s) va) s.
Proof using Hb Hvs.
  intros Ha. unfold leaf. rewrite Ha. eapply read_entry; [done|]. by apply PX_range.
Qed.

(** [lookup_pa] reads the leaf. *)
Definition leaf_pa (e : Z) : Z :=
  if has e PTE_V && (has e PTE_R || has e PTE_W) then PTE2PA e else 0.

Lemma lookup_pa_run va : 0 <= va ->
  lookup_pa root va s = Ok (if va <? MAXVA then leaf_pa (leaf T (mem s) va) else 0) s.
Proof using Hb Hvs.
  intros Hva. unfold lookup_pa. rewrite Z.leb_antisym.
  destruct (Z.ltb_spec va MAXVA); simpl; [|done].
  unfold bind at 1. rewrite page_walk_run by done.
  unfold leaf_pa, leaf at 1.
  destruct (T !! walk_path va) as [a|] eqn:E; [|done].
  pose proof (vs_owned _ _ _ Hvs _ _ E) as [Hm _].
  apply managed_range in Hm as (? & _); [|done].
  pose proof (PX_range 0 va ltac:(lia)).
  rewrite (proj2 (Z.eqb_neq _ 0)) by (layout; lia).
  unfold bind at 1. rewrite read_leaf by done. unfold leaf. rewrite E.
  by destruct (has _ PTE_V), (has _ PTE_R), (has _ PTE_W).
Qed.

Lemma user_va_to_pa_run va : 0 <= va ->
  user_va_to_pa root va s =
    Ok (let pa := if va <? MAXVA then leaf_pa (leaf T (mem s) va) else 0 in
        if pa =? 0 then 0 else u64 (pa + va mod PGSIZE)) s.
Proof using Hb Hvs.
  intros Hva. unfold user_va_to_pa, bind. rewrite lookup_pa_run by done. cbv zeta.
  change (Z.shiftl 1 PGSHIFT - 1) with (Z.ones 12). rewrite Z.land_ones by lia.
  by destruct (_ =? 0).
Qed.

End Walk.

(** ** Growing and changing a table

    [evolves]: what an operation on a table may do.  It takes pages off the free
    list, turns them into tables, and leaves every other page and reference
    count alone; [L] is what each leaf entry is afterwards. *)

Definition page_of (x : Z) : Z := x / PGSIZE * PGSIZE.

Record evolves (root : Z) (T : tables) (fl : list Z) (s : pmm) (L : Z -> Z)
    (T' : tables) (fl' : list Z) (s' : pmm) : Prop := {
  ev_wf : pmm_wf fl' s';
  ev_vs : vspace root T' s';
  ev_sub : T ⊆ T';
  ev_free : exists used, fl = used ++ fl';
  ev_leaf : forall va, 0 <= va < MAXVA -> leaf T' (mem s') va = L va;
  ev_mem : forall x, page_of x ∉ fl -> (forall p, T !! p <> Some (page_of x)) ->
    load8 (mem s') x = load8 (mem s) x;
  ev_managed : forall p, managed s' p <-> managed s p;
  ev_ref : forall p, managed s p -> p ∉ fl -> page_ref s' p = page_ref s p;
  ev_new : forall p a, T' !! p = Some a -> T !! p = Some a \/ a ∈ fl
}.

(** No leaf entry changes. *)
Abbreviation extends root T fl s := (evolves root T fl s (leaf T (mem s))).

Lemma extends_refl root T fl s : pmm_wf fl s -> vspace root T s ->
  extends root T fl s T fl s.
Proof. intros. constructor; auto; try done. by exists []. Qed.

Lemma evolves_ext root T fl s L L' T' fl' s' :
  (forall va, 0 <= va < MAXVA -> L va = L' va) ->
  evolves root T fl s L T' fl' s' -> evolves root T fl s L' T' fl' s'.
Proof. intros HL []. constructor; auto. intros. rewrite <- HL by done. auto. Qed.

Lemma evolves_trans root T fl s L1 T1 fl1 s1 L2 T2 fl2 s2 :
  evolves root T fl s L1 T1 fl1 s1 -> evolves root T1 fl1 s1 L2 T2 fl2 s2 ->
  evolves root T fl s L2 T2 fl2 s2.
Proof.
  intros [W1 V1 S1 [u1 F1] L1' M1 G1 R1 N1] [W2 V2 S2 [u2 F2] L2' M2 G2 R2 N2]. constructor.
  - done.
  - done.
  - by etrans.
  - exists (u1 ++ u2). by rewrite F1, F2, app_assoc.
  - done.
  - intros x Hx HT. rewrite M2, M1; [done|done|done|set_solver|].
    intros p [?|?]%N1; [by eapply HT|done].
  - intros p. by rewrite G2, G1.
  - intros p Hp Hfl. rewrite R2, R1; [done|done|done|by apply G1|set_solver].
  - intros p a [[?|?]%N1|Ha]%N2; [by left|by right|right]. set_solver.
Qed.

Lemma extends_trans root T fl s T1 fl1 s1 T2 fl2 s2 :
  extends root T fl s T1 fl1 s1 -> extends root T1 fl1 s1 T2 fl2 s2 ->
  extends root T fl s T2 fl2 s2.
Proof.
  intros H1 H2. eapply evolves_trans; [done|]. eapply evolves_ext; [|done].
  apply (ev_leaf _ _ _ _ _ _ _ _ H1).
Qed.

Lemma page_of_word p i k : p mod PGSIZE = 0 -> 0 <= i < 512 -> 0 <= k < 8 ->
  page_of (p + 8 * i + k) = p.
Proof. unfold page_of, PGSIZE. intros. dlia. Qed.

Lemma page_of_self p : p mod PGSIZE = 0 -> page_of p = p.
Proof. unfold page_of, PGSIZE. dlia. Qed.

(** A zeroed page [q] hung under entry [i] of the table [a]. *)
Definition hung (a i q : Z) (s : pmm) : pmm :=
  set_mem (store64 (fill (Z.to_nat PGSIZE) (mem s) q 0) (a + 8 * i) (pte q PTE_V))
    (page_taken q s).

Section Hang.
  Context (root : Z) (T : tables) (fl : list Z) (s : pmm) (p : list Z) (a i q : Z).
  Hypothesis Hwf : pmm_wf (q :: fl) s.
  Hypothesis Hvs : vspace root T s.
  Hypothesis Ha : T !! p = Some a.
  Hypothesis Hlen : (length p < 2)%nat.
  Hypothesis Hi : 0 <= i < 512.
  Hypothesis Hnone : T !! (p ++ [i]) = None.

Let T' : tables := <[p ++ [i] := q]> T.
Let s' : pmm := hung a i q s.

Lemma hang_managed b : managed s' b <-> managed s b.
Proof. done. Qed.

Lemma hang_q : managed s q /\ page_ref s q = 0 /\ q mod PGSIZE = 0.
Proof.
  destruct (wf_head_managed _ _ Hwf q fl eq_refl) as [Hm H0].
  split_and!; [done|done|apply Hm].
Qed.

Lemma hang_old b path : T !! path = Some b -> b <> q /\ b mod PGSIZE = 0 /\ managed s b.
Proof.
  intros Hp. pose proof (vs_owned _ _ _ Hvs _ _ Hp) as [Hm Hr].
  destruct hang_q as (_ & H0 & _). split_and!; [intros ->; lia|apply Hm|done].
Qed.

(** Words of allocated pages, the new entry apart, are the old ones. *)
Lemma hang_word b j : managed s b -> b <> q -> 0 <= j < 512 -> (b, j) <> (a, i) ->
  load64 (mem s') (b + 8 * j) = load64 (mem s) (b + 8 * j).
Proof.
  intros [Hb _] Hne Hj Hbj. destruct hang_q as (_ & _ & Hq).
  destruct (hang_old _ _ Ha) as (_ & Ham & _).
  unfold s', hung. simpl mem. rewrite load64_store64_ne.
  - apply load_le_fill. destruct (pages_apart b q Hb Hq Hne); unfold PGSIZE in *; lia.
  - destruct (words_apart a b i j Ham Hb Hi Hj); [congruence|lia|lia].
Qed.

Lemma hang_entry : load64 (mem s') (a + 8 * i) = pte q PTE_V.
Proof.
  unfold s', hung. simpl mem. rewrite load64_store64_eq. apply u64_small.
  destruct hang_q as (Hm & _). apply managed_56 in Hm as [? _]; [|apply Hwf].
  pose proof (pte_range q PTE_V ltac:(done) ltac:(done)). lia.
Qed.

Lemma hang_new j : 0 <= j < 512 -> load64 (mem s') (q + 8 * j) = 0.
Proof.
  intros Hj. destruct hang_q as (_ & _ & Hq). destruct (hang_old _ _ Ha) as (Hne & Ham & _).
  unfold s', hung. simpl mem. rewrite load64_store64_ne.
  - apply load_le_fill_0; unfold PGSIZE in *; lia.
  - destruct (words_apart a q i j Ham Hq Hi Hj); [congruence|lia|lia].
Qed.

Lemma hang_wf : pmm_wf fl s'.
Proof.
  apply (pmm_wf_frame _ (page_taken q s)); [by eapply page_taken_wf|].
  intros b Hb.
  assert (managed s b /\ page_ref s b = 0) as [Hmb H0].
  { apply (wf_free _ _ Hwf). set_solver. }
  assert (b <> q) by (pose proof (wf_nodup _ _ Hwf) as [? _]%NoDup_cons; set_solver).
  assert (b <> a) by (intros ->; pose proof (vs_owned _ _ _ Hvs _ _ Ha) as [_ ?]; lia).
  pose proof (hang_word b 0) as Hw. rewrite Z.mul_0_r, Z.add_0_r in Hw.
  apply Hw; [done|done|lia|congruence].
Qed.

Lemma hang_ref b : managed s b -> b <> q -> page_ref s' b = page_ref s b.
Proof.
  intros Hb Hne. change (page_ref s' b) with (page_ref (page_taken q s) b).
  rewrite page_ref_taken; [by case_decide|apply Hwf|apply hang_q|done].
Qed.

Lemma hang_lookup path : T' !! path = if decide (path = p ++ [i]) then Some q else T !! path.
Proof. unfold T'. rewrite lookup_insert. repeat case_decide; congruence. Qed.

(** The path of the new table has nothing below it yet. *)
Lemma hang_below j : T !! ((p ++ [i]) ++ [j]) = None.
Proof.
  destruct (T !! ((p ++ [i]) ++ [j])) eqn:E; [|done].
  destruct (vs_parent _ _ _ Hvs (p ++ [i]) j); [by rewrite E|congruence].
Qed.

Lemma hang_entries path b j : T' !! path = Some b -> (length path < 2)%nat -> 0 <= j < 512 ->
  match T' !! (path ++ [j]) with
  | Some c => load64 (mem s') (b + 8 * j) = pte c PTE_V
  | None => Z.odd (load64 (mem s') (b + 8 * j)) = false
  end.
Proof.
  rewrite !hang_lookup. intros Hb Hl Hj. case_decide as Hp.
  - subst path. injection Hb as <-.
    case_decide as Hp'; [apply (f_equal length) in Hp'; rewrite !length_app in Hp'; simpl in Hp'; lia|].
    rewrite hang_below, hang_new by done. done.
  - destruct (hang_old _ _ Hb) as (Hne & _ & Hm). case_decide as Hp'.
    + apply app_inj_2 in Hp' as [-> [= ->]]; [|done]. simplify_eq. apply hang_entry.
    + rewrite hang_word; [by apply (vs_entry _ _ _ Hvs)|done|done|done|].
      intros [= -> ->]. apply Hp'. f_equal. by eapply (vs_inj _ _ _ Hvs).
Qed.

Lemma hang_vspace : vspace root T' s'.
Proof.
  constructor.
  - rewrite hang_lookup. case_decide as H; [by destruct p|]. apply (vs_root _ _ _ Hvs).
  - intros x y b. rewrite !hang_lookup. repeat case_decide; subst; try done.
    + intros [= <-] Hy. by destruct (hang_old _ _ Hy) as [[] _].
    + intros Hx [= <-]. by destruct (hang_old _ _ Hx) as [[] _].
    + apply (vs_inj _ _ _ Hvs).
  - intros path b j. apply hang_entries.
  - intros path j. rewrite !hang_lookup. intros Hs. repeat case_decide; subst; try done.
    + apply app_inj_2 in H as [-> _]; [|done]. by rewrite Ha.
    + by apply (vs_parent _ _ _ Hvs) in Hs.
  - intros path b. rewrite hang_lookup. case_decide.
    + intros [= <-]. split; [apply hang_q|].
      change (page_ref s' q) with (page_ref (page_taken q s) q).
      rewrite page_ref_taken; [by case_decide|apply Hwf|apply hang_q|apply hang_q].
    + intros Hb. pose proof (vs_owned _ _ _ Hvs _ _ Hb) as [Hm Hr].
      split; [done|]. rewrite hang_ref; [done|done|]. by apply (hang_old _ _ Hb).
Qed.

Lemma hang_leaf va : leaf T' (mem s') va = leaf T (mem s) va.
Proof.
  unfold leaf. rewrite hang_lookup. pose proof (PX_range 0 va ltac:(lia)) as H0.
  case_decide as Hp.
  - rewrite hang_new by done. rewrite Hp, Hnone. done.
  - destruct (T !! walk_path va) as [b|] eqn:E; [|done].
    destruct (hang_old _ _ E) as (Hne & _ & Hm). apply hang_word; [done|done|done|].
    intros [= -> _]. pose proof (vs_inj _ _ _ Hvs _ _ _ E Ha). subst p. simpl in Hlen. lia.
Qed.

Lemma hang_mem x : page_of x <> q -> page_of x <> a -> load8 (mem s') x = load8 (mem s) x.
Proof.
  intros Hq Hxa. unfold s', hung. simpl mem. destruct hang_q as (_ & _ & Hqm).
  destruct (hang_old _ _ Ha) as (_ & Ham & _).
  rewrite (load8_store_le_ne 8).
  - rewrite load8_fill. case_decide; [|done]. exfalso. apply Hq.
    unfold page_of, PGSIZE in *. dlia.
  - destruct (Z.lt_ge_cases x (a + 8 * i)); [by left|right].
    destruct (Z.lt_ge_cases x (a + 8 * i + 8)); [|lia]. exfalso. apply Hxa.
    unfold page_of, PGSIZE in *. dlia.
Qed.

Lemma hang_extends : extends root T (q :: fl) s T' fl s'.
Proof.
  constructor.
  - apply hang_wf.
  - apply hang_vspace.
  - by apply insert_subseteq.
  - by exists [q].
  - intros. apply hang_leaf.
  - intros x Hx HT. apply hang_mem; [set_solver|]. intros E. apply (HT p). by rewrite E.
  - done.
  - intros b Hb Hx. apply hang_ref; [done|set_solver].
  - intros path b. rewrite hang_lookup. case_decide; [|by left].
    intros [= <-]. right. set_solver.
Qed.

(** The three calls of the allocating branch. *)
Lemma hang_run lv :
  (let* pt := alloc_page in
   if negb (pt =? 0) then
     kmemset pt 0 PGSIZE ;;;
     write64 (a + 8 * i) (Z.lor (PA2PTE pt) PTE_V) ;;;
     ret (inl (pt, lv))
   else ret (inr 0)) s = Ok (@inl (Z * Z) Z (q, lv)) s'.
Proof.
  destruct hang_q as (Hm & _). pose proof (wf_bounds _ _ Hwf) as Hb.
  pose proof (wf_chain _ _ Hwf) as [Hh _].
  pose proof (managed_range s Hb q Hm) as (Hlo & Hhi & _).
  unfold bind at 1. rewrite (alloc_page_run s Hb (wf_unlocked _ _ Hwf) q) by done.
  rewrite (proj2 (Z.eqb_neq q 0)) by (layout; lia). cbn [negb].
  unfold bind at 1, kmemset.
  assert (in_dram q PGSIZE = true) as -> by (unfold in_dram; layout; lia).
  unfold zoom. rewrite memset_run by (layout; lia). simpl lset.
  unfold bind, write64.
  rewrite (entry_in_dram s); [|done|by eapply (hang_old _ _ Ha)|done].
  rewrite pte_lor by (done || (apply managed_56 in Hm as [? _]; done)). done.
Qed.

End Hang.

(** ** Walking with allocation *)

Lemma walk_level_alloc root T fl s va level p a :
  pmm_wf fl s -> vspace root T s -> 0 < level -> T !! p = Some a -> (length p < 2)%nat ->
  exists r T' fl' s', walk_level va true (a, level) s = Ok r s' /\
    extends root T fl s T' fl' s' /\ (length fl <= length fl' + 1)%nat /\
    (is_Some (T !! (p ++ [PX level va])) -> T' = T /\ fl' = fl) /\
    r = (match T' !! (p ++ [PX level va]) with
         | Some b => inl (b, level - 1)
         | None => inr 0
         end) /\
    (T' !! (p ++ [PX level va]) = None -> T' = T /\ fl = []).
Proof.
  intros Hwf Hvs Hlv Ha Hl. pose proof (wf_bounds _ _ Hwf) as Hb.
  unfold walk_level. rewrite (proj2 (Z.ltb_lt _ _)) by done.
  pose proof (PX_range level va ltac:(lia)) as Hi. cbv zeta. unfold bind at 1.
  rewrite (read_entry root T s Hb Hvs p a) by done.
  destruct (T !! (p ++ [PX level va])) as [b|] eqn:E.
  - destruct (entry_some root T s Hb Hvs p a (PX level va) b) as [-> ->]; try done.
    eexists _, T, fl, s. split; [done|]. rewrite E.
    split_and!; [by apply extends_refl|lia|done|done|done].
  - rewrite (entry_none root T s Hvs p a) by done.
    destruct fl as [|q fl].
    + unfold bind. pose proof (wf_chain _ _ Hwf) as Hc. simpl in Hc.
      rewrite (alloc_page_empty s Hb (wf_unlocked _ _ Hwf) Hc).
      eexists _, T, [], s. split; [done|]. rewrite E.
      split_and!; [by apply extends_refl|lia|by intros []|done|done].
    + rewrite (hang_run root T fl s p a (PX level va) q Hwf Hvs Ha Hl Hi).
      eexists _, _, fl, _. split; [done|]. rewrite lookup_insert_eq.
      split_and!; [by apply hang_extends|simpl; lia|by intros []|done|done].
Qed.

Lemma page_walk_alloc root T fl s va :
  pmm_wf fl s -> vspace root T s -> 0 <= va < MAXVA ->
  exists r T' fl' s', page_walk root va true s = Ok r s' /\
    extends root T fl s T' fl' s' /\ (length fl <= length fl' + 2)%nat /\
    (is_Some (T !! walk_path va) -> fl' = fl) /\
    match T' !! walk_path va with
    | Some a => r = a + 8 * PX 0 va
    | None => r = 0 /\ (length fl < 2)%nat /\ T !! walk_path va = None
    end.
Proof.
  intros Hwf Hvs Hva. unfold page_walk. rewrite (proj2 (Z.leb_gt _ _)) by lia.
  destruct (walk_level_alloc root T fl s va 2 [] root)
    as (r1 & T1 & fl1 & s1 & Hr1 & Hx1 & Hn1 & Hs1 & -> & Hz1);
    try done; [apply Hvs|simpl; lia|].
  cbn [loop]. unfold bind at 1. rewrite Hr1. cbn [app] in *.
  destruct (T1 !! [PX 2 va]) as [a|] eqn:E2.
  2: { destruct (Hz1 eq_refl) as [-> ->].
       assert (T !! walk_path va = None) as Hno.
       { destruct (T !! walk_path va) eqn:E; [|done].
         destruct (path_prefix root T s Hvs va); [by rewrite E|congruence]. }
       eexists 0, T, fl1, s1. split; [done|]. rewrite Hno. apply ev_free in Hx1 as Hfr.
       destruct Hfr as [[] Hfr]; [|done]. simpl in Hfr. subst fl1.
       split_and!; [done|lia|by intros []|done|simpl; lia|done]. }
  destruct (walk_level_alloc root T1 fl1 s1 va 1 [PX 2 va] a)
    as (r2 & T2 & fl2 & s2 & Hr2 & Hx2 & Hn2 & Hs2 & -> & Hz2);
    try done; [apply Hx1|apply Hx1|simpl; lia|].
  change (2 - 1) with 1. unfold bind at 1. rewrite Hr2. cbn [app] in *. fold (walk_path va) in *.
  assert (is_Some (T !! walk_path va) -> T1 = T /\ fl1 = fl) as Hkeep.
  { intros Hs. apply Hs1. by apply (path_prefix root T s Hvs). }
  exists (match T2 !! walk_path va with Some a => a + 8 * PX 0 va | None => 0 end),
    T2, fl2, s2. split; [by destruct (T2 !! walk_path va)|].
  split_and!; [by eapply extends_trans|lia| |].
  - intros Hs. destruct (Hkeep Hs) as [-> ->]. by destruct (Hs2 Hs).
  - destruct (T2 !! walk_path va) eqn:E; [done|]. destruct (Hz2 eq_refl) as [-> ->].
    split_and!; [done|simpl in *; lia|].
    destruct (T !! walk_path va) as [b|] eqn:E'; [|done].
    destruct Hkeep as [-> _]; [done|congruence].
Qed.

(** ** Writing a leaf entry *)

Definition leaf_set (T : tables) (va v : Z) (s : pmm) : pmm :=
  match T !! walk_path va with
  | Some a => set_mem (store64 (mem s) (a + 8 * PX 0 va) v) s
  | None => s
  end.

Section SetLeaf.
  Context (root : Z) (T : tables) (fl : list Z) (s : pmm) (va v a : Z).
  Hypothesis Hwf : pmm_wf fl s.
  Hypothesis Hvs : vspace root T s.
  Hypothesis Hva : 0 <= va < MAXVA.
  Hypothesis Hv : 0 <= v < 2 ^ 64.
  Hypothesis Ha : T !! walk_path va = Some a.

Let s' : pmm := leaf_set T va v s.

Lemma leaf_set_run : write64 (a + 8 * PX 0 va) v s = Ok tt s'.
Proof.
  unfold write64, s', leaf_set. rewrite Ha.
  pose proof (vs_owned _ _ _ Hvs _ _ Ha) as [Hm _].
  by rewrite (entry_in_dram s) by (done || apply Hwf || by apply PX_range).
Qed.

Lemma leaf_set_word b j : b mod PGSIZE = 0 -> 0 <= j < 512 -> (b, j) <> (a, PX 0 va) ->
  load64 (mem s') (b + 8 * j) = load64 (mem s) (b + 8 * j).
Proof.
  intros Hb Hj Hne. unfold s', leaf_set. rewrite Ha. simpl mem. apply load64_store64_ne.
  pose proof (vs_owned _ _ _ Hvs _ _ Ha) as [[Hm _] _].
  pose proof (PX_range 0 va ltac:(lia)).
  destruct (words_apart a b (PX 0 va) j); [done|done|done|done|congruence|lia|lia].
Qed.

Lemma leaf_set_page_ref b : page_ref s' b = page_ref s b.
Proof. unfold s', leaf_set. by rewrite Ha. Qed.

Lemma leaf_set_managed b : managed s' b <-> managed s b.
Proof. unfold s', leaf_set. by rewrite Ha. Qed.

Lemma leaf_set_wf : pmm_wf fl s'.
Proof.
  unfold s', leaf_set. rewrite Ha. apply pmm_wf_frame; [done|]. intros q Hq.
  assert (managed s q /\ page_ref s q = 0) as [Hm H0] by (by apply (wf_free _ _ Hwf)).
  pose proof (leaf_set_word q 0) as Hw. unfold s', leaf_set in Hw. rewrite Ha in Hw.
  rewrite Z.mul_0_r, Z.add_0_r in Hw. apply Hw; [apply Hm|lia|].
  intros [= -> _]. pose proof (vs_owned _ _ _ Hvs _ _ Ha) as [_ ?]. lia.
Qed.

Lemma leaf_set_vspace : vspace root T s'.
Proof.
  destruct Hvs as [V1 V2 V3 V4 V5]. constructor; try done.
  - intros p b i Hp Hl Hi. rewrite leaf_set_word; [by apply V3|by eapply V5|done|].
    intros [= -> _]. pose proof (V2 _ _ _ Hp Ha). subst p. simpl in Hl. lia.
  - intros p b Hp. destruct (V5 _ _ Hp). split; [by apply leaf_set_managed|].
    by rewrite leaf_set_page_ref.
Qed.

Lemma leaf_set_leaf vb : 0 <= vb < MAXVA ->
  leaf T (mem s') vb = if decide (vb / PGSIZE = va / PGSIZE) then v else leaf T (mem s) vb.
Proof.
  intros Hvb. case_decide as E.
  - assert (walk_path vb = walk_path va /\ PX 0 vb = PX 0 va) as [Ew E0].
    { unfold walk_path. pose proof (PX_page vb) as (-> & -> & ->).
      pose proof (PX_page va) as (-> & -> & ->). by rewrite E. }
    unfold leaf. rewrite Ew, Ha, E0. unfold s', leaf_set. rewrite Ha. simpl mem.
    rewrite load64_store64_eq. by apply u64_small.
  - unfold leaf. destruct (T !! walk_path vb) as [b|] eqn:Eb; [|done].
    apply leaf_set_word; [by eapply vs_owned|by apply PX_range|].
    intros [= -> E0]. pose proof (vs_inj _ _ _ Hvs _ _ _ Eb Ha) as [= E2 E1].
    apply E. by apply PX_inj.
Qed.

Lemma leaf_set_mem x : (forall p, T !! p <> Some (page_of x)) ->
  load8 (mem s') x = load8 (mem s) x.
Proof.
  intros HT. unfold s', leaf_set. rewrite Ha. simpl mem.
  pose proof (vs_owned _ _ _ Hvs _ _ Ha) as [[Hm _] _].
  pose proof (PX_range 0 va ltac:(lia)).
  apply (load8_store_le_ne 8). destruct (Z.lt_ge_cases x (a + 8 * PX 0 va)); [by left|right].
  destruct (Z.lt_ge_cases x (a + 8 * PX 0 va + 8)); [|lia]. exfalso.
  apply (HT (walk_path va)). rewrite Ha. f_equal. unfold page_of, PGSIZE in *. dlia.
Qed.

Lemma leaf_set_evolves : evolves root T fl s
  (fun vb => if decide (vb / PGSIZE = va / PGSIZE) then v else leaf T (mem s) vb) T fl s'.
Proof.
  constructor; auto using leaf_set_wf, leaf_set_vspace, leaf_set_leaf,
    leaf_set_managed, leaf_set_page_ref.
  - by exists [].
  - intros x _ HT. by apply leaf_set_mem.
Qed.

End SetLeaf.

(** ** Mapping a range *)

(** The leaves after [n] pages from [va] were mapped to those from [pa]. *)
Definition mapped (L : Z -> Z) (va pa n flags : Z) (vb : Z) : Z :=
  let k := vb / PGSIZE - va / PGSIZE in
  if (0 <=? k) && (k <? n) then pte (pa + k * PGSIZE) flags else L vb.

Lemma mapped_ext L L' va pa n flags vb : L vb = L' vb ->
  mapped L va pa n flags vb = mapped L' va pa n flags vb.
Proof. unfold mapped. by intros ->. Qed.

(** How often the walk moves on to another last-level table. *)
Definition crossings (va n : Z) : Z :=
  (va / PGSIZE + n - 1) / 512 - va / PGSIZE / 512.

(** Free pages that are enough for the tables of the range. *)
Definition tables_for (T : tables) (va n : Z) : Z :=
  2 * crossings va n + (if T !! walk_path va is Some _ then 0 else 2).

Lemma lor_flags perm : 0 <= perm < 1024 -> 0 <= Z.lor perm PTE_V < 1024.
Proof.
  intros Hp. split; [apply Z.lor_nonneg; split; [lia|done]|].
  apply Z.log2_lt_cancel. rewrite Z.log2_lor by (lia || done).
  apply Z.max_lub_lt; [|done]. destruct (Z.eq_dec perm 0) as [->|]; [done|].
  apply Z.log2_lt_pow2; [lia|]. change (2 ^ Z.log2 1024) with 1024. lia.
Qed.

Lemma pte_perm pa perm : 0 <= pa < 2 ^ 56 -> 0 <= perm < 1024 ->
  Z.lor (Z.lor (PA2PTE pa) (u64 perm)) PTE_V = pte pa (Z.lor perm PTE_V).
Proof.
  intros Hpa Hp. rewrite u64_small by lia. rewrite <- Z.lor_assoc.
  apply pte_lor; [done|]. by apply lor_flags.
Qed.

Lemma walk_path_region va vb : va / PGSIZE / 512 = vb / PGSIZE / 512 ->
  walk_path va = walk_path vb.
Proof.
  intros E. unfold walk_path. pose proof (PX_page va) as (_ & -> & ->).
  pose proof (PX_page vb) as (_ & -> & ->). by rewrite E.
Qed.

Lemma page_step va k : (va + k * PGSIZE) / PGSIZE = va / PGSIZE + k.
Proof. unfold PGSIZE. rewrite Z.div_add by lia. done. Qed.

Lemma mapped_step L va pa n f vb : 0 <= n ->
  mapped (mapped L va pa 1 f) (va + PGSIZE) (pa + PGSIZE) n f vb = mapped L va pa (n + 1) f vb.
Proof.
  intros Hn. unfold mapped. pose proof (page_step va 1) as E. rewrite Z.mul_1_l in E.
  rewrite E. set (k := vb / PGSIZE - va / PGSIZE).
  replace (vb / PGSIZE - (va / PGSIZE + 1)) with (k - 1) by lia.
  destruct (_ && _) eqn:E1, ((0 <=? k) && (k <? 1)) eqn:E2, ((0 <=? k) && (k <? n + 1)) eqn:E3;
    try lia; try done; unfold PGSIZE; f_equal; lia.
Qed.

(** A round and the rest of the range together need no more than the range. *)
Lemma tables_for_step T T' first n :
  0 < n -> is_Some (T' !! walk_path first) ->
  tables_for T' (first + PGSIZE) n + (if T !! walk_path first is Some _ then 0 else 2)
    <= tables_for T first (n + 1).
Proof.
  intros Hn Hs. unfold tables_for, crossings in *.
  pose proof (page_step first 1) as E. rewrite Z.mul_1_l in E. rewrite E in *.
  set (P := first / PGSIZE) in *.
  assert ((P + 1) / 512 = P / 512 \/ (P + 1) / 512 = P / 512 + 1) as [Hr|Hr] by dlia.
  - rewrite (walk_path_region (first + PGSIZE) first) by (by rewrite E).
    destruct Hs as [a ->]. replace (P + 1 + n - 1) with (P + (n + 1) - 1) by lia.
    destruct (T !! walk_path first); lia.
  - replace (P + 1 + n - 1) with (P + (n + 1) - 1) by lia.
    destruct (T !! walk_path first), (T' !! walk_path (first + PGSIZE)); lia.
Qed.

Lemma crossings_nonneg va n : 1 <= n -> 0 <= crossings va n.
Proof. unfold crossings. intros. dlia. Qed.

Definition loop_tables (T : tables) (va : Z) (n : nat) : Z :=
  match n with O => 0 | _ => tables_for T va (Z.of_nat n) end.

Lemma loop_tables_step T T' first n : is_Some (T' !! walk_path first) ->
  loop_tables T' (first + PGSIZE) n + (if T !! walk_path first is Some _ then 0 else 2)
    <= loop_tables T first (S n).
Proof.
  intros Hs. unfold loop_tables. destruct n as [|n].
  - unfold tables_for. pose proof (crossings_nonneg first (Z.of_nat 1) ltac:(lia)).
    destruct (T !! walk_path first); lia.
  - replace (Z.of_nat (S (S n))) with (Z.of_nat (S n) + 1) by lia.
    apply tables_for_step; [lia|done].
Qed.

Lemma loop_tables_nonneg T va n : 0 <= loop_tables T va n.
Proof.
  unfold loop_tables, tables_for. destruct n as [|n]; [done|].
  pose proof (crossings_nonneg va (Z.of_nat (S n)) ltac:(lia)).
  destruct (T !! walk_path va); lia.
Qed.

Section MapLoop.
  Context (root last perm : Z).
  Hypothesis Hperm : 0 <= perm < 1024.

Let body : Z * Z -> M pmm (Z * Z + Z) := fun '(first, pa) =>
  if first <=? last then
    let* pte := page_walk root first true in
    if pte =? 0 then ret (inr (-1))
    else
      let* e := read64 pte in
      if has e PTE_V then panic
      else
        write64 pte (Z.lor (Z.lor (PA2PTE pa) (u64 perm)) PTE_V) ;;;
        ret (inl (u64 (first + PGSIZE), u64 (pa + PGSIZE)))
  else ret (inr 0).

(** One page: a round that maps [first] to [pa]. *)
Lemma map_round T fl s first pa :
  pmm_wf fl s -> vspace root T s ->
  0 <= first < MAXVA -> first <= last -> first mod PGSIZE = 0 ->
  0 <= pa -> pa + PGSIZE < 2 ^ 56 ->
  Z.odd (leaf T (mem s) first) = false ->
  (if T !! walk_path first is Some _ then 0 else 2) <= Z.of_nat (length fl) ->
  exists T' fl' s', body (first, pa) s = Ok (inl (first + PGSIZE, pa + PGSIZE)) s' /\
    evolves root T fl s (mapped (leaf T (mem s)) first pa 1 (Z.lor perm PTE_V)) T' fl' s' /\
    is_Some (T' !! walk_path first) /\
    Z.of_nat (length fl) <= Z.of_nat (length fl') +
      (if T !! walk_path first is Some _ then 0 else 2).
Proof.
  intros Hwf Hvs Hf Hle Hal Hpa Hpt Hodd Hlen.
  destruct (page_walk_alloc root T fl s first Hwf Hvs Hf)
    as (r & T1 & fl1 & s1 & Hr & Hx & Hn & Hk & Hm).
  destruct (T1 !! walk_path first) as [a|] eqn:Ea.
  2: { destruct Hm as (_ & ? & Hno). rewrite Hno in *. lia. }
  subst r. pose proof (ev_vs _ _ _ _ _ _ _ _ Hx) as Hvs1.
  pose proof (ev_wf _ _ _ _ _ _ _ _ Hx) as Hwf1.
  pose proof (wf_bounds _ _ Hwf1) as Hb1.
  pose proof (vs_owned _ _ _ Hvs1 _ _ Ea) as [Hma _].
  apply managed_range in Hma as (? & _); [|done].
  pose proof (PX_range 0 first ltac:(lia)).
  exists T1, fl1, (leaf_set T1 first (pte pa (Z.lor perm PTE_V)) s1).
  assert (0 <= pte pa (Z.lor perm PTE_V) < 2 ^ 64) as Hpr.
  { pose proof (pte_range pa (Z.lor perm PTE_V) ltac:(unfold PGSIZE in *; lia)
      (lor_flags _ Hperm)). lia. }
  split_and!.
  - unfold body. rewrite (proj2 (Z.leb_le _ _)) by done. unfold bind at 1. rewrite Hr.
    rewrite (proj2 (Z.eqb_neq _ 0)) by (layout; lia).
    unfold bind at 1. rewrite (read_leaf root T1 s1) by done.
    rewrite has_V, (ev_leaf _ _ _ _ _ _ _ _ Hx), Hodd by done.
    rewrite pte_perm by (unfold PGSIZE in *; lia). unfold bind at 1.
    rewrite (leaf_set_run root T1 fl1) by done. unfold ret.
    rewrite !u64_small; [done|unfold PGSIZE in *; lia|].
    rewrite MAXVA_eq in Hf. unfold PGSIZE in *. lia.
  - eapply evolves_trans; [done|]. eapply evolves_ext; [|by eapply leaf_set_evolves].
    intros vb Hvb. simpl. unfold mapped. case_decide as E.
    + rewrite E, Z.sub_diag. simpl. f_equal. lia.
    + rewrite (ev_leaf _ _ _ _ _ _ _ _ Hx) by done.
      destruct (_ && _) eqn:Eb; [lia|done].
  - by rewrite Ea.
  - destruct (T !! walk_path first); [rewrite Hk by eauto; lia|lia].
Qed.

Lemma map_loop n : forall fuel T fl s first pa,
  (n < fuel)%nat -> pmm_wf fl s -> vspace root T s ->
  0 <= first -> first mod PGSIZE = 0 -> first + Z.of_nat n * PGSIZE <= MAXVA ->
  last = first + (Z.of_nat n - 1) * PGSIZE ->
  0 <= pa -> pa + Z.of_nat n * PGSIZE < 2 ^ 56 ->
  (forall k, 0 <= k < Z.of_nat n -> Z.odd (leaf T (mem s) (first + k * PGSIZE)) = false) ->
  loop_tables T first n <= Z.of_nat (length fl) ->
  exists T' fl' s', loop fuel body (first, pa) s = Ok 0 s' /\
    evolves root T fl s (mapped (leaf T (mem s)) first pa (Z.of_nat n) (Z.lor perm PTE_V))
      T' fl' s' /\
    Z.of_nat (length fl) <= Z.of_nat (length fl') + loop_tables T first n.
Proof.
  induction n as [|n IH]; intros [|fuel] T fl s first pa Hfu Hwf Hvs Hf Hal Hmx Hlast Hpa Hpt
    Hodd Hlen; try lia; cbn [loop].
  - change (Z.of_nat 0) with 0 in *. exists T, fl, s. split_and!; [| |simpl; lia].
    + unfold bind, body. rewrite (proj2 (Z.leb_gt _ _)) by (unfold PGSIZE in *; lia). done.
    + eapply evolves_ext; [|by apply extends_refl]. intros vb _. unfold mapped.
      destruct (_ && _) eqn:E; [lia|done].
  - replace (Z.of_nat (S n)) with (Z.of_nat n + 1) in * by lia.
    pose proof (loop_tables_step T (<[walk_path first := 0]> T) first n) as Hts0.
    rewrite lookup_insert_eq in Hts0. specialize (Hts0 ltac:(eauto)).
    destruct (map_round T fl s first pa)
      as (T1 & fl1 & s1 & Hr & Hx & Hs & Hl); try done; try (unfold PGSIZE in *; lia).
    { pose proof (Hodd 0 ltac:(lia)) as H0. by rewrite Z.mul_0_l, Z.add_0_r in H0. }
    { pose proof (loop_tables_nonneg (<[walk_path first := 0]> T) (first + PGSIZE) n). lia. }
    clear Hts0. pose proof (loop_tables_step T T1 first n Hs) as Hts.
    unfold bind. rewrite Hr.
    destruct (IH fuel T1 fl1 s1 (first + PGSIZE) (pa + PGSIZE))
      as (T2 & fl2 & s2 & Hr2 & Hx2 & Hu2); try done; try (unfold PGSIZE in *; lia).
    { apply Hx. } { apply Hx. } { unfold PGSIZE in *. dlia. }
    { intros k Hk. rewrite (ev_leaf _ _ _ _ _ _ _ _ Hx) by (unfold PGSIZE in *; lia).
      replace (first + PGSIZE + k * PGSIZE) with (first + (k + 1) * PGSIZE) by lia.
      unfold mapped. rewrite page_step.
      destruct (_ && _) eqn:E; [lia|]. apply Hodd. lia. }
    exists T2, fl2, s2. split_and!; [done| |lia].
    eapply evolves_ext; [|by eapply evolves_trans]. intros vb Hvb. cbv beta.
    rewrite <- mapped_step by lia. apply mapped_ext. by apply (ev_leaf _ _ _ _ _ _ _ _ Hx).
Qed.

End MapLoop.

Lemma map_pages_run root T fl s va size pa perm n :
  pmm_wf fl s -> vspace root T s -> 0 <= perm < 1024 ->
  0 <= va -> 0 < size -> va + size <= MAXVA ->
  n = (va + size - 1) / PGSIZE - va / PGSIZE + 1 ->
  0 <= pa -> pa + n * PGSIZE < 2 ^ 56 ->
  (forall k, 0 <= k < n -> Z.odd (leaf T (mem s) (va + k * PGSIZE)) = false) ->
  tables_for T va n <= Z.of_nat (length fl) ->
  exists T' fl' s', map_pages root va size pa perm s = Ok 0 s' /\
    evolves root T fl s (mapped (leaf T (mem s)) va pa n (Z.lor perm PTE_V)) T' fl' s' /\
    Z.of_nat (length fl) <= Z.of_nat (length fl') + tables_for T va n.
Proof.
  intros Hwf Hvs Hperm Hva Hsz Hmx Hn Hpa Hpt Hodd Hlen. rewrite MAXVA_eq in Hmx.
  assert (0 < n) by (unfold PGSIZE in *; dlia).
  assert (ROUNDDOWN va PGSIZE / PGSIZE = va / PGSIZE) as Ep
    by (unfold ROUNDDOWN, PGSIZE; dlia).
  assert (forall k, leaf T (mem s) (ROUNDDOWN va PGSIZE + k * PGSIZE)
    = leaf T (mem s) (va + k * PGSIZE)) as El.
  { intros k. unfold leaf, walk_path.
    pose proof (PX_page (ROUNDDOWN va PGSIZE + k * PGSIZE)) as (-> & -> & ->).
    pose proof (PX_page (va + k * PGSIZE)) as (-> & -> & ->).
    by rewrite !page_step, Ep. }
  assert (loop_tables T (ROUNDDOWN va PGSIZE) (Z.to_nat n) = tables_for T va n) as Et.
  { unfold loop_tables, tables_for, crossings. destruct (Z.to_nat n) eqn:En; [lia|].
    rewrite <- En, Z2Nat.id by lia.
    by rewrite Ep, (walk_path_region (ROUNDDOWN va PGSIZE) va) by (by rewrite Ep). }
  unfold map_pages. rewrite (u64_small (va + size - 1)) by lia. cbv zeta.
  destruct (map_loop root (ROUNDDOWN (va + size - 1) PGSIZE) perm Hperm (Z.to_nat n)
    (rounds (ROUNDDOWN va PGSIZE) (ROUNDDOWN (va + size - 1) PGSIZE))
    T fl s (ROUNDDOWN va PGSIZE) pa) as (T' & fl' & s' & Hr & Hx & Hu); try done.
  - unfold rounds, ROUNDDOWN, PGSIZE in *. dlia.
  - unfold ROUNDDOWN, PGSIZE. dlia.
  - unfold ROUNDDOWN, PGSIZE. dlia.
  - rewrite MAXVA_eq. unfold ROUNDDOWN, PGSIZE in *. dlia.
  - unfold ROUNDDOWN, PGSIZE in *. dlia.
  - lia.
  - intros k Hk. rewrite El. apply Hodd. lia.
  - by rewrite Et.
  - rewrite Et in Hu. exists T', fl', s'. split_and!; [exact Hr| |done].
    eapply evolves_ext; [|done]. intros vb _. unfold mapped. by rewrite Ep, Z2Nat.id by lia.
Qed.

(** ** Other address spaces *)

Lemma load64_page s m' p i : p mod PGSIZE = 0 -> 0 <= i < 512 ->
  (forall x, page_of x = p -> load8 m' x = load8 (mem s) x) ->
  load64 m' (p + 8 * i) = load64 (mem s) (p + 8 * i).
Proof.
  intros Hp Hi Hx. apply load_le_ext. intros x Hr. apply Hx.
  replace x with (p + 8 * i + (x - p - 8 * i)) by lia. apply page_of_word; [done|done|lia].
Qed.

Lemma vspace_frame root T s s' :
  vspace root T s ->
  (forall path a x, T !! path = Some a -> page_of x = a -> load8 (mem s') x = load8 (mem s) x) ->
  (forall path a, T !! path = Some a -> owned s' a) ->
  vspace root T s' /\ forall va, leaf T (mem s') va = leaf T (mem s) va.
Proof.
  intros [V1 V2 V3 V4 V5] Hx Ho.
  assert (forall path a i, T !! path = Some a -> 0 <= i < 512 ->
    load64 (mem s') (a + 8 * i) = load64 (mem s) (a + 8 * i)) as Hw.
  { intros path a i Ha Hi. apply load64_page; [by eapply V5|done|]. eauto. }
  split; [constructor; try done|].
  - intros p a i Hp Hl Hi. rewrite (Hw p) by done. by apply V3.
  - intros va. unfold leaf. destruct (T !! walk_path va) eqn:E; [|done].
    eapply Hw; [done|]. by apply PX_range.
Qed.

(** An operation on one table does not reach the tables of another. *)
Lemma evolves_other root T fl s L T' fl' s' root2 T2 :
  pmm_wf fl s -> evolves root T fl s L T' fl' s' -> vspace root2 T2 s ->
  (forall p q a, T !! p = Some a -> T2 !! q <> Some a) ->
  vspace root2 T2 s' /\ forall va, leaf T2 (mem s') va = leaf T2 (mem s) va.
Proof.
  intros Hwf Hx Hvs Hd.
  assert (forall q a, T2 !! q = Some a -> owned s a /\ a ∉ fl) as Ho.
  { intros q a Ha. pose proof (vs_owned _ _ _ Hvs _ _ Ha). by eauto using owned_not_free. }
  apply vspace_frame; [done| |].
  - intros q a x Ha <-. apply (ev_mem _ _ _ _ _ _ _ _ Hx); [by eapply Ho|].
    intros p Hp. by eapply Hd.
  - intros q a Ha. destruct (Ho _ _ Ha) as [[Hm Hr] Hfl].
    split; [by apply (ev_managed _ _ _ _ _ _ _ _ Hx)|].
    by rewrite (ev_ref _ _ _ _ _ _ _ _ Hx).
Qed.

(** ** Ranges of pages *)

(** [a] is not a page of the tables. *)
Definition no_table (T : tables) (a : Z) : Prop := forall p, T !! p <> Some a.

(** [vb] lies in one of [n] pages from [va] on. *)
Definition in_range (va : Z) (n : nat) (vb : Z) : bool :=
  (va / PGSIZE <=? vb / PGSIZE) && (vb / PGSIZE <? va / PGSIZE + Z.of_nat n).

Lemma leaf_page T m va vb : vb / PGSIZE = va / PGSIZE -> leaf T m vb = leaf T m va.
Proof.
  intros E. unfold leaf, walk_path. pose proof (PX_page vb) as (-> & -> & ->).
  pose proof (PX_page va) as (-> & -> & ->). by rewrite E.
Qed.

Lemma in_range_one va vb : in_range va 1 vb = bool_decide (vb / PGSIZE = va / PGSIZE).
Proof. unfold in_range. change (Z.of_nat 1) with 1. case_bool_decide; lia. Qed.

Lemma in_range_0 va vb : in_range va 0 vb = false.
Proof. unfold in_range. change (Z.of_nat 0) with 0. lia. Qed.

Lemma in_range_S va n vb : in_range va (S n) vb = in_range va 1 vb || in_range (va + PGSIZE) n vb.
Proof.
  unfold in_range. pose proof (page_step va 1) as E. rewrite Z.mul_1_l in E. rewrite E.
  rewrite Nat2Z.inj_succ. unfold Z.succ. change (Z.of_nat 1) with 1. pose proof (Nat2Z.is_nonneg n) as Hn.
  revert Hn. generalize (Z.of_nat n) as z. intros. lia.
Qed.

Lemma in_range_head va n vb : in_range va 1 vb = true -> in_range (va + PGSIZE) n vb = false.
Proof.
  unfold in_range. pose proof (page_step va 1) as E. rewrite Z.mul_1_l in E. rewrite E.
  change (Z.of_nat 1) with 1. lia.
Qed.

(** ** Unmapping a page *)

(** The entry is emptied; with [free], the page loses a reference and goes back
    to the free list with its last one. *)
Section Unmap.
  Context (root : Z) (T : tables) (fl : list Z) (s : pmm) (va p flags : Z).
  Hypothesis Hwf : pmm_wf fl s.
  Hypothesis Hvs : vspace root T s.
  Hypothesis Hva : 0 <= va < MAXVA.
  Hypothesis Hal : va mod PGSIZE = 0.
  Hypothesis Hflags : 0 <= flags < 1024.
  Hypothesis HV : Z.odd flags = true.
  Hypothesis Hleaf : leaf T (mem s) va = pte p flags.
  Hypothesis Hrw : flags <> PTE_V.

Lemma unmap_path : exists a, T !! walk_path va = Some a.
Proof.
  unfold leaf in Hleaf. destruct (T !! walk_path va); [by eexists|].
  pose proof (odd_pte p flags) as H. rewrite <- Hleaf, HV in H. done.
Qed.

(** The guards of the loop all pass; what is left is the body. *)
Lemma unmap_run (free : bool) :
  user_vm_unmap root va PGSIZE free s =
  bind (if free then free_page (PTE2PA (pte p flags)) else ret tt) (fun _ =>
    match T !! walk_path va with
    | Some a => write64 (a + 8 * PX 0 va) 0
    | None => fault
    end) s.
Proof.
  destruct unmap_path as [a Ha]. pose proof (wf_bounds _ _ Hwf) as Hb.
  unfold user_vm_unmap. rewrite Hal. cbn [negb Z.eqb].
  pose proof Hva as Hva'. rewrite MAXVA_eq in Hva'.
  rewrite (u64_small (va + PGSIZE)) by (unfold PGSIZE; lia).
  unfold rounds. replace (Z.to_nat ((va + PGSIZE - va) / PGSIZE + 2)) with 3%nat
    by (unfold PGSIZE; dlia).
  cbn [loop]. rewrite (proj2 (Z.ltb_lt _ _)) by (unfold PGSIZE; lia).
  unfold bind at 1, bind at 1. rewrite (page_walk_run root T s) by done. rewrite Ha.
  pose proof (vs_owned _ _ _ Hvs _ _ Ha) as [Hm _].
  apply managed_range in Hm as (? & _); [|done].
  pose proof (PX_range 0 va ltac:(lia)).
  rewrite (proj2 (Z.eqb_neq _ 0)) by (layout; lia).
  unfold bind at 1. rewrite (read_leaf root T s) by done. rewrite Hleaf.
  rewrite has_V, odd_pte, HV. cbn [negb].
  rewrite PTE_FLAGS_pte by done. rewrite (proj2 (Z.eqb_neq _ _)) by done.
  unfold bind.
  destruct ((if free then free_page (PTE2PA (pte p flags)) else ret tt) s) as [[] s1| | |];
    [|done..].
  destruct (write64 (a + 8 * PX 0 va) 0 s1) as [[] s2| | |]; [|done..].
  unfold ret. rewrite (u64_small (va + PGSIZE)) by (unfold PGSIZE; lia).
  by rewrite Z.ltb_irrefl.
Qed.

(** The table seen through a state in which only page [p] changed hands. *)
Hypothesis Hp : owned s p.
Hypothesis Hnt : forall path, T !! path <> Some p.

Lemma page_returned_vspace :
  vspace root T (page_returned p s) /\
  forall vb, leaf T (mem (page_returned p s)) vb = leaf T (mem s) vb.
Proof.
  destruct Hp as [Hm _]. apply vspace_frame; [done| |].
  - intros path a x Ha Hx. simpl. apply (load8_store_le_ne 8).
    pose proof (vs_owned _ _ _ Hvs _ _ Ha) as [[Hma _] _].
    assert (p <> a) as Hne by (intros ->; by eapply Hnt).
    destruct Hm as [Hpm _]. destruct (pages_apart p a Hpm Hma Hne);
      unfold page_of, PGSIZE in *; dlia.
  - intros path a Ha. pose proof (vs_owned _ _ _ Hvs _ _ Ha) as [Hma Hr].
    split; [done|]. rewrite page_ref_returned by (done || apply Hwf).
    case_decide; [subst; by edestruct Hnt|done].
Qed.

Lemma page_counted_vspace c : 0 < c ->
  vspace root T (page_counted p c s) /\
  forall vb, leaf T (mem (page_counted p c s)) vb = leaf T (mem s) vb.
Proof.
  intros Hc. destruct Hp as [Hm _]. apply vspace_frame; [done|done|].
  intros path a Ha. pose proof (vs_owned _ _ _ Hvs _ _ Ha) as [Hma Hr].
  split; [done|]. rewrite page_ref_counted by (done || apply Hwf).
  case_decide; [lia|done].
Qed.

Lemma unmap_free : exists fl' s',
  user_vm_unmap root va PGSIZE true s = Ok tt s' /\
  pmm_wf fl' s' /\ vspace root T s' /\
  (fl' = if decide (page_ref s p = 1) then p :: fl else fl) /\
  page_ref s' p = page_ref s p - 1 /\
  (forall q, managed s q -> q <> p -> page_ref s' q = page_ref s q) /\
  (forall vb, 0 <= vb < MAXVA -> leaf T (mem s') vb =
     if decide (vb / PGSIZE = va / PGSIZE) then 0 else leaf T (mem s) vb) /\
  (forall q, managed s' q <-> managed s q).
Proof.
  pose proof Hp as [Hm Hr]. pose proof (wf_bounds _ _ Hwf) as Hb.
  pose proof (wf_unlocked _ _ Hwf) as Hu. destruct unmap_path as [a Ha].
  rewrite unmap_run, Ha, (PTE2PA_page s) by done.
  set (s1 := if decide (page_ref s p = 1) then page_returned p s
             else page_counted p (page_ref s p - 1) s).
  set (fl1 := if decide (page_ref s p = 1) then p :: fl else fl).
  assert (free_page p s = Ok tt s1 /\ pmm_wf fl1 s1 /\
    (vspace root T s1 /\ forall vb, leaf T (mem s1) vb = leaf T (mem s) vb) /\
    page_ref s1 p = page_ref s p - 1 /\
    (forall q, managed s q -> q <> p -> page_ref s1 q = page_ref s q))
    as (Hf & Hwf1 & [Hvs1 Hl1] & Hr1 & Hq1).
  { unfold s1, fl1. pose proof (wf_ref _ _ Hwf p Hm). case_decide as E; split_and!.
    - apply free_page_run; try done. lia.
    - by apply page_returned_wf.
    - apply page_returned_vspace.
    - apply page_returned_vspace.
    - rewrite page_ref_returned by done. case_decide; [lia|done].
    - intros q Hq Hne. rewrite page_ref_returned by done. by case_decide.
    - apply free_page_shared; try done. lia.
    - apply page_counted_wf; try done. lia.
    - apply page_counted_vspace. lia.
    - apply page_counted_vspace. lia.
    - rewrite page_ref_counted by done. by case_decide.
    - intros q Hq Hne. rewrite page_ref_counted by done. by case_decide. }
  exists fl1, (leaf_set T va 0 s1). unfold bind. rewrite Hf.
  split_and!; [by eapply leaf_set_run| | |done| | | |].
  - by eapply leaf_set_wf.
  - by eapply leaf_set_vspace.
  - by erewrite leaf_set_page_ref.
  - intros q Hq Hne. erewrite leaf_set_page_ref by done. auto.
  - intros vb Hvb. erewrite leaf_set_leaf by done.
    case_decide; [done|]. apply Hl1.
  - intros q. erewrite leaf_set_managed by done. unfold s1. by case_decide.
Qed.

End Unmap.

(** ** A new, empty table *)

Definition zeroed (q : Z) (s : pmm) : pmm :=
  set_mem (fill (Z.to_nat PGSIZE) (mem s) q 0) (page_taken q s).

Section Fresh.
  Context (fl : list Z) (s : pmm) (q : Z).
  Hypothesis Hwf : pmm_wf (q :: fl) s.

Lemma kmemset_page s1 v : managed s q ->
  kmemset q v PGSIZE s1 = Ok q (set_mem (fill (Z.to_nat PGSIZE) (mem s1) q v) s1).
Proof.
  intros Hm. pose proof (managed_range s (wf_bounds _ _ Hwf) q Hm) as (? & ? & _).
  unfold kmemset.
  assert (in_dram q PGSIZE = true) as -> by (unfold in_dram; layout; lia).
  unfold zoom. rewrite memset_run by (layout; lia). done.
Qed.

Lemma zeroed_run :
  alloc_page s = Ok q (page_taken q s) /\ kmemset q 0 PGSIZE (page_taken q s) = Ok q (zeroed q s).
Proof.
  destruct (wf_head_managed _ _ Hwf q fl eq_refl) as [Hm _].
  pose proof (wf_chain _ _ Hwf) as [Hh _]. split.
  - apply alloc_page_run; [apply Hwf|apply Hwf|done|done].
  - by apply kmemset_page.
Qed.

Lemma zeroed_wf : pmm_wf fl (zeroed q s).
Proof.
  destruct (wf_head_managed _ _ Hwf q fl eq_refl) as [[Hq _] _].
  apply (pmm_wf_frame _ (page_taken q s)); [by eapply page_taken_wf|].
  intros b Hb. assert (managed s b) as [Hbm _] by (apply (wf_free _ _ Hwf); set_solver).
  assert (b <> q) as Hne by (pose proof (wf_nodup _ _ Hwf) as [? _]%NoDup_cons; set_solver).
  apply load_le_fill. destruct (pages_apart b q Hbm Hq Hne); unfold PGSIZE in *; lia.
Qed.

Lemma zeroed_vspace :
  vspace q {[[] := q]} (zeroed q s) /\ forall va, leaf {[[] := q]} (mem (zeroed q s)) va = 0.
Proof.
  destruct (wf_head_managed _ _ Hwf q fl eq_refl) as [Hm _]. split.
  - constructor.
    + apply lookup_singleton_eq.
    + intros p1 p2 a [<- _]%lookup_singleton_Some [<- _]%lookup_singleton_Some. done.
    + intros p a i [<- <-]%lookup_singleton_Some _ Hi. rewrite lookup_singleton_ne by done.
      unfold zeroed. simpl mem. rewrite load_le_fill_0; unfold PGSIZE; [done|lia|lia].
    + intros p i [x Hx]. apply lookup_singleton_Some in Hx as [Hx _]. by destruct p.
    + intros p a [<- <-]%lookup_singleton_Some. split; [done|].
      change (page_ref (zeroed q s) q) with (page_ref (page_taken q s) q).
      rewrite page_ref_taken; [by case_decide|apply Hwf|done|done].
  - intros va. unfold leaf. by rewrite lookup_singleton_ne.
Qed.

End Fresh.

(** ** The kernel's table *)

Lemma prot_rx : prot_to_type (Z.lor PROT_READ PROT_EXEC) 0 = 0x4A.
Proof. done. Qed.
Lemma prot_rw : prot_to_type (Z.lor PROT_READ PROT_WRITE) 0 = 0xC6.
Proof. done. Qed.

Definition kern_leaf (etext vb : Z) : Z :=
  if (KERN_BASE <=? vb) && (vb <? etext) then
    pte (page_of vb) (Z.lor (prot_to_type (Z.lor PROT_READ PROT_EXEC) 0) PTE_V)
  else if (etext <=? vb) && (vb <? PHYS_TOP) then
    pte (page_of vb) (Z.lor (prot_to_type (Z.lor PROT_READ PROT_WRITE) 0) PTE_V)
  else 0.

Lemma kern_leaf_mapped etext vb : etext mod PGSIZE = 0 -> KERN_BASE < etext < PHYS_TOP ->
  mapped (mapped (fun _ => 0) KERN_BASE DRAM_BASE ((etext - KERN_BASE) / PGSIZE)
      (Z.lor (prot_to_type (Z.lor PROT_READ PROT_EXEC) 0) PTE_V))
    etext etext ((PHYS_TOP - etext) / PGSIZE)
    (Z.lor (prot_to_type (Z.lor PROT_READ PROT_WRITE) 0) PTE_V) vb
  = kern_leaf etext vb.
Proof.
  intros Hal Hr. unfold mapped, kern_leaf, page_of. layout. cbv zeta.
  repeat match goal with |- context [if ?b then _ else _] => destruct b eqn:? end;
    first [done|f_equal; dlia|exfalso; dlia].
Qed.

Lemma kern_vm_map_run root T fl s va size pa perm n :
  pmm_wf fl s -> vspace root T s -> 0 <= perm < 1024 ->
  0 <= va -> 0 < size -> va + size <= MAXVA ->
  n = (va + size - 1) / PGSIZE - va / PGSIZE + 1 ->
  0 <= pa -> pa + n * PGSIZE < 2 ^ 56 ->
  (forall k, 0 <= k < n -> Z.odd (leaf T (mem s) (va + k * PGSIZE)) = false) ->
  tables_for T va n <= Z.of_nat (length fl) ->
  exists T' fl' s', kern_vm_map root va pa size perm s = Ok tt s' /\
    user_vm_map root va size pa perm s = Ok tt s' /\
    evolves root T fl s (mapped (leaf T (mem s)) va pa n (Z.lor perm PTE_V)) T' fl' s' /\
    Z.of_nat (length fl) <= Z.of_nat (length fl') + tables_for T va n.
Proof.
  intros. destruct (map_pages_run root T fl s va size pa perm n)
    as (T' & fl' & s' & Hr & Hx & Hl); try done.
  exists T', fl', s'. unfold kern_vm_map, user_vm_map, bind. by rewrite Hr.
Qed.

Lemma kern_vm_init_run etext fl t s k :
  pmm_wf (t :: fl) s -> etext mod PGSIZE = 0 -> KERN_BASE < etext < PHYS_TOP ->
  130 <= Z.of_nat (length fl) ->
  exists T fl' s', kern_vm_init etext (Vm s k) = Ok tt (Vm s' t) /\
    pmm_wf fl' s' /\ vspace t T s' /\
    (forall va, 0 <= va < MAXVA -> leaf T (mem s') va = kern_leaf etext va) /\
    (forall q, managed s' q <-> managed s q).
Proof.
  intros Hwf Hal Hr Hlen.
  destruct (zeroed_run fl s t Hwf) as [Ha Hz].
  pose proof (zeroed_wf fl s t Hwf) as Hwf0.
  destruct (zeroed_vspace fl s t Hwf) as [Hvs0 Hl0].
  assert (forall q, managed (zeroed t s) q <-> managed s q) as Hm0 by done.
  set (s0 := zeroed t s) in *. clearbody s0.
  set (n1 := (etext - KERN_BASE) / PGSIZE). set (n2 := (PHYS_TOP - etext) / PGSIZE).
  assert (crossings KERN_BASE n1 + crossings etext n2 <= 63 /\ 1 <= n1 /\ 1 <= n2) as (Hc & Hn1 & Hn2).
  { unfold crossings, n1, n2. layout. dlia. }
  pose proof (crossings_nonneg KERN_BASE n1 Hn1). pose proof (crossings_nonneg etext n2 Hn2).
  destruct (kern_vm_map_run t {[[] := t]} fl s0 KERN_BASE (etext - KERN_BASE) DRAM_BASE
    (prot_to_type (Z.lor PROT_READ PROT_EXEC) 0) n1)
    as (T1 & fl1 & s1 & Hr1 & _ & Hx1 & Hu1); try done.
  1-4: rewrite ?MAXVA_eq; unfold n1; layout; dlia.
  { intros. by rewrite Hl0. }
  { unfold tables_for. destruct (_ !! _); lia. }
  destruct (kern_vm_map_run t T1 fl1 s1 etext (PHYS_TOP - etext) etext
    (prot_to_type (Z.lor PROT_READ PROT_WRITE) 0) n2)
    as (T2 & fl2 & s2 & Hr2 & _ & Hx2 & _); try done.
  { apply Hx1. } { apply Hx1. }
  1-6: rewrite ?MAXVA_eq; unfold n2; layout; dlia.
  { intros j Hj. rewrite (ev_leaf _ _ _ _ _ _ _ _ Hx1).
    - unfold mapped. rewrite page_step, Hl0. destruct (_ && _) eqn:E; [|done].
      unfold n1, n2 in *. layout. dlia.
    - rewrite MAXVA_eq. unfold n2 in *. layout. dlia. }
  { unfold tables_for in *. destruct (_ !! _), (_ !! _); lia. }
  exists T2, fl2, s2. split_and!; [|apply Hx2|apply Hx2| |].
  - unfold kern_vm_init, bind, zoom. simpl. rewrite Ha. simpl. rewrite Hz. simpl.
    rewrite !u64_small by (layout; lia). rewrite Hr1. simpl. rewrite Hr2. done.
  - intros va Hva. rewrite (ev_leaf _ _ _ _ _ _ _ _ Hx2) by done.
    rewrite <- kern_leaf_mapped by done. apply mapped_ext.
    rewrite (ev_leaf _ _ _ _ _ _ _ _ Hx1) by done. apply mapped_ext, Hl0.
  - intros q. rewrite (ev_managed _ _ _ _ _ _ _ _ Hx2), (ev_managed _ _ _ _ _ _ _ _ Hx1). apply Hm0.
Qed.

(** ** Properties *)

(** C2: [map_pages] on an unmapped range with free pages for the tables it may
    need returns 0 and maps exactly the pages of the range to the consecutive
    physical pages from [pa] with the given permission: every other leaf entry,
    every page that is neither free nor one of the tables, every reference count
    of an allocated page, and every other address space is left as it was. *)
Theorem map_pages_correct root T fl s va size pa perm n :
  pmm_wf fl s -> vspace root T s -> 0 <= perm < 1024 ->
  0 <= va -> 0 < size -> va + size <= MAXVA ->
  n = (va + size - 1) / PGSIZE - va / PGSIZE + 1 ->
  0 <= pa -> pa + n * PGSIZE < 2 ^ 56 ->
  (forall k, 0 <= k < n -> Z.odd (leaf T (mem s) (va + k * PGSIZE)) = false) ->
  tables_for T va n <= Z.of_nat (length fl) ->
  exists T' fl' s', map_pages root va size pa perm s = Ok 0 s' /\
    pmm_wf fl' s' /\ vspace root T' s' /\
    (forall vb, 0 <= vb < MAXVA -> leaf T' (mem s') vb =
       let k := vb / PGSIZE - va / PGSIZE in
       if (0 <=? k) && (k <? n) then pte (pa + k * PGSIZE) (Z.lor perm PTE_V)
       else leaf T (mem s) vb) /\
    (forall x, page_of x ∉ fl -> (forall p, T !! p <> Some (page_of x)) ->
       load8 (mem s') x = load8 (mem s) x) /\
    (forall p, managed s p -> p ∉ fl -> page_ref s' p = page_ref s p) /\
    (forall root2 T2, vspace root2 T2 s -> (forall p q a, T !! p = Some a -> T2 !! q <> Some a) ->
       vspace root2 T2 s' /\ forall vb, leaf T2 (mem s') vb = leaf T2 (mem s) vb).
Proof.
  intros Hwf Hvs Hperm Hva Hsz Hmx Hn Hpa Hpt Hodd Hlen.
  destruct (map_pages_run root T fl s va size pa perm n)
    as (T' & fl' & s' & Hr & Hx & _); try done.
  exists T', fl', s'. split_and!; [done|apply Hx|apply Hx|apply Hx|apply Hx|apply Hx|].
  intros root2 T2 Hvs2 Hd. by eapply evolves_other.
Qed.

(** An empty address space over eight free pages. *)
Definition empty_space : pmm := zeroed 0x80007000 (free_pages 8).

Lemma empty_space_wf : pmm_wf (page_stack DRAM_BASE 7) empty_space.
Proof. apply zeroed_wf. by apply (free_pages_wf 8). Qed.

Lemma empty_space_vs : vspace 0x80007000 {[[] := 0x80007000]} empty_space.
Proof. apply (zeroed_vspace (page_stack DRAM_BASE 7)). by apply (free_pages_wf 8). Qed.

Lemma empty_space_leaf va : leaf {[[] := 0x80007000]} (mem empty_space) va = 0.
Proof. apply (zeroed_vspace (page_stack DRAM_BASE 7)). by apply (free_pages_wf 8). Qed.

Lemma map_pages_correct_witness :
  exists s', map_pages 0x80007000 0x400000 0x2000 0x80000000 0x16 empty_space = Ok 0 s'.
Proof.
  destruct (map_pages_correct 0x80007000 {[[] := 0x80007000]} (page_stack DRAM_BASE 7) empty_space
    0x400000 0x2000 0x80000000 0x16 2) as (T' & fl' & s' & Hr & _);
    [apply empty_space_wf|apply empty_space_vs|lia|lia|lia|rewrite MAXVA_eq; lia|reflexivity
    |lia|unfold PGSIZE; lia|intros k _; rewrite empty_space_leaf; reflexivity
    |vm_compute; discriminate|].
  exists s'. exact Hr.
Defined.

Lemma leaf_pa_pte pa flags : 0 <= pa < 2 ^ 56 -> 0 <= flags < 1024 ->
  has flags PTE_V = true -> has flags (Z.lor PTE_R PTE_W) = true ->
  leaf_pa (pte pa flags) = pa / PGSIZE * PGSIZE.
Proof.
  intros Hpa Hf HV HRW. unfold leaf_pa. rewrite !has_pte by done. rewrite HV.
  assert (has flags PTE_R || has flags PTE_W = true) as ->.
  { unfold has in *. rewrite Z.land_lor_distr_r in HRW.
    destruct (Z.eqb_spec (Z.land flags PTE_R) 0) as [E1|]; [|done].
    destruct (Z.eqb_spec (Z.land flags PTE_W) 0) as [E2|]; [|done].
    by rewrite E1, E2 in HRW. }
  simpl. by apply PTE2PA_pte.
Qed.

Lemma has_lor_V perm : has (Z.lor perm PTE_V) PTE_V = true.
Proof. rewrite has_V, <- Z.bit0_odd, Z.lor_spec. change (Z.testbit PTE_V 0) with true. apply orb_true_r. Qed.

Lemma has_lor_RW perm : has perm (Z.lor PTE_R PTE_W) = true ->
  has (Z.lor perm PTE_V) (Z.lor PTE_R PTE_W) = true.
Proof.
  unfold has. rewrite Z.land_lor_distr_l.
  change (Z.land PTE_V (Z.lor PTE_R PTE_W)) with 0. by rewrite Z.lor_0_r.
Qed.

(** A user page mapped with [user_vm_map] (read or write permission) is
    translated by [user_va_to_pa] to the physical byte at the same offset. *)
Theorem map_then_translate root T fl s va pa perm vb :
  pmm_wf fl s -> vspace root T s -> 0 <= perm < 1024 ->
  has perm (Z.lor PTE_R PTE_W) = true ->
  0 <= va -> va + PGSIZE <= MAXVA -> va mod PGSIZE = 0 ->
  PGSIZE <= pa -> pa + PGSIZE < 2 ^ 56 -> pa mod PGSIZE = 0 ->
  Z.odd (leaf T (mem s) va) = false -> (2 <= length fl)%nat ->
  va <= vb < va + PGSIZE ->
  exists s', user_vm_map root va PGSIZE pa perm s = Ok tt s' /\
    user_va_to_pa root vb s' = Ok (pa + (vb - va)) s'.
Proof.
  intros Hwf Hvs Hperm HRW Hva Hmx Hal Hpa Hpt Hpal Hodd Hlen Hvb.
  pose proof Hmx as Hmx'. rewrite MAXVA_eq in Hmx'.
  destruct (kern_vm_map_run root T fl s va PGSIZE pa perm 1)
    as (T' & fl' & s' & _ & Hr & Hx & _); try done; try (unfold PGSIZE in *; dlia).
  { intros k Hk. assert (k = 0) as -> by lia. by rewrite Z.mul_0_l, Z.add_0_r. }
  { unfold tables_for, crossings. replace (va / PGSIZE + 1 - 1) with (va / PGSIZE) by lia.
    destruct (T !! _); lia. }
  exists s'. split; [done|].
  rewrite (user_va_to_pa_run root T' s' (wf_bounds _ _ (ev_wf _ _ _ _ _ _ _ _ Hx))
    (ev_vs _ _ _ _ _ _ _ _ Hx)) by lia.
  rewrite (proj2 (Z.ltb_lt vb MAXVA)) by (unfold PGSIZE in *; lia).
  rewrite (ev_leaf _ _ _ _ _ _ _ _ Hx) by (unfold PGSIZE in *; lia).
  assert (vb / PGSIZE = va / PGSIZE) as E by (unfold PGSIZE in *; dlia).
  unfold mapped. rewrite E, Z.sub_diag. simpl. rewrite Z.add_0_r.
  rewrite leaf_pa_pte; [|unfold PGSIZE in *; lia|by apply lor_flags|apply has_lor_V
    |by apply has_lor_RW].
  assert (pa / PGSIZE * PGSIZE = pa) as -> by (unfold PGSIZE in *; dlia).
  rewrite (proj2 (Z.eqb_neq pa 0)) by (unfold PGSIZE in *; lia).
  rewrite u64_small by (unfold PGSIZE in *; dlia). do 2 f_equal. unfold PGSIZE in *. dlia.
Qed.

Lemma map_then_translate_witness :
  exists s', user_vm_map 0x80007000 0x400000 PGSIZE 0x80000000 0x16 empty_space = Ok tt s' /\
    user_va_to_pa 0x80007000 0x400123 s' = Ok 0x80000123 s'.
Proof.
  apply (map_then_translate 0x80007000 {[[] := 0x80007000]} (page_stack DRAM_BASE 7) empty_space
    0x400000 0x80000000 0x16 0x400123);
    [apply empty_space_wf|apply empty_space_vs|lia|reflexivity|lia
    |rewrite MAXVA_eq; unfold PGSIZE; lia|reflexivity|unfold PGSIZE; lia|unfold PGSIZE; lia
    |reflexivity|rewrite empty_space_leaf; reflexivity|simpl; lia|unfold PGSIZE; lia].
Defined.

(** [user_vm_unmap] of a mapped user page with [free] set empties its
    leaf entry and no other, takes one reference off the page and puts the page
    on the free list exactly when that was the last one; afterwards the address
    no longer translates. *)
Theorem user_vm_unmap_frees root T fl s va p flags :
  pmm_wf fl s -> vspace root T s -> 0 <= va < MAXVA -> va mod PGSIZE = 0 ->
  0 <= flags < 1024 -> Z.odd flags = true -> leaf T (mem s) va = pte p flags ->
  flags <> PTE_V -> owned s p -> (forall path, T !! path <> Some p) ->
  exists fl' s',
    user_vm_unmap root va PGSIZE true s = Ok tt s' /\
    pmm_wf fl' s' /\ vspace root T s' /\
    (fl' = if decide (page_ref s p = 1) then p :: fl else fl) /\
    page_ref s' p = page_ref s p - 1 /\
    (forall q, managed s q -> q <> p -> page_ref s' q = page_ref s q) /\
    (forall vb, 0 <= vb < MAXVA -> leaf T (mem s') vb =
       if decide (vb / PGSIZE = va / PGSIZE) then 0 else leaf T (mem s) vb) /\
    user_va_to_pa root va s' = Ok 0 s'.
Proof.
  intros Hwf Hvs Hva Hal Hf HV Hl Hne Hp Hnt.
  destruct (unmap_free root T fl s va p flags)
    as (fl' & s' & H1 & H2 & H3 & H4 & H5 & H6 & H7 & _); try done.
  exists fl', s'. split_and!; try done.
  rewrite (user_va_to_pa_run root T s' (wf_bounds _ _ H2) H3) by lia.
  rewrite (proj2 (Z.ltb_lt va MAXVA)), H7 by lia. by rewrite decide_True by done.
Qed.

(** A space whose page at 0x400000 is the page 0x80006000, held once. *)
Lemma mapped_space_with perm : 0 <= perm < 1024 ->
  exists T fl s, pmm_wf fl s /\ vspace 0x80007000 T s /\
  leaf T (mem s) 0x400000 = pte 0x80006000 (Z.lor perm PTE_V) /\
  (managed s 0x80006000 /\ page_ref s 0x80006000 = 1) /\
  (forall path, T !! path <> Some 0x80006000) /\ (4 <= length fl)%nat.
Proof.
  intros Hperm.
  pose proof empty_space_wf as Hwf. pose proof empty_space_vs as Hvs.
  set (s1 := page_taken 0x80006000 empty_space).
  assert (pmm_wf (page_stack DRAM_BASE 6) s1) as Hwf1
    by (apply (page_taken_wf _ _ Hwf); reflexivity).
  assert (managed empty_space 0x80006000 /\ page_ref empty_space 0x80006000 = 0) as [Hm _]
    by (eapply (wf_head_managed _ _ Hwf); reflexivity).
  assert (vspace 0x80007000 {[[] := 0x80007000]} s1 /\ forall va,
    leaf {[[] := 0x80007000]} (mem s1) va = leaf {[[] := 0x80007000]} (mem empty_space) va)
    as [Hvs1 Hl1].
  { apply vspace_frame; [done|done|]. intros path a Ha.
    pose proof (vs_owned _ _ _ Hvs _ _ Ha) as [Hma Hr]. split; [done|].
    unfold s1. rewrite page_ref_taken by (done || apply Hwf). case_decide; [lia|done]. }
  destruct (kern_vm_map_run 0x80007000 {[[] := 0x80007000]} (page_stack DRAM_BASE 6) s1
    0x400000 PGSIZE 0x80006000 perm 1) as (T & fl & s' & _ & _ & Hx & Hlen); try done.
  { intros k _. rewrite Hl1, empty_space_leaf. done. }
  assert (0x80006000 ∉ page_stack DRAM_BASE 6) as Hni.
  { rewrite elem_of_page_stack. intros (k & ? & E). layout. lia. }
  exists T, fl, s'. split_and!; [apply Hx|apply Hx| | | | |].
  - rewrite (ev_leaf _ _ _ _ _ _ _ _ Hx) by (rewrite MAXVA_eq; lia). done.
  - by apply (ev_managed _ _ _ _ _ _ _ _ Hx).
  - rewrite (ev_ref _ _ _ _ _ _ _ _ Hx) by done. unfold s1.
    rewrite page_ref_taken by (done || apply Hwf). by case_decide.
  - intros path [[_ [=]]%lookup_singleton_Some|?]%(ev_new _ _ _ _ _ _ _ _ Hx). done.
  - change (6 <= Z.of_nat (length fl) + 2) in Hlen. lia.
Qed.

Lemma mapped_space : exists T fl s, pmm_wf fl s /\ vspace 0x80007000 T s /\
  leaf T (mem s) 0x400000 = pte 0x80006000 0xD7 /\ owned s 0x80006000 /\
  (forall path, T !! path <> Some 0x80006000).
Proof.
  destruct (mapped_space_with 0xD6) as (T & fl & s & ? & ? & ? & [? E] & ? & _); [lia|].
  exists T, fl, s. split_and!; try done. split; [done|lia].
Qed.

Lemma user_vm_unmap_frees_witness : exists s s',
  user_vm_unmap 0x80007000 0x400000 PGSIZE true s = Ok tt s' /\
  user_va_to_pa 0x80007000 0x400000 s' = Ok 0 s'.
Proof.
  destruct mapped_space as (T & fl & s & Hwf & Hvs & Hl & Ho & Hnt).
  destruct (user_vm_unmap_frees 0x80007000 T fl s 0x400000 0x80006000 0xD7)
    as (fl' & s' & H1 & _ & _ & _ & _ & _ & _ & H8);
    [exact Hwf|exact Hvs|rewrite MAXVA_eq; lia|reflexivity|lia|reflexivity|exact Hl
    |discriminate|exact Ho|exact Hnt|].
  exists s, s'. split; assumption.
Defined.

(** Mapping over a page that is mapped already never succeeds silently:
    [user_vm_map] panics, whatever the rest of the range is. *)
Theorem double_map_panics root T fl s va size pa perm :
  pmm_wf fl s -> vspace root T s ->
  0 <= va -> 0 < size -> va + size <= MAXVA ->
  Z.odd (leaf T (mem s) va) = true ->
  user_vm_map root va size pa perm s = Panic.
Proof.
  intros Hwf Hvs Hva Hsz Hmx Hodd. pose proof Hmx as Hmx'. rewrite MAXVA_eq in Hmx'.
  assert (leaf T (mem s) (ROUNDDOWN va PGSIZE) = leaf T (mem s) va
    /\ 0 <= ROUNDDOWN va PGSIZE <= va) as [El Hr].
  { unfold ROUNDDOWN, PGSIZE. split; [|dlia]. unfold leaf, walk_path.
    pose proof (PX_page (va / 4096 * 4096)) as (-> & -> & ->).
    pose proof (PX_page va) as (-> & -> & ->). unfold PGSIZE.
    by replace (va / 4096 * 4096 / 4096) with (va / 4096) by dlia. }
  set (f := ROUNDDOWN va PGSIZE) in *.
  destruct (page_walk_alloc root T fl s f Hwf Hvs) as (r & T1 & fl1 & s1 & Hw & Hx & _ & _ & Hm);
    [lia|].
  pose proof (ev_leaf _ _ _ _ _ _ _ _ Hx f ltac:(lia)) as Hlf. rewrite El in Hlf.
  destruct (T1 !! walk_path f) as [a|] eqn:Ea.
  2: { unfold leaf at 1 in Hlf. rewrite Ea in Hlf. by rewrite <- Hlf in Hodd. }
  pose proof (ev_vs _ _ _ _ _ _ _ _ Hx) as Hvs1.
  pose proof (wf_bounds _ _ (ev_wf _ _ _ _ _ _ _ _ Hx)) as Hb1.
  pose proof (vs_owned _ _ _ Hvs1 _ _ Ea) as [Hma _].
  apply managed_range in Hma as (? & _); [|done]. pose proof (PX_range 0 f ltac:(lia)).
  unfold user_vm_map, map_pages. fold f. rewrite u64_small by lia. cbv zeta.
  unfold rounds. replace (Z.to_nat ((ROUNDDOWN (va + size - 1) PGSIZE - f) / PGSIZE + 2))
    with (Datatypes.S (Z.to_nat ((ROUNDDOWN (va + size - 1) PGSIZE - f) / PGSIZE + 1)))
    by (unfold f, ROUNDDOWN, PGSIZE; dlia).
  cbn [loop]. unfold bind at 1 2 3.
  rewrite (proj2 (Z.leb_le f _)) by (unfold f, ROUNDDOWN, PGSIZE; dlia).
  unfold bind at 1. rewrite Hw, Hm. rewrite (proj2 (Z.eqb_neq _ 0)) by (layout; lia).
  unfold bind at 1. rewrite (read_leaf root T1 s1) by done. by rewrite has_V, Hlf, Hodd.
Qed.

Lemma double_map_panics_witness : exists s,
  user_vm_map 0x80007000 0x400000 PGSIZE 0x80001000 0xD6 s = Panic.
Proof.
  destruct mapped_space as (T & fl & s & Hwf & Hvs & Hl & _). exists s.
  apply (double_map_panics 0x80007000 T fl s 0x400000 PGSIZE 0x80001000 0xD6);
    [exact Hwf|exact Hvs|lia|reflexivity|vm_compute; discriminate|rewrite Hl; reflexivity].
Defined.

(** [kern_vm_init] builds the direct mapping of the kernel: every address
    from [KERN_BASE] to [PHYS_TOP] translates to itself, the text read-execute
    and the rest read-write, and nothing else is mapped.  131 free pages are
    enough for the tables. *)
Theorem kern_vm_init_direct_map etext fl s k :
  pmm_wf fl s -> etext mod PGSIZE = 0 -> KERN_BASE < etext < PHYS_TOP ->
  (131 <= length fl)%nat ->
  exists t T fl' s', kern_vm_init etext (Vm s k) = Ok tt (Vm s' t) /\
    pmm_wf fl' s' /\ vspace t T s' /\
    (forall va, 0 <= va < MAXVA -> leaf T (mem s') va = kern_leaf etext va) /\
    (forall va, KERN_BASE <= va < PHYS_TOP -> user_va_to_pa t va s' = Ok va s').
Proof.
  intros Hwf Hal Hr Hlen. destruct fl as [|t fl]; [simpl in Hlen; lia|].
  destruct (kern_vm_init_run etext fl t s k) as (T & fl' & s' & H1 & H2 & H3 & H4 & _);
    try done; [simpl in Hlen; lia|].
  exists t, T, fl', s'. split_and!; try done. intros va Hva.
  rewrite (user_va_to_pa_run t T s' (wf_bounds _ _ H2) H3) by (layout; lia).
  rewrite (proj2 (Z.ltb_lt va MAXVA)) by (rewrite MAXVA_eq; layout; lia).
  rewrite H4 by (rewrite MAXVA_eq; layout; lia).
  assert (leaf_pa (kern_leaf etext va) = page_of va) as ->.
  { assert (0 <= page_of va < 2 ^ 56 /\ page_of va / PGSIZE * PGSIZE = page_of va) as [Hp Hpp]
      by (unfold page_of; layout; dlia).
    unfold kern_leaf. destruct (_ && _) eqn:E1; [by rewrite leaf_pa_pte|].
    destruct ((etext <=? va) && (va <? PHYS_TOP)) eqn:E2; [by rewrite leaf_pa_pte|lia]. }
  cbv zeta. rewrite (proj2 (Z.eqb_neq (page_of va) 0)) by (unfold page_of; layout; dlia).
  rewrite u64_small by (unfold page_of; layout; dlia).
  f_equal. unfold page_of, PGSIZE. dlia.
Qed.

Lemma kern_vm_init_direct_map_witness : exists t s',
  kern_vm_init 0x80010000 (Vm (free_pages 200) 0) = Ok tt (Vm s' t) /\
  user_va_to_pa t 0x80123456 s' = Ok 0x80123456 s'.
Proof.
  destruct (kern_vm_init_direct_map 0x80010000 (page_stack DRAM_BASE 200) (free_pages 200) 0)
    as (t & T & fl' & s' & H1 & _ & _ & _ & H5);
    [apply (free_pages_wf 200); reflexivity|reflexivity|vm_compute; split; reflexivity
    |vm_compute; lia|].
  exists t, s'. split; [exact H1|]. apply H5. layout. lia.
Defined.
