(* ===== verification/Pages.v ===== *)
(** * New pages in an address space

    The step that the loader, the heap and the stack share: a page is taken from
    the allocator, cleared and mapped.  [grown] says what [n] such steps have
    done to the tables, the free list and the memory. *)

From S2P Require Import Prelude Mem Pmm Vmm.
From stdpp Require Import base gmap list fin_maps.
From Stdlib Require Import ZArith Lia Bool.

Set Default Goal Selector "!".
Open Scope Z_scope.

#[local] Opaque fill.

(** A frame that was free in [fl] and now belongs to the address space alone. *)
Record new_frame (fl : list Z) (T : gmap (list Z) Z) (s : pmm) (f : Z) : Prop := {
  nf_free : f ∈ fl;
  nf_table : no_table T f;
  nf_managed : managed s f;
  nf_ref : page_ref s f = 1
}.

(** The virtual pages of the range. *)
Definition vpn_in (va : Z) (n : nat) (v : Z) : Prop := va / PGSIZE <= v < va / PGSIZE + Z.of_nat n.

Lemma vpn_in_range va n vb : in_range va n vb = true <-> vpn_in va n (vb / PGSIZE).
Proof. unfold in_range, vpn_in. lia. Qed.

Section Grown.
  Context (root flags : Z).

Record grown (va : Z) (n : nat) (fr : Z -> Z) (T : gmap (list Z) Z) (fl : list Z) (s : pmm)
    (T' : gmap (list Z) Z) (fl' : list Z) (s' : pmm) : Prop := {
  gr_wf : pmm_wf fl' s';
  gr_vs : vspace root T' s';
  gr_sub : T ⊆ T';
  gr_free : exists used, fl = used ++ fl';
  gr_new : forall p a, T' !! p = Some a -> T !! p = Some a \/ a ∈ fl;
  gr_leaf : forall vb, 0 <= vb < MAXVA -> leaf T' (mem s') vb =
    if in_range va n vb then pte (fr (vb / PGSIZE)) flags else leaf T (mem s) vb;
  gr_frame : forall v, vpn_in va n v -> new_frame fl T' s' (fr v);
  gr_inj : forall v w, vpn_in va n v -> vpn_in va n w -> fr v = fr w -> v = w;
  gr_zero : forall v x, vpn_in va n v -> page_of x = fr v -> load8 (mem s') x = 0;
  gr_mem : forall x, page_of x ∉ fl -> no_table T (page_of x) ->
    load8 (mem s') x = load8 (mem s) x;
  gr_managed : forall p, managed s' p <-> managed s p;
  gr_ref : forall p, managed s p -> p ∉ fl -> page_ref s' p = page_ref s p
}.

Lemma grown_none va fr T fl s : pmm_wf fl s -> vspace root T s -> grown va 0 fr T fl s T fl s.
Proof.
  intros W V. constructor; try done.
  - by exists [].
  - auto.
  - intros vb _. by rewrite in_range_0.
  - unfold vpn_in. intros v Hv. lia.
  - unfold vpn_in. intros v w Hv. lia.
  - unfold vpn_in. intros v x Hv. lia.
Qed.

Lemma new_frame_apart fl T s fl1 f : pmm_wf fl1 s -> new_frame fl T s f -> f ∉ fl1.
Proof. intros W [_ _ H1 H2]. apply (owned_not_free fl1 s f W). split; [done|lia]. Qed.

Lemma grown_step va n fr1 fr2 T fl s T1 fl1 s1 T2 fl2 s2 : 0 <= va ->
  grown va 1 fr1 T fl s T1 fl1 s1 -> grown (va + PGSIZE) n fr2 T1 fl1 s1 T2 fl2 s2 ->
  grown va (S n) (fun v => if v =? va / PGSIZE then fr1 v else fr2 v) T fl s T2 fl2 s2.
Proof.
  intros Hva G1 G2. destruct (gr_free _ _ _ _ _ _ _ _ _ G1) as [u1 F1].
  destruct (gr_free _ _ _ _ _ _ _ _ _ G2) as [u2 F2].
  pose proof (page_step va 1) as Es. rewrite Z.mul_1_l in Es.
  assert (vpn_in va 1 (va / PGSIZE)) as H0 by (unfold vpn_in; lia).
  assert (forall v, vpn_in va (S n) v -> v <> va / PGSIZE -> vpn_in (va + PGSIZE) n v) as Hrest
    by (unfold vpn_in; rewrite Es; lia).
  pose proof (gr_frame _ _ _ _ _ _ _ _ _ G1 _ H0) as Nf.
  pose proof (new_frame_apart _ _ _ _ _ (gr_wf _ _ _ _ _ _ _ _ _ G1) Nf) as Hnf.
  constructor.
  - apply G2.
  - apply G2.
  - by etrans; [apply G1|apply G2].
  - exists (u1 ++ u2). by rewrite F1, F2, app_assoc.
  - intros p a [Ha|Ha]%(gr_new _ _ _ _ _ _ _ _ _ G2); [by apply (gr_new _ _ _ _ _ _ _ _ _ G1)|set_solver].
  - intros vb Hvb. rewrite (gr_leaf _ _ _ _ _ _ _ _ _ G2), (gr_leaf _ _ _ _ _ _ _ _ _ G1), (in_range_S va n) by done.
    destruct (in_range va 1 vb) eqn:E.
    + rewrite (in_range_head _ _ _ E). rewrite in_range_one in E. apply bool_decide_eq_true in E.
      simpl. by rewrite E, Z.eqb_refl.
    + rewrite in_range_one in E. apply bool_decide_eq_false in E. simpl. by rewrite (proj2 (Z.eqb_neq _ _)).
  - intros v Hv. destruct (Z.eqb_spec v (va / PGSIZE)) as [->|Hne].
    + destruct Nf as [N1 N2 N3 N4]. constructor; [done| | |].
      * intros p [Hp|Hp]%(gr_new _ _ _ _ _ _ _ _ _ G2); [by eapply N2|done].
      * by apply (gr_managed _ _ _ _ _ _ _ _ _ G2).
      * by rewrite (gr_ref _ _ _ _ _ _ _ _ _ G2).
    + destruct (gr_frame _ _ _ _ _ _ _ _ _ G2 v (Hrest _ Hv Hne)). constructor; [set_solver|done|done|done].
  - intros v w Hv Hw.
    destruct (Z.eqb_spec v (va / PGSIZE)) as [->|Hv'], (Z.eqb_spec w (va / PGSIZE)) as [->|Hw'].
    + done.
    + intros E. destruct (gr_frame _ _ _ _ _ _ _ _ _ G2 w (Hrest _ Hw Hw')) as [N1 _ _ _]. by rewrite <- E in N1.
    + intros E. destruct (gr_frame _ _ _ _ _ _ _ _ _ G2 v (Hrest _ Hv Hv')) as [N1 _ _ _]. by rewrite E in N1.
    + apply (gr_inj _ _ _ _ _ _ _ _ _ G2); auto.
  - intros v x Hv. destruct (Z.eqb_spec v (va / PGSIZE)) as [->|Hne]; intros Hx.
    + rewrite (gr_mem _ _ _ _ _ _ _ _ _ G2); [by apply (gr_zero _ _ _ _ _ _ _ _ _ G1 _ _ H0)|by rewrite Hx|].
      rewrite Hx. apply Nf.
    + apply (gr_zero _ _ _ _ _ _ _ _ _ G2 v); auto.
  - intros x Hx HT. rewrite (gr_mem _ _ _ _ _ _ _ _ _ G2), (gr_mem _ _ _ _ _ _ _ _ _ G1); [done|done|done|set_solver|].
    intros p [Hp|Hp]%(gr_new _ _ _ _ _ _ _ _ _ G1); [by eapply HT|done].
  - intros p. by rewrite (gr_managed _ _ _ _ _ _ _ _ _ G2), (gr_managed _ _ _ _ _ _ _ _ _ G1).
  - intros p Hp Hfl. rewrite (gr_ref _ _ _ _ _ _ _ _ _ G2), (gr_ref _ _ _ _ _ _ _ _ _ G1);
      [done|done|done|by apply (gr_managed _ _ _ _ _ _ _ _ _ G1)|set_solver].
Qed.

End Grown.

(** ** One page *)

Section NewPage.
  Context (root : Z) (T : gmap (list Z) Z) (q : Z) (fl : list Z) (s : pmm).
  Hypothesis Hwf : pmm_wf (q :: fl) s.
  Hypothesis Hvs : vspace root T s.

Lemma new_page_facts : managed s q /\ q mod PGSIZE = 0 /\ (q ∉ fl) /\ no_table T q.
Proof using All.
  destruct (wf_head_managed _ _ Hwf q fl eq_refl) as [Hm Hr].
  destruct (managed_56 s q (wf_bounds _ _ Hwf) Hm) as [_ Hal].
  pose proof (wf_nodup _ _ Hwf) as [Hn _]%NoDup_cons. split_and!; [done|done|done|].
  intros p Hp. destruct (vs_owned _ _ _ Hvs _ _ Hp). lia.
Qed.

Lemma zeroed_ref p : managed s p -> page_ref (zeroed q s) p = if decide (p = q) then 1 else page_ref s p.
Proof using All.
  intros Hp. change (page_ref (zeroed q s) p) with (page_ref (page_taken q s) p).
  destruct new_page_facts as [Hq _]. rewrite page_ref_taken; [|apply Hwf|done|done]. repeat case_decide; congruence.
Qed.

Lemma zeroed_mem x : load8 (mem (zeroed q s)) x = if decide (page_of x = q) then 0 else load8 (mem s) x.
Proof using All.
  destruct new_page_facts as (_ & Hq & _). unfold zeroed. simpl mem. rewrite load8_fill, Z2Nat.id by done.
  unfold page_of. change (u8 0) with 0. repeat case_decide; try done; layout; dlia.
Qed.

(** The tables are untouched while the page is prepared. *)
Lemma zeroed_keeps : vspace root T (zeroed q s) /\
  forall va, leaf T (mem (zeroed q s)) va = leaf T (mem s) va.
Proof using All.
  destruct new_page_facts as (Hq & _ & _ & Hn). apply vspace_frame; [done| |].
  - intros path a x Ha <-. rewrite zeroed_mem. case_decide as E; [|done]. rewrite E in Ha. by apply Hn in Ha.
  - intros path a Ha. destruct (vs_owned _ _ _ Hvs _ _ Ha) as [Hm Hr]. split; [done|].
    rewrite zeroed_ref by done. case_decide; lia.
Qed.

Lemma grow_page va perm : 0 <= perm < 1024 -> 0 <= va -> va mod PGSIZE = 0 -> va + PGSIZE <= MAXVA ->
  Z.odd (leaf T (mem s) va) = false ->
  (if T !! walk_path va is Some _ then 0 else 2) <= Z.of_nat (length fl) ->
  exists T' fl' s', user_vm_map root va PGSIZE q perm (zeroed q s) = Ok tt s' /\
    grown root (Z.lor perm PTE_V) va 1 (fun _ => q) T (q :: fl) s T' fl' s' /\
    is_Some (T' !! walk_path va) /\
    Z.of_nat (length fl) <= Z.of_nat (length fl') + (if T !! walk_path va is Some _ then 0 else 2).
Proof using All.
  intros Hp Hva Hal Hmax Hodd Hfl. destruct new_page_facts as (Hq & Hqal & Hqfl & HqT).
  destruct zeroed_keeps as [Vz Lz]. pose proof (managed_range s (wf_bounds _ _ Hwf) q Hq) as (? & ? & _).
  assert (tables_for T va 1 = if T !! walk_path va is Some _ then 0 else 2) as Et.
  { unfold tables_for, crossings. replace (va / PGSIZE + 1 - 1) with (va / PGSIZE) by lia. destruct (T !! _); lia. }
  destruct (kern_vm_map_run root T fl (zeroed q s) va PGSIZE q perm 1)
    as (T' & fl' & s' & _ & Hr & Hx & Hl); try done; try (by apply zeroed_wf); try (layout; dlia).
  { intros k Hk. assert (k = 0) as -> by lia. by rewrite Z.mul_0_l, Z.add_0_r, Lz. }
  rewrite Et in Hl. exists T', fl', s'. split; [done|].
  assert (forall vb, 0 <= vb < MAXVA -> leaf T' (mem s') vb =
    if in_range va 1 vb then pte q (Z.lor perm PTE_V) else leaf T (mem s) vb) as HL.
  { intros vb Hvb. rewrite (ev_leaf _ _ _ _ _ _ _ _ Hx), in_range_one by done. unfold mapped. cbv zeta.
    case_bool_decide as E.
    - rewrite E, Z.sub_diag. simpl. by rewrite Z.add_0_r.
    - replace (_ && _) with false by lia. apply Lz. }
  split; [constructor|split; [|done]].
  - apply Hx.
  - apply Hx.
  - apply Hx.
  - destruct (ev_free _ _ _ _ _ _ _ _ Hx) as [u E]. exists (q :: u). by rewrite E.
  - intros p a [?|?]%(ev_new _ _ _ _ _ _ _ _ Hx); [by left|right; by right].
  - done.
  - intros v _. constructor.
    + by left.
    + intros p [Hp'|Hp']%(ev_new _ _ _ _ _ _ _ _ Hx); [by eapply HqT|done].
    + by apply (ev_managed _ _ _ _ _ _ _ _ Hx).
    + rewrite (ev_ref _ _ _ _ _ _ _ _ Hx), zeroed_ref by done. by case_decide.
  - unfold vpn_in. intros v w Hv Hw. lia.
  - intros v x _ E. rewrite (ev_mem _ _ _ _ _ _ _ _ Hx), zeroed_mem by (by rewrite E). by rewrite decide_True.
  - intros x [Hxq Hxf]%not_elem_of_cons HxT. rewrite (ev_mem _ _ _ _ _ _ _ _ Hx), zeroed_mem by done. by rewrite decide_False.
  - apply (ev_managed _ _ _ _ _ _ _ _ Hx).
  - intros p Hpm [Hpq Hpf]%not_elem_of_cons. rewrite (ev_ref _ _ _ _ _ _ _ _ Hx), zeroed_ref by done. by rewrite decide_False.
  - specialize (HL va ltac:(layout; lia)). rewrite in_range_one, bool_decide_true in HL by done.
    unfold leaf in HL. destruct (T' !! walk_path va); [done|]. exfalso.
    apply (f_equal Z.odd) in HL. rewrite odd_pte, <- (has_V (Z.lor perm PTE_V)), has_lor_V in HL. done.
Qed.

End NewPage.

(** ** Stores that reach neither free pages nor tables *)

Lemma set_mem_keeps root T fl s m : pmm_wf fl s -> vspace root T s ->
  (forall x, managed s (page_of x) -> (page_of x ∈ fl \/ exists p, T !! p = Some (page_of x)) ->
     load8 m x = load8 (mem s) x) ->
  pmm_wf fl (set_mem m s) /\ vspace root T (set_mem m s) /\
  forall va, leaf T m va = leaf T (mem s) va.
Proof.
  intros W V Hm. split.
  - apply pmm_wf_frame; [done|]. intros q Hq. destruct (proj1 (wf_free _ _ W q) Hq) as [Hmq _].
    destruct (managed_56 s q (wf_bounds _ _ W) Hmq) as [_ Hal].
    apply load_le_ext. intros x Hx. assert (page_of x = q) as E by (unfold page_of; layout; dlia).
    apply Hm; rewrite E; [done|by left].
  - apply (vspace_frame root T s (set_mem m s)); [done| |].
    + intros path a x Ha <-. apply Hm; [apply (vs_owned _ _ _ V _ _ Ha)|right; by exists path].
    + intros path a Ha. apply (vs_owned _ _ _ V _ _ Ha).
Qed.

(** ** Translation of an address whose leaf is known *)

Lemma translate_leaf root T s va f flags : mem_bounds s -> vspace root T s -> 0 <= va < MAXVA ->
  leaf T (mem s) va = pte f flags -> managed s f -> 0 <= flags < 1024 ->
  has flags PTE_V = true -> has flags (Z.lor PTE_R PTE_W) = true ->
  user_va_to_pa root va s = Ok (f + va mod PGSIZE) s.
Proof.
  intros B V Hva HL Hm Hf H1 H2. destruct (managed_56 s f B Hm) as [H56 Hal].
  pose proof (managed_range s B f Hm) as (? & ? & _).
  rewrite (user_va_to_pa_run root T s B V) by lia.
  rewrite (proj2 (Z.ltb_lt va MAXVA)), HL, leaf_pa_pte by (done || lia). cbv zeta.
  replace (f / PGSIZE * PGSIZE) with f by (layout; dlia).
  rewrite (proj2 (Z.eqb_neq f 0)) by (layout; lia). rewrite u64_small by (layout; dlia). done.
Qed.
