(* ===== verification/AddressSpace.v ===== *)
(** * Address spaces over time (kernel/vmm.c, kernel/pmm.c)

    The operations that the kernel performs on a user address space, in any order:
    a new page is added, a page is removed and freed, an address is translated.
    The abstract state is a finite map from virtual pages to frames with their
    permissions; page tables, free list and reference counts stay well formed and
    the operations behave as operations of the map. *)

From S2P Require Import Prelude Mem Pmm Vmm Pages.
From stdpp Require Import base gmap list fin_maps.
From Stdlib Require Import ZArith Lia Bool.

Set Default Goal Selector "!".
Open Scope Z_scope.

#[local] Opaque fill.

(** ** Operations *)

(** [Grow] is the step of the loader, of the heap and of the stack; the result is
    the physical address. *)
Inductive space_op : Type :=
| Grow (va perm : Z)
| Shrink (va : Z)
| Translate (va : Z).

Definition run_op (root : Z) (op : space_op) : M pmm Z :=
  match op with
  | Grow va perm =>
      let* pa := alloc_page in
      let* _ := kmemset pa 0 PGSIZE in
      user_vm_map root va PGSIZE pa perm ;;;
      ret pa
  | Shrink va => user_vm_unmap root va PGSIZE true ;;; ret 0
  | Translate va => user_va_to_pa root va
  end.

Fixpoint run_ops (root : Z) (ops : list space_op) : M pmm (list Z) :=
  match ops with
  | [] => ret []
  | op :: ops =>
      let* r := run_op root op in
      let* rs := run_ops root ops in
      ret (r :: rs)
  end.

(** ** The map of pages *)

Abbreviation amap := (gmap Z (Z * Z)).

(** What an operation returns and does to the map; a new frame is one that no page
    has. *)
Inductive astep (A : amap) : space_op -> Z -> amap -> Prop :=
| a_grow va perm pa :
    (forall v p f, A !! v = Some (p, f) -> p <> pa) ->
    astep A (Grow va perm) pa (<[va / PGSIZE := (pa, Z.lor perm PTE_V)]> A)
| a_shrink va : astep A (Shrink va) 0 (delete (va / PGSIZE) A)
| a_translate va :
    astep A (Translate va) (match A !! (va / PGSIZE) with Some (p, _) => p + va mod PGSIZE | None => 0 end) A.

Inductive asteps : amap -> list space_op -> list Z -> amap -> Prop :=
| asteps_nil A : asteps A [] [] A
| asteps_cons A op r A1 ops rs A2 : astep A op r A1 -> asteps A1 ops rs A2 -> asteps A (op :: ops) (r :: rs) A2.

(** What the kernel's callers see to: page-aligned user addresses, no page mapped
    twice and only mapped pages removed.  The frames of the map do not matter. *)
Definition op_ok (D : gset Z) (op : space_op) : Prop :=
  match op with
  | Grow va perm => 0 <= va /\ va mod PGSIZE = 0 /\ va + PGSIZE <= MAXVA /\ (va / PGSIZE ∉ D) /\
      0 <= perm < 1024 /\ has perm (Z.lor PTE_R PTE_W) = true
  | Shrink va => 0 <= va < MAXVA /\ va mod PGSIZE = 0 /\ (va / PGSIZE ∈ D)
  | Translate va => 0 <= va < MAXVA
  end.

Definition dom_after (D : gset Z) (op : space_op) : gset Z :=
  match op with
  | Grow va _ => {[va / PGSIZE]} ∪ D
  | Shrink va => D ∖ {[va / PGSIZE]}
  | Translate _ => D
  end.

Fixpoint ops_ok (D : gset Z) (ops : list space_op) : Prop :=
  match ops with
  | [] => True
  | op :: ops => op_ok D op /\ ops_ok (dom_after D op) ops
  end.

(** A new page may need two new tables. *)
Definition pages_for (op : space_op) : nat := match op with Grow _ _ => 3 | _ => 0 end.
Definition pages_needed (ops : list space_op) : nat := sum_list (pages_for <$> ops).

(** ** Well-formed address spaces *)

Record frame_ok (T : gmap (list Z) Z) (s : pmm) (v p f : Z) : Prop := {
  fo_page : 0 <= v;
  fo_managed : managed s p;
  fo_ref : page_ref s p = 1;
  fo_table : no_table T p;
  fo_flags : 0 <= f < 1024;
  fo_valid : has f PTE_V = true;
  fo_rw : has f (Z.lor PTE_R PTE_W) = true
}.

Record space_ok (root : Z) (A : amap) (fl : list Z) (T : gmap (list Z) Z) (s : pmm) : Prop := {
  so_wf : pmm_wf fl s;
  so_vs : vspace root T s;
  so_leaf : forall va, 0 <= va < MAXVA -> leaf T (mem s) va =
    match A !! (va / PGSIZE) with Some (p, f) => pte p f | None => 0 end;
  so_frame : forall v p f, A !! v = Some (p, f) -> frame_ok T s v p f;
  so_inj : forall v w p f f', A !! v = Some (p, f) -> A !! w = Some (p, f') -> v = w
}.

Section Space.
  Context (root : Z).

Lemma frame_not_free A fl T s v p f : space_ok root A fl T s -> A !! v = Some (p, f) -> p ∉ fl.
Proof.
  intros H Hp. destruct (so_frame _ _ _ _ _ H _ _ _ Hp). apply (owned_not_free fl s); [apply H|]. split; [done|lia].
Qed.

(** Adding a page. *)
Lemma grow_ok A fl T s va perm :
  space_ok root A fl T s -> op_ok (dom A) (Grow va perm) -> (3 <= length fl)%nat ->
  exists pa T' fl' s', run_op root (Grow va perm) s = Ok pa s' /\
    (forall v p f, A !! v = Some (p, f) -> p <> pa) /\
    space_ok root (<[va / PGSIZE := (pa, Z.lor perm PTE_V)]> A) fl' T' s' /\ (length fl <= length fl' + 3)%nat.
Proof.
  intros H (Hva & Hal & Hmax & Hd & Hperm & Hrw) Hfl. pose proof H as [W V Hleaf Hfr Hinj].
  destruct fl as [|q fl]; [cbn in Hfl; lia|]. cbn [length] in Hfl.
  assert (A !! (va / PGSIZE) = None) as HN by (by apply not_elem_of_dom).
  destruct (zeroed_run fl s q W) as [Ha Hz].
  destruct (grow_page root T q fl s W V va perm) as (T' & fl' & s' & Hrun & G & _ & Hlen); try done.
  { rewrite Hleaf, HN by (layout; lia). done. }
  { destruct (T !! walk_path va); lia. }
  assert (forall v p f, A !! v = Some (p, f) -> p ∉ q :: fl) as Hnf by (intros; by eapply frame_not_free).
  exists q, T', fl', s'. split; [|split; [|split]].
  - unfold run_op, bind. by rewrite Ha, Hz, Hrun.
  - intros v p f Hp ->. apply (Hnf _ _ _ Hp). by left.
  - pose proof (gr_frame _ _ _ _ _ _ _ _ _ _ _ G (va / PGSIZE) ltac:(unfold vpn_in; lia)) as [N1 N2 N3 N4].
    split.
    + apply G.
    + apply G.
    + intros vb Hvb. rewrite (gr_leaf _ _ _ _ _ _ _ _ _ _ _ G), in_range_one by done.
      case_bool_decide as E; [by rewrite E, lookup_insert_eq|]. rewrite lookup_insert_ne by done. by apply Hleaf.
    + intros v p f. destruct (decide (v = va / PGSIZE)) as [->|Hne].
      * rewrite lookup_insert_eq. intros [= <- <-]. split; try done; [layout; dlia|by apply lor_flags|apply has_lor_V|].
        by apply has_lor_RW.
      * rewrite lookup_insert_ne by done. intros Hp. destruct (Hfr _ _ _ Hp). split; try done.
        -- by apply (gr_managed _ _ _ _ _ _ _ _ _ _ _ G).
        -- rewrite (gr_ref _ _ _ _ _ _ _ _ _ _ _ G); [done|done|by eapply Hnf].
        -- intros path [?|?]%(gr_new _ _ _ _ _ _ _ _ _ _ _ G); [by eapply fo_table0|by eapply Hnf].
    + intros v w p f f'. destruct (decide (v = va / PGSIZE)) as [->|Hv], (decide (w = va / PGSIZE)) as [->|Hw];
        rewrite ?lookup_insert_eq, ?lookup_insert_ne by done; [done| | |apply Hinj].
      * intros [= <- <-] Hp. exfalso. apply (Hnf _ _ _ Hp). by left.
      * intros Hp [= <- <-]. exfalso. apply (Hnf _ _ _ Hp). by left.
  - cbn. destruct (T !! walk_path va); lia.
Qed.

(** Removing a page. *)
Lemma shrink_ok A fl T s va :
  space_ok root A fl T s -> op_ok (dom A) (Shrink va) ->
  exists fl' s', run_op root (Shrink va) s = Ok 0 s' /\
    space_ok root (delete (va / PGSIZE) A) fl' T s' /\ (length fl <= length fl')%nat.
Proof.
  intros H (Hva & Hal & [[p f] Hp]%elem_of_dom). pose proof H as [W V Hleaf Hfr Hinj].
  destruct (Hfr _ _ _ Hp) as [F0 F1 F2 F3 F4 F5 F6].
  destruct (unmap_free root T fl s va p f) as (fl' & s' & Hrun & W' & V' & Hfl & _ & Href & Hl & Hm); try done.
  { by rewrite <- has_V. }
  { by rewrite Hleaf, Hp by done. }
  { intros ->. by vm_compute in F6. }
  { split; [done|lia]. }
  exists fl', s'. split; [unfold run_op, bind; by rewrite Hrun|]. split.
  - split; [done|done| | |].
    + intros vb Hvb. rewrite Hl by done. destruct (decide (vb / PGSIZE = va / PGSIZE)) as [E|]; [by rewrite E, lookup_delete_eq|].
      rewrite lookup_delete_ne by done. by apply Hleaf.
    + intros v p' f' [Hne Hp']%lookup_delete_Some. destruct (Hfr _ _ _ Hp'). split; try done; [by apply Hm|].
      rewrite Href; [done|done|]. intros ->. apply Hne. by eapply Hinj.
    + intros v w p' f1 f2 [_ H1]%lookup_delete_Some [_ H2]%lookup_delete_Some. by eapply Hinj.
  - rewrite Hfl. destruct (decide (page_ref s p = 1)); cbn; lia.
Qed.

(** Translating an address. *)
Lemma translate_ok A fl T s va : space_ok root A fl T s -> op_ok (dom A) (Translate va) ->
  run_op root (Translate va) s
  = Ok (match A !! (va / PGSIZE) with Some (p, _) => p + va mod PGSIZE | None => 0 end) s.
Proof.
  intros H Hva. pose proof H as [W V Hleaf Hfr Hinj]. pose proof (wf_bounds _ _ W) as B. cbn [run_op op_ok] in *.
  specialize (Hleaf va Hva). destruct (A !! (va / PGSIZE)) as [[p f]|] eqn:E.
  - destruct (Hfr _ _ _ E). by apply (translate_leaf root T s va p f).
  - rewrite (user_va_to_pa_run root T s B V), Hleaf, (proj2 (Z.ltb_lt _ _)) by lia. done.
Qed.

Lemma step_ok A fl T s op : space_ok root A fl T s -> op_ok (dom A) op -> (pages_for op <= length fl)%nat ->
  exists r A' T' fl' s', run_op root op s = Ok r s' /\ astep A op r A' /\ space_ok root A' fl' T' s' /\
    dom A' = dom_after (dom A) op /\ (length fl <= length fl' + pages_for op)%nat.
Proof.
  intros H Hop Hfl. destruct op as [va perm|va|va].
  - destruct (grow_ok A fl T s va perm H Hop Hfl) as (pa & T' & fl' & s' & Hrun & Hne & H' & Hl).
    exists pa. eexists. exists T', fl', s'. split; [done|]. split; [by constructor|]. split; [done|].
    split; [by rewrite dom_insert_L|done].
  - destruct (shrink_ok A fl T s va H Hop) as (fl' & s' & Hrun & H' & Hl).
    exists 0. eexists. exists T, fl', s'. split; [done|]. split; [by constructor|]. split; [done|].
    split; [by rewrite dom_delete_L|cbn; lia].
  - exists (match A !! (va / PGSIZE) with Some (p, _) => p + va mod PGSIZE | None => 0 end), A, T, fl, s.
    split; [by eapply translate_ok|]. split; [constructor|]. split; [done|]. split; [done|cbn; lia].
Qed.

End Space.


(** Two pages are added to an empty space, one is removed. *)
Lemma empty_space_ok : space_ok 0x80007000 ∅ (page_stack DRAM_BASE 7) {[[] := 0x80007000]} empty_space.
Proof.
  split; [apply empty_space_wf|apply empty_space_vs| |done|done].
  intros va _. rewrite empty_space_leaf, lookup_empty. done.
Qed.

