(* ===== verification/Kernel.v ===== *)
(** * Kernel state

    The process table, the scheduler's queues, the semaphores and the file
    tables of the processes (the globals of kernel/process.c, kernel/sched.c,
    kernel/semaphore.c and the records they hold), over the physical memory of
    [Vmm].  A pointer to a process is its index in [procs], a NULL pointer
    [None]; page addresses are addresses. *)

From S2P Require Import Prelude Mem Pmm StringLib Vmm.
From stdpp Require Import base gmap list fin_maps.
From Stdlib Require Import ZArith Lia Bool.

Set Default Goal Selector "!".
Open Scope Z_scope.

(** ** Constants (kernel/process.h, kernel/config.h, kernel/sched.h, util/types.h) *)

Definition NPROC : Z := 32.
Definition NSEMAPHORE : Z := 16.
Definition TIME_SLICE_LEN : Z := 2.
Definition MAX_FILES : Z := 128.
Definition FD_NONE : Z := 0.
Definition FD_OPENED : Z := 1.

Inductive proc_status : Type := FREE | READY | RUNNING | BLOCKED | ZOMBIE.

#[export] Instance proc_status_eq_dec : EqDecision proc_status.
Proof. solve_decision. Defined.

(** segment_type; the values are stored in memory. *)
Definition STACK_SEGMENT : Z := 0.
Definition CONTEXT_SEGMENT : Z := 1.
Definition SYSTEM_SEGMENT : Z := 2.
Definition HEAP_SEGMENT : Z := 3.
Definition CODE_SEGMENT : Z := 4.
Definition DATA_SEGMENT : Z := 5.

(** Offsets in a [trapframe] (kernel/process.h, kernel/riscv.h). *)
Definition TF_SP : Z := 8.
Definition TF_TP : Z := 24.
Definition TF_A0 : Z := 72.
Definition TF_KERNEL_SP : Z := 248.
Definition TF_KERNEL_TRAP : Z := 256.
Definition TF_EPC : Z := 264.
Definition TF_KERNEL_SATP : Z := 272.
Definition SIZEOF_TRAPFRAME : Z := 280.

(** ** A process *)

(** [process_heap_manager] with its [m_rib]; the two function pointers are
    [first_fit_alloc] and [first_fit_free] in every process. *)
Record process_heap_manager : Type := HeapMan {
  heap_top : Z;
  heap_bottom : Z;
  alloc_list : Z;
  free_list : Z
}.

Definition set_heap_top (x : Z) (s : process_heap_manager) : process_heap_manager :=
  HeapMan x (heap_bottom s) (alloc_list s) (free_list s).
Definition set_heap_bottom (x : Z) (s : process_heap_manager) : process_heap_manager :=
  HeapMan (heap_top s) x (alloc_list s) (free_list s).
Definition set_alloc_list (x : Z) (s : process_heap_manager) : process_heap_manager :=
  HeapMan (heap_top s) (heap_bottom s) x (free_list s).
Definition set_free_list (x : Z) (s : process_heap_manager) : process_heap_manager :=
  HeapMan (heap_top s) (heap_bottom s) (alloc_list s) x.

(** [process_t] of kernel/process.h, without the debug-line pointers. *)
Record process : Type := Process {
  kstack : Z;
  pagetable : Z;
  trapframe : Z;
  user_heap : process_heap_manager;
  mapped_info : Z;
  total_mapped_region : Z;
  pid : Z;
  status : proc_status;
  parent : option Z;
  queue_next : option Z;
  tick_count : Z;
  pfiles : Z
}.

Definition set_kstack (x : Z) (s : process) : process :=
  Process x (pagetable s) (trapframe s) (user_heap s) (mapped_info s) (total_mapped_region s)
    (pid s) (status s) (parent s) (queue_next s) (tick_count s) (pfiles s).
Definition set_pagetable (x : Z) (s : process) : process :=
  Process (kstack s) x (trapframe s) (user_heap s) (mapped_info s) (total_mapped_region s)
    (pid s) (status s) (parent s) (queue_next s) (tick_count s) (pfiles s).
Definition set_trapframe (x : Z) (s : process) : process :=
  Process (kstack s) (pagetable s) x (user_heap s) (mapped_info s) (total_mapped_region s)
    (pid s) (status s) (parent s) (queue_next s) (tick_count s) (pfiles s).
Definition set_user_heap (x : process_heap_manager) (s : process) : process :=
  Process (kstack s) (pagetable s) (trapframe s) x (mapped_info s) (total_mapped_region s)
    (pid s) (status s) (parent s) (queue_next s) (tick_count s) (pfiles s).
Definition set_mapped_info (x : Z) (s : process) : process :=
  Process (kstack s) (pagetable s) (trapframe s) (user_heap s) x (total_mapped_region s) (pid s)
    (status s) (parent s) (queue_next s) (tick_count s) (pfiles s).
Definition set_total_mapped_region (x : Z) (s : process) : process :=
  Process (kstack s) (pagetable s) (trapframe s) (user_heap s) (mapped_info s) x (pid s)
    (status s) (parent s) (queue_next s) (tick_count s) (pfiles s).
Definition set_pid (x : Z) (s : process) : process :=
  Process (kstack s) (pagetable s) (trapframe s) (user_heap s) (mapped_info s)
    (total_mapped_region s) x (status s) (parent s) (queue_next s) (tick_count s) (pfiles s).
Definition set_status (x : proc_status) (s : process) : process :=
  Process (kstack s) (pagetable s) (trapframe s) (user_heap s) (mapped_info s)
    (total_mapped_region s) (pid s) x (parent s) (queue_next s) (tick_count s) (pfiles s).
Definition set_parent (x : option Z) (s : process) : process :=
  Process (kstack s) (pagetable s) (trapframe s) (user_heap s) (mapped_info s)
    (total_mapped_region s) (pid s) (status s) x (queue_next s) (tick_count s) (pfiles s).
Definition set_queue_next (x : option Z) (s : process) : process :=
  Process (kstack s) (pagetable s) (trapframe s) (user_heap s) (mapped_info s)
    (total_mapped_region s) (pid s) (status s) (parent s) x (tick_count s) (pfiles s).
Definition set_tick_count (x : Z) (s : process) : process :=
  Process (kstack s) (pagetable s) (trapframe s) (user_heap s) (mapped_info s)
    (total_mapped_region s) (pid s) (status s) (parent s) (queue_next s) x (pfiles s).
Definition set_pfiles (x : Z) (s : process) : process :=
  Process (kstack s) (pagetable s) (trapframe s) (user_heap s) (mapped_info s)
    (total_mapped_region s) (pid s) (status s) (parent s) (queue_next s) (tick_count s) x.

(** What [init_proc_pool]'s memset leaves in a slot, with its pid. *)
Definition blank_process (i : Z) : process :=
  Process 0 0 0 (HeapMan 0 0 0 0) 0 0 i FREE None None 0 0.

(** ** Open files of a process (kernel/vfs.h, kernel/proc_file.h) *)

Record file : Type := File {
  f_status : Z;
  readable : Z;
  writable : Z;
  offset : Z;
  f_dentry : Z
}.

Definition set_f_status (x : Z) (s : file) : file :=
  File x (readable s) (writable s) (offset s) (f_dentry s).
Definition set_readable (x : Z) (s : file) : file :=
  File (f_status s) x (writable s) (offset s) (f_dentry s).
Definition set_writable (x : Z) (s : file) : file :=
  File (f_status s) (readable s) x (offset s) (f_dentry s).
Definition set_offset (x : Z) (s : file) : file :=
  File (f_status s) (readable s) (writable s) x (f_dentry s).
Definition set_f_dentry (x : Z) (s : file) : file :=
  File (f_status s) (readable s) (writable s) (offset s) x.

Record proc_file_management : Type := ProcFiles {
  cwd : Z;
  opened_files : list file;
  nfiles : Z
}.

Definition set_cwd (x : Z) (s : proc_file_management) : proc_file_management :=
  ProcFiles x (opened_files s) (nfiles s).
Definition set_opened_files (x : list file) (s : proc_file_management) : proc_file_management :=
  ProcFiles (cwd s) x (nfiles s).
Definition set_nfiles (x : Z) (s : proc_file_management) : proc_file_management :=
  ProcFiles (cwd s) (opened_files s) x.

(** ** A semaphore (kernel/semaphore.h) *)

Inductive semaphore_status : Type := SEM_FREE | SEM_USED.

#[export] Instance semaphore_status_eq_dec : EqDecision semaphore_status.
Proof. solve_decision. Defined.

Record semaphore : Type := Semaphore {
  sem_id : Z;
  value : Z;
  sem_status : semaphore_status;
  proc_queue_head : option Z
}.

Definition set_sem_id (x : Z) (s : semaphore) : semaphore :=
  Semaphore x (value s) (sem_status s) (proc_queue_head s).
Definition set_value (x : Z) (s : semaphore) : semaphore :=
  Semaphore (sem_id s) x (sem_status s) (proc_queue_head s).
Definition set_sem_status (x : semaphore_status) (s : semaphore) : semaphore :=
  Semaphore (sem_id s) (value s) x (proc_queue_head s).
Definition set_proc_queue_head (x : option Z) (s : semaphore) : semaphore :=
  Semaphore (sem_id s) (value s) (sem_status s) x.

(** ** Control and status registers of a hart that the code touches *)

Record csr : Type := Csr {
  satp : Z;
  sstatus : Z;
  sepc : Z;
  stvec : Z;
  scause : Z;
  stval : Z;
  sip : Z
}.

Definition set_satp (x : Z) (s : csr) : csr :=
  Csr x (sstatus s) (sepc s) (stvec s) (scause s) (stval s) (sip s).
Definition set_sstatus (x : Z) (s : csr) : csr :=
  Csr (satp s) x (sepc s) (stvec s) (scause s) (stval s) (sip s).
Definition set_sepc (x : Z) (s : csr) : csr :=
  Csr (satp s) (sstatus s) x (stvec s) (scause s) (stval s) (sip s).
Definition set_stvec (x : Z) (s : csr) : csr :=
  Csr (satp s) (sstatus s) (sepc s) x (scause s) (stval s) (sip s).
Definition set_scause (x : Z) (s : csr) : csr :=
  Csr (satp s) (sstatus s) (sepc s) (stvec s) x (stval s) (sip s).
Definition set_stval (x : Z) (s : csr) : csr :=
  Csr (satp s) (sstatus s) (sepc s) (stvec s) (scause s) x (sip s).
Definition set_sip (x : Z) (s : csr) : csr :=
  Csr (satp s) (sstatus s) (sepc s) (stvec s) (scause s) (stval s) x.

(** ** The kernel

    Arrays indexed by hart or slot are maps from the index; [current],
    [ready_queue_head] and [block_queue_head] miss the entries that are NULL.
    [file_tables] holds the [proc_file_management] structures by page address. *)

Record kernel : Type := Kernel {
  k_vm : vm;
  procs : gmap Z process;
  current : gmap Z Z;
  ready_queue_head : gmap Z Z;
  block_queue_head : gmap Z Z;
  g_ready_queue_lock : gmap Z Z;
  g_proc_alloc_lock : Z;
  g_proc_reserved : gmap Z Z;
  exit_counter : Z;
  g_should_shutdown : Z;
  semaphores : gmap Z semaphore;
  g_next_semaphore_id : Z;
  g_semaphore_lock : Z;
  g_semaphore_pool_lock : Z;
  g_ticks : Z;
  vfs_root_dentry : Z;
  file_tables : gmap Z proc_file_management;
  csrs : gmap Z csr
}.

Definition set_k_vm (x : vm) (s : kernel) : kernel :=
  Kernel x (procs s) (current s) (ready_queue_head s) (block_queue_head s)
    (g_ready_queue_lock s) (g_proc_alloc_lock s) (g_proc_reserved s) (exit_counter s)
    (g_should_shutdown s) (semaphores s) (g_next_semaphore_id s) (g_semaphore_lock s)
    (g_semaphore_pool_lock s) (g_ticks s) (vfs_root_dentry s) (file_tables s) (csrs s).
Definition set_procs (x : gmap Z process) (s : kernel) : kernel :=
  Kernel (k_vm s) x (current s) (ready_queue_head s) (block_queue_head s) (g_ready_queue_lock s)
    (g_proc_alloc_lock s) (g_proc_reserved s) (exit_counter s) (g_should_shutdown s)
    (semaphores s) (g_next_semaphore_id s) (g_semaphore_lock s) (g_semaphore_pool_lock s)
    (g_ticks s) (vfs_root_dentry s) (file_tables s) (csrs s).
Definition set_current (x : gmap Z Z) (s : kernel) : kernel :=
  Kernel (k_vm s) (procs s) x (ready_queue_head s) (block_queue_head s) (g_ready_queue_lock s)
    (g_proc_alloc_lock s) (g_proc_reserved s) (exit_counter s) (g_should_shutdown s)
    (semaphores s) (g_next_semaphore_id s) (g_semaphore_lock s) (g_semaphore_pool_lock s)
    (g_ticks s) (vfs_root_dentry s) (file_tables s) (csrs s).
Definition set_ready_queue_head (x : gmap Z Z) (s : kernel) : kernel :=
  Kernel (k_vm s) (procs s) (current s) x (block_queue_head s) (g_ready_queue_lock s)
    (g_proc_alloc_lock s) (g_proc_reserved s) (exit_counter s) (g_should_shutdown s)
    (semaphores s) (g_next_semaphore_id s) (g_semaphore_lock s) (g_semaphore_pool_lock s)
    (g_ticks s) (vfs_root_dentry s) (file_tables s) (csrs s).
Definition set_block_queue_head (x : gmap Z Z) (s : kernel) : kernel :=
  Kernel (k_vm s) (procs s) (current s) (ready_queue_head s) x (g_ready_queue_lock s)
    (g_proc_alloc_lock s) (g_proc_reserved s) (exit_counter s) (g_should_shutdown s)
    (semaphores s) (g_next_semaphore_id s) (g_semaphore_lock s) (g_semaphore_pool_lock s)
    (g_ticks s) (vfs_root_dentry s) (file_tables s) (csrs s).
Definition set_g_ready_queue_lock (x : gmap Z Z) (s : kernel) : kernel :=
  Kernel (k_vm s) (procs s) (current s) (ready_queue_head s) (block_queue_head s) x
    (g_proc_alloc_lock s) (g_proc_reserved s) (exit_counter s) (g_should_shutdown s)
    (semaphores s) (g_next_semaphore_id s) (g_semaphore_lock s) (g_semaphore_pool_lock s)
    (g_ticks s) (vfs_root_dentry s) (file_tables s) (csrs s).
Definition set_g_proc_alloc_lock (x : Z) (s : kernel) : kernel :=
  Kernel (k_vm s) (procs s) (current s) (ready_queue_head s) (block_queue_head s)
    (g_ready_queue_lock s) x (g_proc_reserved s) (exit_counter s) (g_should_shutdown s)
    (semaphores s) (g_next_semaphore_id s) (g_semaphore_lock s) (g_semaphore_pool_lock s)
    (g_ticks s) (vfs_root_dentry s) (file_tables s) (csrs s).
Definition set_g_proc_reserved (x : gmap Z Z) (s : kernel) : kernel :=
  Kernel (k_vm s) (procs s) (current s) (ready_queue_head s) (block_queue_head s)
    (g_ready_queue_lock s) (g_proc_alloc_lock s) x (exit_counter s) (g_should_shutdown s)
    (semaphores s) (g_next_semaphore_id s) (g_semaphore_lock s) (g_semaphore_pool_lock s)
    (g_ticks s) (vfs_root_dentry s) (file_tables s) (csrs s).
Definition set_exit_counter (x : Z) (s : kernel) : kernel :=
  Kernel (k_vm s) (procs s) (current s) (ready_queue_head s) (block_queue_head s)
    (g_ready_queue_lock s) (g_proc_alloc_lock s) (g_proc_reserved s) x (g_should_shutdown s)
    (semaphores s) (g_next_semaphore_id s) (g_semaphore_lock s) (g_semaphore_pool_lock s)
    (g_ticks s) (vfs_root_dentry s) (file_tables s) (csrs s).
Definition set_g_should_shutdown (x : Z) (s : kernel) : kernel :=
  Kernel (k_vm s) (procs s) (current s) (ready_queue_head s) (block_queue_head s)
    (g_ready_queue_lock s) (g_proc_alloc_lock s) (g_proc_reserved s) (exit_counter s) x
    (semaphores s) (g_next_semaphore_id s) (g_semaphore_lock s) (g_semaphore_pool_lock s)
    (g_ticks s) (vfs_root_dentry s) (file_tables s) (csrs s).
Definition set_semaphores (x : gmap Z semaphore) (s : kernel) : kernel :=
  Kernel (k_vm s) (procs s) (current s) (ready_queue_head s) (block_queue_head s)
    (g_ready_queue_lock s) (g_proc_alloc_lock s) (g_proc_reserved s) (exit_counter s)
    (g_should_shutdown s) x (g_next_semaphore_id s) (g_semaphore_lock s)
    (g_semaphore_pool_lock s) (g_ticks s) (vfs_root_dentry s) (file_tables s) (csrs s).
Definition set_g_next_semaphore_id (x : Z) (s : kernel) : kernel :=
  Kernel (k_vm s) (procs s) (current s) (ready_queue_head s) (block_queue_head s)
    (g_ready_queue_lock s) (g_proc_alloc_lock s) (g_proc_reserved s) (exit_counter s)
    (g_should_shutdown s) (semaphores s) x (g_semaphore_lock s) (g_semaphore_pool_lock s)
    (g_ticks s) (vfs_root_dentry s) (file_tables s) (csrs s).
Definition set_g_semaphore_lock (x : Z) (s : kernel) : kernel :=
  Kernel (k_vm s) (procs s) (current s) (ready_queue_head s) (block_queue_head s)
    (g_ready_queue_lock s) (g_proc_alloc_lock s) (g_proc_reserved s) (exit_counter s)
    (g_should_shutdown s) (semaphores s) (g_next_semaphore_id s) x (g_semaphore_pool_lock s)
    (g_ticks s) (vfs_root_dentry s) (file_tables s) (csrs s).
Definition set_g_semaphore_pool_lock (x : Z) (s : kernel) : kernel :=
  Kernel (k_vm s) (procs s) (current s) (ready_queue_head s) (block_queue_head s)
    (g_ready_queue_lock s) (g_proc_alloc_lock s) (g_proc_reserved s) (exit_counter s)
    (g_should_shutdown s) (semaphores s) (g_next_semaphore_id s) (g_semaphore_lock s) x
    (g_ticks s) (vfs_root_dentry s) (file_tables s) (csrs s).
Definition set_g_ticks (x : Z) (s : kernel) : kernel :=
  Kernel (k_vm s) (procs s) (current s) (ready_queue_head s) (block_queue_head s)
    (g_ready_queue_lock s) (g_proc_alloc_lock s) (g_proc_reserved s) (exit_counter s)
    (g_should_shutdown s) (semaphores s) (g_next_semaphore_id s) (g_semaphore_lock s)
    (g_semaphore_pool_lock s) x (vfs_root_dentry s) (file_tables s) (csrs s).
Definition set_vfs_root_dentry (x : Z) (s : kernel) : kernel :=
  Kernel (k_vm s) (procs s) (current s) (ready_queue_head s) (block_queue_head s)
    (g_ready_queue_lock s) (g_proc_alloc_lock s) (g_proc_reserved s) (exit_counter s)
    (g_should_shutdown s) (semaphores s) (g_next_semaphore_id s) (g_semaphore_lock s)
    (g_semaphore_pool_lock s) (g_ticks s) x (file_tables s) (csrs s).
Definition set_file_tables (x : gmap Z proc_file_management) (s : kernel) : kernel :=
  Kernel (k_vm s) (procs s) (current s) (ready_queue_head s) (block_queue_head s)
    (g_ready_queue_lock s) (g_proc_alloc_lock s) (g_proc_reserved s) (exit_counter s)
    (g_should_shutdown s) (semaphores s) (g_next_semaphore_id s) (g_semaphore_lock s)
    (g_semaphore_pool_lock s) (g_ticks s) (vfs_root_dentry s) x (csrs s).
Definition set_csrs (x : gmap Z csr) (s : kernel) : kernel :=
  Kernel (k_vm s) (procs s) (current s) (ready_queue_head s) (block_queue_head s)
    (g_ready_queue_lock s) (g_proc_alloc_lock s) (g_proc_reserved s) (exit_counter s)
    (g_should_shutdown s) (semaphores s) (g_next_semaphore_id s) (g_semaphore_lock s)
    (g_semaphore_pool_lock s) (g_ticks s) (vfs_root_dentry s) (file_tables s) x.

Definition k_pmm (s : kernel) : pmm := vm_pmm (k_vm s).
Definition pmmL : lens kernel pmm :=
  Lens k_pmm (fun p s => set_k_vm (Vm p (g_kernel_pagetable (k_vm s))) s).
Definition proc_alloc_lock : lens kernel Z := Lens g_proc_alloc_lock set_g_proc_alloc_lock.
Definition semaphore_lock : lens kernel Z := Lens g_semaphore_lock set_g_semaphore_lock.
Definition semaphore_pool_lock : lens kernel Z :=
  Lens g_semaphore_pool_lock set_g_semaphore_pool_lock.
Definition ready_queue_lock (h : Z) : lens kernel Z :=
  Lens (fun s => default 0 (g_ready_queue_lock s !! h))
    (fun x s => set_g_ready_queue_lock (<[h := x]> (g_ready_queue_lock s)) s).

(** ** Accesses *)

(** [procs[i]] and [p->field]: an index outside the array or a NULL pointer is
    an undefined access. *)
Definition get_proc (i : Z) : M kernel process :=
  let* ps := gets procs in of_option (ps !! i).
Definition upd_proc (i : Z) (f : process -> process) : M kernel unit :=
  let* p := get_proc i in
  modify (fun s => set_procs (<[i := f p]> (procs s)) s).

(** [assert(hartid < NCPU)] and [current[hartid]]. *)
Definition assert_hart (hartid : Z) : M kernel unit := assert (hartid <? NCPU).
Definition get_current (hartid : Z) : M kernel (option Z) := gets (fun s => current s !! hartid).
(** [current[hartid]->...]: dereferences the pointer. *)
Definition cur (hartid : Z) : M kernel Z :=
  let* c := get_current hartid in of_option c.

(** Memory accesses of kernel code, of 8, 4 and [n] bytes. *)
Definition kread64 (a : Z) : M kernel Z := zoom pmmL (read64 a).
Definition kwrite64 (a v : Z) : M kernel unit := zoom pmmL (write64 a v).
Definition read32 (a : Z) : M pmm Z := fun s =>
  if in_dram a 4 then Ok (load32 (mem s) a) s else Fault.
Definition write32 (a v : Z) : M pmm unit := fun s =>
  if in_dram a 4 then Ok tt (set_mem (store32 (mem s) a v) s) else Fault.
Definition kread32 (a : Z) : M kernel Z := zoom pmmL (read32 a).
Definition kwrite32 (a v : Z) : M kernel unit := zoom pmmL (write32 a v).

(** [mapped_info[i]] of a process: the structure [mapped_region]. *)
Definition region_va (info i : Z) : Z := info + 16 * i.
Definition region_npages (info i : Z) : Z := info + 16 * i + 8.
Definition region_type (info i : Z) : Z := info + 16 * i + 12.

(** [read_csr] and [write_csr] on hart [h]. *)
Definition get_csr (h : Z) : M kernel csr :=
  let* cs := gets csrs in of_option (cs !! h).
Definition upd_csr (h : Z) (f : csr -> csr) : M kernel unit :=
  let* c := get_csr h in
  modify (fun s => set_csrs (<[h := f c]> (csrs s)) s).

(** Addresses the linker script and the assembly files define. *)
Class Symbols : Type := {
  trap_sec_start : Z;
  smode_trap_vector : Z;
  smode_trap_handler_entry : Z
}.
