(* ===== verification/Assembly.v ===== *)
(** * Entry code in assembly (mentry.S, mtrap_vector.S, strap_vector.S, load_store.S)

    The instructions that the assembly files use, as functions on the registers of
    a hart and the memory, and the four routines as lists of instructions.  A trap
    frame is at the same address in the page table of the kernel and in that of the
    process, so addresses are those of the physical memory.  The theorems show what
    a trap keeps of the interrupted program. *)

From S2P Require Import Prelude Mem Kernel.
From stdpp Require Import base gmap list fin_maps.
From Stdlib Require Import ZArith Lia Bool.

Set Default Goal Selector "!".
Open Scope Z_scope.

(** ** Registers and instructions *)

Module Reg.

Inductive reg : Type :=
| zero | ra | sp | gp | tp | t0 | t1 | t2 | s0 | s1
| a0 | a1 | a2 | a3 | a4 | a5 | a6 | a7
| s2 | s3 | s4 | s5 | s6 | s7 | s8 | s9 | s10 | s11
| t3 | t4 | t5 | t6.

#[export] Instance reg_eq_dec : EqDecision reg.
Proof. solve_decision. Defined.

End Reg.
Import Reg.

Module Csr.

Inductive csr : Type := mscratch | sscratch | satp | mhartid.

#[export] Instance csr_eq_dec : EqDecision csr.
Proof. solve_decision. Defined.

End Csr.
Import Csr.

(** What the code of this file sees of a hart, and the memory. *)
Record cpu : Type := Cpu { xregs : reg -> Z; ctrl : csr -> Z; ram : bytes }.

(** The register [zero] is not changed by a write. *)
Definition set_reg (r : reg) (v : Z) (f : reg -> Z) : reg -> Z := fun x =>
  if decide (x = r /\ r <> zero) then v else f x.
Definition set_csr (r : csr) (v : Z) (f : csr -> Z) : csr -> Z := fun x =>
  if decide (x = r) then v else f x.

(** Functions of the kernel that are called by name. *)
Inductive csym : Type := m_start | handle_mtrap.

Inductive instr : Type :=
| sd (rs2 : reg) (off : Z) (rs1 : reg)
| ld (rd : reg) (off : Z) (rs1 : reg)
| addi (rd rs : reg) (imm : Z)
| add (rd rs1 rs2 : reg)
| mul (rd rs1 rs2 : reg)
| li (rd : reg) (imm : Z)
| la (rd : reg) (symbol : Z)
| csrrw (rd : reg) (c : csr) (rs : reg)
| csrr (rd : reg) (c : csr)
| csrw (c : csr) (rs : reg)
| sfence_vma
| jr (rs : reg)
| call (f : csym)
| mret
| sret.

(** Where a straight run of instructions ends. *)
Inductive exit_to : Type := Jump (a : Z) | Call (f : csym) | Mret | Sret | End.

Definition leaves (i : instr) (c : cpu) : option exit_to :=
  match i with
  | jr rs => Some (Jump (xregs c rs))
  | call f => Some (Call f)
  | mret => Some Mret
  | sret => Some Sret
  | _ => None
  end.

Definition step (i : instr) (c : cpu) : cpu :=
  let x := xregs c in
  let wr r v := Cpu (set_reg r v x) (ctrl c) (ram c) in
  match i with
  | sd rs2 off rs1 => Cpu x (ctrl c) (store64 (ram c) (u64 (x rs1 + off)) (x rs2))
  | ld rd off rs1 => wr rd (load64 (ram c) (u64 (x rs1 + off)))
  | addi rd rs imm => wr rd (u64 (x rs + imm))
  | add rd rs1 rs2 => wr rd (u64 (x rs1 + x rs2))
  | mul rd rs1 rs2 => wr rd (u64 (x rs1 * x rs2))
  | li rd imm => wr rd (u64 imm)
  | la rd symbol => wr rd (u64 symbol)
  | csrrw rd k rs => Cpu (set_reg rd (ctrl c k) x) (set_csr k (x rs) (ctrl c)) (ram c)
  | csrr rd k => wr rd (ctrl c k)
  | csrw k rs => Cpu x (set_csr k (x rs) (ctrl c)) (ram c)
  | sfence_vma | jr _ | call _ | mret | sret => c
  end.

(** Runs up to the first instruction that leaves; the instructions after it are
    those that a call returns to. *)
Fixpoint run (p : list instr) (c : cpu) : exit_to * list instr * cpu :=
  match p with
  | [] => (End, [], c)
  | i :: p =>
      match leaves i c with
      | Some e => (e, p, c)
      | None => run p (step i c)
      end
  end.

(** ** The code *)

Definition store_all_registers : list instr :=
  [ sd ra 0 t6; sd sp 8 t6; sd gp 16 t6; sd tp 24 t6; sd t0 32 t6; sd t1 40 t6; sd t2 48 t6;
    sd s0 56 t6; sd s1 64 t6; sd a0 72 t6; sd a1 80 t6; sd a2 88 t6; sd a3 96 t6; sd a4 104 t6;
    sd a5 112 t6; sd a6 120 t6; sd a7 128 t6; sd s2 136 t6; sd s3 144 t6; sd s4 152 t6;
    sd s5 160 t6; sd s6 168 t6; sd s7 176 t6; sd s8 184 t6; sd s9 192 t6; sd s10 200 t6;
    sd s11 208 t6; sd t3 216 t6; sd t4 224 t6; sd t5 232 t6; sd t6 240 t6 ].

Definition restore_all_registers : list instr :=
  [ ld ra 0 t6; ld sp 8 t6; ld gp 16 t6; ld tp 24 t6; ld t0 32 t6; ld t1 40 t6; ld t2 48 t6;
    ld s0 56 t6; ld s1 64 t6; ld a0 72 t6; ld a1 80 t6; ld a2 88 t6; ld a3 96 t6; ld a4 104 t6;
    ld a5 112 t6; ld a6 120 t6; ld a7 128 t6; ld s2 136 t6; ld s3 144 t6; ld s4 152 t6;
    ld s5 160 t6; ld s6 168 t6; ld s7 176 t6; ld s8 184 t6; ld s9 192 t6; ld s10 200 t6;
    ld s11 208 t6; ld t3 216 t6; ld t4 224 t6; ld t5 232 t6; ld t6 240 t6 ].

Definition smode_trap_vector : list instr :=
  [ csrrw a0 sscratch a0; addi t6 a0 0 ] ++
  store_all_registers ++
  [ csrr t0 sscratch; sd t0 72 a0;
    ld sp 248 a0; ld t0 256 a0; ld t1 272 a0; csrw satp t1; sfence_vma; jr t0 ].

Definition return_to_user : list instr :=
  [ csrw satp a1; sfence_vma; csrw sscratch a0; addi t6 a0 0 ] ++
  restore_all_registers ++
  [ sret ].

(** [stack0] is the address of the array of that name in minit.c. *)
Definition mtrapvec (stack0 : Z) : list instr :=
  [ csrrw a0 mscratch a0; addi t6 a0 0 ] ++
  store_all_registers ++
  [ csrr t0 mscratch; sd t0 72 a0;
    la sp stack0; li a3 4096; csrr a4 mhartid; addi a4 a4 1; mul a3 a3 a4; add sp sp a3;
    csrw mscratch a0; call handle_mtrap; csrr t6 mscratch ] ++
  restore_all_registers ++
  [ mret ].

Definition _mentry (stack0 : Z) : list instr :=
  [ csrw mscratch zero; la sp stack0; li a3 4096; csrr a4 mhartid; addi a4 a4 1;
    mul a3 a3 a4; add sp sp a3; call m_start ].

(** The structure [riscv_regs]: each register and its offset. *)
Definition riscv_regs : list (reg * Z) :=
  [ (ra, 0); (sp, 8); (gp, 16); (tp, 24); (t0, 32); (t1, 40); (t2, 48); (s0, 56); (s1, 64);
    (a0, 72); (a1, 80); (a2, 88); (a3, 96); (a4, 104); (a5, 112); (a6, 120); (a7, 128);
    (s2, 136); (s3, 144); (s4, 152); (s5, 160); (s6, 168); (s7, 176); (s8, 184); (s9, 192);
    (s10, 200); (s11, 208); (t3, 216); (t4, 224); (t5, 232); (t6, 240) ].

(** ** Saving and restoring a list of registers *)

Definition saved (f : reg -> Z) (base : Z) (l : list (reg * Z)) (m : bytes) : bytes :=
  foldl (fun m '(r, o) => store64 m (u64 (base + o)) (f r)) m l.
Definition restored (m : bytes) (base : Z) (l : list (reg * Z)) (f : reg -> Z) : reg -> Z :=
  foldl (fun f '(r, o) => set_reg r (load64 m (u64 (base + o))) f) f l.

(** Slots of eight bytes without gaps. *)
Fixpoint slots_from (o : Z) (l : list (reg * Z)) : Prop :=
  match l with
  | [] => True
  | (_, x) :: l => x = o /\ slots_from (o + 8) l
  end.

Lemma set_reg_eq r v f : r <> zero -> set_reg r v f r = v.
Proof. intros. unfold set_reg. by rewrite decide_True. Qed.

Lemma set_reg_ne r x v f : x <> r -> set_reg r v f x = f x.
Proof. intros. unfold set_reg. by rewrite decide_False by naive_solver. Qed.

Lemma run_stores l p : forall c,
  run (((fun '(r, o) => sd r o t6) <$> l) ++ p) c =
  run p (Cpu (xregs c) (ctrl c) (saved (xregs c) (xregs c t6) l (ram c))).
Proof. induction l as [|[r o] l IH]; intros c; [by destruct c|]. cbn. by rewrite IH. Qed.

Lemma run_loads l p : forall c, t6 ∉ l.*1 ->
  run (((fun '(r, o) => ld r o t6) <$> l) ++ p) c =
  run p (Cpu (restored (ram c) (xregs c t6) l (xregs c)) (ctrl c) (ram c)).
Proof.
  induction l as [|[r o] l IH]; intros c Hn; [by destruct c|]. cbn in *. apply not_elem_of_cons in Hn as [Hr Hn].
  rewrite IH by done. cbn. by rewrite set_reg_ne by done.
Qed.

Section Slots.
  Context (base : Z) (f : reg -> Z).

Lemma saved_outside l : forall o m a, slots_from o l ->
  0 <= base + o -> base + o + 8 * Z.of_nat (length l) <= 2 ^ 64 ->
  a < base + o \/ base + o + 8 * Z.of_nat (length l) <= a ->
  load8 (saved f base l m) a = load8 m a.
Proof.
  induction l as [|[r x] l IH]; intros o m a Hs Ho Hm Ha; [done|]. destruct Hs as [-> Hs]. cbn [length] in *. cbn.
  etrans; [apply (IH (o + 8)); [done|lia..]|]. rewrite u64_small by lia. apply load8_store_le_ne. lia.
Qed.

Lemma saved_slot l : forall o m r x, slots_from o l ->
  0 <= base + o -> base + o + 8 * Z.of_nat (length l) <= 2 ^ 64 -> (r, x) ∈ l ->
  load64 (saved f base l m) (base + x) = u64 (f r).
Proof.
  induction l as [|[r' x'] l IH]; intros o m r x Hs Ho Hm Hin; [by apply elem_of_nil in Hin|].
  destruct Hs as [-> Hs]. cbn [length] in *. cbn. apply elem_of_cons in Hin as [[= -> ->]|Hin].
  - rewrite <- (load64_store64_eq m (base + o) (f r')). apply load_le_ext. intros b Hb.
    rewrite (u64_small (base + o)) by lia. apply (saved_outside l (o + 8)); [done|lia..].
  - apply (IH (o + 8)); [done|lia|lia|done].
Qed.

Lemma restored_other m l : forall g r, r ∉ l.*1 -> restored m base l g r = g r.
Proof.
  induction l as [|[r' x] l IH]; intros g r Hr; [done|]. cbn in *. apply not_elem_of_cons in Hr as [Hne Hr].
  etrans; [by apply IH|]. by apply set_reg_ne.
Qed.

Lemma restored_slot m l : forall g r x, NoDup l.*1 -> (r, x) ∈ l -> r <> zero ->
  restored m base l g r = load64 m (u64 (base + x)).
Proof.
  induction l as [|[r' x'] l IH]; intros g r x Hnd Hin Hr; [by apply elem_of_nil in Hin|].
  cbn in Hnd. apply NoDup_cons in Hnd as [Hnot Hnd]. apply elem_of_cons in Hin as [[= -> ->]|Hin].
  - cbn. etrans; [by apply restored_other|]. by apply set_reg_eq.
  - by apply IH.
Qed.

End Slots.

(** ** Trap frames *)

Definition word_regs (f : reg -> Z) : Prop := f zero = 0 /\ forall r, 0 <= f r < 2 ^ 64.
Definition frame_ok (base : Z) : Prop := 0 <= base /\ base + SIZEOF_TRAPFRAME <= 2 ^ 64.

(** The frame at [base] holds the registers [f]. *)
Definition frame_holds (m : bytes) (base : Z) (f : reg -> Z) : Prop :=
  forall r o, (r, o) ∈ riscv_regs -> load64 m (base + o) = f r.

(** A fact about each of the registers. *)
Ltac all_regs := unfold riscv_regs; repeat first [apply Forall_nil_2 | apply Forall_cons_2].

Lemma riscv_regs_slots : slots_from 0 riscv_regs.
Proof. by repeat split. Qed.

Lemma riscv_regs_NoDup : NoDup riscv_regs.*1.
Proof. apply (bool_decide_unpack _). by vm_compute. Qed.

Lemma riscv_regs_all r : r <> zero -> exists o, (r, o) ∈ riscv_regs /\ 0 <= o <= 240.
Proof.
  intros Hr. destruct (list_elem_of_fmap fst riscv_regs r) as [H _].
  assert (r ∈ riscv_regs.*1) as Hin by (apply (bool_decide_unpack _); by destruct r).
  apply H in Hin as ([r' o] & -> & Hin). exists o. split; [done|].
  assert (Forall (fun x => 0 <= x.2 <= 240) riscv_regs) as Ha by (all_regs; cbn; lia).
  by apply (proj1 (Forall_forall _ _) Ha _ Hin).
Qed.

(** The slot of [a0] and the others do not overlap. *)
Lemma riscv_regs_a0 r o : (r, o) ∈ riscv_regs -> r = a0 /\ o = 72 \/ r <> a0 /\ (o + 8 <= 72 \/ 80 <= o).
Proof.
  intros Hin. assert (Forall (fun x => x.1 = a0 /\ x.2 = 72 \/ x.1 <> a0 /\ (x.2 + 8 <= 72 \/ 80 <= x.2)) riscv_regs) as Ha.
  { all_regs; first [by left | right; split; [done|cbn; lia]]. }
  by apply (proj1 (Forall_forall _ _) Ha _ Hin).
Qed.

Lemma riscv_regs_range r o : (r, o) ∈ riscv_regs -> r <> zero /\ 0 <= o <= 240.
Proof.
  intros Hin. assert (Forall (fun x => x.1 <> zero /\ 0 <= x.2 <= 240) riscv_regs) as Ha.
  { all_regs; (split; [done|cbn; lia]). }
  by apply (proj1 (Forall_forall _ _) Ha _ Hin).
Qed.

(** What both vectors begin with: the frame is where [k] points. *)
Lemma entry_saves k p c : word_regs (xregs c) -> frame_ok (ctrl c k) ->
  exists c', run ([ csrrw a0 k a0; addi t6 a0 0 ] ++ store_all_registers ++ [ csrr t0 k; sd t0 72 a0 ] ++ p) c = run p c' /\
    frame_holds (ram c') (ctrl c k) (set_reg t6 (ctrl c k) (xregs c)) /\
    (forall a, a < ctrl c k \/ ctrl c k + 248 <= a -> load8 (ram c') a = load8 (ram c) a) /\
    ctrl c' = set_csr k (xregs c a0) (ctrl c) /\ xregs c' a0 = ctrl c k /\
    forall r, r <> a0 -> r <> t6 -> r <> t0 -> xregs c' r = xregs c r.
Proof.
  intros [_ Hw] [Hb Hm]. unfold SIZEOF_TRAPFRAME in Hm. set (base := ctrl c k) in *.
  change store_all_registers with ((fun '(r, o) => sd r o t6) <$> riscv_regs).
  cbn [app run leaves]. rewrite run_stores.
  set (c1 := step (addi t6 a0 0) (step (csrrw a0 k a0) c)). set (g := xregs c1).
  assert (forall r, g r = if decide (r = t6) then base else if decide (r = a0) then base else xregs c r) as Hg.
  { intros r. subst g c1. cbn. rewrite (set_reg_eq a0), Z.add_0_r by done. fold base.
    rewrite u64_small by lia. unfold set_reg. by destruct r. }
  rewrite (Hg t6), decide_True by done. cbn [run leaves step xregs ctrl ram]. fold g.
  rewrite (set_reg_ne t0 a0), (Hg a0), decide_False, decide_True by done.
  change (ram c1) with (ram c). change (ctrl c1) with (set_csr k (xregs c a0) (ctrl c)).
  eexists. split; [reflexivity|]. cbn [ram ctrl xregs].
  rewrite (u64_small (base + 72)) by lia. unfold set_csr at 1. rewrite decide_True by done.
  rewrite set_reg_eq by done. split; [|split; [|split; [done|split]]].
  - intros r o Hin. destruct (riscv_regs_a0 r o Hin) as [[-> ->]|[Hr Ho]].
    + rewrite load64_store64_eq, set_reg_ne by done. by apply u64_small.
    + rewrite load64_store64_ne by lia.
      rewrite (saved_slot base g riscv_regs 0 (ram c) r o riscv_regs_slots) by (done || (cbn; lia)).
      rewrite Hg. destruct (decide (r = t6)) as [->|]; [rewrite set_reg_eq by done; apply u64_small; lia|].
      rewrite decide_False, set_reg_ne by done. by apply u64_small.
  - intros a Ha. rewrite load8_store_le_ne by (cbn; lia).
    apply (saved_outside base g riscv_regs 0 (ram c) a riscv_regs_slots); cbn; lia.
  - rewrite set_reg_ne by done. by rewrite Hg.
  - intros r H1 H2 H3. rewrite set_reg_ne by done. rewrite Hg. by rewrite !decide_False by done.
Qed.

(** What both returns end with. *)
Lemma exit_restores p c f : frame_ok (xregs c t6) -> frame_holds (ram c) (xregs c t6) f -> f zero = xregs c zero ->
  exists c', run (restore_all_registers ++ p) c = run p c' /\
    ctrl c' = ctrl c /\ ram c' = ram c /\ forall r, xregs c' r = f r.
Proof.
  intros [Hb Hm] Hf Hz. unfold SIZEOF_TRAPFRAME in Hm. set (l := take 30 riscv_regs).
  change (restore_all_registers ++ p) with (((fun '(r, o) => ld r o t6) <$> l) ++ ld t6 240 t6 :: p).
  assert (t6 ∉ l.*1) as Ht by (apply (bool_decide_unpack _); by vm_compute).
  rewrite run_loads by done. cbn [run leaves]. eexists. split; [reflexivity|]. cbn [step xregs ctrl ram].
  rewrite (restored_other _ (ram c) l (xregs c) t6) by done. split; [done|]. split; [done|]. intros r.
  destruct (decide (r = zero)) as [->|Hr].
  { rewrite set_reg_ne by done. rewrite restored_other; [done|]. apply (bool_decide_unpack _); by vm_compute. }
  destruct (riscv_regs_all r Hr) as (o & Hin & Ho). rewrite <- (Hf r o Hin).
  change riscv_regs with (l ++ [(t6, 240)]) in Hin. apply elem_of_app in Hin as [Hin|Hin].
  - rewrite set_reg_ne by (intros ->; apply Ht, list_elem_of_fmap; by exists (t6, o)).
    rewrite (restored_slot _ _ l _ r o) by (done || (apply (bool_decide_unpack _); by vm_compute)).
    f_equal. apply u64_small. lia.
  - apply list_elem_of_singleton in Hin as [= -> ->]. rewrite set_reg_eq by done. f_equal. apply u64_small. lia.
Qed.

(** ** Traps from user mode *)

(** The slots of the registers that are not in [X] are the same in both memories. *)
Definition same_slots (X : list reg) (base : Z) (m m' : bytes) : Prop :=
  forall r o, (r, o) ∈ riscv_regs -> r ∉ X -> load64 m' (base + o) = load64 m (base + o).

(** What the frame holds after the changes that [same_slots] allows. *)
Definition slot_value (m : bytes) (base : Z) (r : reg) : Z :=
  match list_find (fun x => x.1 = r) riscv_regs with
  | Some (_, (_, o)) => load64 m (base + o)
  | None => 0
  end.

Lemma slot_value_holds m base : frame_holds m base (slot_value m base).
Proof.
  intros r o Hin. unfold slot_value. destruct (list_find _ _) as [[i [r' o']]|] eqn:E.
  - apply list_find_Some in E as (E & Hr & _). cbn in Hr. subst r'. f_equal. f_equal.
    apply list_elem_of_lookup in Hin as [j Ej]. pose proof riscv_regs_NoDup as Hnd.
    assert (i = j) as ->; [|congruence].
    apply (NoDup_lookup riscv_regs.*1 _ _ r Hnd); rewrite list_lookup_fmap; [by rewrite E|by rewrite Ej].
  - apply list_find_None in E. apply (proj1 (Forall_forall _ _) E) in Hin. by cbn in Hin.
Qed.

Lemma slot_value_same X base m m' f r : frame_holds m base f -> same_slots X base m m' ->
  r <> zero -> r ∉ X -> slot_value m' base r = f r.
Proof.
  intros Hf Hs Hr HX. destruct (riscv_regs_all r Hr) as (o & Hin & _).
  by rewrite <- (slot_value_holds m' base r o Hin), (Hs r o Hin HX), (Hf r o Hin).
Qed.

(** The registers that the restore macro leaves, from the frame at [t6]. *)
Lemma restore_slots p c : frame_ok (xregs c t6) -> xregs c zero = 0 ->
  exists c', run (restore_all_registers ++ p) c = run p c' /\ ctrl c' = ctrl c /\ ram c' = ram c /\
    xregs c' zero = 0 /\ forall r, r <> zero -> xregs c' r = slot_value (ram c) (xregs c t6) r.
Proof.
  intros Hf Hz. destruct (exit_restores p c (fun r => if decide (r = zero) then 0 else slot_value (ram c) (xregs c t6) r))
    as (c' & E & Hc & Hm & Hx); [done| |done|].
  { intros r o Hin. rewrite decide_False by apply (riscv_regs_range r o Hin). by apply slot_value_holds. }
  exists c'. split_and!; try done. intros r Hr. by rewrite Hx, decide_False.
Qed.

Lemma return_registers c tf : frame_ok tf -> xregs c a0 = tf -> xregs c zero = 0 ->
  exists c', run return_to_user c = (Sret, [], c') /\
    ctrl c' satp = xregs c a1 /\ ctrl c' sscratch = tf /\ ram c' = ram c /\
    xregs c' zero = 0 /\ forall r, r <> zero -> xregs c' r = slot_value (ram c) tf r.
Proof.
  intros Hf Ha Hz. pose proof Hf as [Hb Hm]. unfold SIZEOF_TRAPFRAME in Hm.
  unfold return_to_user. cbn [app run leaves step xregs ctrl ram].
  set (c1 := Cpu _ _ _). assert (xregs c1 t6 = tf) as Ht.
  { subst c1. cbn. rewrite Ha, Z.add_0_r. apply u64_small. lia. }
  destruct (restore_slots [sret] c1) as (c' & E & Hc & Hr & Hz' & Hx); [by rewrite Ht|done|].
  exists c'. rewrite Ht in Hx. rewrite Hc, Hr. split_and!; try done.
Qed.

(** C6: a trap and the return to the process keep the registers of the user
    program.  On entry the vector continues in the handler, stack and page table that
    [switch_to] has put in the trap frame, with the user's [tp]; only the saved
    registers change in memory.  Whatever the kernel does until it calls
    [return_to_user], every register whose slot it has not changed is then what it was
    at the trap, and a register whose slot it has changed has the new value.  The
    exception is [t6]: the vector overwrites it before it is saved, and the program
    finds the address of its trap frame there. *)
Theorem user_trap_keeps_registers c : word_regs (xregs c) -> frame_ok (ctrl c sscratch) ->
  let tf := ctrl c sscratch in
  exists c1, run smode_trap_vector c = (Jump (load64 (ram c) (tf + TF_KERNEL_TRAP)), [], c1) /\
    xregs c1 sp = load64 (ram c) (tf + TF_KERNEL_SP) /\
    ctrl c1 satp = load64 (ram c) (tf + TF_KERNEL_SATP) /\
    xregs c1 tp = xregs c tp /\
    (forall a, a < tf \/ tf + 248 <= a -> load8 (ram c1) a = load8 (ram c) a) /\
    forall X c2, t6 ∉ X -> same_slots X tf (ram c1) (ram c2) -> xregs c2 a0 = tf -> xregs c2 zero = 0 ->
    exists c3, run return_to_user c2 = (Sret, [], c3) /\
      ctrl c3 satp = xregs c2 a1 /\ ctrl c3 sscratch = tf /\ ram c3 = ram c2 /\
      xregs c3 t6 = tf /\ (forall r, r <> t6 -> r ∉ X -> xregs c3 r = xregs c r) /\
      forall r o, (r, o) ∈ riscv_regs -> xregs c3 r = load64 (ram c2) (tf + o).
Proof.
  intros Hw Hf tf. pose proof Hf as [Hb Hm]. unfold SIZEOF_TRAPFRAME in Hm. fold tf in Hb, Hm.
  destruct (entry_saves sscratch [ld sp 248 a0; ld t0 256 a0; ld t1 272 a0; csrw satp t1; sfence_vma; jr t0] c Hw Hf)
    as (c1 & E & Hh & Ho & Hc & Ha0 & Hr). fold tf in Hh, Ho, Ha0.
  assert (forall o, 248 <= o <= 272 -> load64 (ram c1) (u64 (tf + o)) = load64 (ram c) (tf + o)) as Hk.
  { intros o Hr0. rewrite u64_small by lia. apply load_le_ext. intros a Ha. apply Ho. lia. }
  eexists. split.
  { etrans; [exact E|]. cbn [run leaves step xregs ctrl ram]. do 2 f_equal.
    rewrite (set_reg_ne t1), (set_reg_eq t0), (set_reg_ne sp), Ha0 by done. f_equal. apply (Hk 256). lia. }
  cbn [xregs ctrl ram step]. split_and!.
  - rewrite (set_reg_ne t1), (set_reg_ne t0), (set_reg_eq sp), Ha0 by done. apply (Hk 248). lia.
  - unfold set_csr at 1. rewrite decide_True, (set_reg_eq t1), (set_reg_ne t0), (set_reg_ne sp), Ha0 by done.
    apply (Hk 272). lia.
  - rewrite !set_reg_ne by done. by apply Hr.
  - done.
  - intros X c2 Ht Hs Htf Hz.
    destruct (return_registers c2 tf (conj Hb Hm) Htf Hz) as (c3 & E3 & Hs3 & Hc3 & Hm3 & Hz3 & Hx3).
    exists c3. split_and!; try done.
    + rewrite Hx3, (slot_value_same X tf (ram c1) (ram c2) _ t6 Hh Hs) by done. by apply set_reg_eq.
    + intros r H6 HX. destruct (decide (r = zero)) as [->|H0]; [rewrite Hz3; by destruct Hw|].
      rewrite Hx3, (slot_value_same X tf (ram c1) (ram c2) _ r Hh Hs) by done. by apply set_reg_ne.
    + intros r o Hin. rewrite Hx3 by apply (riscv_regs_range r o Hin). symmetry. by apply slot_value_holds.
Qed.

Lemma user_trap_keeps_registers_witness : exists c1,
  run smode_trap_vector (Cpu (set_reg s1 7 (fun _ => 0)) (set_csr sscratch 0x80001000 (fun _ => 0)) ∅) = (Jump 0, [], c1) /\
  exists c3, run return_to_user (Cpu (set_reg a0 0x80001000 (fun _ => 0)) (ctrl c1) (ram c1)) = (Sret, [], c3) /\ xregs c3 s1 = 7.
Proof.
  destruct (user_trap_keeps_registers (Cpu (set_reg s1 7 (fun _ => 0)) (set_csr sscratch 0x80001000 (fun _ => 0)) ∅))
    as (c1 & E & _ & _ & _ & _ & H).
  - split; [reflexivity|]. intros r. cbn. unfold set_reg. case_decide; lia.
  - split; vm_compute; discriminate.
  - exists c1. split; [exact E|].
    destruct (H [] (Cpu (set_reg a0 0x80001000 (fun _ => 0)) (ctrl c1) (ram c1))) as (c3 & E3 & _ & _ & _ & _ & Hs & _).
    + apply not_elem_of_nil.
    + intros r o _ _. reflexivity.
    + reflexivity.
    + reflexivity.
    + exists c3. split; [exact E3|]. rewrite Hs; [reflexivity|discriminate|apply not_elem_of_nil].
Defined.

(** ** Traps to machine mode *)

(** What the code relies on of the C function [handle_mtrap]: it leaves the pointer
    to the frame and the saved registers alone. *)
Record keeps_frame (base : Z) (c c' : cpu) : Prop := {
  kf_pointer : ctrl c' mscratch = ctrl c mscratch;
  kf_slots : same_slots [] base (ram c) (ram c');
  kf_zero : xregs c' zero = 0
}.

Section Machine.
  Context (stack0 : Z).

(** The code after the call of [handle_mtrap]. *)
Definition mtrap_return : list instr := csrr t6 mscratch :: restore_all_registers ++ [ mret ].

(** Each hart has its own part of the array [stack0]. *)
Definition stack_of (hartid : Z) : Z := stack0 + 4096 * (hartid + 1).

Lemma stack_code p c : 0 <= stack0 -> 0 <= ctrl c mhartid < NCPU -> stack0 + 4096 * NCPU < 2 ^ 64 ->
  exists c', run ([ la sp stack0; li a3 4096; csrr a4 mhartid; addi a4 a4 1; mul a3 a3 a4; add sp sp a3 ] ++ p) c = run p c' /\
    ctrl c' = ctrl c /\ ram c' = ram c /\ xregs c' sp = stack_of (ctrl c mhartid) /\
    forall r, r <> sp -> r <> a3 -> r <> a4 -> xregs c' r = xregs c r.
Proof.
  intros Hs Hh Hm. unfold NCPU in *. cbn [app run leaves step xregs ctrl ram]. eexists. split; [reflexivity|].
  cbn [ctrl ram xregs]. split; [done|]. split; [done|]. split.
  - rewrite (set_reg_eq sp) by done. rewrite (set_reg_ne a3), (set_reg_ne a4), (set_reg_ne a4), (set_reg_ne a3), (set_reg_eq sp) by done.
    rewrite (set_reg_eq a3), (set_reg_eq a4) by done.
    rewrite (set_reg_ne a4), (set_reg_ne a4), (set_reg_eq a3), (set_reg_eq a4) by done.
    rewrite !(u64_small (ctrl c mhartid + 1)), (u64_small stack0), (u64_small 4096) by lia.
    rewrite (u64_small (4096 * _)) by lia. unfold stack_of. apply u64_small. lia.
  - intros r H1 H2 H3. by rewrite !set_reg_ne.
Qed.

(** [handle_mtrap] is called on the hart's own stack, with the registers saved in
    the frame and [mscratch] restored. *)
Lemma mtrap_entry c : word_regs (xregs c) -> frame_ok (ctrl c mscratch) ->
  0 <= stack0 -> 0 <= ctrl c mhartid < NCPU -> stack0 + 4096 * NCPU < 2 ^ 64 ->
  exists c1, run (mtrapvec stack0) c = (Call handle_mtrap, mtrap_return, c1) /\
    xregs c1 sp = stack_of (ctrl c mhartid) /\ (forall k, ctrl c1 k = ctrl c k) /\
    frame_holds (ram c1) (ctrl c mscratch) (set_reg t6 (ctrl c mscratch) (xregs c)) /\
    forall a, a < ctrl c mscratch \/ ctrl c mscratch + 248 <= a -> load8 (ram c1) a = load8 (ram c) a.
Proof.
  intros Hw Hf Hs Hh Hm.
  destruct (entry_saves mscratch ([ la sp stack0; li a3 4096; csrr a4 mhartid; addi a4 a4 1; mul a3 a3 a4; add sp sp a3 ] ++
    [ csrw mscratch a0; call handle_mtrap ] ++ mtrap_return) c Hw Hf) as (c1 & E & Hh1 & Ho & Hc & Ha0 & _).
  destruct (stack_code ([ csrw mscratch a0; call handle_mtrap ] ++ mtrap_return) c1 Hs) as (c2 & E2 & Hc2 & Hm2 & Hsp & Hr); [by rewrite Hc|done|].
  eexists. split; [etrans; [exact E|]; etrans; [exact E2|]; reflexivity|]. cbn [step xregs ctrl ram]. rewrite Hm2. split_and!; try done.
  - by rewrite Hsp, Hc.
  - intros k. rewrite Hc2, Hc, Hr, Ha0 by done. unfold set_csr. repeat case_decide; congruence.
Qed.

(** The return from a machine trap, from whatever is in the frame. *)
Lemma mtrap_exit c : frame_ok (ctrl c mscratch) -> xregs c zero = 0 ->
  exists c', run mtrap_return c = (Mret, [], c') /\ ctrl c' = ctrl c /\ ram c' = ram c /\
    xregs c' zero = 0 /\ forall r, r <> zero -> xregs c' r = slot_value (ram c) (ctrl c mscratch) r.
Proof.
  intros Hf Hz. unfold mtrap_return. cbn [run leaves step].
  set (c1 := Cpu _ _ _). assert (xregs c1 t6 = ctrl c mscratch) as Ht by (subst c1; by apply set_reg_eq).
  destruct (restore_slots [mret] c1) as (c' & E & Hc & Hr & Hz' & Hx); [by rewrite Ht|done|].
  exists c'. rewrite Ht in Hx. rewrite Hc, Hr. by split_and!.
Qed.


(** A hart starts with the same stack pointer that it has in [handle_mtrap]. *)
Lemma mentry_stack c : 0 <= stack0 -> 0 <= ctrl c mhartid < NCPU -> stack0 + 4096 * NCPU < 2 ^ 64 ->
  exists c1, run (_mentry stack0) c = (Call m_start, [], c1) /\
    xregs c1 sp = stack_of (ctrl c mhartid) /\ ctrl c1 mscratch = xregs c zero /\
    forall r, r <> sp -> r <> a3 -> r <> a4 -> xregs c1 r = xregs c r.
Proof.
  intros Hs Hh Hm. destruct (stack_code [ call m_start ] (step (csrw mscratch zero) c) Hs) as (c1 & E & Hc & _ & Hsp & Hr); [done|done|].
  exists c1. split; [etrans; [exact E|done]|]. by rewrite Hc.
Qed.

(** ** Machine traps on two harts *)

(** The harts of the machine, each with the code it still has to run, and the
    memory that they share. *)
Record smp : Type := Smp { cores : gmap Z (list instr * (reg -> Z) * (csr -> Z)); dram : bytes }.

Context (handler : Z -> cpu -> cpu).

(** Hart [h] does its next instruction; a call of [handle_mtrap] is one step.  At
    [mret] the hart is back in the interrupted program. *)
Definition smp_step (h : Z) (w : smp) : smp :=
  match cores w !! h with
  | Some (i :: p, x, k) =>
      let c := Cpu x k (dram w) in
      let put c' := Smp (<[h := (p, xregs c', ctrl c')]> (cores w)) (ram c') in
      match leaves i c with
      | None => put (step i c)
      | Some (Call handle_mtrap) => put (handler h c)
      | Some _ => w
      end
  | _ => w
  end.

Definition smp_run (sched : list Z) (w : smp) : smp := foldl (fun w h => smp_step h w) w sched.

(** A hart that runs alone until it leaves. *)
Lemma smp_burst h p : forall x k w e rest c', cores w !! h = Some (p, x, k) ->
  run p (Cpu x k (dram w)) = (e, rest, c') -> e <> End ->
  exists n i, smp_run (replicate n h) w = Smp (<[h := (i :: rest, xregs c', ctrl c')]> (cores w)) (ram c') /\
    leaves i c' = Some e.
Proof.
  induction p as [|i p IH]; intros x k w e rest c' Hh Hr He; [by injection Hr as <- <- <-|].
  cbn [run] in Hr. destruct (leaves i _) as [e'|] eqn:El.
  - injection Hr as <- <- <-. exists 0%nat, i. split; [|done]. cbn. rewrite insert_id by done. by destruct w.
  - set (c := step i _) in Hr. set (w1 := Smp (<[h := (p, xregs c, ctrl c)]> (cores w)) (ram c)).
    destruct (IH (xregs c) (ctrl c) w1 e rest c') as (n & j & En & Ej); [by apply lookup_insert_eq|by destruct c|done|].
    exists (S n), j. split; [|done]. cbn [replicate smp_run foldl].
    assert (smp_step h w = w1) as -> by (unfold smp_step; by rewrite Hh, El).
    etrans; [exact En|]. cbn. by rewrite insert_insert_eq.
Qed.

Lemma smp_call h p x k w c' : cores w !! h = Some (call handle_mtrap :: p, x, k) -> c' = handler h (Cpu x k (dram w)) ->
  smp_step h w = Smp (<[h := (p, xregs c', ctrl c')]> (cores w)) (ram c').
Proof. intros Hh ->. unfold smp_step. by rewrite Hh. Qed.

Lemma smp_run_app l1 l2 w : smp_run (l1 ++ l2) w = smp_run l2 (smp_run l1 w).
Proof. apply foldl_app. Qed.

Lemma leaves_call i c : leaves i c = Some (Call handle_mtrap) -> i = call handle_mtrap.
Proof. destruct i; cbn; congruence. Qed.

(** Hart [h] from the trap to the return of [handle_mtrap]. *)
Lemma smp_enters base h x k w : cores w !! h = Some (mtrapvec stack0, x, k) -> word_regs x ->
  k mscratch = base -> frame_ok base -> 0 <= k mhartid < NCPU -> 0 <= stack0 -> stack0 + 4096 * NCPU < 2 ^ 64 ->
  (forall c, ctrl c mscratch = base -> keeps_frame base c (handler h c)) ->
  exists sched x' k' m', smp_run sched w = Smp (<[h := (mtrap_return, x', k')]> (cores w)) m' /\
    x' zero = 0 /\ k' mscratch = base /\ forall r, r <> zero -> slot_value m' base r = set_reg t6 base x r.
Proof.
  intros Hh Hw Hb Hf Hid Hs Hm Hk. destruct (mtrap_entry (Cpu x k (dram w))) as (c1 & E & _ & Hc & Hfr & _); [done|cbn; congruence|done..|].
  cbn [ctrl xregs] in *. rewrite Hb in Hfr.
  destruct (smp_burst h (mtrapvec stack0) x k w _ _ _ Hh E) as (n & i & En & El); [done|]. apply leaves_call in El as ->.
  set (c2 := handler h c1). assert (ctrl c1 mscratch = base) as Hp by (by rewrite Hc).
  destruct (Hk c1 Hp) as [K1 K2 K3]. fold c2 in K1, K2, K3.
  exists (replicate n h ++ [h]), (xregs c2), (ctrl c2), (ram c2). rewrite smp_run_app, En. split_and!.
  - cbn [smp_run foldl]. erewrite smp_call; [|apply lookup_insert_eq|reflexivity]. cbn [cores dram].
    replace (Cpu _ _ _) with c1 by (by destruct c1). by rewrite insert_insert_eq.
  - done.
  - by rewrite K1.
  - intros r Hr. by apply (slot_value_same [] base (ram c1) (ram c2) _ r Hfr K2 Hr), not_elem_of_nil.
Qed.

(** C36: all harts share one frame for machine traps.  When a second hart takes a
    machine trap while the first is in its handler, the first hart goes on with the
    registers of the second: there is a schedule after which hart [h] is about to
    return with the values that [h'] had, for every register but [t6]. *)
Theorem shared_frame_mixes_harts base h h' x x' k k' m :
  h <> h' -> frame_ok base -> k mscratch = base -> k' mscratch = base -> word_regs x -> word_regs x' ->
  0 <= k mhartid < NCPU -> 0 <= k' mhartid < NCPU -> 0 <= stack0 -> stack0 + 4096 * NCPU < 2 ^ 64 ->
  (forall g c, ctrl c mscratch = base -> keeps_frame base c (handler g c)) ->
  exists sched x1 k1, let w := smp_run sched (Smp {[h := (mtrapvec stack0, x, k); h' := (mtrapvec stack0, x', k')]} m) in
    cores w !! h = Some ([ mret ], x1, k1) /\ forall r, r <> t6 -> x1 r = x' r.
Proof.
  intros Hne Hf Hb Hb' Hw Hw' Hi Hi' Hs Hm Hk. set (w0 := Smp _ m).
  destruct (smp_enters base h x k w0 ltac:(by apply lookup_insert_eq) Hw Hb Hf Hi Hs Hm (Hk h))
    as (s1 & x1 & k1 & m1 & E1 & Hz1 & Hk1 & _).
  set (w1 := Smp _ m1) in E1. assert (cores w1 !! h' = Some (mtrapvec stack0, x', k')) as H1.
  { subst w1 w0. cbn [cores]. by rewrite !lookup_insert_ne, lookup_singleton_eq. }
  destruct (smp_enters base h' x' k' w1 H1 Hw' Hb' Hf Hi' Hs Hm (Hk h')) as (s2 & x2 & k2 & m2 & E2 & _ & _ & Hsl).
  set (w2 := Smp _ m2) in E2. assert (cores w2 !! h = Some (mtrap_return, x1, k1)) as H2.
  { subst w2 w1. cbn [cores]. by rewrite lookup_insert_ne, lookup_insert_eq. }
  destruct (mtrap_exit (Cpu x1 k1 m2)) as (c3 & E3 & _ & _ & Hz3 & Hx3); [cbn; congruence|done|].
  destruct (smp_burst h mtrap_return x1 k1 w2 _ _ _ H2 E3) as (n & i & En & El); [done|].
  exists (s1 ++ s2 ++ replicate n h), (xregs c3), (ctrl c3). cbn zeta. rewrite !smp_run_app, E1, E2, En. cbn [cores]. split.
  - rewrite lookup_insert_eq. by destruct i.
  - intros r Hr. destruct (decide (r = zero)) as [->|H0]; [rewrite Hz3; by destruct Hw'|].
    rewrite Hx3 by done. cbn [ctrl ram]. rewrite Hk1, Hsl by done. by apply set_reg_ne.
Qed.

End Machine.

(** A hart with number [h] whose register [s1] is [v], and a handler that leaves
    nothing in the registers. *)
Definition some_regs (v : Z) : reg -> Z := set_reg s1 v (fun _ => 0).
Definition some_ctrl (h : Z) : csr -> Z := set_csr mhartid h (set_csr mscratch 0x80008000 (fun _ => 0)).
Definition clobber (c : cpu) : cpu := Cpu (fun _ => 0) (ctrl c) (ram c).


Lemma shared_frame_mixes_harts_witness : exists sched x1 k1,
  cores (smp_run (fun _ => clobber) sched (Smp {[0 := (mtrapvec 0x80001000, some_regs 7, some_ctrl 0);
    1 := (mtrapvec 0x80001000, some_regs 8, some_ctrl 1)]} ∅)) !! 0 = Some ([ mret ], x1, k1) /\ x1 s1 = 8.
Proof.
  destruct (shared_frame_mixes_harts 0x80001000 (fun _ => clobber) 0x80008000 0 1 (some_regs 7) (some_regs 8)
    (some_ctrl 0) (some_ctrl 1) ∅) as (sched & x1 & k1 & E & Hx).
  - lia.
  - split; vm_compute; discriminate.
  - reflexivity.
  - reflexivity.
  - split; [reflexivity|]. intros r. unfold some_regs, set_reg. case_decide; lia.
  - split; [reflexivity|]. intros r. unfold some_regs, set_reg. case_decide; lia.
  - split; [vm_compute; discriminate|reflexivity].
  - split; [vm_compute; discriminate|reflexivity].
  - lia.
  - reflexivity.
  - intros g c _. split; [reflexivity|intros r o _ _; reflexivity|reflexivity].
  - exists sched, x1, k1. split; [exact E|]. rewrite Hx; [reflexivity|discriminate].
Defined.
