(* ===== verification/Process.v ===== *)
(** * Processes (kernel/process.c, init_proc_file_management of kernel/proc_file.c)

    The process pool: reserving a slot, building the address space of a new
    process, entering user mode.  The heap routines of the same file are in
    [Heap]. *)

From S2P Require Import Prelude Mem Pmm StringLib Vmm Kernel.
From stdpp Require Import base gmap list fin_maps.
From Stdlib Require Import ZArith Lia Bool.

Set Default Goal Selector "!".
Open Scope Z_scope.

#[local] Opaque fill copy_fwd.

Definition SSTATUS_SPP : Z := Z.shiftl 1 8.
Definition SSTATUS_SPIE : Z := Z.shiftl 1 5.

(** What [return_to_user] is called with; it ends in [sret]. *)
Record user_entry : Type := UserEntry { ue_trapframe : Z; ue_satp : Z }.

(** [memset(procs, ...)] and the loop that numbers the slots. *)
Definition init_proc_pool : M kernel unit :=
  let slots := seqZ 0 NPROC in
  modify (set_procs (list_to_map ((fun i => (i, blank_process i)) <$> slots))) ;;;
  modify (set_g_proc_reserved ∅).

Definition release_proc_slot_reservation (pid : Z) : M kernel unit :=
  if NPROC <=? pid then ret tt
  else
    spin_lock proc_alloc_lock ;;;
    modify (fun s => set_g_proc_reserved (<[pid := 0]> (g_proc_reserved s)) s) ;;;
    spin_unlock proc_alloc_lock.

Definition free_process (i : Z) : M kernel Z :=
  upd_proc i (set_status ZOMBIE) ;;;
  ret 0.

(** The page holds the structure; the entries of the array that are not
    initialised keep whatever the page held, here 0. *)
Definition init_proc_file_management : M kernel Z :=
  let* pf := zoom pmmL alloc_page in
  let* root := gets vfs_root_dentry in
  if in_dram pf PGSIZE then
    modify (fun s => set_file_tables
      (<[pf := ProcFiles root (replicate (Z.to_nat MAX_FILES) (File FD_NONE 0 0 0 0)) 0]>
        (file_tables s)) s) ;;;
    ret pf
  else fault.

Definition reclaim_proc_file_management (pf : Z) : M kernel unit :=
  zoom pmmL (free_page pf).

Section WithSymbols.
  Context `{Symbols}.

Definition switch_to (hartid i : Z) : M kernel user_entry :=
  assert_hart hartid ;;;
  modify (fun s => set_current (<[hartid := i]> (current s)) s) ;;;
  upd_csr hartid (set_stvec smode_trap_vector) ;;;
  let* p := get_proc i in
  kwrite64 (trapframe p + TF_KERNEL_SP) (kstack p) ;;;
  let* c := get_csr hartid in
  kwrite64 (trapframe p + TF_KERNEL_SATP) (satp c) ;;;
  kwrite64 (trapframe p + TF_KERNEL_TRAP) smode_trap_handler_entry ;;;
  let x := sstatus c in
  let x := Z.land x (Z.lnot SSTATUS_SPP) in
  let x := Z.lor x SSTATUS_SPIE in
  upd_csr hartid (set_sstatus x) ;;;
  let* epc := kread64 (trapframe p + TF_EPC) in
  upd_csr hartid (set_sepc epc) ;;;
  ret (UserEntry (trapframe p) (MAKE_SATP (pagetable p))).

(** The search for a slot of [alloc_process], under its lock. *)
Definition reserve_slot : M kernel Z :=
  spin_lock proc_alloc_lock ;;;
  let* ps := gets procs in
  let* rs := gets g_proc_reserved in
  let* found := loop (Datatypes.S (Z.to_nat NPROC)) (fun i =>
    if i <? NPROC then
      let* p := of_option (ps !! i) in
      if bool_decide (status p = FREE) && (default 0 (rs !! i) =? 0) then ret (inr (Some i))
      else ret (inl (i + 1))
    else ret (inr None)) 0 in
  match found with
  | None => spin_unlock proc_alloc_lock ;;; panic
  | Some i =>
      modify (fun s => set_g_proc_reserved (<[i := 1]> (g_proc_reserved s)) s) ;;;
      spin_unlock proc_alloc_lock ;;;
      ret i
  end.

(** [mapped_info[seg] = { va, npages, seg }] *)
Definition set_region (info seg va npages : Z) : M kernel unit :=
  kwrite64 (region_va info seg) va ;;;
  kwrite32 (region_npages info seg) npages ;;;
  kwrite32 (region_type info seg) seg.

Definition alloc_process (hartid : Z) : M kernel Z :=
  assert_hart hartid ;;;
  let* i := reserve_slot in
  let* tf := zoom pmmL alloc_page in
  upd_proc i (set_trapframe tf) ;;;
  zoom pmmL (kmemset tf 0 SIZEOF_TRAPFRAME) ;;;
  let* pt := zoom pmmL alloc_page in
  upd_proc i (set_pagetable pt) ;;;
  zoom pmmL (kmemset pt 0 PGSIZE) ;;;
  let* ks := zoom pmmL alloc_page in
  upd_proc i (set_kstack (u64 (ks + PGSIZE))) ;;;
  let* user_stack := zoom pmmL alloc_page in
  kwrite64 (tf + TF_SP) USER_STACK_TOP ;;;
  kwrite64 (tf + TF_TP) hartid ;;;
  let* info := zoom pmmL alloc_page in
  upd_proc i (set_mapped_info info) ;;;
  zoom pmmL (kmemset info 0 PGSIZE) ;;;
  zoom pmmL (user_vm_map pt (USER_STACK_TOP - PGSIZE) PGSIZE user_stack
    (prot_to_type (Z.lor PROT_WRITE PROT_READ) 1)) ;;;
  set_region info STACK_SEGMENT (USER_STACK_TOP - PGSIZE) 1 ;;;
  zoom pmmL (user_vm_map pt tf PGSIZE tf (prot_to_type (Z.lor PROT_WRITE PROT_READ) 0)) ;;;
  set_region info CONTEXT_SEGMENT tf 1 ;;;
  zoom pmmL (user_vm_map pt trap_sec_start PGSIZE trap_sec_start
    (prot_to_type (Z.lor PROT_READ PROT_EXEC) 0)) ;;;
  set_region info SYSTEM_SEGMENT trap_sec_start 1 ;;;
  upd_proc i (set_user_heap
    (HeapMan USER_FREE_ADDRESS_START USER_FREE_ADDRESS_START 0 0)) ;;;
  set_region info HEAP_SEGMENT USER_FREE_ADDRESS_START 0 ;;;
  upd_proc i (set_total_mapped_region 4) ;;;
  let* pf := init_proc_file_management in
  upd_proc i (set_pfiles pf) ;;;
  ret i.

End WithSymbols.
