(* ===== verification/Heap.v ===== *)
(** * The user heap (the [pd] lists of kernel/process.c)

    Each block of a process's heap starts with a descriptor [pd] in user memory;
    the kernel reaches it through the page table of the running process.  The
    free list and the list of allocated blocks are threaded through the
    descriptors.  List loops take the number of rounds they may run. *)

From S2P Require Import Prelude Mem Pmm StringLib Vmm Kernel.
From stdpp Require Import base gmap list fin_maps.
From Stdlib Require Import ZArith Lia Bool.

Set Default Goal Selector "!".
Open Scope Z_scope.

(** ** Descriptors: [int flag; uint64 size; pd *next], 24 bytes *)

Definition SIZEOF_PD : Z := 24.
Definition PD_FLAG : Z := 0.
Definition PD_SIZE : Z := 8.
Definition PD_NEXT : Z := 16.

(** [user_va_to_pa(current[hartid]->pagetable, node)] *)
Definition node_pa (hartid node : Z) : M kernel Z :=
  let* c := cur hartid in
  let* p := get_proc c in
  zoom pmmL (user_va_to_pa (pagetable p) node).

Definition set_next (hartid node next : Z) : M kernel unit :=
  assert_hart hartid ;;;
  if node =? 0 then ret tt
  else
    let* pa := node_pa hartid node in
    kwrite64 (pa + PD_NEXT) next.

Definition get_next (hartid node : Z) : M kernel Z :=
  assert_hart hartid ;;;
  if node =? 0 then ret 0
  else
    let* pa := node_pa hartid node in
    kread64 (pa + PD_NEXT).

Definition set_flag (hartid node flag : Z) : M kernel unit :=
  assert_hart hartid ;;;
  if node =? 0 then ret tt
  else
    let* pa := node_pa hartid node in
    kwrite32 (pa + PD_FLAG) flag.

Definition get_flag (hartid node : Z) : M kernel Z :=
  assert_hart hartid ;;;
  if node =? 0 then ret (-1)
  else
    let* pa := node_pa hartid node in
    let* v := kread32 (pa + PD_FLAG) in
    ret (s32 v).

Definition set_size (hartid node size : Z) : M kernel unit :=
  assert_hart hartid ;;;
  if node =? 0 then ret tt
  else
    let* pa := node_pa hartid node in
    kwrite64 (pa + PD_SIZE) size.

Definition get_size (hartid node : Z) : M kernel Z :=
  assert_hart hartid ;;;
  if node =? 0 then ret 0
  else
    let* pa := node_pa hartid node in
    kread64 (pa + PD_SIZE).

(** ** Lists

    A [pd **] argument is the old head, and the new head is returned. *)

Definition pd_first_fit_cmp (a b : Z) : Z := s32 (u64 (a - b)).

Definition insert_alloc_block (hartid alloc_list new : Z) : M kernel Z :=
  if (alloc_list =? 0) && (new =? 0) then ret alloc_list
  else if (alloc_list =? 0) && negb (new =? 0) then
    set_next hartid new 0 ;;; ret new
  else
    set_next hartid new alloc_list ;;; ret new.

(** The item is unlinked first (an item that is not in the list ends the
    function), dropped if its size is 0, and linked again in order. *)
Definition sort_pd_list_ascend (fuel : nat) (hartid head item : Z) (cmp : Z -> Z -> Z)
    : M kernel Z :=
  if (head =? 0) || (item =? 0) then ret head
  else
    let* unlinked :=
      if head =? item then
        let* n := get_next hartid item in
        ret (Some (n, n))
      else
        let* prev := loop fuel (fun prev =>
          if prev =? 0 then ret (inr prev)
          else
            let* n := get_next hartid prev in
            if negb (n =? item) then
              let* n := get_next hartid prev in ret (inl n)
            else ret (inr prev)) head in
        if prev =? 0 then ret None
        else
          let* n := get_next hartid prev in
          if n =? item then
            let* m := get_next hartid item in
            set_next hartid prev m ;;;
            ret (Some (head, prev))
          else ret None in
    match unlinked with
    | None => ret head
    | Some (head, prev) =>
        let* sz := get_size hartid item in
        if sz =? 0 then ret head
        else if (head =? 0) || (cmp item head <=? 0) then
          set_next hartid item head ;;;
          ret item
        else
          let* pc := loop fuel (fun '(prev, c) =>
            let* n := get_next hartid c in
            if negb (n =? 0) && (cmp c item <? 0) then
              let* n := get_next hartid c in ret (inl (c, n))
            else ret (inr (prev, c))) (prev, head) in
          let '(prev, c) := pc in
          let* n := get_next hartid c in
          (if (n =? 0) && (cmp c item <? 0) then
             set_next hartid c item ;;;
             set_next hartid item 0
           else
             set_next hartid prev item ;;;
             set_next hartid item c) ;;;
          ret head
    end.

Definition insert_free_block (fuel : nat) (hartid free_list new : Z) (cmp : Z -> Z -> Z)
    : M kernel Z :=
  if (free_list =? 0) && (new =? 0) then ret free_list
  else if (free_list =? 0) && negb (new =? 0) then
    set_next hartid new 0 ;;; ret new
  else
    set_next hartid new free_list ;;;
    sort_pd_list_ascend fuel hartid new new cmp.

Definition sort_free_list_ascend (fuel : nat) (hartid head : Z) (cmp : Z -> Z -> Z)
    : M kernel Z :=
  if head =? 0 then ret head
  else
    loop fuel (fun '(sorted, c) =>
      if c =? 0 then ret (inr sorted)
      else
        let* next := get_next hartid c in
        let* sorted := insert_free_block fuel hartid sorted c cmp in
        ret (inl (sorted, next))) (0, head).

(** The macro [USER_FREE_ADDRESS_START] is not parenthesised: what is
    subtracted is its first operand, and its second one is added. *)
Definition get_page_hash (p : Z) : Z := u64 (p - 0x00000000 + PGSIZE * 1024) / PGSIZE.

Definition merge_free_blocks (fuel : nat) (hartid free_list : Z) (cmp : Z -> Z -> Z)
    : M kernel Z :=
  if free_list =? 0 then ret free_list
  else
    let* head := sort_free_list_ascend fuel hartid free_list pd_first_fit_cmp in
    loop fuel (fun c =>
      if c =? 0 then ret (inr tt)
      else
        let* next := get_next hartid c in
        if next =? 0 then ret (inr tt)
        else
          let* next := get_next hartid c in
          let* sz := get_size hartid c in
          if (u64 (c + SIZEOF_PD + sz) =? next) && (get_page_hash c =? get_page_hash next) then
            let* sz := get_size hartid c in
            let* szn := get_size hartid next in
            set_size hartid c (u64 (sz + SIZEOF_PD + szn)) ;;;
            let* nn := get_next hartid next in
            set_next hartid c nn ;;;
            ret (inl c)
          else
            let* n := get_next hartid c in ret (inl n)) head ;;;
    sort_free_list_ascend fuel hartid head cmp.

(** One round of the search: the block and the new heads of the free and the
    allocated list, or the next block to look at. *)
Definition first_fit_round (hartid size free_list alloc_list : Z) (x : Z * Z)
    : M kernel (Z * Z + Z * Z * Z) :=
  let '(prev, item) := x in
  if item =? 0 then ret (inr (0, free_list, alloc_list))
  else
    let* sz := get_size hartid item in
    if sz =? size then
      set_flag hartid item 1 ;;;
      set_size hartid item 0 ;;;
      let* n := get_next hartid item in
      let* free_list' :=
        if negb (prev =? 0) then set_next hartid prev n ;;; ret free_list
        else ret n in
      set_next hartid item alloc_list ;;;
      set_size hartid item size ;;;
      ret (inr (item, free_list', item))
    else if sz <? u64 (size + SIZEOF_PD) then
      let* n := get_next hartid item in ret (inl (item, n))
    else
      let* total := get_size hartid item in
      let* next_free := get_next hartid item in
      let new_free := u64 (item + SIZEOF_PD + size) in
      set_flag hartid new_free 0 ;;;
      set_size hartid new_free (u64 (total - size - SIZEOF_PD)) ;;;
      set_next hartid new_free next_free ;;;
      let* free_list' :=
        if negb (prev =? 0) then set_next hartid prev new_free ;;; ret free_list
        else ret new_free in
      set_flag hartid item 1 ;;;
      set_size hartid item size ;;;
      set_next hartid item alloc_list ;;;
      ret (inr (item, free_list', item)).

Definition first_fit_alloc (fuel : nat) (hartid size free_list alloc_list : Z)
    : M kernel (Z * Z * Z) :=
  if (free_list =? 0) || (size =? 0) then ret (0, free_list, alloc_list)
  else loop fuel (first_fit_round hartid size free_list alloc_list) (0, free_list).

(** Shared end of the two branches of [first_fit_free]: the block is already
    out of the allocated list. *)
Definition give_back (fuel : nat) (hartid b free_list : Z) : M kernel Z :=
  set_next hartid b free_list ;;;
  let* head := sort_pd_list_ascend fuel hartid b b pd_first_fit_cmp in
  merge_free_blocks fuel hartid head pd_first_fit_cmp.

(** Returns the size of the freed block and the new heads. *)
Definition first_fit_free (fuel : nat) (hartid addr free_list alloc_list : Z)
    : M kernel (Z * Z * Z) :=
  if alloc_list =? 0 then panic
  else
    let* size := get_size hartid alloc_list in
    if addr =? alloc_list then
      set_flag hartid alloc_list 0 ;;;
      let* al := get_next hartid alloc_list in
      let* fl := give_back fuel hartid alloc_list free_list in
      ret (size, fl, al)
    else
      let* b := get_next hartid alloc_list in
      let* size := if negb (b =? 0) then get_size hartid b else ret size in
      loop fuel (fun '(prev, b, size) =>
        if b =? 0 then panic
        else if addr =? b then
          set_flag hartid b 0 ;;;
          let* n := get_next hartid b in
          set_next hartid prev n ;;;
          let* fl := give_back fuel hartid b free_list in
          ret (inr (size, fl, alloc_list))
        else
          let* n := get_next hartid b in
          let* size := if negb (n =? 0) then get_size hartid n else ret size in
          ret (inl (b, n, size))) (alloc_list, b, size).

Definition remove_from_pd_list (fuel : nat) (hartid head item : Z) : M kernel Z :=
  if (head =? 0) || (item =? 0) then ret head
  else if head =? item then get_next hartid item
  else
    let* prev := loop fuel (fun prev =>
      if prev =? 0 then ret (inr prev)
      else
        let* n := get_next hartid prev in
        if negb (n =? item) then
          let* n := get_next hartid prev in ret (inl n)
        else ret (inr prev)) head in
    (if negb (prev =? 0) then
       let* n := get_next hartid prev in
       if n =? item then
         let* m := get_next hartid item in
         set_next hartid prev m
       else ret tt
     else ret tt) ;;;
    ret head.
