(* ===== verification/HeapList.v ===== *)
(** * Correctness of the user heap (the [pd] lists of kernel/process.c)

    The descriptors of the blocks live in user pages.  [HeapPages] states what
    the list routines need of the address space of the running process; the
    routines are then shown to implement operations on two lists of blocks
    (address, size): first-fit allocation with splitting, and freeing with
    ordering and coalescing.  The instance at the end gets the interface from the
    page tables of [Vmm]. *)

From stdpp Require Import base gmap list fin_maps sorting.
From Stdlib Require Import ZArith Lia Bool.
From S2P Require Import Prelude Mem Pmm StringLib Vmm Kernel Heap.

Set Default Goal Selector "!".
Open Scope Z_scope.

Definition kmem_of (s : kernel) : bytes := mem (k_pmm s).
Definition with_mem (m : bytes) (s : kernel) : kernel :=
  lset pmmL (set_mem m (k_pmm s)) s.

Lemma kmem_of_with m s : kmem_of (with_mem m s) = m.
Proof. done. Qed.

Lemma with_mem_with m m' s : with_mem m (with_mem m' s) = with_mem m s.
Proof. done. Qed.

Lemma with_mem_id s : with_mem (kmem_of s) s = s.
Proof. by destruct s as [[[] ?]]. Qed.

(** ** The address space, as the heap sees it

    [ok a n]: the [n] bytes from [a] lie in one mapped heap page; [tr] gives
    their physical address.  [inv] is what must be kept true of the state for
    that to be so; stores to heap pages keep it. *)

Class HeapPages (hartid : Z) (ok : Z -> Z -> Prop) (tr : Z -> Z) (inv : kernel -> Prop)
    : Prop := {
  hp_hart : hartid < NCPU;
  hp_range : forall a n, ok a n -> 0 < n /\ 0 < a /\ a + n < 2 ^ 31;
  hp_dram : forall a n, ok a n -> in_dram (tr a) n = true;
  hp_part : forall a n d k, ok a n -> 0 <= d -> 0 < k -> d + k <= n ->
    ok (a + d) k /\ tr (a + d) = tr a + d;
  hp_join : forall a n k, ok a n -> ok (a + n) k -> a / PGSIZE = (a + n) / PGSIZE ->
    ok a (n + k);
  hp_apart : forall a n b k, ok a n -> ok b k -> a + n <= b ->
    tr a + n <= tr b \/ tr b + k <= tr a;
  hp_translate : forall s a n, inv s -> ok a n -> node_pa hartid a s = Ok (tr a) s;
  hp_store : forall s a n k d v, inv s -> ok a n -> 0 <= d -> d + Z.of_nat k <= n ->
    inv (with_mem (store_le k (kmem_of s) (tr a + d) v) s)
}.

(** ** Blocks *)

(** Address of the descriptor and size of the data after it. *)
Abbreviation block := (Z * Z)%type (only parsing).

(** Bytes of a block, with its descriptor. *)
Definition extent (x : block) : Z := SIZEOF_PD + x.2.
Definition total (l : list block) : Z := foldr (fun x n => extent x + n) 0 l.

(** The free list after the first block that is exactly right or can be split has
    been used, and the address of that block. *)
Fixpoint first_fit (size : Z) (l : list block) : option (list block * Z) :=
  match l with
  | [] => None
  | (a, sz) :: l =>
      if sz =? size then Some (l, a)
      else if sz <? size + SIZEOF_PD then
        '(l', b) ← first_fit size l; Some ((a, sz) :: l', b)
      else Some ((a + SIZEOF_PD + size, sz - size - SIZEOF_PD) :: l, a)
  end.

(** Insertion in front of the first block with no lower address. *)
Fixpoint insert_block (x : block) (l : list block) : list block :=
  match l with
  | [] => [x]
  | y :: l' => if x.1 <=? y.1 then x :: l else y :: insert_block x l'
  end.

(** A block with no data is dropped, unless it comes to an empty list. *)
Definition insert_kept (x : block) (l : list block) : list block :=
  match l with
  | [] => [x]
  | _ => if x.2 =? 0 then l else insert_block x l
  end.
Definition sort_blocks (l : list block) : list block := foldl (fun l x => insert_kept x l) [] l.

(** The block [a] with [sz] bytes absorbs the blocks that follow it directly in
    the same page. *)
Fixpoint coalesce (a sz : Z) (l : list block) : list block :=
  match l with
  | [] => [(a, sz)]
  | (b, t) :: l =>
      if (a + SIZEOF_PD + sz =? b) && (a / PGSIZE =? b / PGSIZE)
      then coalesce a (sz + SIZEOF_PD + t) l
      else (a, sz) :: coalesce b t l
  end.
Definition coalesce_all (l : list block) : list block :=
  match l with [] => [] | (a, sz) :: l => coalesce a sz l end.

Definition merge_blocks (l : list block) : list block :=
  sort_blocks (coalesce_all (sort_blocks l)).

(** What [first_fit_free] leaves in the free list. *)
Definition free_block (x : block) (l : list block) : list block :=
  merge_blocks (if x.2 =? 0 then l else insert_block x l).

(** Blocks do not overlap. *)
Definition apart (l : list block) : Prop :=
  NoDup l.*1 /\ forall x y, x ∈ l -> y ∈ l -> x.1 < y.1 -> x.1 + extent x <= y.1.

Lemma apart_perm l l' : l ≡ₚ l' -> apart l -> apart l'.
Proof. intros Hp [H1 H2]. split; [by rewrite <- Hp|]. intros x y. rewrite <- Hp. auto. Qed.

#[export] Instance apart_proper : Proper ((≡ₚ) ==> iff) apart.
Proof. intros l l' Hp. split; by apply apart_perm. Qed.

Lemma total_perm l l' : l ≡ₚ l' -> total l = total l'.
Proof. induction 1; simpl in *; lia. Qed.

#[export] Instance total_proper : Proper ((≡ₚ) ==> eq) total.
Proof. intros l l' Hp. by apply total_perm. Qed.

Lemma apart_cons x l : apart (x :: l) <->
  apart l /\ (x.1 ∉ l.*1) /\ (forall y, y ∈ l -> x.1 < y.1 -> x.1 + extent x <= y.1) /\
  (forall y, y ∈ l -> y.1 < x.1 -> y.1 + extent y <= x.1).
Proof.
  unfold apart. rewrite fmap_cons, NoDup_cons. split.
  - intros [[H1 H2] H3]. split_and!; [done| |done| |]; intros; apply H3; set_solver.
  - intros ([H1 H2] & H3 & H4 & H5). split; [done|].
    intros y z [->|Hy]%elem_of_cons [->|Hz]%elem_of_cons; [lia|by apply H4|by apply H5|by apply H2].
Qed.

Lemma same_block (l : list block) x y : NoDup l.*1 -> x ∈ l -> y ∈ l -> x.1 = y.1 -> x = y.
Proof.
  intros Hnd [i Hi]%list_elem_of_lookup [j Hj]%list_elem_of_lookup E.
  assert (i = j) as ->; [|congruence]. eapply (NoDup_lookup l.*1); [done| |].
  - by rewrite list_lookup_fmap, Hi.
  - by rewrite list_lookup_fmap, Hj, E.
Qed.

(** Splitting a block. *)
Lemma apart_split a sz size l : 0 < size -> size + SIZEOF_PD <= sz -> apart ((a, sz) :: l) ->
  apart ((a, size) :: (a + SIZEOF_PD + size, sz - size - SIZEOF_PD) :: l).
Proof.
  intros Hs Hsz (H1 & H2 & H3 & H4)%apart_cons.
  unfold extent, SIZEOF_PD in *. simpl in *.
  assert (forall y, y ∈ l -> y.1 <> a) as Hne.
  { intros y Hy E. apply H2. apply list_elem_of_fmap. by exists y. }
  assert (forall y, y ∈ l -> a + (24 + sz) <= y.1 \/ y.1 + (24 + y.2) <= a) as Hy.
  { intros y Hy. specialize (H3 y Hy). specialize (H4 y Hy). specialize (Hne y Hy). lia. }
  apply apart_cons. split; [apply apart_cons; split; [done|]|]; unfold extent, SIZEOF_PD; simpl.
  - split_and!.
    + intros (y & E & Hin)%list_elem_of_fmap. specialize (Hy y Hin). specialize (H3 y Hin). lia.
    + intros y Hin ?. specialize (Hy y Hin). specialize (H3 y Hin). lia.
    + intros y Hin ?. specialize (Hy y Hin). lia.
  - split_and!.
    + rewrite elem_of_cons. intros [?|Hin]; [lia|done].
    + intros y [->|Hin]%elem_of_cons ?; simpl; [lia|]. specialize (Hy y Hin). specialize (H3 y Hin). lia.
    + intros y [->|Hin]%elem_of_cons ?; simpl in *; [lia|]. by apply H4.
Qed.

Lemma total_app l1 l2 : total (l1 ++ l2) = total l1 + total l2.
Proof. induction l1; simpl; lia. Qed.

(** A descriptor at [b] lies inside one of the blocks. *)
Definition inside (l : list block) (b : Z) : Prop :=
  exists y d, y ∈ l /\ b = y.1 + d /\ 0 <= d /\ d + SIZEOF_PD <= extent y.

(** What [first_fit] chooses. *)
Lemma first_fit_Some size l l' a : first_fit size l = Some (l', a) ->
  exists pre sz post, l = pre ++ (a, sz) :: post /\
    Forall (fun x => x.2 <> size /\ x.2 < size + SIZEOF_PD) pre /\
    ((sz = size /\ l' = pre ++ post) \/
     (size + SIZEOF_PD <= sz /\
      l' = pre ++ (a + SIZEOF_PD + size, sz - size - SIZEOF_PD) :: post)).
Proof.
  revert l'. induction l as [|[b sz] l IH]; intros l'; simpl; [done|].
  destruct (Z.eqb_spec sz size) as [->|Hne].
  { intros [= -> ->]. exists [], size, l'. simpl. auto. }
  destruct (Z.ltb_spec sz (size + SIZEOF_PD)) as [Hlt|Hge].
  - destruct (first_fit size l) as [[k c]|] eqn:E; simpl; [|done]. intros [= <- ->].
    destruct (IH _ eq_refl) as (pre & t & post & -> & Hf & Hc).
    exists ((b, sz) :: pre), t, post. split; [done|]. split; [by constructor|].
    destruct Hc as [[-> ->]|[? ->]]; auto.
  - intros [= <- ->]. exists [], sz, l. simpl. auto.
Qed.

Lemma first_fit_None size l : first_fit size l = None ->
  Forall (fun x => x.2 <> size /\ x.2 < size + SIZEOF_PD) l.
Proof.
  induction l as [|[b sz] l IH]; simpl; [by constructor|].
  destruct (Z.eqb_spec sz size); [done|]. destruct (Z.ltb_spec sz (size + SIZEOF_PD)); [|done].
  destruct (first_fit size l) as [[]|]; [done|]. intros _. constructor; auto.
Qed.

Lemma insert_block_before x pre y post : Forall (fun z => z.1 < x.1) pre -> x.1 <= y.1 ->
  insert_block x (pre ++ y :: post) = pre ++ x :: y :: post.
Proof.
  intros Hp Hy. induction Hp as [|z pre Hz _ IH]; simpl.
  - by rewrite (proj2 (Z.leb_le _ _)) by lia.
  - rewrite (proj2 (Z.leb_gt _ _)) by lia. by rewrite IH.
Qed.

Lemma insert_block_end x l : Forall (fun z => z.1 < x.1) l -> insert_block x l = l ++ [x].
Proof.
  induction 1 as [|z l Hz _ IH]; simpl; [done|].
  rewrite (proj2 (Z.leb_gt _ _)) by lia. by rewrite IH.
Qed.

Lemma pd_first_fit_cmp_eq a b : 0 < a < 2 ^ 31 -> 0 < b < 2 ^ 31 -> pd_first_fit_cmp a b = a - b.
Proof.
  intros. unfold pd_first_fit_cmp, s32, u64.
  replace (((a - b) mod 2 ^ 64 + 2 ^ 31) mod 2 ^ 32) with (a - b + 2 ^ 31); [lia|]. dlia.
Qed.

Lemma insert_block_perm x l : insert_block x l ≡ₚ x :: l.
Proof.
  induction l as [|y l IH]; simpl; [done|]. destruct (_ <=? _); [done|].
  rewrite IH. apply Permutation_swap.
Qed.

Lemma insert_kept_cases x l : insert_kept x l = l \/ insert_kept x l ≡ₚ x :: l.
Proof.
  unfold insert_kept. destruct l as [|y l]; [by right|].
  destruct (_ =? _); [by left|right]. apply insert_block_perm.
Qed.

Lemma insert_kept_sub x l a : a ∈ (insert_kept x l).*1 -> a ∈ (x :: l).*1.
Proof. destruct (insert_kept_cases x l) as [-> | ->]; rewrite fmap_cons; set_solver. Qed.

Lemma insert_kept_NoDup x l : NoDup (x :: l).*1 -> NoDup (insert_kept x l).*1.
Proof. destruct (insert_kept_cases x l) as [-> | ->]; [|done]. by intros [_ ?]%NoDup_cons. Qed.

Lemma insert_kept_Forall (P : block -> Prop) x l : P x -> Forall P l -> Forall P (insert_kept x l).
Proof. intros. destruct (insert_kept_cases x l) as [-> | ->]; [done|]. by constructor. Qed.

Lemma insert_kept_length x l : (length (insert_kept x l) <= S (length l))%nat.
Proof. destruct (insert_kept_cases x l) as [-> | ->]; simpl; lia. Qed.

(** What sorting and coalescing keep. *)
Lemma sort_blocks_sub rest : forall acc a,
  a ∈ (foldl (fun l x => insert_kept x l) acc rest).*1 -> a ∈ (acc ++ rest).*1.
Proof.
  induction rest as [|x rest IH]; intros acc a; simpl; [by rewrite app_nil_r|].
  intros Ha%IH. rewrite fmap_app, elem_of_app in *. destruct Ha as [Ha%insert_kept_sub|Ha];
    rewrite fmap_cons, elem_of_cons in *; tauto.
Qed.

Lemma sort_blocks_NoDup rest : forall acc, NoDup (acc ++ rest).*1 ->
  NoDup (foldl (fun l x => insert_kept x l) acc rest).*1.
Proof.
  induction rest as [|x rest IH]; intros acc; simpl; [by rewrite app_nil_r|].
  intros Hnd. apply IH. rewrite <- Permutation_middle in Hnd. rewrite app_comm_cons, fmap_app in Hnd.
  apply NoDup_app in Hnd as (H1 & H2 & H3). rewrite fmap_app. apply NoDup_app.
  split; [by apply insert_kept_NoDup|]. split; [|done]. intros a Ha%insert_kept_sub. by apply H2.
Qed.

Lemma sort_blocks_Forall (P : block -> Prop) rest : forall acc, Forall P acc -> Forall P rest ->
  Forall P (foldl (fun l x => insert_kept x l) acc rest).
Proof.
  induction rest as [|x rest IH]; intros acc Ha; simpl; [done|].
  intros [Hx Hr]%Forall_cons. apply IH; [|done]. by apply insert_kept_Forall.
Qed.

Lemma sort_blocks_length rest : forall acc,
  (length (foldl (fun l x => insert_kept x l) acc rest) <= length acc + length rest)%nat.
Proof.
  induction rest as [|x rest IH]; intros acc; simpl; [lia|].
  specialize (IH (insert_kept x acc)). pose proof (insert_kept_length x acc). lia.
Qed.

Lemma coalesce_sub l : forall c sz a, a ∈ (coalesce c sz l).*1 -> a ∈ ((c, sz) :: l).*1.
Proof.
  induction l as [|[b t] l IH]; intros c sz a; simpl; [done|].
  destruct (_ && _); [|rewrite fmap_cons, elem_of_cons]; [intros Ha%IH|intros [Ha|Ha%IH]];
    simpl in *; set_solver.
Qed.

Lemma coalesce_NoDup l : forall c sz, NoDup ((c, sz) :: l).*1 -> NoDup (coalesce c sz l).*1.
Proof.
  induction l as [|[b t] l IH]; intros c sz Hnd; simpl; [done|].
  apply NoDup_cons in Hnd as [Hc Hnd]. pose proof Hnd as Hnd'. apply NoDup_cons in Hnd' as [Hb Hl].
  destruct (_ && _).
  - apply IH. simpl. constructor; [|done]. simpl in Hc. set_solver.
  - simpl. constructor; [|by apply IH]. intros Ha%coalesce_sub. by apply Hc.
Qed.

Lemma coalesce_length l : forall c sz, (length (coalesce c sz l) <= S (length l))%nat.
Proof.
  induction l as [|[b t] l IH]; intros c sz; simpl; [lia|]. destruct (_ && _); simpl.
  - etrans; [apply IH|]. lia.
  - specialize (IH b t). lia.
Qed.

Lemma get_page_hash_eq a b : 0 < a < 2 ^ 31 -> 0 < b < 2 ^ 31 ->
  (get_page_hash a =? get_page_hash b) = (a / PGSIZE =? b / PGSIZE).
Proof. intros. unfold get_page_hash. layout. rewrite !u64_small by lia. dlia. Qed.

(** What [l'] lacks of [l] are blocks without data. *)
Definition kept (l l' : list block) : Prop :=
  exists d, l ≡ₚ l' ++ d /\ Forall (fun x => x.2 = 0) d.

Lemma kept_perm l l' : l ≡ₚ l' -> kept l l'.
Proof. intros Hp. exists []. by rewrite app_nil_r. Qed.

Lemma kept_trans l1 l2 l3 : kept l1 l2 -> kept l2 l3 -> kept l1 l3.
Proof.
  intros (d & H1 & Hd) (e & H2 & He). exists (e ++ d). split.
  - by rewrite H1, H2, app_assoc.
  - by apply Forall_app.
Qed.

Lemma kept_cons x l l' : kept l l' -> kept (x :: l) (x :: l').
Proof. intros (d & H1 & Hd). exists d. by rewrite H1. Qed.

Lemma insert_kept_kept x l : kept (x :: l) (insert_kept x l).
Proof.
  unfold insert_kept. destruct l as [|y l]; [by apply kept_perm|].
  destruct (Z.eqb_spec x.2 0).
  - exists [x]. split; [by rewrite Permutation_app_comm|by repeat constructor].
  - apply kept_perm. symmetry. apply insert_block_perm.
Qed.

Lemma sort_blocks_kept rest : forall acc,
  kept (acc ++ rest) (foldl (fun l x => insert_kept x l) acc rest).
Proof.
  induction rest as [|x rest IH]; intros acc; simpl; [by apply kept_perm; rewrite app_nil_r|].
  eapply kept_trans; [|apply IH]. destruct (insert_kept_kept x acc) as (d & Hp & Hd).
  exists d. split; [|done]. rewrite <- Permutation_middle, app_comm_cons, Hp.
  rewrite <- !app_assoc. by rewrite (Permutation_app_comm d).
Qed.

Lemma kept_total l l' : kept l l' -> total l' <= total l /\
  (Forall (fun x => 0 < x.2) l -> l ≡ₚ l').
Proof.
  intros (d & Hp & Hd). split.
  - rewrite Hp, total_app. clear Hp. induction Hd as [|x d Hx _ IH]; simpl; [lia|].
    unfold extent, SIZEOF_PD in *. lia.
  - rewrite Hp. rewrite Forall_app. intros [_ Hpos].
    destruct Hd as [|x d Hx _]; [by rewrite app_nil_r|]. apply Forall_cons in Hpos as [? _]. lia.
Qed.

Lemma apart_app_l l1 l2 : apart (l1 ++ l2) -> apart l1.
Proof.
  intros [H1 H2]. split.
  - rewrite fmap_app in H1. by apply NoDup_app in H1 as [? _].
  - intros x y Hx Hy. apply H2; set_solver.
Qed.

Lemma kept_apart l l' R : kept l l' -> apart (l ++ R) -> apart (l' ++ R).
Proof.
  intros (d & Hp & _) H. rewrite Hp in H. apply (apart_app_l _ d).
  by rewrite <- app_assoc, (Permutation_app_comm R), app_assoc.
Qed.

(** Coalescing. *)
Lemma apart_merge c sz b t R : b = c + SIZEOF_PD + sz -> 0 <= sz -> 0 <= t ->
  apart ((c, sz) :: (b, t) :: R) -> apart ((c, sz + SIZEOF_PD + t) :: R).
Proof.
  intros -> Hsz Ht (H1 & H2 & H3 & H4)%apart_cons. apply apart_cons in H1 as (H5 & H6 & H7 & H8).
  apply apart_cons. unfold extent, SIZEOF_PD in *. simpl in *. split; [done|].
  split; [set_solver|]. split.
  - intros y Hy Hlt. pose proof (H3 y ltac:(set_solver) Hlt).
    assert (y.1 <> c + 24 + sz).
    { intros E. apply H6. apply list_elem_of_fmap. by exists y. }
    specialize (H7 y Hy). lia.
  - intros y Hy Hlt. apply H4; [set_solver|done].
Qed.

Lemma coalesce_apart l : forall c sz R, Forall (fun x => 0 <= x.2) ((c, sz) :: l) ->
  apart (((c, sz) :: l) ++ R) -> apart (coalesce c sz l ++ R).
Proof.
  induction l as [|[b t] l IH]; intros c sz R Hpos Hap; simpl; [done|].
  apply Forall_cons in Hpos as [Hsz Hpos]. pose proof Hpos as [Ht Hl]%Forall_cons. simpl in *.
  destruct ((_ =? _) && _) eqn:E.
  - apply IH; [constructor; [simpl; unfold SIZEOF_PD; lia|done]|].
    eapply apart_merge; [|done|done|done]. lia.
  - simpl. rewrite Permutation_middle. apply (IH b t); [done|].
    simpl. by rewrite <- Permutation_middle, Permutation_swap.
Qed.

Lemma coalesce_total l : forall c sz, total (coalesce c sz l) = total ((c, sz) :: l).
Proof.
  induction l as [|[b t] l IH]; intros c sz; simpl; [done|].
  destruct (_ && _); [|simpl]; rewrite IH; simpl; unfold extent; simpl; lia.
Qed.

(** Order. *)
Definition by_addr (x y : block) : Prop := x.1 < y.1.

Lemma insert_block_sorted x l : StronglySorted by_addr l -> x.1 ∉ l.*1 ->
  StronglySorted by_addr (insert_block x l).
Proof.
  induction 1 as [|y l Hs IH Hy]; intros Hx; simpl; [by repeat constructor|].
  rewrite fmap_cons, not_elem_of_cons in Hx. destruct Hx as [Hxy Hx].
  destruct (Z.leb_spec x.1 y.1).
  - constructor; [by constructor|]. constructor; [unfold by_addr; lia|].
    eapply Forall_impl; [done|]. unfold by_addr. intros; lia.
  - constructor; [by apply IH|]. rewrite (insert_block_perm x l). constructor; [unfold by_addr; lia|done].
Qed.

Lemma sort_blocks_sorted rest : forall acc, StronglySorted by_addr acc -> NoDup (acc ++ rest).*1 ->
  StronglySorted by_addr (foldl (fun l x => insert_kept x l) acc rest).
Proof.
  induction rest as [|x rest IH]; intros acc Hs Hnd; simpl; [done|].
  rewrite <- Permutation_middle, app_comm_cons, fmap_app in Hnd.
  apply NoDup_app in Hnd as (H1 & H2 & H3). apply IH.
  - unfold insert_kept. destruct acc as [|y acc]; [by repeat constructor|].
    destruct (_ =? _); [done|]. apply insert_block_sorted; [done|]. by apply NoDup_cons in H1 as [? _].
  - rewrite fmap_app. apply NoDup_app. split; [by apply insert_kept_NoDup|]. split; [|done].
    intros a Ha%insert_kept_sub. by apply H2.
Qed.

Lemma coalesce_pos l : forall c sz, Forall (fun x => 0 <= x.2) ((c, sz) :: l) ->
  Forall (fun x => 0 <= x.2) (coalesce c sz l).
Proof.
  induction l as [|[b t] l IH]; intros c sz Hpos; simpl; [done|].
  apply Forall_cons in Hpos as [Hsz Hpos]. pose proof Hpos as [Ht Hl]%Forall_cons. simpl in *.
  destruct (_ && _); [|constructor; [done|by apply IH]].
  apply IH. constructor; [simpl; unfold SIZEOF_PD; lia|done].
Qed.

(** No two blocks of the list could still be merged. *)
Definition coalesced (l : list block) : Prop :=
  forall x y, x ∈ l -> y ∈ l -> x.1 + extent x = y.1 -> x.1 / PGSIZE <> y.1 / PGSIZE.

Lemma coalesce_coalesced l : forall c sz, StronglySorted by_addr ((c, sz) :: l) ->
  Forall (fun x => 0 <= x.2) ((c, sz) :: l) -> apart ((c, sz) :: l) -> coalesced (coalesce c sz l).
Proof.
  induction l as [|[b t] l IH]; intros c sz Hs Hpos Hap.
  { intros x y. simpl. rewrite !list_elem_of_singleton. intros -> -> E. unfold extent, SIZEOF_PD in E.
    apply Forall_cons in Hpos as [? _]. simpl in *. lia. }
  apply StronglySorted_inv in Hs as [Hs Hc]. pose proof Hs as Hs'.
  apply StronglySorted_inv in Hs' as [Hs' Hb]. apply Forall_cons in Hpos as [Hsz Hpos].
  pose proof Hpos as [Ht Hpos']%Forall_cons. simpl in *.
  destruct ((_ =? _) && _) eqn:E.
  - apply IH.
    + constructor; [done|]. apply Forall_cons in Hc as [_ Hc]. done.
    + constructor; [simpl; unfold SIZEOF_PD; lia|done].
    + eapply apart_merge; [|done|done|done]. lia.
  - apply apart_cons in Hap as (Hap & _ & Hnext & _). specialize (IH b t Hs Hpos Hap).
    assert (forall y, y ∈ coalesce b t l -> b <= y.1) as Hge.
    { intros y Hy. assert (y.1 ∈ ((b, t) :: l).*1) as Hin.
      { eapply coalesce_sub. apply list_elem_of_fmap. by exists y. }
      simpl in Hin. apply elem_of_cons in Hin as [->|(z & -> & Hz)%list_elem_of_fmap]; [lia|].
      rewrite Forall_forall in Hb. specialize (Hb z Hz). unfold by_addr in Hb. simpl in Hb. lia. }
    assert (forall y, y ∈ coalesce b t l -> 0 <= y.2) as Hge2.
    { intros y Hy. pose proof (coalesce_pos l b t Hpos) as Hp. rewrite Forall_forall in Hp. by apply Hp. }
    apply Forall_cons in Hc as [Hcb _]. unfold by_addr in Hcb. simpl in Hcb.
    pose proof (Hnext (b, t) ltac:(set_solver) Hcb) as Hcb2. unfold extent in Hcb2. simpl in Hcb2.
    intros x y [->|Hx]%elem_of_cons [->|Hy]%elem_of_cons; simpl; unfold extent; simpl; intros Exy.
    + unfold SIZEOF_PD in *. lia.
    + specialize (Hge y Hy). assert (y.1 = b) as -> by lia. lia.
    + specialize (Hge x Hx). specialize (Hge2 x Hx). unfold SIZEOF_PD in *. lia.
    + apply IH; done.
Qed.

Lemma coalesce_gt0 l : forall c sz, Forall (fun x => 0 < x.2) ((c, sz) :: l) ->
  Forall (fun x => 0 < x.2) (coalesce c sz l).
Proof.
  induction l as [|[b t] l IH]; intros c sz Hpos; simpl; [done|].
  apply Forall_cons in Hpos as [Hsz Hpos]. pose proof Hpos as [Ht Hl]%Forall_cons. simpl in *.
  destruct (_ && _); [|constructor; [done|by apply IH]].
  apply IH. constructor; [simpl; unfold SIZEOF_PD; lia|done].
Qed.

(** What freeing does to the free list: it is ordered by address and fully
    coalesced, and no byte is lost unless there was a block without data. *)
Lemma merge_blocks_facts l R : Forall (fun x => 0 <= x.2) l -> apart (l ++ R) ->
  let l' := merge_blocks l in
  apart (l' ++ R) /\ StronglySorted by_addr l' /\ coalesced l' /\ total l' <= total l /\
  (Forall (fun x => 0 < x.2) l -> total l' = total l).
Proof.
  intros Hpos Hap l'.
  pose proof (sort_blocks_kept l []) as Hk1. simpl in Hk1. fold (sort_blocks l) in Hk1.
  pose proof (kept_apart _ _ _ Hk1 Hap) as Hap1. pose proof (kept_total _ _ Hk1) as [Ht1 Hp1].
  assert (Forall (fun x => 0 <= x.2) (sort_blocks l)) as Hpos1 by (by apply sort_blocks_Forall).
  assert (StronglySorted by_addr (sort_blocks l)) as Hs1.
  { apply sort_blocks_sorted; [constructor|]. apply apart_app_l in Hap. apply Hap. }
  assert (exists k, coalesce_all (sort_blocks l) = k /\ apart (k ++ R) /\ coalesced k /\
    total k = total (sort_blocks l) /\
    (Forall (fun x => 0 < x.2) (sort_blocks l) -> Forall (fun x => 0 < x.2) k)) as (k & Ek & Hap2 & Hc2 & Ht2 & Hg2).
  { eexists. split; [done|]. destruct (sort_blocks l) as [|[c sz] k]; simpl.
    - split_and!; [done| |done|done]. by intros x y ?%not_elem_of_nil.
    - split_and!; [by apply coalesce_apart| |apply coalesce_total|apply coalesce_gt0].
      apply coalesce_coalesced; [done|done|by eapply apart_app_l]. }
  unfold l', merge_blocks. rewrite Ek.
  pose proof (sort_blocks_kept k []) as Hk3. simpl in Hk3. fold (sort_blocks k) in Hk3.
  pose proof (kept_total _ _ Hk3) as [Ht3 Hp3]. split_and!.
  - by eapply kept_apart.
  - apply sort_blocks_sorted; [constructor|]. apply apart_app_l in Hap2. apply Hap2.
  - intros x y Hx Hy. destruct Hk3 as (d & Hd & _). apply Hc2; rewrite Hd; set_solver.
  - lia.
  - intros Hgt. specialize (Hp1 Hgt). rewrite Hp1 in Hgt.
    rewrite <- (total_perm _ _ (Hp3 (Hg2 Hgt))), Ht2. symmetry. by apply total_perm.
Qed.

Lemma free_block_facts x l R : Forall (fun x => 0 <= x.2) (x :: l) -> apart (x :: l ++ R) ->
  let l' := free_block x l in
  apart (l' ++ R) /\ StronglySorted by_addr l' /\ coalesced l' /\ total l' <= extent x + total l /\
  (Forall (fun x => 0 < x.2) (x :: l) -> total l' = extent x + total l).
Proof.
  intros Hpos Hap l'. unfold l', free_block. destruct (Z.eqb_spec x.2 0) as [E|E].
  - apply Forall_cons in Hpos as [_ Hpos]. apply apart_cons in Hap as [Hap _].
    destruct (merge_blocks_facts l R Hpos Hap) as (H1 & H2 & H3 & H4 & _). split_and!; try done.
    + unfold extent, SIZEOF_PD. lia.
    + intros [? _]%Forall_cons. lia.
  - pose proof (insert_block_perm x l) as Hp.
    destruct (merge_blocks_facts (insert_block x l) R) as (H1 & H2 & H3 & H4 & H5).
    + by rewrite Hp.
    + by rewrite Hp.
    + rewrite (total_perm _ _ Hp) in H4, H5. simpl in H4, H5. split_and!; try done.
      intros Hgt. apply H5. by rewrite Hp.
Qed.

(** ** Lists threaded through descriptors *)

(** The blocks [l] are linked from [h] on, and the last one points to [t]. *)
Fixpoint lseg (N : gmap Z (Z * Z)) (h : Z) (l : list block) (t : Z) : Prop :=
  match l with
  | [] => h = t
  | (a, sz) :: l => h = a /\ exists nx, N !! a = Some (sz, nx) /\ lseg N nx l t
  end.

Lemma lseg_app N l1 : forall h l2 t,
  lseg N h (l1 ++ l2) t <-> exists m, lseg N h l1 m /\ lseg N m l2 t.
Proof.
  induction l1 as [|[a sz] l1 IH]; intros h l2 t; simpl.
  { split; [by exists h|]. by intros (m & -> & ?). }
  split.
  - intros (-> & nx & Ha & (m & H1 & H2)%IH). exists m. eauto.
  - intros (m & (-> & nx & Ha & H1) & H2). split; [done|]. exists nx. split; [done|].
    apply IH. eauto.
Qed.

Lemma lseg_frame N N' l : forall h t,
  (forall a, a ∈ l.*1 -> N' !! a = N !! a) -> lseg N h l t -> lseg N' h l t.
Proof.
  induction l as [|[a sz] l IH]; intros h t Heq; simpl; [done|].
  intros (-> & nx & Ha & H). split; [done|]. exists nx. rewrite Heq by (simpl; set_solver).
  split; [done|]. apply IH; [|done]. intros. apply Heq. simpl. set_solver.
Qed.

Lemma lseg_insert N l h t b y : b ∉ l.*1 -> lseg N h l t -> lseg (<[b := y]> N) h l t.
Proof.
  intros Hb. apply lseg_frame. intros a Ha. apply lookup_insert_ne. by intros ->.
Qed.

Lemma lseg_elem N l : forall h t x, lseg N h l t -> x ∈ l -> exists nx, N !! x.1 = Some (x.2, nx).
Proof.
  induction l as [|[a sz] l IH]; intros h t x; simpl; [by intros _ ?%not_elem_of_nil|].
  intros (-> & nx & Ha & H) [->|Hx]%elem_of_cons; [by exists nx|]. by eapply IH.
Qed.

Lemma lseg_addr N l h t a : lseg N h l t -> a ∈ l.*1 -> is_Some (N !! a).
Proof.
  intros H ([b sz] & -> & Hx)%list_elem_of_fmap.
  destruct (lseg_elem _ _ _ _ _ H Hx) as [nx E]. by eexists.
Qed.

(** Redirecting the last block. *)
Lemma lseg_snoc N l a sz h t t' : a ∉ l.*1 -> lseg N h (l ++ [(a, sz)]) t ->
  lseg (<[a := (sz, t')]> N) h (l ++ [(a, sz)]) t'.
Proof.
  intros Ha. rewrite !lseg_app. intros (m & H1 & -> & nx & H2 & ->). exists a. split.
  - by apply lseg_insert.
  - simpl. split; [done|]. exists t'. by rewrite lookup_insert_eq.
Qed.

(** ** Descriptors in memory *)

Section Heap.
  Context {hartid : Z} {ok : Z -> Z -> Prop} {tr : Z -> Z} {inv : kernel -> Prop}.
  Context `{!HeapPages hartid ok tr inv}.

(** [N] gives the size and the successor of the known descriptors.  They do not
    overlap, and [s] differs from [s0] at most inside them. *)
Record rep (s0 : kernel) (N : gmap Z (Z * Z)) (s : kernel) : Prop := {
  rep_inv : inv s;
  rep_rest : s = with_mem (kmem_of s) s0;
  rep_ok : forall a x, N !! a = Some x -> ok a SIZEOF_PD;
  rep_sep : forall a b x y, N !! a = Some x -> N !! b = Some y -> a < b -> a + SIZEOF_PD <= b;
  rep_val : forall a sz nx, N !! a = Some (sz, nx) ->
    load64 (kmem_of s) (tr a + PD_SIZE) = sz /\ load64 (kmem_of s) (tr a + PD_NEXT) = nx;
  rep_frame : forall x, (forall a, is_Some (N !! a) -> x < tr a \/ tr a + SIZEOF_PD <= x) ->
    load8 (kmem_of s) x = load8 (kmem_of s0) x
}.

Lemma ok_pos a n : ok a n -> 0 < a < 2 ^ 31.
Proof using All. intros ?%hp_range. lia. Qed.

Lemma rep_pos s0 N s a x : rep s0 N s -> N !! a = Some x -> 0 < a < 2 ^ 31.
Proof using All. intros H Ha. by eapply ok_pos, rep_ok. Qed.

(** Two descriptors are apart in memory too. *)
Lemma rep_apart s0 N s a b x y : rep s0 N s -> N !! a = Some x -> N !! b = Some y -> a <> b ->
  tr a + SIZEOF_PD <= tr b \/ tr b + SIZEOF_PD <= tr a.
Proof using All.
  intros H Ha Hb Hab. pose proof (rep_ok _ _ _ H _ _ Ha). pose proof (rep_ok _ _ _ H _ _ Hb).
  destruct (Z.lt_total a b) as [Hl|[Hl|Hl]]; [|done|].
  - eapply hp_apart; [done|done|]. by eapply rep_sep.
  - destruct (hp_apart b SIZEOF_PD a SIZEOF_PD); [done|done| |by right|by left].
    by eapply rep_sep.
Qed.

(** A store inside one descriptor. *)
Lemma rep_store s0 N s a x y k d v : rep s0 N s -> N !! a = Some x ->
  0 <= d -> d + Z.of_nat k <= SIZEOF_PD ->
  let m := store_le k (kmem_of s) (tr a + d) v in
  load64 m (tr a + PD_SIZE) = y.1 -> load64 m (tr a + PD_NEXT) = y.2 ->
  rep s0 (<[a := y]> N) (with_mem m s).
Proof using All.
  intros H Ha Hd Hk m H1 H2.
  assert (forall b n, is_Some (<[a := n]> N !! b) <-> is_Some (N !! b)) as Hdom.
  { intros b n. rewrite lookup_insert. case_decide; [subst; rewrite Ha|]; naive_solver. }
  constructor.
  - eapply hp_store; [by eapply rep_inv|by eapply rep_ok|done|done].
  - rewrite kmem_of_with, (rep_rest _ _ _ H) at 1. done.
  - intros b z Hb. destruct (proj1 (Hdom b y)) as [z' Hz]; [by eexists|]. by eapply rep_ok.
  - intros b c z z' Hb Hc Hl.
    destruct (proj1 (Hdom b y)) as [w Hw]; [by eexists|].
    destruct (proj1 (Hdom c y)) as [w' Hw']; [by eexists|]. by eapply (rep_sep _ _ _ H b c).
  - intros b sz nx. rewrite kmem_of_with, lookup_insert. case_decide as E.
    + intros [= ->]. by subst b.
    + intros Hb. destruct (rep_val _ _ _ H _ _ _ Hb) as [<- <-].
      pose proof (rep_apart _ _ _ _ _ _ _ H Ha Hb E). unfold SIZEOF_PD, PD_SIZE, PD_NEXT in *.
      split; apply load_store_le_ne; lia.
  - intros z Hz. rewrite kmem_of_with. unfold m.
    rewrite load8_store_le_ne; [apply (rep_frame _ _ _ H)|].
    + intros b Hb. apply Hz. by apply Hdom.
    + destruct (Hz a); [by apply Hdom; eexists|left; lia|right; lia].
Qed.

(** A new descriptor, away from the others, at whatever its bytes say. *)
Lemma rep_extend s0 N s b : rep s0 N s -> ok b SIZEOF_PD ->
  (forall a x, N !! a = Some x -> a + SIZEOF_PD <= b \/ b + SIZEOF_PD <= a) ->
  exists x, rep s0 (<[b := x]> N) s.
Proof using All.
  intros H Hb Hsep.
  exists (load64 (kmem_of s) (tr b + PD_SIZE), load64 (kmem_of s) (tr b + PD_NEXT)).
  assert (N !! b = None) as Hn.
  { destruct (N !! b) eqn:E; [|done]. destruct (Hsep _ _ E); unfold SIZEOF_PD in *; lia. }
  destruct H as [H1 H2 H3 H4 H5 H6]. constructor; [done|done| | | |].
  - intros a x. rewrite lookup_insert. case_decide; [by subst|apply H3].
  - intros a c x y. rewrite !lookup_insert. unfold SIZEOF_PD in *.
    repeat case_decide; subst; intros Ha Hc Hl; [lia| | |by eapply H4].
    + destruct (Hsep _ _ Hc); lia.
    + destruct (Hsep _ _ Ha); lia.
  - intros a sz nx. rewrite lookup_insert. case_decide; [|apply H5]. intros [= <- <-]. by subst.
  - intros x Hx. apply H6. intros a Ha. apply Hx. rewrite lookup_insert. by case_decide.
Qed.

(** Forgetting what was known, and starting anew. *)
Lemma rep_restart s0 N N' s : rep s0 N s -> N' ⊆ N -> rep s N' s.
Proof using All.
  intros [H1 H2 H3 H4 H5 H6] Hsub. constructor; [done|by rewrite with_mem_id| | | |done].
  - intros a x Ha. eapply H3. by eapply lookup_weaken.
  - intros a b x y Ha Hb. eapply H4; by eapply lookup_weaken.
  - intros a sz nx Ha. eapply H5. by eapply lookup_weaken.
Qed.

(** *** The accessors *)

Lemma node_run {A} s0 N s a x (k : Z -> M kernel A) (z : M kernel A) :
  rep s0 N s -> N !! a = Some x ->
  (assert_hart hartid ;;; if a =? 0 then z else (let* pa := node_pa hartid a in k pa)) s = k (tr a) s.
Proof using All.
  intros H Ha. pose proof (rep_pos _ _ _ _ _ H Ha). unfold assert_hart, bind at 1.
  rewrite (proj2 (Z.ltb_lt hartid NCPU)) by apply hp_hart. simpl.
  rewrite (proj2 (Z.eqb_neq a 0)) by lia. unfold bind.
  erewrite hp_translate; [done|by eapply rep_inv|by eapply rep_ok].
Qed.

Lemma pd_dram s0 N s a x d n : rep s0 N s -> N !! a = Some x -> 0 <= d -> d + n <= SIZEOF_PD ->
  in_dram (tr a + d) n = true.
Proof using All.
  intros H Ha Hd Hn. pose proof (hp_dram a SIZEOF_PD) as Hi. unfold in_dram in *.
  specialize (Hi ltac:(by eapply rep_ok)). lia.
Qed.

Lemma get_next_run s0 N s a sz nx : rep s0 N s -> N !! a = Some (sz, nx) ->
  get_next hartid a s = Ok nx s.
Proof using All.
  intros H Ha. unfold get_next. rewrite (node_run _ _ _ _ _ _ _ H Ha).
  unfold kread64, zoom, read64. cbn [lget pmmL].
  rewrite (pd_dram _ _ _ _ _ PD_NEXT 8 H Ha) by (unfold PD_NEXT, SIZEOF_PD; lia).
  fold (kmem_of s). destruct (rep_val _ _ _ H _ _ _ Ha) as [_ ->]. f_equal.
  by destruct s as [[[] ?]].
Qed.

Lemma get_size_run s0 N s a sz nx : rep s0 N s -> N !! a = Some (sz, nx) ->
  get_size hartid a s = Ok sz s.
Proof using All.
  intros H Ha. unfold get_size. rewrite (node_run _ _ _ _ _ _ _ H Ha).
  unfold kread64, zoom, read64. cbn [lget pmmL].
  rewrite (pd_dram _ _ _ _ _ PD_SIZE 8 H Ha) by (unfold PD_SIZE, SIZEOF_PD; lia).
  fold (kmem_of s). destruct (rep_val _ _ _ H _ _ _ Ha) as [-> _]. f_equal.
  by destruct s as [[[] ?]].
Qed.

Lemma set_next_run s0 N s a sz nx n : rep s0 N s -> N !! a = Some (sz, nx) -> 0 <= n < 2 ^ 64 ->
  exists s', set_next hartid a n s = Ok tt s' /\ rep s0 (<[a := (sz, n)]> N) s'.
Proof using All.
  intros H Ha Hn. eexists. split.
  - unfold set_next. rewrite (node_run _ _ _ _ _ _ _ H Ha).
    unfold kwrite64, zoom, write64. cbn [lget pmmL].
    by rewrite (pd_dram _ _ _ _ _ PD_NEXT 8 H Ha) by (unfold PD_NEXT, SIZEOF_PD; lia).
  - apply (rep_store _ _ _ _ _ _ 8 PD_NEXT n H Ha); [done|done| |].
    + rewrite load_store_le_ne by (unfold PD_SIZE, PD_NEXT; lia). by eapply rep_val.
    + rewrite load64_store64_eq. by apply u64_small.
Qed.

Lemma set_size_run s0 N s a sz nx n : rep s0 N s -> N !! a = Some (sz, nx) -> 0 <= n < 2 ^ 64 ->
  exists s', set_size hartid a n s = Ok tt s' /\ rep s0 (<[a := (n, nx)]> N) s'.
Proof using All.
  intros H Ha Hn. eexists. split.
  - unfold set_size. rewrite (node_run _ _ _ _ _ _ _ H Ha).
    unfold kwrite64, zoom, write64. cbn [lget pmmL].
    by rewrite (pd_dram _ _ _ _ _ PD_SIZE 8 H Ha) by (unfold PD_SIZE, SIZEOF_PD; lia).
  - apply (rep_store _ _ _ _ _ _ 8 PD_SIZE n H Ha); [done|done| |].
    + rewrite load64_store64_eq. by apply u64_small.
    + rewrite load_store_le_ne by (unfold PD_SIZE, PD_NEXT; lia). by eapply rep_val.
Qed.

Lemma set_flag_run s0 N s a x n : rep s0 N s -> N !! a = Some x ->
  exists s', set_flag hartid a n s = Ok tt s' /\ rep s0 N s'.
Proof using All.
  intros H Ha. eexists. split.
  - unfold set_flag. rewrite (node_run _ _ _ _ _ _ _ H Ha).
    unfold kwrite32, zoom, write32. cbn [lget pmmL].
    by rewrite (pd_dram _ _ _ _ _ PD_FLAG 4 H Ha) by (unfold PD_FLAG, SIZEOF_PD; lia).
  - destruct x as [sz nx]. destruct (rep_val _ _ _ H _ _ _ Ha) as [E1 E2].
    rewrite <- (insert_id N a (sz, nx)) by done.
    apply (rep_store _ _ _ _ _ _ 4 PD_FLAG n H Ha); [done|done| |];
      rewrite load_store_le_ne by (unfold PD_SIZE, PD_NEXT, PD_FLAG; lia); done.
Qed.

Lemma wp_get_next s0 N s a sz nx Q : rep s0 N s -> N !! a = Some (sz, nx) -> Q nx s ->
  wp (get_next hartid a) Q s.
Proof using All. intros H Ha HQ. eapply wp_of_Ok; [by eapply get_next_run|done]. Qed.

Lemma wp_get_size s0 N s a sz nx Q : rep s0 N s -> N !! a = Some (sz, nx) -> Q sz s ->
  wp (get_size hartid a) Q s.
Proof using All. intros H Ha HQ. eapply wp_of_Ok; [by eapply get_size_run|done]. Qed.

Lemma wp_set_next s0 N s a sz nx n Q : rep s0 N s -> N !! a = Some (sz, nx) -> 0 <= n < 2 ^ 64 ->
  (forall s', rep s0 (<[a := (sz, n)]> N) s' -> Q tt s') -> wp (set_next hartid a n) Q s.
Proof using All.
  intros H Ha Hn HQ. destruct (set_next_run _ _ _ _ _ _ _ H Ha Hn) as (s' & E & H').
  eapply wp_of_Ok; [done|]. by apply HQ.
Qed.

Lemma wp_set_size s0 N s a sz nx n Q : rep s0 N s -> N !! a = Some (sz, nx) -> 0 <= n < 2 ^ 64 ->
  (forall s', rep s0 (<[a := (n, nx)]> N) s' -> Q tt s') -> wp (set_size hartid a n) Q s.
Proof using All.
  intros H Ha Hn HQ. destruct (set_size_run _ _ _ _ _ _ _ H Ha Hn) as (s' & E & H').
  eapply wp_of_Ok; [done|]. by apply HQ.
Qed.

Lemma wp_set_flag s0 N s a x n Q : rep s0 N s -> N !! a = Some x ->
  (forall s', rep s0 N s' -> Q tt s') -> wp (set_flag hartid a n) Q s.
Proof using All.
  intros H Ha HQ. destruct (set_flag_run _ _ _ _ _ n H Ha) as (s' & E & H').
  eapply wp_of_Ok; [done|]. by apply HQ.
Qed.

Lemma lseg_head s0 N s h l : rep s0 N s -> lseg N h l 0 -> 0 <= h < 2 ^ 31 /\ (h = 0 <-> l = []).
Proof using All.
  intros H. destruct l as [|[a sz] l]; simpl; [by intros ->|].
  intros (-> & nx & Ha & _). pose proof (rep_pos _ _ _ _ _ H Ha). split; [lia|].
  split; [lia|done].
Qed.

Definition last_addr (l : list block) : Z := default 0 (fst <$> last l).

(** The successor of the last block of a segment becomes [n], or [n] the head. *)
Lemma relink s0 N s fh pre a n Q :
  rep s0 N s -> lseg N fh pre a -> NoDup pre.*1 -> 0 <= n < 2 ^ 64 ->
  (forall N' fh' s', rep s0 N' s' -> lseg N' fh' pre n ->
    (forall b, b ∉ pre.*1 -> N' !! b = N !! b) ->
    (forall b, is_Some (N' !! b) <-> is_Some (N !! b)) -> Q fh' s') ->
  wp (if negb (last_addr pre =? 0) then (set_next hartid (last_addr pre) n ;;; ret fh) else ret n) Q s.
Proof using All.
  intros H Hl Hnd Hn HQ. unfold last_addr.
  destruct pre as [|[p sz] pre' _] using rev_ind; [by apply (HQ N n s)|].
  rewrite last_snoc. simpl.
  assert (exists nx, N !! p = Some (sz, nx)) as [nx Hp].
  { apply (lseg_elem _ _ _ _ (p, sz) Hl). set_solver. }
  pose proof (rep_pos _ _ _ _ _ H Hp). rewrite (proj2 (Z.eqb_neq p 0)) by lia. simpl.
  rewrite fmap_app in Hnd. apply NoDup_app in Hnd as (Hnd & Hni & _).
  apply wp_bind. eapply wp_set_next; [done|done|done|]. intros s' H'. apply wp_ret.
  eapply HQ; [done| | |].
  - eapply lseg_snoc; [|done]. intros Hin. apply (Hni _ Hin). set_solver.
  - intros b Hb. rewrite lookup_insert_ne; [done|]. intros ->. apply Hb. rewrite fmap_app. set_solver.
  - intros b. rewrite lookup_insert. case_decide; [subst; rewrite Hp|]; naive_solver.
Qed.

(** *** Allocation *)

Definition block_ok (x : block) : Prop := 0 <= x.2 /\ ok x.1 (extent x).

(** The descriptor of the rest of a block that is split. *)
Lemma split_descriptor s0 N s a sz size l : rep s0 N s -> 0 < size ->
  size + SIZEOF_PD <= sz -> block_ok (a, sz) -> (a, sz) ∈ l -> apart l ->
  (forall b x, N !! b = Some x -> b ∈ l.*1) ->
  let b := a + SIZEOF_PD + size in
  0 < b < 2 ^ 31 /\ b <> a /\ (b ∉ l.*1) /\ exists x, rep s0 (<[b := x]> N) s.
Proof using All.
  intros H Hs Hsz [_ Ho] Hin [Hnd Hap] Hdom b. simpl in Ho.
  pose proof (hp_range _ _ Ho) as (? & ? & ?). unfold extent, SIZEOF_PD in *. simpl in *.
  assert (forall y, y ∈ l -> y.1 + 24 <= b \/ b + 24 <= y.1) as Hfar.
  { intros y Hy. destruct (Z.lt_total a y.1) as [Hl|[Hl|Hl]]; [| left; unfold b; lia|].
    - right. pose proof (Hap _ _ Hin Hy Hl). unfold extent in *. simpl in *. unfold b. lia.
    - left. unfold b. lia. }
  split; [unfold b; lia|]. split; [unfold b; lia|]. split.
  { intros ([c t] & Hc & Hy)%list_elem_of_fmap. destruct (Hfar _ Hy); simpl in *; lia. }
  apply rep_extend; [done| |].
  - destruct (hp_part a (24 + sz) (24 + size) 24 Ho) as [Hb _]; [lia|lia|lia|].
    unfold b. by rewrite <- Z.add_assoc.
  - intros c x Hc%Hdom. apply list_elem_of_fmap in Hc as (y & -> & Hy). by apply Hfar.
Qed.

Lemma nodup_parts (pre l al : list block) a sz : NoDup ((pre ++ ((a, sz) :: l) ++ al).*1) ->
  NoDup pre.*1 /\ (a ∉ pre.*1) /\ (a ∉ l.*1) /\ (a ∉ al.*1) /\
  (forall b, b ∈ pre.*1 -> (b ∉ l.*1) /\ (b ∉ al.*1)).
Proof using.
  rewrite !fmap_app, fmap_cons. simpl. intros (H1 & H2 & [H3 H4]%NoDup_cons)%NoDup_app.
  setoid_rewrite elem_of_cons in H2. setoid_rewrite elem_of_app in H2.
  rewrite elem_of_app in H3. split; [done|]. split; [intros ?%H2; tauto|].
  split; [tauto|]. split; [tauto|]. intros b Hb. specialize (H2 b Hb). tauto.
Qed.

(** The block is exactly right: it moves to the allocated list. *)
Lemma alloc_exact s0 N s fh pre a size nx l ah al Q :
  rep s0 N s -> 0 < size < 2 ^ 31 -> N !! a = Some (size, nx) ->
  NoDup ((pre ++ ((a, size) :: l) ++ al).*1) ->
  lseg N fh pre a -> lseg N nx l 0 -> lseg N ah al 0 ->
  (forall N' fh' s', rep s0 N' s' -> lseg N' fh' (pre ++ l) 0 -> lseg N' a ((a, size) :: al) 0 ->
    (forall b, is_Some (N' !! b) -> is_Some (N !! b)) -> Q (inr (a, fh', a)) s') ->
  wp (set_flag hartid a 1 ;;; set_size hartid a 0 ;;;
      let* n := get_next hartid a in
      let* fh' := if negb (last_addr pre =? 0) then (set_next hartid (last_addr pre) n ;;; ret fh)
                  else ret n in
      set_next hartid a ah ;;; set_size hartid a size ;;; ret (inr (a, fh', a)))
    (Q : (Z * Z + Z * Z * Z) -> kernel -> Prop) s.
Proof using All.
  intros H Hsize Ha (Hnd & Hap & Hal & Haal & Hdis)%nodup_parts Hpre Hl Hah HQ.
  pose proof (lseg_head _ _ _ _ _ H Hl) as [Hnx _]. pose proof (lseg_head _ _ _ _ _ H Hah) as [Hah' _].
  apply wp_bind. eapply wp_set_flag; [done|done|]. intros s1 H1.
  apply wp_bind. eapply wp_set_size; [done|done|done|]. intros s2 H2.
  apply wp_bind. eapply wp_get_next; [done|by rewrite lookup_insert_eq|].
  apply wp_bind. eapply relink; [done|by apply lseg_insert|done|lia|].
  intros N' fh' s3 H3 Hpre' Hout Hdom.
  assert (N' !! a = Some (0, nx)) as Ha' by (rewrite Hout by done; by rewrite lookup_insert_eq).
  apply wp_bind. eapply wp_set_next; [done|done|lia|]. intros s4 H4.
  apply wp_bind. eapply wp_set_size; [done|by rewrite lookup_insert_eq|lia|]. intros s5 H5.
  apply wp_ret. rewrite insert_insert_eq in H5. eapply HQ; [done| | |].
  - apply lseg_app. exists nx. split; [by apply lseg_insert|]. apply lseg_insert; [done|].
    eapply lseg_frame; [|done]. intros b Hb. rewrite Hout by (intros ?%Hdis; tauto).
    by rewrite lookup_insert_ne by (intros ->; done).
  - simpl. split; [done|]. exists ah. rewrite lookup_insert_eq. split; [done|].
    apply lseg_insert; [done|]. eapply lseg_frame; [|done]. intros b Hb.
    rewrite Hout by (intros ?%Hdis; tauto). by rewrite lookup_insert_ne by (intros ->; done).
  - intros b. rewrite lookup_insert. case_decide; [subst; by rewrite Ha|].
    rewrite Hdom, lookup_insert_ne by done. done.
Qed.

(** The block is split: its rest takes its place in the free list. *)
Lemma alloc_split s0 N s fh pre a sz size nx l ah al Q :
  rep s0 N s -> 0 < size < 2 ^ 31 -> size + SIZEOF_PD <= sz -> N !! a = Some (sz, nx) ->
  block_ok (a, sz) -> apart (pre ++ ((a, sz) :: l) ++ al) ->
  (forall b x, N !! b = Some x -> b ∈ (pre ++ ((a, sz) :: l) ++ al).*1) ->
  lseg N fh pre a -> lseg N nx l 0 -> lseg N ah al 0 ->
  (forall N' fh' s', rep s0 N' s' ->
    lseg N' fh' (pre ++ (a + SIZEOF_PD + size, sz - size - SIZEOF_PD) :: l) 0 ->
    lseg N' a ((a, size) :: al) 0 ->
    (forall b, is_Some (N' !! b) -> is_Some (N !! b) \/ b = a + SIZEOF_PD + size) ->
    Q (inr (a, fh', a)) s') ->
  wp (let* total := get_size hartid a in
      let* next_free := get_next hartid a in
      let new_free := u64 (a + SIZEOF_PD + size) in
      set_flag hartid new_free 0 ;;;
      set_size hartid new_free (u64 (total - size - SIZEOF_PD)) ;;;
      set_next hartid new_free next_free ;;;
      let* fh' := if negb (last_addr pre =? 0)
                  then (set_next hartid (last_addr pre) new_free ;;; ret fh)
                  else ret new_free in
      set_flag hartid a 1 ;;; set_size hartid a size ;;;
      set_next hartid a ah ;;; ret (inr (a, fh', a)))
    (Q : (Z * Z + Z * Z * Z) -> kernel -> Prop) s.
Proof using All.
  intros H Hsize Hge Ha Hok Hap Hdom Hpre Hl Hah HQ.
  assert ((a, sz) ∈ pre ++ ((a, sz) :: l) ++ al) as Hin by set_solver.
  destruct (split_descriptor _ _ _ _ _ _ _ H (proj1 Hsize) Hge Hok Hin Hap Hdom) as (Hb & Hba & Hbl & x & Hx).
  pose proof (hp_range _ _ (proj2 Hok)) as (_ & Ha0 & Hr). unfold extent in Hr. simpl in Hr, Ha0.
  pose proof (lseg_head _ _ _ _ _ H Hl) as [Hnx _]. pose proof (lseg_head _ _ _ _ _ H Hah) as [Hah' _].
  destruct (nodup_parts _ _ _ _ _ (proj1 Hap)) as (Hnd & Hapre & Hal & Haal & Hdis).
  set (b := a + SIZEOF_PD + size) in *.
  rewrite !fmap_app, fmap_cons, !elem_of_app, elem_of_cons in Hbl.
  apply wp_bind. eapply wp_get_size; [exact H|done|].
  apply wp_bind. eapply wp_get_next; [exact H|done|]. cbv zeta.
  rewrite !u64_small by (unfold SIZEOF_PD in *; lia).
  apply wp_bind. eapply wp_set_flag; [exact Hx|by rewrite lookup_insert_eq|]. intros s1 H1.
  destruct x as [x1 x2].
  apply wp_bind. eapply wp_set_size; [done|by rewrite lookup_insert_eq|unfold SIZEOF_PD in *; lia|].
  intros s2 H2. rewrite insert_insert_eq in H2.
  apply wp_bind. eapply wp_set_next; [done|by rewrite lookup_insert_eq|lia|].
  intros s3 H3. rewrite insert_insert_eq in H3.
  apply wp_bind. eapply relink; [done|apply lseg_insert; [tauto|done]|done|lia|].
  intros N' fh' s4 H4 Hpre' Hout Hdom'.
  assert (N' !! a = Some (sz, nx)) as Ha' by (rewrite Hout, lookup_insert_ne by done; done).
  assert (N' !! b = Some (sz - size - SIZEOF_PD, nx)) as Hb'.
  { rewrite Hout by tauto. by rewrite lookup_insert_eq. }
  apply wp_bind. eapply wp_set_flag; [done|done|]. intros s5 H5.
  apply wp_bind. eapply wp_set_size; [done|done|lia|]. intros s6 H6.
  apply wp_bind. eapply wp_set_next; [done|by rewrite lookup_insert_eq|lia|]. intros s7 H7.
  rewrite insert_insert_eq in H7. apply wp_ret. eapply HQ; [done| | |].
  - apply lseg_app. exists b. split; [by apply lseg_insert|]. simpl. split; [done|].
    exists nx. rewrite lookup_insert_ne by done. split; [done|]. apply lseg_insert; [done|].
    eapply lseg_frame; [|done]. intros c Hc. rewrite Hout by (intros ?%Hdis; tauto).
    rewrite lookup_insert_ne; [done|]. intros ->. tauto.
  - simpl. split; [done|]. exists ah. rewrite lookup_insert_eq. split; [done|].
    apply lseg_insert; [done|]. eapply lseg_frame; [|done]. intros c Hc.
    rewrite Hout by (intros ?%Hdis; tauto). rewrite lookup_insert_ne; [done|]. intros ->. tauto.
  - intros c. rewrite lookup_insert. case_decide; [subst; rewrite Ha; eauto|].
    rewrite Hdom'. rewrite lookup_insert. case_decide; [by right|by left].
Qed.

Lemma alloc_loop size ah al l : 0 < size < 2 ^ 31 -> forall fuel pre s0 N s item fh,
  rep s0 N s -> lseg N fh pre item -> lseg N item l 0 -> lseg N ah al 0 ->
  apart (pre ++ l ++ al) -> Forall block_ok l ->
  (forall b x, N !! b = Some x -> b ∈ (pre ++ l ++ al).*1) -> (length l < fuel)%nat ->
  wp (loop fuel (first_fit_round hartid size fh ah) (last_addr pre, item))
    (fun r s' =>
      match first_fit size l with
      | None => r = (0, fh, ah) /\ s' = s
      | Some (l', a) => exists N' fh', r = (a, fh', a) /\ rep s0 N' s' /\
          lseg N' fh' (pre ++ l') 0 /\ lseg N' a ((a, size) :: al) 0 /\
          (forall b, is_Some (N' !! b) -> is_Some (N !! b) \/ inside (pre ++ l) b)
      end) s.
Proof using All.
  intros Hsize. induction l as [|[a sz] l IH]; intros fuel pre s0 N s item fh H Hpre Hl Hal Hap Hok Hdom Hf;
    (destruct fuel as [|fuel]; [simpl in Hf; lia|]); cbn [loop first_fit_round].
  { simpl in Hl. subst item. simpl. wp_run. done. }
  destruct Hl as (-> & nx & Ha & Hl). apply Forall_cons in Hok as [Hok Hoks].
  pose proof (rep_pos _ _ _ _ _ H Ha) as Hpos. rewrite (proj2 (Z.eqb_neq a 0)) by lia.
  pose proof (hp_range _ _ (proj2 Hok)) as (_ & _ & Hr). unfold extent in Hr. simpl in Hr.
  destruct Hok as [Hsz Ho]. simpl in Hsz.
  assert (NoDup ((pre ++ (a, sz) :: l ++ al).*1)) as Hnd by apply Hap.
  do 2 apply wp_bind. eapply wp_get_size; [done|done|]. simpl first_fit.
  destruct (Z.eqb_spec sz size) as [->|Hne].
  - eapply alloc_exact; [done|lia|done|done|done|done|done|]. intros N' fh' s' H' H1 H2 Hd.
    exists N', fh'. do 4 (split; [done|]). auto.
  - rewrite u64_small by (unfold SIZEOF_PD; lia).
    destruct (Z.ltb_spec sz (size + SIZEOF_PD)) as [Hlt|Hge].
    + apply wp_bind. eapply wp_get_next; [done|done|]. apply wp_ret.
      pose proof (IH fuel (pre ++ [(a, sz)]) s0 N s nx fh) as IHl.
      unfold last_addr in IHl at 1. rewrite last_snoc in IHl. simpl in IHl.
      eapply wp_conseq; [apply IHl|].
      * done.
      * apply lseg_app. exists a. split; [done|]. simpl. eauto.
      * done.
      * done.
      * by rewrite <- app_assoc.
      * done.
      * intros b x Hb. rewrite <- app_assoc. by eapply Hdom.
      * simpl in Hf. lia.
      * intros r s'. simpl. destruct (first_fit size l) as [[l' b]|]; simpl; [|done].
        intros (N' & fh' & -> & ? & Hs & ? & Hd).
        rewrite <- app_assoc in Hs, Hd. by exists N', fh'.
    + eapply alloc_split; [done|lia|done|done|done|done|done|done|done|done|].
      intros N' fh' s' H' H1 H2 Hd. exists N', fh'. do 4 (split; [done|]).
      intros b [?| ->]%Hd; [by left|right]. exists (a, sz), (SIZEOF_PD + size).
      unfold extent, SIZEOF_PD in *. simpl. split; [set_solver|lia].
Qed.

(** ** The heap

    The heads of the two lists are [fh] and [ah]; [fl] are the free blocks and
    [al] the allocated ones, in the order of the lists. *)

Definition heap_at (s : kernel) (fh ah : Z) (fl al : list block) : Prop :=
  exists N, rep s N s /\ lseg N fh fl 0 /\ lseg N ah al 0 /\
    forall b x, N !! b = Some x -> b ∈ (fl ++ al).*1.

(** The blocks are apart, and each lies in one heap page. *)
Definition heap_wf (fl al : list block) : Prop :=
  apart (fl ++ al) /\ Forall block_ok (fl ++ al).

(** The data of the blocks of [al] is the same in both states. *)
Definition data_kept (s s' : kernel) (al : list block) : Prop :=
  forall x i, x ∈ al -> SIZEOF_PD <= i < extent x ->
    load8 (kmem_of s') (tr x.1 + i) = load8 (kmem_of s) (tr x.1 + i).

Lemma rep_heap_at s0 N s fh ah fl al : rep s0 N s -> lseg N fh fl 0 -> lseg N ah al 0 ->
  heap_at s fh ah fl al.
Proof using All.
  intros H Hf Ha. set (P := fun p : Z * (Z * Z) => p.1 ∈ (fl ++ al).*1).
  exists (filter P N).
  assert (forall a, a ∈ (fl ++ al).*1 -> filter P N !! a = N !! a) as Heq.
  { intros a Hin. destruct (N !! a) as [x|] eqn:E.
    - apply map_lookup_filter_Some. done.
    - apply map_lookup_filter_None. by left. }
  split; [eapply rep_restart; [done|apply map_filter_subseteq]|].
  split_and!.
  - eapply lseg_frame; [|done]. intros a Hin. apply Heq. rewrite fmap_app. set_solver.
  - eapply lseg_frame; [|done]. intros a Hin. apply Heq. rewrite fmap_app. set_solver.
  - intros b x [_ Hb]%map_lookup_filter_Some. done.
Qed.

Lemma frame_data s0 N s fl al : rep s0 N s -> heap_wf fl al ->
  (forall b, is_Some (N !! b) -> b ∈ al.*1 \/ inside fl b) -> data_kept s0 s al.
Proof using All.
  intros H [[Hnd Hap] Hok] Hdom x i Hx Hi. apply (rep_frame _ _ _ H). intros b Hb.
  rewrite Forall_forall in Hok.
  assert (x ∈ fl ++ al) as Hxin by set_solver. destruct (Hok x Hxin) as [Hx0 Hxo].
  assert (forall y, y ∈ fl ++ al -> y <> x ->
    tr x.1 + extent x <= tr y.1 \/ tr y.1 + extent y <= tr x.1) as Hfar.
  { intros y Hy Hne. destruct (Hok y Hy) as [Hy0 Hyo].
    destruct (Z.lt_total y.1 x.1) as [Hl|[E|Hl]].
    - destruct (hp_apart _ _ _ _ Hyo Hxo); [by apply Hap|by right|by left].
    - exfalso. apply Hne. by eapply same_block.
    - destruct (hp_apart _ _ _ _ Hxo Hyo); [by apply Hap|by left|by right]. }
  destruct (Hdom b Hb) as [Hin|(y & d & Hy & -> & Hd & Hd')].
  - apply list_elem_of_fmap in Hin as (y & -> & Hy). destruct (decide (y = x)) as [->|Hne]; [lia|].
    destruct (Hok y) as [Hy0 _]; [set_solver|].
    destruct (Hfar y); [set_solver|done| |]; unfold extent in *; lia.
  - destruct (Hok y) as [Hy0 Hyo]; [set_solver|].
    destruct (hp_part _ _ d SIZEOF_PD Hyo) as [_ ->]; [lia|done|lia|].
    assert (y <> x).
    { intros ->. rewrite fmap_app in Hnd. apply NoDup_app in Hnd as (_ & Hnd & _).
      apply (Hnd x.1); apply list_elem_of_fmap; by exists x. }
    destruct (Hfar y); [set_solver|done| |]; lia.
Qed.

(** The heap stays well formed. *)
Lemma first_fit_wf size fl al fl' a : 0 < size -> heap_wf fl al -> first_fit size fl = Some (fl', a) ->
  heap_wf fl' ((a, size) :: al) /\ total fl = total fl' + (SIZEOF_PD + size).
Proof using All.
  intros Hs [Hap Hok] (pre & sz & post & -> & _ & Hc)%first_fit_Some.
  set (R := pre ++ post ++ al).
  assert ((pre ++ (a, sz) :: post) ++ al ≡ₚ (a, sz) :: R) as E0.
  { unfold R. rewrite <- app_assoc. simpl. by rewrite <- Permutation_middle. }
  rewrite E0 in Hap, Hok. apply Forall_cons in Hok as [[Hz Ho] HR]. simpl in Hz, Ho.
  destruct Hc as [[-> ->]|[Hge ->]].
  - assert ((pre ++ post) ++ (a, size) :: al ≡ₚ (a, size) :: R) as E1.
    { unfold R. rewrite <- Permutation_middle. by rewrite <- app_assoc. }
    unfold heap_wf. rewrite E1. split; [|rewrite !total_app; simpl; unfold extent; simpl; lia].
    split; [done|]. constructor; [by split|done].
  - set (b := a + SIZEOF_PD + size). set (t := sz - size - SIZEOF_PD).
    assert ((pre ++ (b, t) :: post) ++ (a, size) :: al ≡ₚ (a, size) :: (b, t) :: R) as E1.
    { unfold R. rewrite <- Permutation_middle, <- app_assoc. simpl. by rewrite <- Permutation_middle. }
    unfold heap_wf. rewrite E1.
    split; [|rewrite !total_app; simpl; unfold extent, t; simpl; lia].
    split; [by apply apart_split|]. unfold extent in Ho. simpl in Ho.
    destruct (hp_part a _ 0 (SIZEOF_PD + size) Ho) as [H1 _];
      [lia|unfold SIZEOF_PD; lia|unfold SIZEOF_PD in *; lia|].
    destruct (hp_part a _ (SIZEOF_PD + size) (SIZEOF_PD + t) Ho) as [H2 _];
      [unfold SIZEOF_PD; lia|unfold t; unfold SIZEOF_PD in *; lia|unfold t; lia|].
    rewrite Z.add_0_r in H1. rewrite Z.add_assoc in H2.
    constructor; [split; [simpl; lia|done]|]. constructor; [split; [simpl; unfold t; lia|done]|done].
Qed.

Lemma heap_nodes s N fh ah fl al : rep s N s -> lseg N fh fl 0 -> lseg N ah al 0 ->
  (forall b x, N !! b = Some x -> b ∈ (fl ++ al).*1) -> Forall block_ok fl ->
  forall b, is_Some (N !! b) -> b ∈ al.*1 \/ inside fl b.
Proof using All.
  intros H Hf Ha Hdom Hok b [x Hb]. apply Hdom in Hb. rewrite fmap_app, elem_of_app in Hb.
  destruct Hb as [Hb|Hb]; [right|by left]. apply list_elem_of_fmap in Hb as (y & -> & Hy).
  exists y, 0. rewrite Forall_forall in Hok. destruct (Hok y Hy) as [H0 _].
  unfold extent. split; [done|]. lia.
Qed.

Lemma first_fit_alloc_run fuel size s fh ah fl al : 0 < size < 2 ^ 31 ->
  heap_at s fh ah fl al -> heap_wf fl al -> (length fl < fuel)%nat ->
  exists r fh' ah' s', first_fit_alloc fuel hartid size fh ah s = Ok (r, fh', ah') s' /\
    match first_fit size fl with
    | None => r = 0 /\ fh' = fh /\ ah' = ah /\ s' = s
    | Some (fl', a) => r = a /\ ah' = a /\ heap_at s' fh' ah' fl' ((a, size) :: al) /\
        data_kept s s' al
    end.
Proof using All.
  intros Hs (N & H & Hf & Ha & Hdom) Hwf Hfuel. unfold first_fit_alloc.
  rewrite (proj2 (Z.eqb_neq size 0)), orb_false_r by lia.
  destruct (lseg_head _ _ _ _ _ H Hf) as [_ Hz].
  destruct (Z.eqb_spec fh 0) as [E|E].
  { exists 0, fh, ah, s. split; [done|]. by rewrite (proj1 Hz E). }
  destruct (proj1 (Forall_app _ _ _) (proj2 Hwf)) as [Hokf _].
  pose proof (alloc_loop size ah al fl Hs fuel [] s N s fh fh H eq_refl Hf Ha (proj1 Hwf) Hokf Hdom Hfuel)
    as (r & s' & Er & HQ)%wp_Ok.
  unfold last_addr in Er. simpl in Er. destruct (first_fit size fl) as [[fl' a]|] eqn:Eff.
  - destruct HQ as (N' & fh' & -> & H' & Hf' & Ha' & Hd). exists a, fh', a, s'. split; [done|].
    do 2 (split; [done|]). split; [by eapply rep_heap_at|].
    eapply frame_data; [done|done|]. intros b [Hb|Hb]%Hd; [|by right].
    by eapply heap_nodes.
  - destruct HQ as [-> ->]. by exists 0, fh, ah, s.
Qed.

(** *** Ordered insertion *)

(** [N'] differs from [N] at most in the descriptors [l], and has the same ones. *)
Definition relinks (l : list Z) (N N' : gmap Z (Z * Z)) : Prop :=
  (forall a, a ∉ l -> N' !! a = N !! a) /\ (forall a, is_Some (N' !! a) <-> is_Some (N !! a)).

Lemma relinks_refl l N : relinks l N N.
Proof using. done. Qed.

Lemma relinks_trans l N1 N2 N3 : relinks l N1 N2 -> relinks l N2 N3 -> relinks l N1 N3.
Proof using.
  intros [H1 H2] [H3 H4]. split; intros a; [|by rewrite H4, H2].
  intros Ha. by rewrite H3, H1.
Qed.

Lemma relinks_mono l l' N N' : (forall a, a ∈ l -> a ∈ l') -> relinks l N N' -> relinks l' N N'.
Proof using. intros Hl [H1 H2]. split; [|done]. intros a Ha. apply H1. auto. Qed.

Lemma relinks_insert l N a x y : a ∈ l -> N !! a = Some x -> relinks l N (<[a := y]> N).
Proof using.
  intros Hl Ha. split; intros b.
  - intros Hb. rewrite lookup_insert_ne; [done|]. by intros ->.
  - rewrite lookup_insert. case_decide; [subst; rewrite Ha|]; naive_solver.
Qed.

Lemma relinks_lseg l N N' k h t : relinks l N N' -> (forall a, a ∈ k.*1 -> a ∉ l) ->
  lseg N h k t -> lseg N' h k t.
Proof using. intros [H1 _] Hk. apply lseg_frame. intros a Ha. apply H1. auto. Qed.

(** The search for the place of [b]. *)
Definition sort_round (b : Z) (x : Z * Z) : M kernel (Z * Z + Z * Z) :=
  let '(prev, c) := x in
  let* n := get_next hartid c in
  if negb (n =? 0) && (pd_first_fit_cmp c b <? 0) then
    (let* n := get_next hartid c in ret (inl (c, n)))
  else ret (inr (prev, c)).

Lemma sort_search b s0 N s : 0 < b < 2 ^ 31 -> rep s0 N s -> forall post fuel pre c t h prev,
  lseg N h (pre ++ (c, t) :: post) 0 -> Forall (fun z => z.1 < b) pre ->
  (pre <> [] -> prev = last_addr pre) -> (length post < fuel)%nat ->
  wp (loop fuel (sort_round b) (prev, c)) (fun '(prev', c') s' => s' = s /\
    exists pre' t' post', pre ++ (c, t) :: post = pre' ++ (c', t') :: post' /\
      Forall (fun z => z.1 < b) pre' /\ (pre' <> [] -> prev' = last_addr pre') /\
      (post' = [] \/ b <= c')) s.
Proof using All.
  intros Hb H. induction post as [|[d u] post IH]; intros fuel pre c t h prev Hl Hlt Hprev Hf;
    (destruct fuel as [|fuel]; [simpl in Hf; lia|]); cbn [loop sort_round];
    apply lseg_app in Hl as (m & Hpre & -> & nx & Hc & Hl);
    pose proof (rep_pos _ _ _ _ _ H Hc); rewrite pd_first_fit_cmp_eq by done;
    do 2 apply wp_bind; (eapply wp_get_next; [done|done|]).
  - simpl in Hl. subst nx. simpl. split; [done|]. exists pre, t, []. auto.
  - destruct Hl as (-> & nx' & Hd & Hl). pose proof (rep_pos _ _ _ _ _ H Hd).
    rewrite (proj2 (Z.eqb_neq d 0)) by lia. simpl.
    destruct (Z.ltb_spec (c - b) 0).
    + apply wp_bind. eapply wp_get_next; [done|done|]. apply wp_ret.
      pose proof (IH fuel (pre ++ [(c, t)]) d u h c) as IHl. rewrite <- app_assoc in IHl.
      apply IHl; [|apply Forall_app; split; [done|repeat constructor; simpl; lia]| |simpl in Hf; lia].
      * apply lseg_app. exists c. split; [done|]. simpl. split; [done|]. exists d.
        split; [done|]. split; [done|]. by exists nx'.
      * intros _. unfold last_addr. by rewrite last_snoc.
    + apply wp_ret. simpl. split; [done|]. exists pre, t, ((d, u) :: post).
      split; [done|]. split; [done|]. split; [done|]. right. lia.
Qed.

(** The two ways of linking [b] in after the search. *)
Lemma link_last s0 N s b sz h0 h l c t Q : rep s0 N s -> N !! b = Some (sz, h0) ->
  lseg N h (l ++ [(c, t)]) 0 -> NoDup (b :: (l ++ [(c, t)]).*1) ->
  (forall N' s', rep s0 N' s' -> lseg N' h ((l ++ [(c, t)]) ++ [(b, sz)]) 0 ->
    relinks (b :: (l ++ [(c, t)]).*1) N N' -> Q h s') ->
  wp ((set_next hartid c b ;;; set_next hartid b 0) ;;; ret h) Q s.
Proof using All.
  intros H Hb Hl [Hbl Hnd]%NoDup_cons HQ. pose proof (rep_pos _ _ _ _ _ H Hb) as Hbp.
  rewrite fmap_app in Hnd. apply NoDup_app in Hnd as (_ & Hcl & _).
  assert (c <> b) as Hcb by (intros ->; apply Hbl; rewrite fmap_app; set_solver).
  pose proof (lseg_elem _ _ _ _ (c, t) Hl ltac:(set_solver)) as [nx Hc]. simpl in Hc.
  do 2 apply wp_bind. eapply wp_set_next; [done|done|lia|]. intros s1 H1.
  eapply wp_set_next; [done|by rewrite lookup_insert_ne|lia|]. intros s2 H2. apply wp_ret.
  eapply HQ; [done| |].
  - apply lseg_app. exists b. split.
    + apply lseg_insert; [done|]. eapply lseg_snoc; [|done]. intros Hin. apply (Hcl _ Hin). set_solver.
    + simpl. split; [done|]. exists 0. by rewrite lookup_insert_eq.
  - eapply relinks_trans; [eapply relinks_insert; [|done]|eapply relinks_insert; [set_solver|]].
    + rewrite fmap_app. set_solver.
    + by rewrite lookup_insert_ne.
Qed.

Lemma link_between s0 N s b sz h0 h l p u c t post Q : rep s0 N s -> N !! b = Some (sz, h0) ->
  lseg N h (l ++ [(p, u)]) c -> lseg N c ((c, t) :: post) 0 ->
  NoDup (b :: ((l ++ [(p, u)]) ++ (c, t) :: post).*1) ->
  (forall N' s', rep s0 N' s' -> lseg N' h ((l ++ [(p, u)]) ++ (b, sz) :: (c, t) :: post) 0 ->
    relinks (b :: ((l ++ [(p, u)]) ++ (c, t) :: post).*1) N N' -> Q h s') ->
  wp ((set_next hartid p b ;;; set_next hartid b c) ;;; ret h) Q s.
Proof using All.
  intros H Hb Hl Hr [Hbl Hnd]%NoDup_cons HQ. pose proof (rep_pos _ _ _ _ _ H Hb) as Hbp.
  destruct (lseg_head _ _ _ _ _ H Hr) as [Hc _].
  rewrite !fmap_app in Hnd, Hbl. apply NoDup_app in Hnd as (Hnd & Hpr & _).
  apply NoDup_app in Hnd as (_ & Hpl & _). rewrite !not_elem_of_app in Hbl. destruct Hbl as [[Hbl Hbp'] Hbr].
  assert (p <> b) as Hpb by (intros ->; set_solver).
  pose proof (lseg_elem _ _ _ _ (p, u) Hl ltac:(set_solver)) as [nx Hp]. simpl in Hp.
  do 2 apply wp_bind. eapply wp_set_next; [done|done|lia|]. intros s1 H1.
  eapply wp_set_next; [done|by rewrite lookup_insert_ne|lia|]. intros s2 H2. apply wp_ret.
  eapply HQ; [done| |].
  - apply lseg_app. exists b. split.
    + apply lseg_insert; [rewrite fmap_app; set_solver|]. eapply lseg_snoc; [|done].
      intros Hin. apply (Hpl _ Hin). set_solver.
    + split; [done|]. exists c. rewrite lookup_insert_eq. split; [done|].
      apply lseg_insert; [done|]. apply lseg_insert; [|done]. intros Hin. apply (Hpr p); set_solver.
  - eapply relinks_trans; [eapply relinks_insert; [|done]|eapply relinks_insert; [set_solver|]].
    + rewrite !fmap_app. set_solver.
    + by rewrite lookup_insert_ne.
Qed.

(** Linking [b] in where the search has stopped. *)
Lemma link_in s0 N s b sz h0 h pre c t post prev Q :
  rep s0 N s -> N !! b = Some (sz, h0) -> lseg N h (pre ++ (c, t) :: post) 0 -> h < b ->
  NoDup (b :: (pre ++ (c, t) :: post).*1) -> Forall (fun z => z.1 < b) pre ->
  (pre <> [] -> prev = last_addr pre) -> (post = [] \/ b <= c) ->
  (forall N' s', rep s0 N' s' -> lseg N' h (insert_block (b, sz) (pre ++ (c, t) :: post)) 0 ->
    relinks (b :: (pre ++ (c, t) :: post).*1) N N' -> Q h s') ->
  wp (let* n := get_next hartid c in
      (if (n =? 0) && (pd_first_fit_cmp c b <? 0) then
         set_next hartid c b ;;; set_next hartid b 0
       else
         set_next hartid prev b ;;; set_next hartid b c) ;;;
      ret h) Q s.
Proof using All.
  intros H Hb Hl Hhb Hnd Hlt Hprev Hend HQ. pose proof (rep_pos _ _ _ _ _ H Hb) as Hbp.
  apply lseg_app in Hl as (m & Hpre & Hpost). destruct Hpost as (-> & nx & Hc & Hpost).
  pose proof (rep_pos _ _ _ _ _ H Hc) as Hcp. destruct (lseg_head _ _ _ _ _ H Hpost) as [_ Hn0].
  apply wp_bind. eapply wp_get_next; [done|done|]. rewrite pd_first_fit_cmp_eq by done.
  destruct ((nx =? 0) && (c - b <? 0)) eqn:Econd.
  - assert (post = []) as -> by (apply Hn0; lia). eapply link_last; [done|done| |done|].
    + apply lseg_app. exists c. split; [done|]. simpl. split; [done|]. exists nx. split; [done|]. lia.
    + intros N' s' H' Hs' Hre. eapply HQ; [done| |done].
      rewrite insert_block_end; [done|]. apply Forall_app. split; [done|].
      repeat constructor. simpl. lia.
  - assert (b <= c) as Hbc.
    { destruct Hend as [->|?]; [|done]. rewrite (proj2 Hn0 eq_refl) in Econd. simpl in Econd. lia. }
    destruct pre as [|[p u] pre _] using rev_ind; [simpl in Hpre; lia|].
    assert (prev = p) as ->.
    { rewrite Hprev by (by destruct pre). unfold last_addr. by rewrite last_snoc. }
    eapply link_between; [done|done|done| |done|].
    + simpl. split; [done|]. by exists nx.
    + intros N' s' H' Hs' Hre. eapply HQ; [done| |done]. by rewrite insert_block_before.
Qed.

(** Linking [b] in: the item that [sort_pd_list_ascend] has just unlinked. *)
Lemma insert_wp fuel s0 N s b sz h l Q :
  rep s0 N s -> N !! b = Some (sz, h) -> 0 <= sz -> lseg N h l 0 -> NoDup (b :: l.*1) ->
  (length l < fuel)%nat ->
  (forall N' h' s', rep s0 N' s' -> lseg N' h' (if sz =? 0 then l else insert_block (b, sz) l) 0 ->
    relinks (b :: l.*1) N N' -> Q h' s') ->
  wp (sort_pd_list_ascend fuel hartid b b pd_first_fit_cmp) Q s.
Proof using All.
  intros H Hb Hsz Hl Hnd Hf HQ. pose proof (rep_pos _ _ _ _ _ H Hb) as Hbp.
  apply NoDup_cons in Hnd as [Hbl Hnd]. destruct (lseg_head _ _ _ _ _ H Hl) as [Hh Hh0].
  unfold sort_pd_list_ascend. rewrite (proj2 (Z.eqb_neq b 0)), Z.eqb_refl by lia. simpl orb. cbv iota.
  do 2 apply wp_bind. eapply wp_get_next; [done|done|]. apply wp_ret.
  apply wp_bind. eapply wp_get_size; [done|done|].
  destruct (Z.eqb_spec sz 0) as [->|Hz]; [by eapply HQ; [| |apply relinks_refl]|].
  destruct l as [|[c t] l].
  { rewrite (proj2 Hh0 eq_refl). simpl. apply wp_bind. eapply wp_set_next; [done|done|lia|].
    intros s1 H1. apply wp_ret. eapply HQ; [done| |].
    - simpl. split; [done|]. exists 0. by rewrite lookup_insert_eq.
    - eapply relinks_insert; [set_solver|done]. }
  pose proof Hl as Hl'. destruct Hl' as (-> & nx & Hc & Hl'). pose proof (rep_pos _ _ _ _ _ H Hc) as Hcp.
  rewrite (proj2 (Z.eqb_neq c 0)), pd_first_fit_cmp_eq by (done || lia). simpl orb.
  destruct (Z.leb_spec (b - c) 0).
  { apply wp_bind. eapply wp_set_next; [done|done|lia|]. intros s1 H1. apply wp_ret.
    eapply HQ; [done| |eapply relinks_insert; [set_solver|done]].
    simpl. rewrite (proj2 (Z.leb_le b c)) by lia. simpl. split; [done|]. exists c.
    rewrite lookup_insert_eq. split; [done|]. by apply (lseg_insert N ((c, t) :: l)). }
  apply wp_bind. fold (sort_round b).
  eapply wp_conseq; [apply (sort_search b s0 N s Hbp H l fuel [] c t c c Hl)|].
  - constructor.
  - done.
  - simpl in Hf. lia.
  - intros [prev c'] s' (-> & pre & t' & post & E & Hlt & Hprev & Hend).
    simpl in E. rewrite E in Hl, HQ, Hnd, Hbl.
    eapply link_in; [done|done|done|lia|by constructor|done|done|done|]. intros N' s'. apply HQ.
Qed.

Lemma insert_free_wp fuel s0 N s b sz nx h l Q :
  rep s0 N s -> N !! b = Some (sz, nx) -> 0 <= sz -> lseg N h l 0 -> NoDup (b :: l.*1) ->
  (length l < fuel)%nat ->
  (forall N' h' s', rep s0 N' s' -> lseg N' h' (insert_kept (b, sz) l) 0 ->
    relinks (b :: l.*1) N N' -> Q h' s') ->
  wp (insert_free_block fuel hartid h b pd_first_fit_cmp) Q s.
Proof using All.
  intros H Hb Hsz Hl Hnd Hf HQ. pose proof (rep_pos _ _ _ _ _ H Hb) as Hbp.
  destruct (lseg_head _ _ _ _ _ H Hl) as [Hh Hh0]. unfold insert_free_block.
  rewrite (proj2 (Z.eqb_neq b 0)) by lia. rewrite andb_false_r. simpl negb. rewrite andb_true_r.
  destruct l as [|y l].
  - rewrite (proj2 Hh0 eq_refl). simpl. apply wp_bind. eapply wp_set_next; [done|done|lia|].
    intros s1 H1. apply wp_ret. eapply HQ; [done| |eapply relinks_insert; [set_solver|done]].
    simpl. split; [done|]. exists 0. by rewrite lookup_insert_eq.
  - rewrite (proj2 (Z.eqb_neq h 0)) by (intros E; by apply Hh0 in E).
    apply wp_bind. eapply wp_set_next; [done|done|lia|]. intros s1 H1.
    assert (relinks (b :: (y :: l).*1) N (<[b := (sz, h)]> N)) as Hr
      by (eapply relinks_insert; [set_solver|done]).
    pose proof Hnd as [Hbl _]%NoDup_cons.
    eapply insert_wp; [done|by rewrite lookup_insert_eq|done|by apply lseg_insert|done|done|].
    intros N' h' s' H' Hl' Hre. eapply HQ; [done| |by eapply relinks_trans].
    unfold insert_kept. simpl snd. by destruct (sz =? 0).
Qed.

(** *** Sorting the whole list *)

Definition sort_list_round (fuel : nat) (x : Z * Z) : M kernel (Z * Z + Z) :=
  let '(sorted, c) := x in
  if c =? 0 then ret (inr sorted)
  else
    let* next := get_next hartid c in
    let* sorted := insert_free_block fuel hartid sorted c pd_first_fit_cmp in
    ret (inl (sorted, next)).

Lemma sort_loop fuel0 s0 rest : forall fuel N s h acc c Q,
  rep s0 N s -> lseg N h acc 0 -> lseg N c rest 0 -> NoDup (acc ++ rest).*1 ->
  Forall (fun x => 0 <= x.2) rest ->
  (length acc + length rest <= fuel0)%nat -> (length rest < fuel)%nat ->
  (forall N' h' s', rep s0 N' s' -> lseg N' h' (foldl (fun l x => insert_kept x l) acc rest) 0 ->
    relinks (acc ++ rest).*1 N N' -> Q h' s') ->
  wp (loop fuel (sort_list_round fuel0) (h, c)) Q s.
Proof using All.
  induction rest as [|[a sz] rest IH]; intros fuel N s h acc c Q H Hacc Hc Hnd Hsz Hf0 Hf HQ;
    (destruct fuel as [|fuel]; [simpl in Hf; lia|]); cbn [loop sort_list_round].
  { simpl in Hc. subst c. simpl. apply wp_bind, wp_ret, wp_ret.
    eapply HQ; [done|done|apply relinks_refl]. }
  destruct Hc as (-> & nx & Ha & Hc). pose proof (rep_pos _ _ _ _ _ H Ha).
  rewrite (proj2 (Z.eqb_neq a 0)) by lia. apply Forall_cons in Hsz as [Hsz0 Hsz]. simpl in Hsz0.
  do 2 apply wp_bind. eapply wp_get_next; [done|done|].
  assert (acc ++ (a, sz) :: rest ≡ₚ ((a, sz) :: acc) ++ rest) as Ep
    by (by rewrite <- Permutation_middle).
  rewrite Ep, fmap_app in Hnd. apply NoDup_app in Hnd as (Hnd1 & Hnd2 & Hnd3).
  apply wp_bind. eapply insert_free_wp; [done|done|done|done|done|simpl in *; lia|].
  intros N1 h1 s1 H1 Hl1 Hre. apply wp_ret.
  eapply IH; [done|done| | |done| |simpl in Hf; lia|].
  - eapply relinks_lseg; [done| |done]. intros b Hb Hb'. by apply (Hnd2 b).
  - rewrite fmap_app. apply NoDup_app. split; [by apply insert_kept_NoDup|]. split; [|done].
    intros b Hb%insert_kept_sub. by apply Hnd2.
  - pose proof (insert_kept_length (a, sz) acc). simpl in *. lia.
  - intros N' h' s' H' Hl' Hre'. eapply HQ; [done|done|].
    eapply relinks_trans; [eapply relinks_mono; [|done]|eapply relinks_mono; [|done]];
      intros b; rewrite Ep, !fmap_app, !elem_of_app; [by left|].
    intros [?%insert_kept_sub|?]; [by left|by right].
Qed.

Lemma sort_free_list_wp fuel s0 N s h l Q :
  rep s0 N s -> lseg N h l 0 -> NoDup l.*1 -> Forall (fun x => 0 <= x.2) l ->
  (length l < fuel)%nat ->
  (forall N' h' s', rep s0 N' s' -> lseg N' h' (sort_blocks l) 0 -> relinks l.*1 N N' -> Q h' s') ->
  wp (sort_free_list_ascend fuel hartid h pd_first_fit_cmp) Q s.
Proof using All.
  intros H Hl Hnd Hsz Hf HQ. unfold sort_free_list_ascend.
  destruct (lseg_head _ _ _ _ _ H Hl) as [_ Hz].
  destruct (Z.eqb_spec h 0) as [E|E].
  { rewrite (proj1 Hz E) in *. subst h. apply wp_ret. eapply HQ; [done|done|apply relinks_refl]. }
  fold (sort_list_round fuel).
  eapply (sort_loop fuel s0 l fuel N s 0 [] h); [done|done|done|done|done|simpl; lia|done|done].
Qed.

(** *** Coalescing *)

Definition merge_round (c : Z) : M kernel (Z + unit) :=
  if c =? 0 then ret (inr tt)
  else
    let* next := get_next hartid c in
    if next =? 0 then ret (inr tt)
    else
      let* next := get_next hartid c in
      let* sz := get_size hartid c in
      if (u64 (c + SIZEOF_PD + sz) =? next) && (get_page_hash c =? get_page_hash next) then
        (let* sz := get_size hartid c in
         let* szn := get_size hartid next in
         set_size hartid c (u64 (sz + SIZEOF_PD + szn)) ;;;
         let* nn := get_next hartid next in
         set_next hartid c nn ;;;
         ret (inl c))
      else (let* n := get_next hartid c in ret (inl n)).

(** One absorption. *)
Lemma absorb_wp s0 N s c sz b t nb Q : rep s0 N s -> N !! c = Some (sz, b) -> N !! b = Some (t, nb) ->
  0 <= sz -> 0 <= t -> sz + SIZEOF_PD + t < 2 ^ 31 -> 0 <= nb < 2 ^ 31 -> b <> c ->
  (forall s', rep s0 (<[c := (sz + SIZEOF_PD + t, nb)]> N) s' -> Q (inl c) s') ->
  wp (let* sz := get_size hartid c in
      let* szn := get_size hartid b in
      set_size hartid c (u64 (sz + SIZEOF_PD + szn)) ;;;
      let* nn := get_next hartid b in
      set_next hartid c nn ;;;
      ret (inl c)) (Q : Z + unit -> kernel -> Prop) s.
Proof using All.
  intros H Hc Hb Hsz Ht Hst Hnb Hne HQ.
  apply wp_bind. eapply wp_get_size; [done|done|]. apply wp_bind. eapply wp_get_size; [done|done|].
  rewrite u64_small by (unfold SIZEOF_PD in *; lia).
  apply wp_bind. eapply wp_set_size; [done|done|unfold SIZEOF_PD in *; lia|]. intros s1 H1.
  apply wp_bind. eapply wp_get_next; [done|by rewrite lookup_insert_ne|].
  apply wp_bind. eapply wp_set_next; [done|by rewrite lookup_insert_eq|lia|]. intros s2 H2.
  apply wp_ret, HQ. by rewrite insert_insert_eq in H2.
Qed.

Lemma coalesce_loop s0 rest : forall fuel N s h pre c sz Q,
  rep s0 N s -> lseg N h pre c -> lseg N c ((c, sz) :: rest) 0 ->
  NoDup (pre ++ (c, sz) :: rest).*1 -> Forall block_ok ((c, sz) :: rest) -> (length rest < fuel)%nat ->
  (forall N' s', rep s0 N' s' -> lseg N' h (pre ++ coalesce c sz rest) 0 ->
    relinks (pre ++ (c, sz) :: rest).*1 N N' -> Q tt s') ->
  wp (loop fuel merge_round c) Q s.
Proof using All.
  induction rest as [|[b t] rest IH]; intros fuel N s h pre c sz Q H Hpre (_ & nx & Hc & Hl) Hnd Hok Hf HQ;
    (destruct fuel as [|fuel]; [simpl in Hf; lia|]); cbn [loop]; apply wp_bind; unfold merge_round at 1;
    pose proof (rep_pos _ _ _ _ _ H Hc) as Hcp; rewrite (proj2 (Z.eqb_neq c 0)) by lia;
    apply wp_bind; (eapply wp_get_next; [done|done|]).
  { simpl in Hl. subst nx. simpl. apply wp_ret, wp_ret. eapply HQ; [done| |apply relinks_refl].
    apply lseg_app. exists c. split; [done|]. simpl. eauto. }
  destruct Hl as (-> & nb & Hb & Hl). pose proof (rep_pos _ _ _ _ _ H Hb) as Hbp.
  destruct (lseg_head _ _ _ _ _ H Hl) as [Hnb _].
  rewrite (proj2 (Z.eqb_neq b 0)) by lia.
  apply Forall_cons in Hok as [[Hsz Hoc] Hoks]. pose proof Hoks as Hoks'.
  apply Forall_cons in Hoks' as [[Ht Hob] Hok]. simpl in Hsz, Hoc, Ht, Hob.
  pose proof (hp_range _ _ Hoc) as (_ & _ & Hrc). pose proof (hp_range _ _ Hob) as (_ & _ & Hrb).
  unfold extent in Hoc, Hob, Hrc, Hrb. simpl in Hoc, Hob, Hrc, Hrb.
  destruct (nodup_parts pre ((b, t) :: rest) [] c sz) as (_ & Hcpre & Hcrest & _);
    [by rewrite app_nil_r|].
  assert (b <> c) as Hbc by (intros ->; apply Hcrest; simpl; set_solver).
  apply wp_bind. eapply wp_get_next; [done|done|]. apply wp_bind. eapply wp_get_size; [done|done|].
  rewrite get_page_hash_eq, u64_small by (unfold SIZEOF_PD in *; lia). cbn [coalesce] in HQ.
  destruct ((c + SIZEOF_PD + sz =? b) && (c / PGSIZE =? b / PGSIZE)) eqn:Econd.
  - assert (b = c + (SIZEOF_PD + sz)) as Eb by lia.
    eapply absorb_wp; [done|done|done|done|done|unfold SIZEOF_PD in *; lia|done|done|]. intros s1 H1.
    rewrite fmap_app in Hnd. apply NoDup_app in Hnd as (Hn1 & Hn2 & Hn3).
    eapply (IH fuel _ s1 h pre c (sz + SIZEOF_PD + t)); [done|by apply lseg_insert| | | |simpl in Hf; lia|].
    + split; [done|]. exists nb. rewrite lookup_insert_eq. split; [done|].
      apply lseg_insert; [|done]. intros Hin. apply Hcrest. simpl. set_solver.
    + rewrite fmap_app. apply NoDup_app. split; [done|]. split.
      * intros a Ha Hin. apply (Hn2 a Ha). simpl in *. set_solver.
      * simpl in *. apply NoDup_cons in Hn3 as [? Hn3]. apply NoDup_cons in Hn3 as [? Hn3].
        constructor; [set_solver|done].
    + constructor; [|done]. split; [simpl; unfold SIZEOF_PD; lia|]. unfold extent. simpl.
      rewrite Eb in Hob. pose proof (hp_join _ _ _ Hoc Hob) as Hj.
      replace (SIZEOF_PD + (sz + SIZEOF_PD + t)) with (SIZEOF_PD + sz + (SIZEOF_PD + t)) by lia.
      apply Hj. rewrite <- Eb. lia.
    + intros N' s' H' Hl' Hre. eapply HQ; [done|done|].
      eapply relinks_trans; [apply (relinks_insert _ N c (sz, b)); [|done]|].
      * rewrite fmap_app. set_solver.
      * eapply relinks_mono; [|done].
        intros a. rewrite !fmap_app, !fmap_cons. set_solver.
  - apply wp_bind. eapply wp_get_next; [done|done|]. apply wp_ret.
    eapply (IH fuel N s h (pre ++ [(c, sz)]) b t); [done| | | |done|simpl in Hf; lia|].
    + apply lseg_app. exists c. split; [done|]. simpl. eauto.
    + split; [done|]. by exists nb.
    + by rewrite <- app_assoc.
    + intros N' s' H' Hl' Hre. rewrite <- app_assoc in Hl', Hre. by eapply HQ.
Qed.

Lemma coalesce_ok l : forall c sz, Forall block_ok ((c, sz) :: l) -> Forall block_ok (coalesce c sz l).
Proof using All.
  induction l as [|[b t] l IH]; intros c sz Hok; simpl; [done|].
  apply Forall_cons in Hok as [[Hsz Hc] Hok]. pose proof Hok as Hok'.
  apply Forall_cons in Hok' as [[Ht Hb] Hl]. simpl in *. unfold extent in Hc, Hb. simpl in *.
  destruct ((_ =? _) && _) eqn:E; [|constructor; [by split|by apply IH]].
  apply IH. constructor; [|done]. split; [simpl; unfold SIZEOF_PD; lia|]. unfold extent. simpl.
  replace (SIZEOF_PD + (sz + SIZEOF_PD + t)) with (SIZEOF_PD + sz + (SIZEOF_PD + t)) by lia.
  assert (b = c + (SIZEOF_PD + sz)) as -> by lia. apply hp_join; [done|done|lia].
Qed.

Lemma merge_wp fuel s0 N s h l Q :
  rep s0 N s -> lseg N h l 0 -> NoDup l.*1 -> Forall block_ok l -> (length l < fuel)%nat ->
  (forall N' h' s', rep s0 N' s' -> lseg N' h' (merge_blocks l) 0 -> relinks l.*1 N N' -> Q h' s') ->
  wp (merge_free_blocks fuel hartid h pd_first_fit_cmp) Q s.
Proof using All.
  intros H Hl Hnd Hok Hf HQ. unfold merge_free_blocks.
  destruct (lseg_head _ _ _ _ _ H Hl) as [_ Hz].
  destruct (Z.eqb_spec h 0) as [E|E].
  { rewrite (proj1 Hz E) in *. subst h. apply wp_ret. eapply HQ; [done|done|apply relinks_refl]. }
  assert (forall k, Forall block_ok k -> Forall (fun x => 0 <= x.2) k) as Hpos.
  { intros k Hk. eapply Forall_impl; [done|]. by intros x []. }
  apply wp_bind. eapply sort_free_list_wp; [done|done|done|by apply Hpos|done|].
  intros N1 h1 s1 H1 Hl1 Hr1. pose proof (sort_blocks_sub l []) as Hsub.
  pose proof (sort_blocks_NoDup l [] Hnd) as Hnd1. pose proof (sort_blocks_length l []) as Hlen.
  pose proof (sort_blocks_Forall block_ok l [] ltac:(constructor) Hok) as Hok1.
  unfold merge_blocks in HQ. fold (sort_blocks l) in *. simpl in Hlen, Hsub.
  apply wp_bind. fold merge_round. destruct (sort_blocks l) as [|[c sz] k].
  { simpl in Hl1. subst h1. destruct fuel as [|fuel]; [simpl in Hf; lia|].
    cbn [loop]. apply wp_bind, wp_ret, wp_ret. apply wp_ret. by eapply HQ. }
  pose proof Hl1 as (-> & _).
  eapply (coalesce_loop s0 k fuel N1 s1 c [] c sz); [done|done|done|done|done|simpl in Hlen; lia|].
  intros N2 s2 H2 Hl2 Hr2. simpl in Hl2, Hr2.
  pose proof (coalesce_length k c sz).
  eapply sort_free_list_wp; [done|done|by apply coalesce_NoDup|by apply Hpos, coalesce_ok
    |simpl in Hlen; lia|].
  intros N3 h3 s3 H3 Hl3 Hr3. eapply HQ; [done|done|].
  eapply relinks_trans; [done|]. eapply relinks_trans.
  - eapply relinks_mono; [|exact Hr2]. apply Hsub.
  - eapply relinks_mono; [|exact Hr3]. intros a Ha%coalesce_sub. by apply Hsub.
Qed.

Lemma give_back_wp fuel s0 N s b sz nx h l Q :
  rep s0 N s -> N !! b = Some (sz, nx) -> lseg N h l 0 -> NoDup ((b, sz) :: l).*1 ->
  Forall block_ok ((b, sz) :: l) -> (S (length l) < fuel)%nat ->
  (forall N' h' s', rep s0 N' s' -> lseg N' h' (free_block (b, sz) l) 0 ->
    relinks ((b, sz) :: l).*1 N N' -> Q h' s') ->
  wp (give_back fuel hartid b h) Q s.
Proof using All.
  intros H Hb Hl Hnd Hok Hf HQ. destruct (lseg_head _ _ _ _ _ H Hl) as [Hh _].
  pose proof Hnd as [Hbl Hnd']%NoDup_cons. pose proof Hok as [[Hsz _] Hok']%Forall_cons.
  unfold give_back. apply wp_bind. eapply wp_set_next; [done|done|lia|]. intros s1 H1.
  apply wp_bind. eapply insert_wp; [done|by rewrite lookup_insert_eq|done|by apply lseg_insert|done|lia|].
  intros N2 h2 s2 H2 Hl2 Hr2. unfold free_block in HQ. simpl snd in HQ.
  set (k := if sz =? 0 then l else insert_block (b, sz) l) in *.
  assert (k = l \/ k ≡ₚ (b, sz) :: l) as Hk.
  { unfold k. destruct (sz =? 0); [by left|right; apply insert_block_perm]. }
  eapply merge_wp; [done|done| | | |].
  - destruct Hk as [-> | ->]; done.
  - destruct Hk as [-> | ->]; done.
  - destruct Hk as [-> | ->]; simpl; lia.
  - intros N3 h3 s3 H3 Hl3 Hr3. eapply HQ; [done|done|].
    eapply relinks_trans; [apply (relinks_insert _ N b (sz, nx)); [set_solver|done]|].
    eapply relinks_trans; [done|]. eapply relinks_mono; [|exact Hr3].
    intros a. destruct Hk as [-> | ->]; set_solver.
Qed.

(** *** Freeing *)

Definition free_round (fuel : nat) (addr free_list alloc_list : Z) (x : Z * Z * Z)
    : M kernel (Z * Z * Z + Z * Z * Z) :=
  let '(prev, b, size) := x in
  if b =? 0 then panic
  else if addr =? b then
    set_flag hartid b 0 ;;;
    let* n := get_next hartid b in
    set_next hartid prev n ;;;
    let* fl := give_back fuel hartid b free_list in
    ret (inr (size, fl, alloc_list))
  else
    let* n := get_next hartid b in
    let* size := if negb (n =? 0) then get_size hartid n else ret size in
    ret (inl (b, n, size)).

(** The size of the next block, as the loop keeps it. *)
Lemma next_size_wp s0 N s c l size Q : rep s0 N s -> lseg N c l 0 ->
  Q (default size (snd <$> head l)) s ->
  wp (if negb (c =? 0) then get_size hartid c else ret size) Q s.
Proof using All.
  intros H Hl HQ. destruct l as [|[b t] l]; simpl in *; [by subst|].
  destruct Hl as (-> & nx & Hb & _). pose proof (rep_pos _ _ _ _ _ H Hb).
  rewrite (proj2 (Z.eqb_neq b 0)) by lia. simpl. by eapply wp_get_size.
Qed.

(** The block is unlinked from the allocated list and given back. *)
Lemma unlink_wp {A} fuel s0 N s ah pre a sz rest fh fl (k : Z -> M kernel A) Q :
  rep s0 N s -> lseg N ah (pre ++ (a, sz) :: rest) 0 -> pre <> [] -> lseg N fh fl 0 ->
  NoDup (fl ++ pre ++ (a, sz) :: rest).*1 -> Forall block_ok ((a, sz) :: fl) ->
  (S (length fl) < fuel)%nat ->
  (forall N' fh' s', rep s0 N' s' -> lseg N' fh' (free_block (a, sz) fl) 0 ->
    lseg N' ah (pre ++ rest) 0 -> relinks (fl ++ pre ++ (a, sz) :: rest).*1 N N' -> wp (k fh') Q s') ->
  wp (set_flag hartid a 0 ;;;
      let* n := get_next hartid a in
      set_next hartid (last_addr pre) n ;;;
      let* fl := give_back fuel hartid a fh in k fl) Q s.
Proof using All.
  intros H Hal Hpre Hfl Hnd Hok Hf HQ. destruct pre as [|[p u] pre _] using rev_ind; [done|].
  unfold last_addr. rewrite last_snoc. simpl default.
  apply lseg_app in Hal as (m & Hp & -> & nx & Ha & Hr).
  destruct (lseg_elem _ _ _ _ (p, u) Hp ltac:(set_solver)) as [np Hp']. simpl in Hp'.
  destruct (lseg_head _ _ _ _ _ H Hr) as [Hnx _].
  rewrite fmap_app in Hnd. apply NoDup_app in Hnd as (Hn1 & Hn2 & Hn3).
  destruct (nodup_parts (pre ++ [(p, u)]) rest [] a sz) as (Hn4 & Hn5 & Hn6 & _ & Hn7);
    [by rewrite app_nil_r|].
  rewrite !fmap_app in Hn4, Hn5, Hn7. apply NoDup_app in Hn4 as (_ & Hn4 & _). simpl in *.
  rewrite !fmap_app in Hn2. simpl in Hn2.
  assert (p <> a) as Hpa by (intros ->; set_solver).
  apply wp_bind. eapply wp_set_flag; [done|done|]. intros s1 H1.
  apply wp_bind. eapply wp_get_next; [done|done|].
  apply wp_bind. eapply wp_set_next; [done|done|lia|]. intros s2 H2.
  apply wp_bind. eapply (give_back_wp fuel s0 _ s2 a sz nx); [done|by rewrite lookup_insert_ne| | |done|done|].
  - apply lseg_insert; [|done]. intros Hin. apply (Hn2 _ Hin). set_solver.
  - simpl. constructor; [|done]. intros Hin. apply (Hn2 _ Hin). set_solver.
  - intros N' fh' s' H' Hf' Hr'. eapply HQ; [done|done| |].
    + assert (forall r h t, (forall b, b ∈ r.*1 -> b <> a /\ (b ∉ fl.*1)) ->
        lseg (<[p := (u, nx)]> N) h r t -> lseg N' h r t) as Hkeep.
      { intros r h t Hk. eapply relinks_lseg; [done|]. intros b Hb%Hk. simpl. set_solver. }
      apply lseg_app. exists nx. split.
      * apply Hkeep; [|eapply lseg_snoc; [|done]].
        -- intros b. rewrite fmap_app. simpl. intros Hb. split; [set_solver|].
           intros Hin. apply (Hn2 _ Hin). set_solver.
        -- intros Hin. apply (Hn4 _ Hin). set_solver.
      * apply Hkeep; [|apply lseg_insert; [|done]].
        -- intros b Hb. split; [set_solver|]. intros Hin. apply (Hn2 _ Hin). set_solver.
        -- intros Hin. destruct (Hn7 p); [set_solver|done].
    + eapply relinks_trans; [apply (relinks_insert _ N p (u, np)); [|done]|].
      * rewrite !fmap_app. simpl. set_solver.
      * eapply relinks_mono; [|done]. intros b. rewrite !fmap_app. simpl. set_solver.
Qed.

Lemma free_loop fuel0 s0 N s ah a sz rest2 fh fl Q : rep s0 N s -> lseg N fh fl 0 ->
  Forall block_ok ((a, sz) :: fl) -> (S (length fl) < fuel0)%nat ->
  forall rest1 fuel pre c,
  lseg N ah (pre ++ rest1 ++ (a, sz) :: rest2) 0 -> lseg N c (rest1 ++ (a, sz) :: rest2) 0 ->
  pre <> [] -> NoDup (fl ++ pre ++ rest1 ++ (a, sz) :: rest2).*1 -> (length rest1 < fuel)%nat ->
  (forall N' fh' s', rep s0 N' s' -> lseg N' fh' (free_block (a, sz) fl) 0 ->
    lseg N' ah (pre ++ rest1 ++ rest2) 0 ->
    relinks (fl ++ pre ++ rest1 ++ (a, sz) :: rest2).*1 N N' -> Q (sz, fh', ah) s') ->
  wp (loop fuel (free_round fuel0 a fh ah)
        (last_addr pre, c, default 0 (snd <$> head (rest1 ++ (a, sz) :: rest2)))) Q s.
Proof using All.
  intros H Hfl Hok Hf0. induction rest1 as [|[b t] rest1 IH]; intros fuel pre c Hal Hc Hpre Hnd Hf HQ;
    (destruct fuel as [|fuel]; [simpl in Hf; lia|]); cbn [loop free_round];
    pose proof Hc as (-> & nx & Hb & Hr); pose proof (rep_pos _ _ _ _ _ H Hb);
    rewrite (proj2 (Z.eqb_neq _ 0)) by lia.
  - rewrite Z.eqb_refl. simpl. apply wp_bind.
    eapply unlink_wp; [done|done|done|done|done|done|done|].
    intros N' fh' s' H' H1 H2 H3. by apply wp_ret, wp_ret, (HQ N').
  - assert (a <> b) as Hab.
    { rewrite !fmap_app in Hnd. apply NoDup_app in Hnd as (_ & _ & Hnd).
      apply NoDup_app in Hnd as (_ & _ & Hnd). simpl in Hnd. apply NoDup_cons in Hnd as [Hnd _].
      intros ->. apply Hnd. set_solver. }
    rewrite (proj2 (Z.eqb_neq a b)) by done.
    do 2 apply wp_bind. eapply wp_get_next; [done|done|]. apply wp_bind.
    eapply next_size_wp; [done|done|]. apply wp_ret.
    pose proof (IH fuel (pre ++ [(b, t)]) nx) as IHl. unfold last_addr in IHl. rewrite last_snoc in IHl.
    assert (forall d, default d (snd <$> head (rest1 ++ (a, sz) :: rest2)) =
      default 0 (snd <$> head (rest1 ++ (a, sz) :: rest2))) as -> by (intros; by destruct rest1).
    simpl in IHl. apply IHl; rewrite <- ?app_assoc; [done|done|by destruct pre|done|simpl in Hf; lia|].
    intros N' fh' s' H' H1 H2 H3. by apply (HQ N').
Qed.

Lemma first_fit_free_wp fuel a sz pre rest s0 N s fh ah fl :
  rep s0 N s -> lseg N fh fl 0 -> lseg N ah (pre ++ (a, sz) :: rest) 0 ->
  heap_wf fl (pre ++ (a, sz) :: rest) -> (S (length fl) < fuel)%nat -> (length pre < fuel)%nat ->
  wp (first_fit_free fuel hartid a fh ah) (fun '(r, fh', ah') s' => r = sz /\
    exists N', rep s0 N' s' /\ lseg N' fh' (free_block (a, sz) fl) 0 /\ lseg N' ah' (pre ++ rest) 0 /\
      forall b, is_Some (N' !! b) -> is_Some (N !! b)) s.
Proof using All.
  intros H Hf Hal Hwf Hfuel Hfuel2. destruct Hwf as [[Hnd _] Hok].
  assert (Forall block_ok ((a, sz) :: fl)) as Hokf.
  { rewrite !Forall_app, Forall_cons in Hok. constructor; tauto. }
  unfold first_fit_free. destruct (lseg_head _ _ _ _ _ H Hal) as [_ Hz].
  rewrite (proj2 (Z.eqb_neq ah 0)) by (rewrite Hz; by destruct pre).
  destruct pre as [|[b t] pre].
  - pose proof Hal as (-> & nx & Ha & Hr).
    apply wp_bind. eapply wp_get_size; [done|done|]. rewrite Z.eqb_refl.
    apply wp_bind. eapply wp_set_flag; [done|done|]. intros s1 H1.
    apply wp_bind. eapply wp_get_next; [done|done|].
    rewrite fmap_app in Hnd. apply NoDup_app in Hnd as (Hn1 & Hn2 & Hn3).
    pose proof Hn3 as [Hn4 _]%NoDup_cons.
    apply wp_bind. eapply give_back_wp; [done|done|done| |done|done|].
    { simpl. constructor; [|done]. intros Hin. apply (Hn2 _ Hin). set_solver. }
    intros N' fh' s' H' Hf' Hre. apply wp_ret. split; [done|]. exists N'. split; [done|].
    split; [done|]. split; [|by apply Hre].
    eapply relinks_lseg; [done| |done]. intros c Hc. simpl. rewrite not_elem_of_cons.
    split; [by intros ->|]. intros Hin. apply (Hn2 _ Hin). simpl. set_solver.
  - pose proof Hal as (-> & nx & Hb & Hr). apply wp_bind. eapply wp_get_size; [done|done|].
    assert (a <> b) as Hab.
    { rewrite fmap_app in Hnd. apply NoDup_app in Hnd as (_ & _ & Hnd). simpl in Hnd.
      apply NoDup_cons in Hnd as [Hnd _]. intros ->. apply Hnd. rewrite fmap_app. set_solver. }
    rewrite (proj2 (Z.eqb_neq a b)) by done.
    apply wp_bind. eapply wp_get_next; [done|done|]. apply wp_bind.
    eapply next_size_wp; [done|done|]. fold (free_round fuel a fh b).
    replace (default t _) with (default 0 (snd <$> head (pre ++ (a, sz) :: rest)))
      by (by destruct pre).
    eapply (free_loop fuel s0 N s b a sz rest fh fl _ H Hf Hokf Hfuel pre fuel [(b, t)] nx);
      [done|done|done|done|simpl in Hfuel2; lia|].
    intros N' fh' s' H' H1 H2 H3. split; [done|]. exists N'. split; [done|]. split; [done|].
    split; [done|]. by apply H3.
Qed.

Lemma first_fit_free_run fuel a sz pre rest s fh ah fl :
  heap_at s fh ah fl (pre ++ (a, sz) :: rest) -> heap_wf fl (pre ++ (a, sz) :: rest) ->
  (S (length fl) < fuel)%nat -> (length pre < fuel)%nat ->
  exists fh' ah' s', first_fit_free fuel hartid a fh ah s = Ok (sz, fh', ah') s' /\
    heap_at s' fh' ah' (free_block (a, sz) fl) (pre ++ rest) /\ data_kept s s' (pre ++ rest).
Proof using All.
  intros (N & H & Hf & Hal & Hdom) Hwf Hfuel Hfuel2.
  pose proof (first_fit_free_wp fuel a sz pre rest s N s fh ah fl H Hf Hal Hwf Hfuel Hfuel2) as Hwp.
  apply wp_Ok in Hwp as ([[r fh'] ah'] & s' & E & -> & N' & H' & H1 & H2 & Hd).
  exists fh', ah', s'. split; [done|]. split; [by eapply rep_heap_at|].
  assert (heap_wf ((a, sz) :: fl) (pre ++ rest)) as Hwf'.
  { assert (((a, sz) :: fl) ++ pre ++ rest ≡ₚ fl ++ pre ++ (a, sz) :: rest) as Ep.
    { simpl. by rewrite <- !Permutation_middle. }
    unfold heap_wf. by rewrite Ep. }
  eapply frame_data; [done|done|]. intros c Hc%Hd. destruct Hc as [x Hc%Hdom].
  destruct (proj1 (Forall_app _ _ _) (proj2 Hwf')) as [Hok' _].
  rewrite !fmap_app, fmap_cons, !elem_of_app, elem_of_cons in Hc.
  destruct (decide (c ∈ ((a, sz) :: fl).*1)) as [Hin|Hin].
  - right. apply list_elem_of_fmap in Hin as (y & -> & Hy). exists y, 0.
    rewrite Forall_forall in Hok'. destruct (Hok' y Hy) as [H0 _]. unfold extent. split; [done|]. lia.
  - left. rewrite fmap_app. set_solver.
Qed.

Lemma free_block_ok x l : Forall block_ok (x :: l) -> Forall block_ok (free_block x l).
Proof using All.
  intros Hok. unfold free_block, merge_blocks.
  assert (Forall block_ok (if x.2 =? 0 then l else insert_block x l)) as H1.
  { destruct (_ =? _); [by apply Forall_cons in Hok as [_ ?]|]. by rewrite insert_block_perm. }
  apply sort_blocks_Forall; [constructor|].
  pose proof (sort_blocks_Forall block_ok _ [] ltac:(constructor) H1) as H2.
  fold (sort_blocks (if x.2 =? 0 then l else insert_block x l)) in H2.
  destruct (sort_blocks _) as [|[c sz] k]; [done|]. by apply coalesce_ok.
Qed.

Lemma free_wf a sz pre rest fl : heap_wf fl (pre ++ (a, sz) :: rest) ->
  heap_wf (free_block (a, sz) fl) (pre ++ rest).
Proof using All.
  intros [Hap Hok].
  assert (((a, sz) :: fl) ++ pre ++ rest ≡ₚ fl ++ pre ++ (a, sz) :: rest) as Ep
    by (simpl; by rewrite <- !Permutation_middle).
  rewrite <- Ep in Hap, Hok. apply Forall_app in Hok as [Hok1 Hok2].
  destruct (free_block_facts (a, sz) fl (pre ++ rest)) as (H1 & _); [|done|].
  { eapply Forall_impl; [done|]. by intros x []. }
  split; [done|]. apply Forall_app. split; [by apply free_block_ok|done].
Qed.

(** An address that is not in the allocated list: [panic]. *)
Lemma free_unknown_loop fuel0 s0 N s a fh ah : rep s0 N s -> forall l fuel prev c size,
  lseg N c l 0 -> a ∉ l.*1 -> (length l < fuel)%nat ->
  loop fuel (free_round fuel0 a fh ah) (prev, c, size) s = Panic.
Proof using All.
  intros H. induction l as [|[b t] l IH]; intros fuel prev c size Hl Ha Hf;
    (destruct fuel as [|fuel]; [simpl in Hf; lia|]); cbn [loop free_round].
  { simpl in Hl. by subst c. }
  destruct Hl as (-> & nx & Hb & Hl). pose proof (rep_pos _ _ _ _ _ H Hb).
  rewrite fmap_cons, not_elem_of_cons in Ha. destruct Ha as [Hab Ha].
  rewrite (proj2 (Z.eqb_neq b 0)), (proj2 (Z.eqb_neq a b)) by (simpl in *; lia).
  unfold bind at 1 2. rewrite (get_next_run _ _ _ _ _ _ H Hb).
  pose proof (next_size_wp s0 N s nx l size (fun x s' => s' = s) H Hl eq_refl) as Hw.
  apply wp_Ok in Hw as (x & s' & E & ->). unfold bind at 1. rewrite E. simpl.
  apply IH; [done|done|simpl in Hf; lia].
Qed.

Lemma first_fit_free_unknown fuel a s fh ah fl al : heap_at s fh ah fl al -> a ∉ al.*1 ->
  (length al < fuel)%nat -> first_fit_free fuel hartid a fh ah s = Panic.
Proof using All.
  intros (N & H & _ & Hal & _) Ha Hf. unfold first_fit_free.
  destruct (lseg_head _ _ _ _ _ H Hal) as [_ Hz].
  destruct (Z.eqb_spec ah 0); [done|]. destruct al as [|[b t] al]; [by rewrite (proj2 Hz) in *|].
  destruct Hal as (-> & nx & Hb & Hl). rewrite fmap_cons, not_elem_of_cons in Ha. destruct Ha as [Hab Ha].
  unfold bind at 1. rewrite (get_size_run _ _ _ _ _ _ H Hb).
  rewrite (proj2 (Z.eqb_neq a b)) by (simpl in *; done). unfold bind at 1.
  rewrite (get_next_run _ _ _ _ _ _ H Hb).
  pose proof (next_size_wp s N s nx al t (fun x s' => s' = s) H Hl eq_refl) as Hw.
  apply wp_Ok in Hw as (x & s' & E & ->). unfold bind at 1. rewrite E.
  fold (free_round fuel a fh b). eapply free_unknown_loop; [done|done|done|simpl in Hf; lia].
Qed.

(** C11: allocation implements first fit.  On a well-formed heap
    [first_fit_alloc] always returns.  It takes the first free block that has
    exactly the requested size or is large enough to be split, moves it to the
    allocated list and leaves the rest of a split block in its place; the heap
    stays well formed (blocks apart, each in one page), its bytes are all
    accounted for, and the data of the blocks allocated before is untouched.
    It returns NULL, changing nothing, exactly when no free block fits. *)
Theorem first_fit_alloc_correct fuel size s fh ah fl al : 0 < size < 2 ^ 31 ->
  heap_at s fh ah fl al -> heap_wf fl al -> (length fl < fuel)%nat ->
  exists r fh' ah' s', first_fit_alloc fuel hartid size fh ah s = Ok (r, fh', ah') s' /\
    match first_fit size fl with
    | None => r = 0 /\ fh' = fh /\ ah' = ah /\ s' = s /\
        Forall (fun x => x.2 <> size /\ x.2 < size + SIZEOF_PD) fl
    | Some (fl', a) => r = a /\ heap_at s' fh' ah' fl' ((a, size) :: al) /\
        heap_wf fl' ((a, size) :: al) /\ total fl = total fl' + (SIZEOF_PD + size) /\
        data_kept s s' al
    end.
Proof using All.
  intros Hs Hat Hwf Hf.
  destruct (first_fit_alloc_run fuel size s fh ah fl al Hs Hat Hwf Hf) as (r & fh' & ah' & s' & E & HQ).
  exists r, fh', ah', s'. split; [done|]. destruct (first_fit size fl) as [[fl' a]|] eqn:Ef.
  - destruct HQ as (-> & -> & H1 & H2). destruct (first_fit_wf size fl al fl' a) as [H3 H4]; [lia|done|done|].
    done.
  - destruct HQ as (-> & -> & -> & ->). by apply first_fit_None in Ef.
Qed.

(** C12: freeing.  [first_fit_free] of an allocated block always returns its
    size; the block leaves the allocated list and the free list becomes ordered
    by address with neighbours of one page merged.  The heap stays well formed,
    the data of the blocks that stay allocated is untouched, and every byte is
    in a block again if no free block was empty.  An address that is not in the
    allocated list makes the kernel panic. *)
Theorem first_fit_free_correct fuel a sz pre rest s fh ah fl :
  heap_at s fh ah fl (pre ++ (a, sz) :: rest) -> heap_wf fl (pre ++ (a, sz) :: rest) ->
  (S (length fl) < fuel)%nat -> (length (pre ++ (a, sz) :: rest) < fuel)%nat ->
  let fl' := free_block (a, sz) fl in
  (exists fh' ah' s', first_fit_free fuel hartid a fh ah s = Ok (sz, fh', ah') s' /\
    heap_at s' fh' ah' fl' (pre ++ rest) /\ data_kept s s' (pre ++ rest)) /\
  heap_wf fl' (pre ++ rest) /\ StronglySorted by_addr fl' /\ coalesced fl' /\
  total fl' <= total fl + (SIZEOF_PD + sz) /\
  (Forall (fun x => 0 < x.2) ((a, sz) :: fl) -> total fl' = total fl + (SIZEOF_PD + sz)) /\
  (forall b, b ∉ (pre ++ (a, sz) :: rest).*1 -> first_fit_free fuel hartid b fh ah s = Panic).
Proof using All.
  intros Hat Hwf Hf1 Hf2 fl'. rewrite length_app in Hf2. simpl in Hf2.
  assert (((a, sz) :: fl) ++ pre ++ rest ≡ₚ fl ++ pre ++ (a, sz) :: rest) as Ep.
  { simpl. by rewrite <- !Permutation_middle. }
  pose proof Hwf as [Hap Hok]. rewrite <- Ep in Hap, Hok. apply Forall_app in Hok as [Hok1 Hok2].
  destruct (free_block_facts (a, sz) fl (pre ++ rest)) as (H1 & H2 & H3 & H4 & H5); [|done|].
  { eapply Forall_impl; [done|]. by intros x []. }
  split; [apply first_fit_free_run; [done|done|done|lia]|].
  split; [by apply free_wf|].
  unfold extent in H4, H5. simpl in H4, H5. split_and!; [done|done|unfold fl'; lia| |].
  - intros Hg. unfold fl'. rewrite (H5 Hg). lia.
  - intros b Hb. eapply first_fit_free_unknown; [done|done|]. rewrite length_app. simpl. lia.
Qed.

(** A descriptor can be lost.  When the rest of a split block has no data,
    freeing the block drops the descriptor of the rest instead of merging it:
    a page from which all but 24 bytes have been allocated and freed again never
    becomes one block again. *)
Theorem empty_rest_is_lost fuel a s fh : heap_at s fh 0 [(a, 4072)] [] -> ok a PGSIZE ->
  (2 < fuel)%nat ->
  exists s1 fh1 s2 fh2,
    first_fit_alloc fuel hartid 4048 fh 0 s = Ok (a, fh1, a) s1 /\
    first_fit_free fuel hartid a fh1 a s1 = Ok (4048, fh2, 0) s2 /\
    heap_at s2 fh2 0 [(a, 4048)] [].
Proof using All.
  intros Hat Ho Hf.
  assert (heap_wf [(a, 4072)] []) as Hwf.
  { split; [|by repeat constructor]. simpl. split; [repeat constructor; set_solver|].
    intros x y ->%list_elem_of_singleton ->%list_elem_of_singleton. lia. }
  destruct (first_fit_alloc_run fuel 4048 s fh 0 [(a, 4072)] []) as (r & fh1 & ah1 & s1 & E1 & HQ);
    [lia|done|done|simpl; lia|].
  assert (first_fit 4048 [(a, 4072)] = Some ([(a + SIZEOF_PD + 4048, 0)], a)) as Ef by done.
  rewrite Ef in HQ. destruct HQ as (-> & -> & H1 & _).
  destruct (first_fit_wf 4048 _ _ _ _ ltac:(lia) Hwf Ef) as [Hwf1 _].
  destruct (first_fit_free_run fuel a 4048 [] [] s1 fh1 a [(a + SIZEOF_PD + 4048, 0)])
    as (fh2 & ah2 & s2 & E2 & H2 & _); [done|done|simpl; lia|simpl; lia|].
  assert (free_block (a, 4048) [(a + SIZEOF_PD + 4048, 0)] = [(a, 4048)]) as Eb.
  { unfold free_block, merge_blocks, sort_blocks. simpl.
    rewrite (proj2 (Z.leb_le a (a + SIZEOF_PD + 4048))) by (unfold SIZEOF_PD; lia). done. }
  rewrite Eb in H2. pose proof H2 as (N & _ & _ & Ha & _). simpl in Ha. subst ah2.
  by exists s1, fh1, s2, fh2.
Qed.

End Heap.

(** ** The interface from the page tables

    The heap pages [lo] to [hi] (virtual page numbers) of process [c] are mapped
    by the tables [T] to the frames [fr]: distinct pages of memory that hold no
    table. *)

Section Pages.
  Context (hartid c root lo hi flags : Z) (T : tables) (fr : Z -> Z).

Record heap_frames : Prop := {
  hf_hart : hartid < NCPU;
  hf_low : 0 < lo;
  hf_high : hi * PGSIZE < 2 ^ 31;
  hf_flags : 0 <= flags < 1024;
  hf_valid : has flags PTE_V && (has flags PTE_R || has flags PTE_W) = true;
  hf_frame : forall v, lo <= v < hi ->
    fr v mod PGSIZE = 0 /\ DRAM_BASE <= fr v /\ fr v + PGSIZE <= PHYS_TOP;
  hf_inj : forall v w, lo <= v < hi -> lo <= w < hi -> fr v = fr w -> v = w;
  hf_tables : forall p v, lo <= v < hi -> T !! p <> Some (fr v)
}.

Definition page_ok (a n : Z) : Prop :=
  0 < n /\ lo * PGSIZE <= a /\ a + n <= hi * PGSIZE /\ a / PGSIZE = (a + n - 1) / PGSIZE.
Definition frame_addr (a : Z) : Z := fr (a / PGSIZE) + a mod PGSIZE.

Record heap_space (s : kernel) : Prop := {
  hs_current : current s !! hartid = Some c;
  hs_proc : exists p, procs s !! c = Some p /\ pagetable p = root;
  hs_bounds : mem_bounds (k_pmm s);
  hs_vspace : vspace root T (k_pmm s);
  hs_leaf : forall a, lo <= a / PGSIZE < hi ->
    leaf T (kmem_of s) a = pte (fr (a / PGSIZE)) flags
}.

Hypothesis Hframes : heap_frames.

Lemma page_ok_page a n : page_ok a n -> lo <= a / PGSIZE < hi /\ a mod PGSIZE + n <= PGSIZE /\ 0 < a.
Proof using Hframes. intros (H1 & H2 & H3 & H4). pose proof (hf_low Hframes). layout. dlia. Qed.

Lemma frames_apart v w : lo <= v < hi -> lo <= w < hi -> v <> w ->
  fr v + PGSIZE <= fr w \/ fr w + PGSIZE <= fr v.
Proof using Hframes.
  intros Hv Hw Hne. destruct (hf_frame Hframes v Hv) as [Ev _]. destruct (hf_frame Hframes w Hw) as [Ew _].
  assert (fr v <> fr w) by (intros E; apply Hne; by apply (hf_inj Hframes)). layout. dlia.
Qed.

Lemma heap_node_pa s a n : heap_space s -> page_ok a n -> node_pa hartid a s = Ok (frame_addr a) s.
Proof using Hframes.
  intros [H1 (p & H2 & <-) H3 H4 H5] Ho. destruct (page_ok_page _ _ Ho) as (Hv & _ & Ha).
  pose proof (hf_high Hframes). destruct (hf_frame Hframes _ Hv) as (F1 & F2 & F3).
  unfold node_pa, cur, get_current, gets, bind. rewrite H1. simpl. unfold get_proc, gets, bind. rewrite H2. simpl.
  unfold zoom. cbn [lget pmmL]. rewrite (user_va_to_pa_run _ T) by (done || lia). fold (kmem_of s).
  rewrite (proj2 (Z.ltb_lt a MAXVA)) by (rewrite MAXVA_eq; destruct Ho; layout; lia).
  rewrite H5 by done. unfold leaf_pa. pose proof (hf_flags Hframes).
  rewrite !has_pte, (hf_valid Hframes), PTE2PA_pte by (done || layout; lia).
  assert (fr (a / PGSIZE) / PGSIZE * PGSIZE = fr (a / PGSIZE)) as -> by (layout; dlia).
  rewrite (proj2 (Z.eqb_neq _ 0)) by (layout; lia). cbv zeta.
  rewrite u64_small by (layout; dlia). unfold frame_addr. f_equal. by destruct s as [[[] ?]].
Qed.

Lemma heap_store s a n k d v : heap_space s -> page_ok a n -> 0 <= d -> d + Z.of_nat k <= n ->
  heap_space (with_mem (store_le k (kmem_of s) (frame_addr a + d) v) s).
Proof using Hframes.
  intros [H1 H2 H3 H4 H5] Ho Hd Hk. destruct (page_ok_page _ _ Ho) as (Hv & Hn & _).
  destruct (hf_frame Hframes _ Hv) as (F1 & F2 & F3).
  set (m := store_le k (kmem_of s) (frame_addr a + d) v).
  destruct (vspace_frame root T (k_pmm s) (set_mem m (k_pmm s)) H4) as [H4' H5'].
  - intros path p x Hp <-. apply load8_store_le_ne. unfold frame_addr.
    assert (page_of x <> fr (a / PGSIZE)) as Hx
      by (intros E; rewrite E in Hp; by apply (hf_tables Hframes) in Hp).
    unfold page_of in Hx. layout. dlia.
  - intros path p Hp. apply (vs_owned _ _ _ H4 _ _ Hp).
  - constructor; [exact H1|exact H2|by destruct H3|exact H4'|]. intros b Hb. rewrite <- H5 by done. apply H5'.
Qed.

#[export] Instance heap_pages : HeapPages hartid page_ok frame_addr heap_space.
Proof using Hframes.
  constructor.
  - apply Hframes.
  - intros a n Ho. destruct (page_ok_page _ _ Ho) as (_ & _ & ?). pose proof (hf_high Hframes).
    destruct Ho as (? & ? & ? & _). lia.
  - intros a n Ho. destruct (page_ok_page _ _ Ho) as (Hv & Hn & _).
    destruct (hf_frame Hframes _ Hv) as (F1 & F2 & F3).
    unfold in_dram, frame_addr. layout. dlia.
  - intros a n d k Ho Hd Hk Hdk. destruct (page_ok_page _ _ Ho) as (Hv & Hn & _).
    assert ((a + d) / PGSIZE = a / PGSIZE) as E by (layout; dlia).
    unfold frame_addr, page_ok. rewrite E. destruct Ho as (H1 & H2 & H3 & H4). layout. dlia.
  - intros a n k (H1 & H2 & H3 & H4) (H5 & H6 & H7 & H8) E. unfold page_ok. layout. dlia.
  - intros a n b k Ha Hb Hab. destruct (page_ok_page _ _ Ha) as (Hv & Hn & _).
    destruct (page_ok_page _ _ Hb) as (Hw & Hk & _). unfold frame_addr.
    destruct (Z.eq_dec (a / PGSIZE) (b / PGSIZE)) as [E|E].
    + left. rewrite E. layout. dlia.
    + destruct (frames_apart _ _ Hv Hw E); layout; dlia.
  - apply heap_node_pa.
  - apply heap_store.
Qed.

End Pages.

(** ** A heap of one page, for the witnesses *)

Definition one_process (m : pmm) : kernel :=
  Kernel (Vm m 0) {[0 := set_pagetable 0x80007000 (blank_process 0)]} {[0 := 0]} ∅ ∅ ∅ 0 ∅ 0 0 ∅
    0 0 0 0 0 ∅ ∅.

Definition one_page_ok : Z -> Z -> Prop := page_ok 1024 1025.
Definition one_frame : Z -> Z := frame_addr (fun _ => 0x80006000).
Definition one_space (T : tables) : kernel -> Prop :=
  heap_space 0 0 0x80007000 1024 1025 0xD7 T (fun _ => 0x80006000).

Lemma one_page_heap : exists T s, HeapPages 0 one_page_ok one_frame (one_space T) /\
  heap_at (ok := one_page_ok) (tr := one_frame) (inv := one_space T) s 0x400000 0
    [(0x400000, 4072)] [] /\
  heap_wf (ok := one_page_ok) [(0x400000, 4072)] [].
Proof.
  destruct mapped_space as (T & fl & s & Hwf & Hvs & Hleaf & Ho & HT).
  assert (heap_frames 0 1024 1025 0xD7 T (fun _ => 0x80006000)) as Hf.
  { constructor; try done; try (intros; layout; lia). }
  pose proof (heap_pages 0 0 0x80007000 1024 1025 0xD7 T (fun _ => 0x80006000) Hf) as Hp.
  assert (one_space T (one_process s)) as H0.
  { constructor; [done|by eexists|apply Hwf|done|]. intros a Ha. rewrite <- Hleaf.
    apply leaf_page. layout. dlia. }
  assert (one_page_ok 0x400000 PGSIZE) as Hok by done.
  pose (s1 := with_mem (store64 (kmem_of (one_process s)) (one_frame 0x400000 + PD_SIZE) 4072) (one_process s)).
  assert (one_space T s1) as H1 by (by apply (hp_store _ _ PGSIZE)).
  pose (s2 := with_mem (store64 (kmem_of s1) (one_frame 0x400000 + PD_NEXT) 0) s1).
  assert (one_space T s2) as H2 by (by apply (hp_store _ _ PGSIZE)).
  exists T, s2. split; [done|]. split.
  - exists {[0x400000 := (4072, 0)]}. split; [constructor|].
    + done.
    + by rewrite with_mem_id.
    + by intros a x [<- _]%lookup_singleton_Some.
    + intros a b x y [<- _]%lookup_singleton_Some [<- _]%lookup_singleton_Some. lia.
    + intros a sz nx [<- [= <- <-]]%lookup_singleton_Some. unfold s2. rewrite kmem_of_with.
      rewrite load64_store64_eq. split; [|done]. rewrite load_store_le_ne by (unfold PD_SIZE, PD_NEXT; lia).
      unfold s1. rewrite kmem_of_with. by rewrite load64_store64_eq.
    + done.
    + simpl. split_and!; [done|by eexists|done|].
      intros b x [<- _]%lookup_singleton_Some. set_solver.
  - split; [|by repeat constructor]. split; [repeat constructor; set_solver|].
    intros x y ->%list_elem_of_singleton ->%list_elem_of_singleton. lia.
Qed.

Lemma first_fit_alloc_correct_witness : exists s s' fh',
  first_fit_alloc 2 0 100 0x400000 0 s = Ok (0x400000, fh', 0x400000) s'.
Proof.
  destruct one_page_heap as (T & s & Hp & Hat & Hwf).
  destruct (first_fit_alloc_correct 2 100 s 0x400000 0 _ _ ltac:(lia) Hat Hwf ltac:(simpl; lia))
    as (r & fh' & ah' & s' & E & HQ). simpl in HQ. destruct HQ as (-> & (N & _ & _ & Ha & _) & _).
  destruct Ha as [-> _]. by exists s, s', fh'.
Defined.

Lemma empty_rest_is_lost_witness : exists s s1 s2 fh1 fh2,
  first_fit_alloc 3 0 4048 0x400000 0 s = Ok (0x400000, fh1, 0x400000) s1 /\
  first_fit_free 3 0 0x400000 fh1 0x400000 s1 = Ok (4048, fh2, 0) s2.
Proof.
  destruct one_page_heap as (T & s & Hp & Hat & Hwf).
  destruct (empty_rest_is_lost 3 0x400000 s 0x400000 Hat) as (s1 & fh1 & s2 & fh2 & E1 & E2 & _);
    [done|lia|]. by exists s, s1, s2, fh1, fh2.
Defined.

(** A heap with one allocated block of 100 bytes, for [first_fit_free_correct]. *)
Lemma one_block_heap : exists T s fh, HeapPages 0 one_page_ok one_frame (one_space T) /\
  heap_at (ok := one_page_ok) (tr := one_frame) (inv := one_space T) s fh 0x400000
    [(0x40007c, 3948)] [(0x400000, 100)] /\
  heap_wf (ok := one_page_ok) [(0x40007c, 3948)] [(0x400000, 100)].
Proof.
  destruct one_page_heap as (T & s & Hp & Hat & Hwf).
  destruct (first_fit_alloc_run 2 100 s 0x400000 0 _ _ ltac:(lia) Hat Hwf ltac:(simpl; lia))
    as (r & fh' & ah' & s' & E & HQ). simpl in HQ. destruct HQ as (-> & -> & Hat' & _).
  exists T, s', fh'. split; [done|]. split; [done|].
  apply (first_fit_wf 100 _ _ [(0x40007c, 3948)] 0x400000 ltac:(lia) Hwf). done.
Qed.

Lemma first_fit_free_correct_witness : exists s s' fh fh' ah',
  first_fit_free 3 0 0x400000 fh 0x400000 s = Ok (100, fh', ah') s' /\
  first_fit_free 3 0 0x400008 fh 0x400000 s = Panic.
Proof.
  destruct one_block_heap as (T & s & fh & Hp & Hat & Hwf).
  destruct (first_fit_free_correct 3 0x400000 100 [] [] s fh 0x400000 _ Hat Hwf ltac:(simpl; lia)
    ltac:(simpl; lia)) as ((fh' & ah' & s' & E & _) & _ & _ & _ & _ & _ & Hpanic).
  exists s, s', fh, fh', ah'. split; [done|]. apply Hpanic. simpl. set_solver.
Defined.
