(* ===== verification/Sched.v ===== *)
(** * Scheduler (kernel/sched.c)

    Ready and block queues threaded through [queue_next], the choice of the next
    process, fork and wait.  A function that ends in [schedule] does not return
    to its caller; what it ends in is a [control]. *)

From S2P Require Import Prelude Mem Pmm StringLib Vmm Kernel Process.
From stdpp Require Import base gmap list fin_maps.
From Stdlib Require Import ZArith Lia Bool.

Set Default Goal Selector "!".
Open Scope Z_scope.

#[local] Opaque fill copy_fwd.

(** ** Queues

    The head pointer of a queue is passed by reference; the functions take the
    old head and return the new one. *)

(** [p == proc] in the walk along a queue, for at most [NPROC] elements: a
    longer walk means a cycle, on which the C loop does not end. *)
Definition queue_fuel : nat := Datatypes.S (Z.to_nat NPROC).

(** The loop that looks for [proc] and stops at the last element: [true] when
    [proc] is found. *)
Definition walk_queue (head proc : Z) : M kernel (bool * Z) :=
  loop queue_fuel (fun p =>
    let* x := get_proc p in
    match queue_next x with
    | None => ret (inr (p =? proc, p))
    | Some n => if p =? proc then ret (inr (true, p)) else ret (inl n)
    end) head.

Definition insert_to_specific_ready_queue (proc target_hartid : Z) : M kernel unit :=
  assert ((0 <=? target_hartid) && (target_hartid <? NCPU)) ;;;
  let* x := get_proc proc in
  release_proc_slot_reservation (pid x) ;;;
  spin_lock (ready_queue_lock target_hartid) ;;;
  let* h := gets (fun s => ready_queue_head s !! target_hartid) in
  match h with
  | None =>
      let* x := get_proc proc in
      (if bool_decide (status x = ZOMBIE) then ret tt else upd_proc proc (set_status READY)) ;;;
      upd_proc proc (set_queue_next None) ;;;
      modify (fun s => set_ready_queue_head (<[target_hartid := proc]> (ready_queue_head s)) s) ;;;
      spin_unlock (ready_queue_lock target_hartid)
  | Some h =>
      let* w := walk_queue h proc in
      let '(found, p) := w in
      if (found : bool) then spin_unlock (ready_queue_lock target_hartid)
      else
        upd_proc p (set_queue_next (Some proc)) ;;;
        let* x := get_proc proc in
        (if bool_decide (status x = ZOMBIE) then ret tt else upd_proc proc (set_status READY)) ;;;
        upd_proc proc (set_queue_next None) ;;;
        spin_unlock (ready_queue_lock target_hartid)
  end.

Definition insert_to_ready_queue (hartid proc : Z) : M kernel unit :=
  assert_hart hartid ;;;
  insert_to_specific_ready_queue proc hartid.

Definition insert_to_block_queue (head : option Z) (proc : Z) : M kernel (option Z) :=
  match head with
  | None =>
      upd_proc proc (set_status BLOCKED) ;;;
      upd_proc proc (set_queue_next None) ;;;
      ret (Some proc)
  | Some h =>
      let* w := walk_queue h proc in
      let '(found, p) := w in
      if (found : bool) then ret head
      else
        upd_proc p (set_queue_next (Some proc)) ;;;
        upd_proc proc (set_status BLOCKED) ;;;
        upd_proc proc (set_queue_next None) ;;;
        ret head
  end.

(** The removal loop shared by the two functions below: the first element that
    satisfies the test is unlinked.  Returns the element and the new head. *)
Definition unlink_first (test : process -> Z -> M kernel bool) (head : option Z)
    : M kernel (option Z * option Z) :=
  loop queue_fuel (fun '(prev, p) =>
    match p with
    | None => ret (inr (None, head))
    | Some p =>
        let* x := get_proc p in
        let* hit := test x p in
        if (hit : bool) then
          let* head' :=
            match prev with
            | None => ret (queue_next x)
            | Some q => upd_proc q (set_queue_next (queue_next x)) ;;; ret head
            end in
          upd_proc p (set_queue_next None) ;;;
          ret (inr (Some p, head'))
        else ret (inl (Some p, queue_next x))
    end) (None, head).

Definition remove_from_block_queue (head proc : option Z) : M kernel (option Z * option Z) :=
  unlink_first (fun _ p => ret (bool_decide (Some p = proc))) head.

(** [child] NULL wakes the first element; otherwise the one whose pid is that of
    the child's parent. *)
Definition wake_from_block_queue (head child : option Z) : M kernel (option Z * option Z) :=
  unlink_first (fun x _ =>
    match child with
    | None => ret true
    | Some c =>
        let* cx := get_proc c in
        let* q := of_option (parent cx) in
        let* px := get_proc q in
        ret (pid x =? pid px)
    end) head.

Definition pick_and_remove_from_block_queue (head : option Z) : M kernel (option Z * option Z) :=
  remove_from_block_queue head head.

(** ** Scheduling *)

(** How a path that gives up the processor ends: in user mode, spinning for work
    or for the shutdown signal, or waiting at the barrier for the shutdown. *)
Inductive control : Type :=
| ToUser (e : user_entry)
| Waiting
| Shutdown.

Definition all_done (ps : gmap Z process) : bool :=
  forallb (fun i =>
    match ps !! i with
    | Some p => bool_decide (status p = FREE) || bool_decide (status p = ZOMBIE)
    | None => false
    end) (seqZ 0 NPROC).

Section WithSymbols.
  Context `{Symbols}.

(** The end of [schedule], reached with a process in the ready queue. *)
Definition run_next (hartid : Z) : M kernel control :=
  let* h := gets (fun s => ready_queue_head s !! hartid) in
  modify (fun s => set_current (partial_alter (fun _ => h) hartid (current s)) s) ;;;
  let* p := of_option h in
  let* x := get_proc p in
  assert (bool_decide (status x = READY)) ;;;
  modify (fun s => set_ready_queue_head
    (partial_alter (fun _ => queue_next x) hartid (ready_queue_head s)) s) ;;;
  upd_proc p (set_status RUNNING) ;;;
  let* e := switch_to hartid p in
  ret (ToUser e).

(** [sync_barrier(&exit_counter, NCPU)] as one hart arrives at it. *)
Definition arrive : M kernel unit :=
  modify (fun s => set_exit_counter (s32 (exit_counter s + 1)) s).

Definition schedule (hartid : Z) : M kernel control :=
  assert_hart hartid ;;;
  spin_lock (ready_queue_lock hartid) ;;;
  let* h := gets (fun s => ready_queue_head s !! hartid) in
  spin_unlock (ready_queue_lock hartid) ;;;
  match h with
  | Some _ => run_next hartid
  | None =>
      let* ps := gets procs in
      if all_done ps then
        modify (set_g_should_shutdown 1) ;;;
        arrive ;;;
        ret Shutdown
      else
        let* down := gets g_should_shutdown in
        if negb (down =? 0) then arrive ;;; ret Shutdown
        else ret Waiting
  end.

(** The spin loop of [schedule] looks again: the round it leaves the loop with. *)
Definition resume_waiting (hartid : Z) : M kernel control :=
  let* down := gets g_should_shutdown in
  if negb (down =? 0) then arrive ;;; ret Shutdown
  else
    spin_lock (ready_queue_lock hartid) ;;;
    let* h := gets (fun s => ready_queue_head s !! hartid) in
    spin_unlock (ready_queue_lock hartid) ;;;
    match h with
    | Some _ => run_next hartid
    | None => ret Waiting
    end.

(** ** Fork *)

(** [*child->trapframe = *parent->trapframe] *)
Definition copy_trapframe (child parent : process) : M kernel unit :=
  zoom pmmL (kmemcpy (trapframe child) (trapframe parent) SIZEOF_TRAPFRAME) ;;; ret tt.

Definition fork_stack (child parent : process) (i : Z) : M kernel unit :=
  let* cva := kread64 (region_va (mapped_info child) STACK_SEGMENT) in
  let* d := zoom pmmL (lookup_pa (pagetable child) cva) in
  let* pva := kread64 (region_va (mapped_info parent) i) in
  let* s := zoom pmmL (lookup_pa (pagetable parent) pva) in
  zoom pmmL (kmemcpy d s PGSIZE) ;;; ret tt.

(** One page of the heap: shared copy-on-write by both. *)
Definition fork_heap_page (cpt ppt heap_block : Z) : M pmm unit :=
  let* pte := page_walk ppt heap_block false in
  if pte =? 0 then ret tt
  else
    let* e := read64 pte in
    if has e PTE_V then
      let pa := PTE2PA e in
      inc_page_ref pa ;;;
      let* e := read64 pte in
      let flags := PTE_FLAGS e in
      let flags := Z.land flags (Z.lnot PTE_W) in
      let flags := Z.lor flags PTE_COW in
      user_vm_map cpt heap_block PGSIZE pa (Z.lor flags PTE_V) ;;;
      write64 pte (Z.lor (Z.lor (PA2PTE pa) flags) PTE_V)
    else ret tt.

(** The loop over the pages of the parent's heap. *)
Definition fork_heap_pages (cpt ppt bottom top : Z) : M pmm unit :=
  loop (rounds bottom top) (fun b =>
    if b <? top then
      fork_heap_page cpt ppt b ;;;
      ret (inl (u64 (b + PGSIZE)))
    else ret (inr tt)) bottom.

Definition fork_heap (child : Z) (cp pp : process) : M kernel unit :=
  zoom pmmL (fork_heap_pages (pagetable cp) (pagetable pp) (heap_bottom (user_heap pp))
    (heap_top (user_heap pp))) ;;;
  let* np := kread32 (region_npages (mapped_info pp) HEAP_SEGMENT) in
  kwrite32 (region_npages (mapped_info cp) HEAP_SEGMENT) np ;;;
  kwrite32 (region_type (mapped_info cp) HEAP_SEGMENT) HEAP_SEGMENT ;;;
  let* va := kread64 (region_va (mapped_info pp) HEAP_SEGMENT) in
  kwrite64 (region_va (mapped_info cp) HEAP_SEGMENT) va ;;;
  upd_proc child (set_user_heap (user_heap pp)).

(** The end of the CODE and DATA cases: registers the region in the child. *)
Definition add_region (child va npages seg : Z) : M kernel unit :=
  let* cp := get_proc child in
  let n := total_mapped_region cp in
  kwrite64 (region_va (mapped_info cp) n) va ;;;
  kwrite32 (region_npages (mapped_info cp) n) npages ;;;
  kwrite32 (region_type (mapped_info cp) n) seg ;;;
  upd_proc child (set_total_mapped_region (s32 (n + 1))).

Definition fork_code (child : Z) (cp pp : process) (i : Z) : M kernel unit :=
  let* va := kread64 (region_va (mapped_info pp) i) in
  let* npages := kread32 (region_npages (mapped_info pp) i) in
  loop (Datatypes.S (Z.to_nat npages)) (fun j =>
    if j <? npages then
      let* addr := zoom pmmL (lookup_pa (pagetable pp) (u64 (va + j * PGSIZE))) in
      zoom pmmL (map_pages (pagetable cp) (u64 (va + j * PGSIZE)) PGSIZE addr
        (prot_to_type (Z.lor (Z.lor PROT_WRITE PROT_READ) PROT_EXEC) 1)) ;;;
      ret (inl (j + 1))
    else ret (inr tt)) 0 ;;;
  add_region child va npages CODE_SEGMENT.

Definition fork_data (child : Z) (cp pp : process) (i : Z) : M kernel unit :=
  let* va := kread64 (region_va (mapped_info pp) i) in
  let* npages := kread32 (region_npages (mapped_info pp) i) in
  loop (Datatypes.S (Z.to_nat npages)) (fun j =>
    if j <? npages then
      let* child_pa := zoom pmmL alloc_page in
      let parent_va := u64 (va + j * PGSIZE) in
      let* parent_pa := zoom pmmL (lookup_pa (pagetable pp) parent_va) in
      zoom pmmL (kmemcpy child_pa parent_pa PGSIZE) ;;;
      zoom pmmL (user_vm_map (pagetable cp) parent_va PGSIZE child_pa
        (prot_to_type (Z.lor PROT_WRITE PROT_READ) 1)) ;;;
      ret (inl (j + 1))
    else ret (inr tt)) 0 ;;;
  add_region child va npages DATA_SEGMENT.

(** The loop over the regions of the parent, the same in both fork functions. *)
Definition fork_regions (child par : Z) : M kernel unit :=
  let* pp := get_proc par in
  loop (Datatypes.S (Z.to_nat (total_mapped_region pp))) (fun i =>
    if i <? total_mapped_region pp then
      let* cp := get_proc child in
      let* seg := kread32 (region_type (mapped_info pp) i) in
      (if seg =? CONTEXT_SEGMENT then copy_trapframe cp pp
       else if seg =? STACK_SEGMENT then fork_stack cp pp i
       else if seg =? HEAP_SEGMENT then fork_heap child cp pp
       else if seg =? CODE_SEGMENT then fork_code child cp pp i
       else if seg =? DATA_SEGMENT then fork_data child cp pp i
       else ret tt) ;;;
      ret (inl (i + 1))
    else ret (inr tt)) 0.

Definition do_fork (hartid par : Z) : M kernel Z :=
  let* child := alloc_process hartid in
  fork_regions child par ;;;
  upd_proc child (set_status READY) ;;;
  let* cp := get_proc child in
  kwrite64 (trapframe cp + TF_A0) 0 ;;;
  upd_proc child (set_parent (Some par)) ;;;
  insert_to_ready_queue hartid child ;;;
  let* cp := get_proc child in
  ret (s32 (pid cp)).

Definition do_fork_to_hart (hartid par target_hartid : Z) : M kernel Z :=
  assert ((0 <=? target_hartid) && (target_hartid <? NCPU)) ;;;
  let* child := alloc_process hartid in
  fork_regions child par ;;;
  upd_proc child (set_status READY) ;;;
  let* cp := get_proc child in
  kwrite64 (trapframe cp + TF_A0) 0 ;;;
  kwrite64 (trapframe cp + TF_TP) target_hartid ;;;
  upd_proc child (set_parent (Some par)) ;;;
  insert_to_specific_ready_queue child target_hartid ;;;
  let* cp := get_proc child in
  ret (s32 (pid cp)).

(** ** Wait *)

(** Of the loop over [procs] for [pid == -1]: the first entry that is a child and
    not FREE decides.  [Some (i, true)]: it is a zombie. *)
Definition find_child (c : option Z) : M kernel (option (Z * bool)) :=
  loop (Datatypes.S (Z.to_nat NPROC)) (fun i =>
    if i <? NPROC then
      let* x := get_proc i in
      if bool_decide (parent x = c) && negb (bool_decide (status x = FREE)) then
        ret (inr (Some (i, bool_decide (status x = ZOMBIE))))
      else ret (inl (i + 1))
    else ret (inr None)) 0.

(** A call either returns a value or gives up the processor. *)
Definition block_and_schedule (hartid : Z) : M kernel (Z + control) :=
  let* c := cur hartid in
  upd_proc c (set_status BLOCKED) ;;;
  let* h := gets (fun s => block_queue_head s !! hartid) in
  let* h' := insert_to_block_queue h c in
  modify (fun s => set_block_queue_head
    (partial_alter (fun _ => h') hartid (block_queue_head s)) s) ;;;
  let* r := schedule hartid in
  ret (inr r).

Definition do_wait (hartid wpid : Z) : M kernel (Z + control) :=
  assert_hart hartid ;;;
  let* c := get_current hartid in
  if 0 <? wpid then
    if NPROC <=? wpid then ret (inl (-1))
    else
      let* x := get_proc wpid in
      if negb (bool_decide (parent x = c)) then ret (inl (-1))
      else block_and_schedule hartid
  else if wpid =? -1 then
    let* f := find_child c in
    match f with
    | None => ret (inl (-1))
    | Some (i, true) =>
        upd_proc i (set_status FREE) ;;;
        let* x := get_proc i in
        ret (inl (s32 (pid x)))
    | Some (i, false) => block_and_schedule hartid
    end
  else ret (inl (-1)).

End WithSymbols.
