(* ===== verification/Queues.v ===== *)
(** * The scheduler's queues

    Every queue of the kernel (ready and block queue of each hart, the queue of
    each semaphore) is a chain through [queue_next].  The invariant [sched_wf]
    says which list each of them is, that no process is in two places, and that
    a queue only holds processes in the matching status; the operations of
    kernel/sched.c are shown to append, remove and pick as a FIFO queue does. *)

From S2P Require Import Prelude Mem Pmm StringLib Vmm Kernel Process Sched.
From stdpp Require Import base gmap list fin_maps.
From Stdlib Require Import ZArith Lia Bool.

Set Default Goal Selector "!".
Open Scope Z_scope.

(** ** Chains *)

Fixpoint queue (ps : gmap Z process) (h : option Z) (l : list Z) : Prop :=
  match l with
  | [] => h = None
  | p :: l => h = Some p /\ exists x, ps !! p = Some x /\ queue ps (queue_next x) l
  end.

Lemma queue_head ps h l : queue ps h l -> h = head l.
Proof. destruct l; simpl; naive_solver. Qed.

Lemma queue_frame ps ps' l : forall h,
  (forall p, p ∈ l -> queue_next <$> ps' !! p = queue_next <$> ps !! p) ->
  queue ps h l -> queue ps' h l.
Proof.
  induction l as [|p l IH]; intros h Hf; simpl; [done|].
  intros (-> & x & Hx & Hq). split; [done|].
  pose proof (Hf p ltac:(set_solver)) as Hp. rewrite Hx in Hp.
  apply fmap_Some in Hp as (x' & Hx' & Hn). exists x'. split; [done|].
  rewrite <- Hn. apply IH; [|done]. intros. apply Hf. set_solver.
Qed.

Lemma queue_lookup ps h l p : queue ps h l -> p ∈ l -> is_Some (ps !! p).
Proof.
  revert h. induction l as [|q l IH]; intros h; simpl; [by intros _ ?%elem_of_nil|].
  intros (-> & x & Hx & Hq) [->|Hp]%elem_of_cons; [by eexists|eauto].
Qed.

(** [queue_next] of an element is the element after it. *)
Lemma queue_next_of ps l1 : forall h p l2 x,
  queue ps h (l1 ++ p :: l2) -> ps !! p = Some x ->
  queue_next x = head l2 /\ queue ps (queue_next x) l2.
Proof.
  induction l1 as [|q l1 IH]; intros h p l2 x; simpl.
  - intros (-> & y & Hy & Hq) Hx. simplify_eq. split; [by apply (queue_head _ _ _ Hq)|done].
  - intros (-> & y & Hy & Hq) Hx. by eapply IH.
Qed.

(** Appending: the last element, if any, is made to point to the new one. *)
Definition linked (ps : gmap Z process) (l : list Z) (p : Z) : gmap Z process :=
  match last l with
  | None => ps
  | Some t => alter (set_queue_next (Some p)) t ps
  end.

Lemma linked_lookup ps l p q :
  linked ps l p !! q =
    (if decide (last l = Some q) then set_queue_next (Some p) else id) <$> ps !! q.
Proof.
  unfold linked. destruct (last l) as [t|]; simpl; [|by rewrite option_fmap_id].
  rewrite lookup_alter. repeat case_decide; simplify_eq; try done; by rewrite option_fmap_id.
Qed.

Lemma queue_append ps l : forall h p x,
  queue ps h l -> NoDup l -> p ∉ l -> queue_next x = None ->
  queue (<[p := x]> (linked ps l p)) (if l is [] then Some p else h) (l ++ [p]).
Proof.
  induction l as [|q l IH]; intros h p x; simpl.
  - intros -> _ _ Hx. split; [done|]. exists x. by rewrite lookup_insert_eq.
  - intros (-> & y & Hy & Hq) [Hni Hnd]%NoDup_cons Hp Hx. split; [done|].
    exists (if decide (l = []) then set_queue_next (Some p) y else y). split.
    + rewrite lookup_insert_ne by set_solver. rewrite linked_lookup, Hy. simpl.
      destruct l as [|q' l]; simpl in *.
      * rewrite (decide_True _ _ (eq_refl (Some q))). done.
      * rewrite (decide_False (P := last (q' :: l) = Some q)); [done|].
        intros Hl%last_Some_elem_of. done.
    + destruct l as [|q' l].
      * simpl. split; [done|]. exists x. by rewrite lookup_insert_eq.
      * destruct (decide (q' :: l = [])); [done|].
        specialize (IH (queue_next y) p x Hq Hnd ltac:(set_solver) Hx).
        eapply queue_frame; [|exact IH]. intros r Hr. done.
Qed.

(** ** Running the queue operations *)

Lemma get_proc_run i x s : procs s !! i = Some x -> get_proc i s = Ok x s.
Proof. unfold get_proc, bind, gets, of_option. by intros ->. Qed.

Lemma upd_proc_run i f x s : procs s !! i = Some x ->
  upd_proc i f s = Ok tt (set_procs (<[i := f x]> (procs s)) s).
Proof. intros Hx. unfold upd_proc, bind. by rewrite (get_proc_run i x). Qed.

Lemma walk_queue_run s proc l : forall h,
  queue (procs s) (Some h) l -> NoDup l -> (length l <= Z.to_nat NPROC)%nat ->
  exists p, walk_queue h proc s = Ok (bool_decide (proc ∈ l), p) s /\
    (proc ∉ l -> last l = Some p).
Proof.
  unfold walk_queue. assert (Z.to_nat NPROC < queue_fuel)%nat as Hf by (unfold queue_fuel; lia).
  revert Hf. generalize queue_fuel as fuel. generalize (Z.to_nat NPROC) as n. revert l.
  intros l n fuel Hf h Hq Hnd Hlen. assert (length l < fuel)%nat as Hlf by lia. clear n Hf Hlen.
  revert fuel h Hq Hnd Hlf.
  induction l as [|q l IH]; intros [|fuel] h Hq Hnd Hlen; simpl in *; try lia; [done|].
  destruct Hq as ([= <-] & x & Hx & Hq).
  apply NoDup_cons in Hnd as [Hni Hnd]. unfold bind at 1, bind at 1.
  rewrite (get_proc_run h x) by done. pose proof (queue_head _ _ _ Hq) as Hh.
  destruct l as [|q' l]; simpl in Hh; rewrite Hh in *.
  - exists h. split; [|done]. unfold ret. do 2 f_equal.
    destruct (Z.eqb_spec h proc); [rewrite bool_decide_true|rewrite bool_decide_false]; set_solver.
  - destruct (Z.eqb_spec h proc) as [->|Hne].
    + exists proc. split; [|set_solver]. unfold ret. by rewrite bool_decide_true by set_solver.
    + destruct (IH fuel q') as (p & Hp & Hlast); [done|done|simpl in *; lia|].
      exists p. split.
      * etrans; [exact Hp|]. do 2 f_equal. apply bool_decide_ext. set_solver.
      * intros Hni'. rewrite <- Hlast by set_solver. done.
Qed.

Lemma alter_insert_eq (f : process -> process) t y (ps : gmap Z process) : ps !! t = Some y ->
  alter f t ps = <[t := f y]> ps.
Proof.
  intros Hy. apply map_eq. intros i. rewrite lookup_alter, lookup_insert.
  repeat case_decide; subst; try done. by rewrite Hy.
Qed.

Lemma linked_insert ps l p t y : last l = Some t -> ps !! t = Some y ->
  linked ps l p = <[t := set_queue_next (Some p) y]> ps.
Proof. intros Hl Hy. unfold linked. rewrite Hl. by apply alter_insert_eq. Qed.

(** Enqueueing [p] with its fields changed by [f]. *)
Definition enq (f : process -> process) (p : Z) (x : process) (l : list Z) (ps : gmap Z process)
    : gmap Z process :=
  <[p := set_queue_next None (f x)]> (linked ps l p).

Definition readied (x : process) : process :=
  if bool_decide (status x = ZOMBIE) then x else set_status READY x.

Definition release_slot (i : Z) (s : kernel) : kernel :=
  set_g_proc_reserved (<[i := 0]> (g_proc_reserved s)) s.

Lemma release_proc_slot_reservation_run i s : i < NPROC -> g_proc_alloc_lock s = 0 ->
  release_proc_slot_reservation i s = Ok tt (release_slot i s).
Proof.
  intros Hi Hl. unfold release_proc_slot_reservation.
  rewrite (proj2 (Z.leb_gt _ _)) by done. unfold bind, spin_lock. simpl. rewrite Hl. simpl.
  destruct s; simpl in *; by subst.
Qed.

Lemma linked_None ps p : linked ps [] p = ps.
Proof. done. Qed.

(** The state after an insertion into the ready queue of hart [h]. *)
Definition ready_inserted (p : Z) (x : process) (h : Z) (l : list Z) (s : kernel) : kernel :=
  let s := release_slot (pid x) s in
  let s := set_g_ready_queue_lock (<[h := 0]> (<[h := 1]> (g_ready_queue_lock s))) s in
  if decide (p ∈ l) then s
  else
    let s := set_procs (enq readied p x l (procs s)) s in
    if l is [] then set_ready_queue_head (<[h := p]> (ready_queue_head s)) s else s.

Lemma insert_ready_run p x h l s :
  0 <= h < NCPU -> procs s !! p = Some x -> pid x < NPROC ->
  g_proc_alloc_lock s = 0 -> default 0 (g_ready_queue_lock s !! h) = 0 ->
  queue (procs s) (ready_queue_head s !! h) l -> NoDup l -> (length l <= Z.to_nat NPROC)%nat ->
  insert_to_specific_ready_queue p h s = Ok tt (ready_inserted p x h l s).
Proof.
  intros Hh Hx Hpid Hal Hrl Hq Hnd Hlen. unfold insert_to_specific_ready_queue.
  replace ((0 <=? h) && (h <? NCPU)) with true by lia.
  unfold assert, bind at 1, ret at 1. unfold bind at 1. rewrite (get_proc_run p x) by done.
  unfold bind at 1. rewrite release_proc_slot_reservation_run by done.
  unfold bind at 1, spin_lock at 1. cbn [ready_queue_lock lget].
  change (g_ready_queue_lock (release_slot (pid x) s)) with (g_ready_queue_lock s).
  rewrite Hrl. cbn [Z.eqb]. unfold bind at 1, gets at 1.
  set (s1 := lset (ready_queue_lock h) 1 (release_slot (pid x) s)).
  change (ready_queue_head s1) with (ready_queue_head s).
  assert (procs s1 = procs s) as Hps by done.
  pose proof (queue_head _ _ _ Hq) as Hhd. unfold ready_inserted. cbv zeta.
  destruct l as [|q l].
  - simpl in Hhd. rewrite Hhd. unfold bind at 1.
    rewrite (get_proc_run p x) by done. rewrite decide_False by set_solver.
    unfold enq. rewrite linked_None. unfold bind at 1.
    assert ((if bool_decide (status x = ZOMBIE) then ret tt else upd_proc p (set_status READY)) s1
      = Ok tt (set_procs (<[p := readied x]> (procs s)) s1)) as ->.
    { unfold readied. case_bool_decide.
      - rewrite insert_id by done. destruct s; done.
      - by rewrite (upd_proc_run p _ x). }
    unfold bind at 1. rewrite (upd_proc_run p _ (readied x)) by (simpl; by rewrite lookup_insert_eq).
    simpl. rewrite insert_insert_eq. done.
  - simpl in Hhd. rewrite Hhd. rewrite Hhd in Hq. unfold bind at 1.
    destruct (walk_queue_run s1 p (q :: l) q) as (t & Hw & Hlast); [done|done|done|].
    rewrite Hw. cbn iota. case_bool_decide as Hin; [by rewrite decide_True|].
    rewrite decide_False by done. specialize (Hlast Hin).
    destruct (queue_lookup _ _ _ t Hq) as [y Hy]; [by apply last_Some_elem_of|].
    assert (t <> p) by (intros ->; apply Hin; by apply last_Some_elem_of).
    unfold bind at 1. rewrite (upd_proc_run t _ y) by done. unfold bind at 1.
    rewrite (get_proc_run p x) by (simpl; by rewrite lookup_insert_ne).
    unfold enq. cbn [procs set_g_ready_queue_lock release_slot set_g_proc_reserved].
    rewrite (linked_insert _ _ _ t y) by done. change (procs s1) with (procs s).
    unfold bind at 1.
    set (ps1 := <[t := set_queue_next (Some p) y]> (procs s)).
    assert (ps1 !! p = Some x) as Hp1 by (unfold ps1; by rewrite lookup_insert_ne).
    assert ((if bool_decide (status x = ZOMBIE) then ret tt else upd_proc p (set_status READY))
      (set_procs ps1 s1) = Ok tt (set_procs (<[p := readied x]> ps1) s1)) as ->.
    { unfold readied. case_bool_decide.
      - rewrite insert_id by done. destruct s; done.
      - by rewrite (upd_proc_run p _ x). }
    unfold bind at 1. rewrite (upd_proc_run p _ (readied x)) by (simpl; by rewrite lookup_insert_eq).
    simpl. rewrite insert_insert_eq. done.
Qed.

Lemma insert_block_run p x h l s :
  procs s !! p = Some x -> queue (procs s) h l -> NoDup l ->
  (length l <= Z.to_nat NPROC)%nat -> p ∉ l ->
  insert_to_block_queue h p s =
    Ok (if l is [] then Some p else h) (set_procs (enq (set_status BLOCKED) p x l (procs s)) s).
Proof.
  intros Hx Hq Hnd Hlen Hin. pose proof (queue_head _ _ _ Hq) as Hhd.
  unfold insert_to_block_queue. destruct l as [|q l]; simpl in Hhd; subst h.
  - unfold bind at 1. rewrite (upd_proc_run p _ x) by done. unfold bind at 1.
    rewrite (upd_proc_run p _ (set_status BLOCKED x)) by (simpl; by rewrite lookup_insert_eq).
    simpl. by rewrite insert_insert_eq.
  - destruct (walk_queue_run s p (q :: l) q) as (t & Hw & Hlast); [done|done|done|].
    unfold bind at 1. rewrite Hw. rewrite bool_decide_false by done. specialize (Hlast Hin).
    destruct (queue_lookup _ _ _ t Hq) as [y Hy]; [by apply last_Some_elem_of|].
    assert (t <> p) by (intros ->; apply Hin; by apply last_Some_elem_of).
    unfold enq. rewrite (linked_insert _ _ _ t y) by done.
    unfold bind at 1. rewrite (upd_proc_run t _ y) by done. unfold bind at 1.
    rewrite (upd_proc_run p _ x) by (simpl; by rewrite lookup_insert_ne).
    unfold bind at 1.
    rewrite (upd_proc_run p _ (set_status BLOCKED x)) by (simpl; by rewrite lookup_insert_eq).
    simpl. by rewrite insert_insert_eq.
Qed.

(** ** Unlinking *)

Definition relinked (ps : gmap Z process) (l1 : list Z) (nxt : option Z) : gmap Z process :=
  match last l1 with
  | None => ps
  | Some t => alter (set_queue_next nxt) t ps
  end.

Lemma relinked_lookup ps l1 nxt q :
  relinked ps l1 nxt !! q =
    (if decide (last l1 = Some q) then set_queue_next nxt else id) <$> ps !! q.
Proof.
  unfold relinked. destruct (last l1) as [t|]; simpl; [|by rewrite option_fmap_id].
  rewrite lookup_alter. repeat case_decide; simplify_eq; try done; by rewrite option_fmap_id.
Qed.

(** [procs] after element [p], found after [l1], is unlinked. *)
Definition unl (p : Z) (x : process) (l1 : list Z) (ps : gmap Z process) : gmap Z process :=
  <[p := set_queue_next None x]> (relinked ps l1 (queue_next x)).

Lemma queue_unlink ps l1 : forall h p x l2,
  queue ps h (l1 ++ p :: l2) -> NoDup (l1 ++ p :: l2) -> ps !! p = Some x ->
  queue (unl p x l1 ps) (if l1 is [] then queue_next x else h) (l1 ++ l2).
Proof.
  induction l1 as [|q l1 IH]; intros h p x l2 Hq Hnd Hx.
  - simpl in *. apply NoDup_cons in Hnd as [Hni Hnd].
    destruct (queue_next_of ps [] h p l2 x Hq Hx) as [_ Hq2].
    eapply queue_frame; [|exact Hq2]. intros r Hr. unfold unl.
    rewrite lookup_insert_ne by set_solver. done.
  - simpl in *. destruct Hq as (-> & y & Hy & Hq). apply NoDup_cons in Hnd as [Hni Hnd].
    assert (p <> q) by set_solver.
    split; [done|]. unfold unl.
    exists (if decide (l1 = []) then set_queue_next (queue_next x) y else y). split.
    + rewrite lookup_insert_ne, relinked_lookup, Hy by done. simpl.
      destruct l1 as [|q' l1]; simpl in *.
      * by rewrite (decide_True _ _ (eq_refl (Some q))).
      * rewrite (decide_False (P := last (q' :: l1) = Some q)); [done|].
        intros Hl%last_Some_elem_of. set_solver.
    + destruct l1 as [|q' l1].
      * simpl in *. destruct (queue_next_of ps [] _ p l2 x Hq Hx) as [_ Hq2].
        apply NoDup_cons in Hnd as [Hni' Hnd].
        eapply queue_frame; [|exact Hq2]. intros r Hr.
        rewrite lookup_insert_ne, relinked_lookup by set_solver. simpl.
        rewrite decide_False; [by rewrite option_fmap_id|]. intros [= ->]. set_solver.
      * destruct (decide (q' :: l1 = [])); [done|]. exact (IH _ _ _ _ Hq Hnd Hx).
Qed.

Lemma unlink_first_loop (test : process -> Z -> M kernel bool) (f : Z -> bool) head s :
  forall l1 p l2 fuel pre prev h,
  queue (procs s) h (l1 ++ p :: l2) -> NoDup (pre ++ l1 ++ p :: l2) ->
  (forall q x, q ∈ l1 ++ [p] -> procs s !! q = Some x -> test x q s = Ok (f q) s) ->
  (forall q, q ∈ l1 -> f q = false) -> f p = true ->
  prev = last pre -> (forall t, last pre = Some t -> is_Some (procs s !! t)) ->
  (length l1 < fuel)%nat ->
  exists x, procs s !! p = Some x /\
  loop fuel (fun '(prev, p) =>
    match p with
    | None => ret (inr (None, head))
    | Some p =>
        let* x := get_proc p in
        let* hit := test x p in
        if (hit : bool) then
          let* head' :=
            match prev with
            | None => ret (queue_next x)
            | Some q => upd_proc q (set_queue_next (queue_next x)) ;;; ret head
            end in
          upd_proc p (set_queue_next None) ;;;
          ret (inr (Some p, head'))
        else ret (inl (Some p, queue_next x))
    end) (prev, h) s
  = Ok (Some p, if pre ++ l1 is [] then queue_next x else head)
       (set_procs (unl p x (pre ++ l1) (procs s)) s).
Proof.
  induction l1 as [|q l1 IH]; intros p l2 [|fuel] pre prev h Hq Hnd Ht Hf Hp -> Hpre Hfu;
    simpl in *; try lia; destruct Hq as (-> & x & Hx & Hq).
  - exists x. split; [done|]. unfold bind at 1, bind at 1. rewrite (get_proc_run p x) by done.
    unfold bind at 1. rewrite (Ht p x) by (done || set_solver). rewrite Hp.
    rewrite app_nil_r. unfold bind at 1.
    destruct (last pre) as [t|] eqn:El.
    + destruct (Hpre t eq_refl) as [y Hy]. assert (t ∈ pre) by (by apply last_Some_elem_of).
      assert (t <> p).
      { intros ->. apply NoDup_app in Hnd as (_ & Hd & _). by apply (Hd p); [|set_solver]. }
      unfold bind at 1. rewrite (upd_proc_run t _ y) by done. cbn iota.
      unfold ret at 1. unfold bind at 1.
      rewrite (upd_proc_run p _ x) by (simpl; by rewrite lookup_insert_ne).
      unfold unl, relinked. rewrite El, (alter_insert_eq _ _ y) by done.
      destruct pre; done.
    + apply last_None in El as ->. unfold ret at 1. unfold bind at 1.
      rewrite (upd_proc_run p _ x) by done. done.
  - unfold bind at 1, bind at 1. rewrite (get_proc_run q x) by done.
    unfold bind at 1. rewrite (Ht q x) by (done || set_solver).
    rewrite (Hf q) by set_solver. unfold ret at 1. cbn iota.
    destruct (IH p l2 fuel (pre ++ [q]) (Some q) (queue_next x)) as (y & Hy & Hl).
    + done.
    + by rewrite <- app_assoc.
    + intros r z Hr. apply Ht. set_solver.
    + intros r Hr. apply Hf. set_solver.
    + done.
    + by rewrite last_snoc.
    + intros t. rewrite last_snoc. intros [= <-]. by eexists.
    + lia.
    + exists y. split; [done|]. rewrite <- app_assoc in Hl. exact Hl.
Qed.

(** ** All queues of the kernel *)

Inductive qid : Type := QReady (h : Z) | QBlock (h : Z) | QSem (i : Z).

#[export] Instance qid_eq_dec : EqDecision qid.
Proof. solve_decision. Defined.

Definition head_of (s : kernel) (q : qid) : option Z :=
  match q with
  | QReady h => ready_queue_head s !! h
  | QBlock h => block_queue_head s !! h
  | QSem i => x ← semaphores s !! i; proc_queue_head x
  end.

Definition queue_status (q : qid) : proc_status :=
  match q with QReady _ => READY | _ => BLOCKED end.

Record locks_free (s : kernel) : Prop := {
  lf_alloc : g_proc_alloc_lock s = 0;
  lf_ready : forall h, default 0 (g_ready_queue_lock s !! h) = 0;
  lf_sem : g_semaphore_lock s = 0;
  lf_pool : g_semaphore_pool_lock s = 0
}.

Record sched_wf (Q : qid -> list Z) (s : kernel) : Prop := {
  sw_queue : forall q, queue (procs s) (head_of s q) (Q q);
  sw_nodup : forall q, NoDup (Q q);
  sw_disj : forall q1 q2 p, p ∈ Q q1 -> p ∈ Q q2 -> q1 = q2;
  sw_status : forall q p x, p ∈ Q q -> procs s !! p = Some x -> status x = queue_status q;
  sw_procs : forall i, is_Some (procs s !! i) <-> 0 <= i < NPROC;
  sw_pid : forall i x, procs s !! i = Some x -> pid x = i;
  sw_locks : locks_free s
}.

Definition qset (Q : qid -> list Z) (q : qid) (l : list Z) : qid -> list Z :=
  fun q' => if decide (q' = q) then l else Q q'.

Lemma qset_eq Q q l : qset Q q l q = l.
Proof. unfold qset. by rewrite decide_True. Qed.
Lemma qset_ne Q q q' l : q' <> q -> qset Q q l q' = Q q'.
Proof. intros. unfold qset. by rewrite decide_False. Qed.

Definition nowhere (Q : qid -> list Z) (p : Z) : Prop := forall q, p ∉ Q q.

(** Queue assignments that agree on every queue describe the same states. *)
#[export] Instance sched_wf_proper :
  Proper (pointwise_relation qid eq ==> eq ==> iff) sched_wf.
Proof.
  assert (forall Q Q' s, (forall q, Q q = Q' q) -> sched_wf Q s -> sched_wf Q' s) as H.
  { intros Q Q' s E []. constructor; try done; setoid_rewrite <- E; done. }
  intros Q Q' E s _ <-. split; apply H; intros q; by rewrite (E q).
Qed.

Lemma queue_bounded Q s q : sched_wf Q s -> (length (Q q) <= Z.to_nat NPROC)%nat.
Proof.
  intros Hwf. transitivity (length (seqZ 0 NPROC)); [|by rewrite length_seqZ].
  apply submseteq_length, NoDup_submseteq; [apply Hwf|].
  intros p Hp. apply elem_of_seqZ. rewrite Z.add_0_l. apply (sw_procs _ _ Hwf).
  eapply queue_lookup; [apply Hwf|done].
Qed.

(** A queue whose elements keep their [queue_next] is not affected. *)
Lemma queue_keep Q s q ps' : sched_wf Q s ->
  (forall p, p ∈ Q q -> queue_next <$> ps' !! p = queue_next <$> procs s !! p) ->
  queue ps' (head_of s q) (Q q).
Proof. intros Hwf Hf. eapply queue_frame; [done|apply Hwf]. Qed.

Section Preserve.
  Context (Q : qid -> list Z) (s : kernel) (Hwf : sched_wf Q s).

Lemma enq_lookup f p x l ps r : p ∉ l -> ps !! p = Some x ->
  enq f p x l ps !! r =
    if decide (r = p) then Some (set_queue_next None (f x))
    else (if decide (last l = Some r) then set_queue_next (Some p) else id) <$> ps !! r.
Proof.
  intros Hp Hx. unfold enq. rewrite lookup_insert, linked_lookup.
  repeat case_decide; subst; done.
Qed.

Lemma wf_enqueue q p x f s' :
  procs s !! p = Some x -> nowhere Q p -> status (f x) = queue_status q -> pid (f x) = pid x ->
  procs s' = enq f p x (Q q) (procs s) ->
  (forall q', head_of s' q' =
     if decide (q' = q) then (if Q q is [] then Some p else head_of s q) else head_of s q') ->
  locks_free s' ->
  sched_wf (qset Q q (Q q ++ [p])) s'.
Proof.
  intros Hx Hno Hst Hpid Hps Hhd Hlk. constructor.
  - intros q'. rewrite Hhd, Hps. unfold qset. case_decide as E.
    + subst q'. apply queue_append; [apply Hwf|apply Hwf|apply Hno|done].
    + apply queue_keep; [done|]. intros r Hr.
      assert (r <> p) by (intros ->; by apply (Hno q')).
      rewrite enq_lookup by (done || apply Hno). rewrite decide_False by done.
      case_decide as El; [|by rewrite option_fmap_id].
      apply last_Some_elem_of in El. destruct E. by apply (sw_disj _ _ Hwf q' q r).
  - intros q'. unfold qset. case_decide; [|apply Hwf].
    apply NoDup_app. split_and!; [apply Hwf| |by apply NoDup_singleton].
    intros r Hr ->%list_elem_of_singleton. by apply (Hno q).
  - intros q1 q2 r. unfold qset. repeat case_decide; subst; try done.
    + rewrite elem_of_app, list_elem_of_singleton. intros [Hr| ->] Hr2;
        [symmetry; by eapply (sw_disj _ _ Hwf)|by destruct (Hno q2)].
    + rewrite elem_of_app, list_elem_of_singleton. intros Hr1 [Hr| ->];
        [by eapply (sw_disj _ _ Hwf)|by destruct (Hno q1)].
    + by apply (sw_disj _ _ Hwf).
  - intros q' r y. rewrite Hps, enq_lookup by (done || apply Hno). case_decide as Er.
    + intros Hr [= <-]. simpl. subst r. unfold qset in Hr. case_decide; [by subst|].
      by destruct (Hno q').
    + intros Hr (z & Hz & ->)%fmap_Some.
      assert (r ∈ Q q') as Hr'.
      { unfold qset in Hr. case_decide; [|done]. subst.
        apply elem_of_app in Hr as [?|?%list_elem_of_singleton]; done. }
      pose proof (sw_status _ _ Hwf _ _ _ Hr' Hz). by case_decide.
  - intros i. rewrite <- (sw_procs _ _ Hwf), Hps, enq_lookup by (done || apply Hno).
    case_decide as Ei; [subst; rewrite Hx; split; eauto|].
    by rewrite fmap_is_Some.
  - intros i y. rewrite Hps, enq_lookup by (done || apply Hno). case_decide as Ei.
    + intros [= <-]. simpl. rewrite Hpid. subst. by apply (sw_pid _ _ Hwf).
    + intros (z & Hz & ->)%fmap_Some. pose proof (sw_pid _ _ Hwf _ _ Hz). by case_decide.
  - done.
Qed.

(** Changing other fields of a process that is in no queue. *)
Lemma wf_update p x g s' :
  procs s !! p = Some x -> nowhere Q p -> pid (g x) = pid x ->
  procs s' = <[p := g x]> (procs s) ->
  (forall q, head_of s' q = head_of s q) -> locks_free s' ->
  sched_wf Q s'.
Proof.
  intros Hx Hno Hpid Hps Hhd Hlk. constructor; try apply Hwf; try done.
  - intros q. rewrite Hhd, Hps. apply queue_keep; [done|]. intros r Hr.
    rewrite lookup_insert_ne; [done|]. intros ->. by apply (Hno q).
  - intros q r y Hr. rewrite Hps, lookup_insert_ne.
    + by apply (sw_status _ _ Hwf).
    + intros ->. by apply (Hno q).
  - intros i. rewrite <- (sw_procs _ _ Hwf), Hps, lookup_insert.
    case_decide; [subst; rewrite Hx; split; eauto|done].
  - intros i y. rewrite Hps, lookup_insert. case_decide; [|apply Hwf].
    intros [= <-]. subst. rewrite Hpid. by apply (sw_pid _ _ Hwf).
Qed.

(** Anything that is not a queue may change. *)
Lemma wf_ext s' : procs s' = procs s -> (forall q, head_of s' q = head_of s q) ->
  locks_free s' -> sched_wf Q s'.
Proof. intros Hps Hhd Hlk. destruct Hwf. constructor; try done; rewrite ?Hps; try done.
  intros q. by rewrite Hhd. Qed.

Lemma unlinked_disjoint q l1 p l2 : Q q = l1 ++ p :: l2 ->
  nowhere (qset Q q (l1 ++ l2)) p /\ NoDup (l1 ++ p :: l2).
Proof.
  intros Hq. pose proof (sw_nodup _ _ Hwf q) as Hnd. rewrite Hq in Hnd. split; [|done].
  intros q'. unfold qset. case_decide as E.
  - apply NoDup_app in Hnd as (_ & Hd & [Hp _]%NoDup_cons).
    rewrite elem_of_app. intros [H|H]; [|done]. apply (Hd p H). set_solver.
  - intros Hr. apply E. apply (sw_disj _ _ Hwf _ _ p Hr). rewrite Hq. set_solver.
Qed.

Lemma wf_unlink q l1 p l2 x s' :
  Q q = l1 ++ p :: l2 -> procs s !! p = Some x ->
  procs s' = unl p x l1 (procs s) ->
  (forall q', head_of s' q' =
     if decide (q' = q) then (if l1 is [] then queue_next x else head_of s q) else head_of s q') ->
  locks_free s' ->
  sched_wf (qset Q q (l1 ++ l2)) s'.
Proof.
  intros Hq Hx Hps Hhd Hlk. destruct (unlinked_disjoint _ _ _ _ Hq) as [Hno Hnd].
  assert (forall r, unl p x l1 (procs s) !! r =
    if decide (r = p) then Some (set_queue_next None x)
    else (if decide (last l1 = Some r) then set_queue_next (queue_next x) else id)
      <$> procs s !! r) as Hl.
  { intros r. unfold unl. rewrite lookup_insert, relinked_lookup.
    repeat case_decide; subst; done. }
  assert (forall q' r, r ∈ qset Q q (l1 ++ l2) q' -> r ∈ Q q') as Hsub.
  { intros q' r. unfold qset. case_decide; [subst; rewrite Hq; set_solver|done]. }
  constructor.
  - intros q'. rewrite Hhd, Hps. unfold qset. case_decide as E.
    + subst q'. apply queue_unlink; [rewrite <- Hq; apply Hwf|done|done].
    + apply queue_keep; [done|]. intros r Hr. rewrite Hl.
      rewrite decide_False by (intros ->; apply (Hno q'); by rewrite qset_ne).
      case_decide as El; [|by rewrite option_fmap_id].
      apply last_Some_elem_of in El. destruct E. apply (sw_disj _ _ Hwf q' q r); [done|].
      rewrite Hq. set_solver.
  - intros q'. unfold qset. case_decide; [|apply Hwf].
    apply NoDup_app in Hnd as (H1 & H2 & [_ H3]%NoDup_cons). apply NoDup_app.
    split_and!; [done| |done]. intros r Hr Hr2. apply (H2 r Hr). set_solver.
  - intros q1 q2 r Hr1%Hsub Hr2%Hsub. by apply (sw_disj _ _ Hwf _ _ r).
  - intros q' r y Hr. rewrite Hps, Hl. case_decide as Er; [subst; by destruct (Hno q')|].
    intros (z & Hz & ->)%fmap_Some. pose proof (sw_status _ _ Hwf _ _ _ (Hsub _ _ Hr) Hz).
    by case_decide.
  - intros i. rewrite <- (sw_procs _ _ Hwf), Hps, Hl.
    case_decide as Ei; [subst; rewrite Hx; split; eauto|]. by rewrite fmap_is_Some.
  - intros i y. rewrite Hps, Hl. case_decide as Ei.
    + intros [= <-]. simpl. subst. by apply (sw_pid _ _ Hwf).
    + intros (z & Hz & ->)%fmap_Some. pose proof (sw_pid _ _ Hwf _ _ Hz). by case_decide.
  - done.
Qed.

(** Taking the head off by moving the head pointer only. *)
Lemma wf_pop q p l x s' :
  Q q = p :: l -> procs s !! p = Some x -> procs s' = procs s ->
  (forall q', head_of s' q' = if decide (q' = q) then queue_next x else head_of s q') ->
  locks_free s' ->
  sched_wf (qset Q q l) s' /\ nowhere (qset Q q l) p.
Proof.
  intros Hq Hx Hps Hhd Hlk.
  destruct (unlinked_disjoint q [] p l Hq) as [Hno Hnd]. split; [|done].
  assert (forall q' r, r ∈ qset Q q l q' -> r ∈ Q q') as Hsub.
  { intros q' r. unfold qset. case_decide; [subst; rewrite Hq; set_solver|done]. }
  destruct Hwf as [W1 W2 W3 W4 W5 W6 W7]. constructor; rewrite ?Hps; try done.
  - intros q'. rewrite Hhd. unfold qset. case_decide; [|done]. subst q'.
    specialize (W1 q). rewrite Hq in W1. by destruct (queue_next_of _ [] _ _ _ _ W1 Hx).
  - intros q'. unfold qset. case_decide; [|done]. by apply NoDup_cons in Hnd as [_ ?].
  - intros q1 q2 r Hr1%Hsub Hr2%Hsub. by apply (W3 _ _ r).
  - intros q' r y Hr. apply W4. by apply Hsub.
Qed.

End Preserve.

(** ** Entering user mode *)

Record same_sched (s s' : kernel) : Prop := {
  ss_procs : procs s' = procs s;
  ss_ready : ready_queue_head s' = ready_queue_head s;
  ss_block : block_queue_head s' = block_queue_head s;
  ss_sems : semaphores s' = semaphores s;
  ss_alloc : g_proc_alloc_lock s' = g_proc_alloc_lock s;
  ss_rlock : g_ready_queue_lock s' = g_ready_queue_lock s;
  ss_slock : g_semaphore_lock s' = g_semaphore_lock s;
  ss_plock : g_semaphore_pool_lock s' = g_semaphore_pool_lock s
}.

Lemma same_sched_wf Q s s' : sched_wf Q s -> same_sched s s' -> sched_wf Q s'.
Proof.
  intros Hwf []. apply (wf_ext Q s); [done|done| |].
  - intros []; simpl; congruence.
  - destruct (sw_locks _ _ Hwf). constructor; try congruence.
Qed.

Lemma kwrite64_run a v s : in_dram a 8 = true ->
  exists s', kwrite64 a v s = Ok tt s' /\
    k_pmm s' = set_mem (store64 (mem (k_pmm s)) a v) (k_pmm s) /\
    same_sched s s' /\ current s' = current s /\ csrs s' = csrs s.
Proof.
  intros Ha. unfold kwrite64, zoom, write64. cbn [pmmL lget lset]. rewrite Ha.
  eexists. split; [done|]. by destruct s.
Qed.

Lemma kread64_run a s : in_dram a 8 = true -> kread64 a s = Ok (load64 (mem (k_pmm s)) a) s.
Proof.
  intros Ha. unfold kread64, zoom, read64. cbn [pmmL lget lset]. rewrite Ha.
  by destruct s as [[[] ?]].
Qed.

Lemma same_sched_trans s1 s2 s3 : same_sched s1 s2 -> same_sched s2 s3 -> same_sched s1 s3.
Proof. intros [] []. constructor; congruence. Qed.

Section Switch.
  Context `{Symbols}.

(** The trapframe of a process is memory of its own. *)
Definition tf_ok (x : process) : Prop :=
  DRAM_BASE <= trapframe x /\ trapframe x + SIZEOF_TRAPFRAME <= PHYS_TOP.

Lemma tf_field x o : tf_ok x -> 0 <= o -> o + 8 <= SIZEOF_TRAPFRAME ->
  in_dram (trapframe x + o) 8 = true.
Proof. unfold tf_ok, in_dram. lia. Qed.

Lemma switch_to_run h p x c s :
  h < NCPU -> procs s !! p = Some x -> csrs s !! h = Some c -> tf_ok x ->
  exists s', switch_to h p s =
      Ok (UserEntry (trapframe x) (MAKE_SATP (pagetable x))) s' /\
    same_sched s s' /\ current s' = <[h := p]> (current s) /\
    (exists c', csrs s' !! h = Some c' /\ stvec c' = smode_trap_vector /\
       sepc c' = load64 (mem (k_pmm s)) (trapframe x + TF_EPC) /\
       has (sstatus c') SSTATUS_SPP = false /\ has (sstatus c') SSTATUS_SPIE = true) /\
    load64 (mem (k_pmm s')) (trapframe x + TF_KERNEL_SP) = u64 (kstack x) /\
    load64 (mem (k_pmm s')) (trapframe x + TF_KERNEL_SATP) = u64 (satp c) /\
    load64 (mem (k_pmm s')) (trapframe x + TF_KERNEL_TRAP) = u64 smode_trap_handler_entry.
Proof.
  intros Hh Hx Hc Htf. unfold switch_to, assert_hart, assert.
  rewrite (proj2 (Z.ltb_lt _ _)) by done. unfold bind at 1, ret at 1.
  unfold bind at 1, modify at 1. unfold bind at 1, upd_csr at 1, get_csr at 1, bind at 1, bind at 1.
  unfold gets at 1. cbn [csrs set_current]. rewrite Hc. unfold of_option, ret at 1, modify at 1.
  set (s1 := set_csrs _ _). unfold bind at 1. rewrite (get_proc_run p x) by done.
  pose proof (fun o => tf_field x o Htf) as Hin. unfold SIZEOF_TRAPFRAME in Hin.
  destruct (kwrite64_run (trapframe x + TF_KERNEL_SP) (kstack x) s1)
    as (s2 & Hr2 & Hm2 & Hs2 & Hc2 & Hcs2); [apply Hin; done|].
  unfold bind at 1. rewrite Hr2. unfold bind at 1, get_csr at 1, bind at 1, gets at 1.
  rewrite Hcs2. cbn [s1 csrs set_csrs]. rewrite lookup_insert_eq. unfold of_option, ret at 1.
  cbn [satp set_stvec].
  destruct (kwrite64_run (trapframe x + TF_KERNEL_SATP) (satp c) s2)
    as (s3 & Hr3 & Hm3 & Hs3 & Hc3 & Hcs3); [apply Hin; done|].
  unfold bind at 1. rewrite Hr3.
  destruct (kwrite64_run (trapframe x + TF_KERNEL_TRAP) smode_trap_handler_entry s3)
    as (s4 & Hr4 & Hm4 & Hs4 & Hc4 & Hcs4); [apply Hin; done|].
  unfold bind at 1. rewrite Hr4. cbv zeta.
  unfold bind at 1, upd_csr at 1, get_csr at 1, bind at 1, bind at 1, gets at 1.
  rewrite Hcs4, Hcs3, Hcs2. cbn [s1 csrs set_csrs]. rewrite lookup_insert_eq.
  unfold of_option, ret at 1, modify at 1. set (s5 := set_csrs _ s4).
  assert (k_pmm s5 = k_pmm s4) as Hk5 by done.
  assert (k_pmm s1 = k_pmm s) as Hk1 by done.
  unfold bind at 1. rewrite kread64_run by (apply Hin; done). rewrite Hk5, Hm4, Hm3, Hm2, Hk1.
  cbn [mem set_mem]. rewrite !load64_store64_ne by (unfold TF_EPC, TF_KERNEL_SP, TF_KERNEL_SATP, TF_KERNEL_TRAP; lia).
  unfold bind at 1, upd_csr at 1, get_csr at 1, bind at 1, bind at 1, gets at 1.
  cbn [s5 csrs set_csrs]. rewrite lookup_insert_eq. unfold of_option, ret at 1, modify at 1.
  unfold ret. eexists. split; [done|]. split_and!.
  - assert (same_sched s s1) as Hs1 by done.
    pose proof (same_sched_trans _ _ _ Hs1 (same_sched_trans _ _ _ Hs2
      (same_sched_trans _ _ _ Hs3 Hs4))) as []. constructor; done.
  - simpl. by rewrite Hc4, Hc3, Hc2.
  - eexists. simpl. rewrite lookup_insert_eq. split; [done|]. simpl. split_and!; [done|done| |].
    + unfold has. rewrite Z.land_lor_distr_l.
      change (Z.land SSTATUS_SPIE SSTATUS_SPP) with 0. rewrite Z.lor_0_r, <- Z.land_assoc.
      rewrite (Z.land_comm (Z.lnot _)), Z.land_lnot_diag, Z.land_0_r. done.
    + unfold has. rewrite Z.land_lor_distr_l, Z.land_diag.
      destruct (Z.eqb_spec (Z.lor (Z.land (Z.land (sstatus c) (Z.lnot SSTATUS_SPP)) SSTATUS_SPIE)
        SSTATUS_SPIE) 0) as [E|]; [|done].
      apply Z.lor_eq_0_iff in E as [_ E]. done.
  - change (k_pmm (set_csrs _ s5)) with (k_pmm s5). rewrite Hk5, Hm4, Hm3, Hm2. cbn [mem set_mem].
    rewrite !load64_store64_ne by (unfold TF_EPC, TF_KERNEL_SP, TF_KERNEL_SATP, TF_KERNEL_TRAP; lia).
    apply load64_store64_eq.
  - change (k_pmm (set_csrs _ s5)) with (k_pmm s5). rewrite Hk5, Hm4, Hm3. cbn [mem set_mem].
    rewrite load64_store64_ne by (unfold TF_EPC, TF_KERNEL_SP, TF_KERNEL_SATP, TF_KERNEL_TRAP; lia).
    apply load64_store64_eq.
  - change (k_pmm (set_csrs _ s5)) with (k_pmm s5). rewrite Hk5, Hm4. cbn [mem set_mem].
    apply load64_store64_eq.
Qed.

End Switch.

Section Schedule.
  Context `{Symbols}.

Lemma run_next_run Q h p l x c s :
  sched_wf Q s -> h < NCPU -> Q (QReady h) = p :: l -> procs s !! p = Some x ->
  csrs s !! h = Some c -> tf_ok x ->
  exists s', run_next h s = Ok (ToUser (UserEntry (trapframe x) (MAKE_SATP (pagetable x)))) s' /\
    sched_wf (qset Q (QReady h) l) s' /\ nowhere (qset Q (QReady h) l) p /\
    procs s' = <[p := set_status RUNNING x]> (procs s) /\
    current s' !! h = Some p /\ semaphores s' = semaphores s /\ is_Some (csrs s' !! h).
Proof.
  intros Hwf Hh Hq Hx Hc Htf.
  pose proof (sw_queue _ _ Hwf (QReady h)) as Hqu. rewrite Hq in Hqu.
  pose proof (queue_head _ _ _ Hqu) as Hhd. simpl in Hhd.
  assert (status x = READY) as Hst
    by (apply (sw_status _ _ Hwf (QReady h) p x); [rewrite Hq; set_solver|done]).
  unfold run_next, bind at 1, gets at 1. rewrite Hhd. unfold bind at 1, modify at 1.
  unfold bind at 1, of_option at 1, ret at 1.
  set (s1 := set_current _ s). unfold bind at 1. rewrite (get_proc_run p x) by done.
  rewrite Hst. rewrite bool_decide_true by done. unfold bind at 1, assert at 1, ret at 1.
  unfold bind at 1, modify at 1. set (s2 := set_ready_queue_head _ s1).
  assert (forall q', head_of s2 q' = if decide (q' = QReady h) then queue_next x else head_of s q')
    as Hheads.
  { intros q'. case_decide as E; [subst; simpl; by rewrite lookup_partial_alter_eq|].
    destruct q' as [h'|h'|i]; simpl; try done.
    rewrite lookup_partial_alter_ne; [done|]. intros ->. done. }
  destruct (wf_pop Q s Hwf (QReady h) p l x s2) as [Hwf2 Hno]; try done;
    [destruct (sw_locks _ _ Hwf); by constructor|].
  unfold bind at 1. rewrite (upd_proc_run p _ x) by done.
  set (s3 := set_procs _ s2).
  assert (sched_wf (qset Q (QReady h) l) s3) as Hwf3
    by (apply (wf_update _ s2 Hwf2 p x (set_status RUNNING)); try done;
        destruct (sw_locks _ _ Hwf); by constructor).
  destruct (switch_to_run h p (set_status RUNNING x) c s3)
    as (s4 & Hr4 & Hs4 & Hc4 & (c' & Hcs & _) & _); try done; [simpl; by rewrite lookup_insert_eq|].
  unfold bind at 1. rewrite Hr4. exists s4. split_and!; try done.
  - by eapply same_sched_wf.
  - by rewrite (ss_procs _ _ Hs4).
  - by rewrite Hc4, lookup_insert_eq.
  - by rewrite (ss_sems _ _ Hs4).
Qed.

(** The state in which [schedule] takes its decision. *)
Definition peeked (h : Z) (s : kernel) : kernel :=
  set_g_ready_queue_lock (<[h := 0]> (<[h := 1]> (g_ready_queue_lock s))) s.

Lemma peeked_wf Q h s : sched_wf Q s -> sched_wf Q (peeked h s).
Proof.
  intros Hwf. apply (wf_ext Q s); [done|done|by intros []|].
  destruct (sw_locks _ _ Hwf) as [? Hr ? ?]. constructor; try done.
  intros h'. simpl. rewrite insert_insert_eq, lookup_insert. by case_decide.
Qed.

Lemma schedule_run Q h s : sched_wf Q s -> h < NCPU ->
  schedule h s =
    match Q (QReady h) with
    | _ :: _ => run_next h (peeked h s)
    | [] =>
        if all_done (procs s) then
          Ok Shutdown (set_exit_counter (s32 (exit_counter s + 1))
            (set_g_should_shutdown 1 (peeked h s)))
        else if negb (g_should_shutdown s =? 0) then
          Ok Shutdown (set_exit_counter (s32 (exit_counter s + 1)) (peeked h s))
        else Ok Waiting (peeked h s)
    end.
Proof.
  intros Hwf Hh. pose proof (queue_head _ _ _ (sw_queue _ _ Hwf (QReady h))) as Hhd.
  simpl in Hhd. pose proof (lf_ready _ (sw_locks _ _ Hwf) h) as Hl.
  unfold schedule, assert_hart, assert. rewrite (proj2 (Z.ltb_lt _ _)) by done.
  unfold bind at 1, ret at 1. unfold bind at 1, spin_lock. cbn [ready_queue_lock lget lset].
  rewrite Hl. cbn [Z.eqb]. unfold bind at 1, gets at 1. cbn [ready_queue_head set_g_ready_queue_lock].
  rewrite Hhd. unfold bind at 1, spin_unlock, modify at 1. cbn [ready_queue_lock lset].
  change (set_g_ready_queue_lock _ (set_g_ready_queue_lock _ s)) with (peeked h s).
  destruct (Q (QReady h)) as [|p l]; [|done]. cbn [head].
  unfold bind at 1, gets at 1. cbn [procs peeked set_g_ready_queue_lock].
  destruct (all_done (procs s)); [done|]. unfold bind at 1, gets at 1.
  cbn [g_should_shutdown peeked set_g_ready_queue_lock].
  by destruct (g_should_shutdown s =? 0).
Qed.


End Schedule.

(** ** Insertion *)

Lemma readied_alive x : status x <> ZOMBIE ->
  status (readied x) = READY /\ pid (readied x) = pid x.
Proof. unfold readied. by case_bool_decide. Qed.

Lemma ready_inserted_wf Q h p x s :
  sched_wf Q s -> procs s !! p = Some x -> nowhere Q p -> status x <> ZOMBIE ->
  sched_wf (qset Q (QReady h) (Q (QReady h) ++ [p])) (ready_inserted p x h (Q (QReady h)) s).
Proof.
  intros Hwf Hx Hno Hst. destruct (readied_alive x Hst) as [H1 H2].
  unfold ready_inserted. rewrite decide_False by apply Hno. cbv zeta.
  apply (wf_enqueue Q s Hwf (QReady h) p x readied); try done.
  - by destruct (Q (QReady h)).
  - intros q'. case_decide as E.
    + subst q'. simpl. destruct (Q (QReady h)); [|done]. simpl. apply lookup_insert_eq.
    + destruct q' as [h'|h'|i]; simpl; try (by destruct (Q (QReady h))).
      destruct (Q (QReady h)); [|done]. simpl. rewrite lookup_insert_ne; [done|].
      intros ->. done.
  - destruct (sw_locks _ _ Hwf) as [? Hr ? ?].
    destruct (Q (QReady h)); constructor; try done; intros h'; simpl;
      rewrite insert_insert_eq, lookup_insert; by case_decide.
Qed.

(** Insertion of a process that is in no queue, run. *)
Lemma ready_queue_fifo_run Q h p x s :
  sched_wf Q s -> 0 <= h < NCPU -> procs s !! p = Some x -> nowhere Q p -> status x <> ZOMBIE ->
  exists s', insert_to_specific_ready_queue p h s = Ok tt s' /\
    sched_wf (qset Q (QReady h) (Q (QReady h) ++ [p])) s' /\
    procs s' = enq readied p x (Q (QReady h)) (procs s) /\
    (csrs s' = csrs s /\ k_vm s' = k_vm s /\ current s' = current s).
Proof.
  intros Hwf Hh Hx Hno Hst.
  pose proof (sw_pid _ _ Hwf _ _ Hx) as Hpid.
  assert (0 <= p < NPROC) by (apply (sw_procs _ _ Hwf); by rewrite Hx).
  exists (ready_inserted p x h (Q (QReady h)) s). split_and!.
  - destruct (sw_locks _ _ Hwf). apply insert_ready_run; try done; [lia| | |].
    + apply (sw_queue _ _ Hwf (QReady h)).
    + apply Hwf.
    + by eapply queue_bounded.
  - by apply ready_inserted_wf.
  - unfold ready_inserted. rewrite decide_False by apply Hno. by destruct (Q (QReady h)).
  - unfold ready_inserted. rewrite decide_False by apply Hno. by destruct (Q (QReady h)).
  - unfold ready_inserted. rewrite decide_False by apply Hno. by destruct (Q (QReady h)).
  - unfold ready_inserted. rewrite decide_False by apply Hno. by destruct (Q (QReady h)).
Qed.

(** A process that is in no queue is appended to the END of the ready queue
    of the chosen hart and becomes READY; every other queue keeps its order and
    its elements, and no other process changes except for the link of the former
    last element. *)
Theorem ready_queue_fifo Q h p x s :
  sched_wf Q s -> 0 <= h < NCPU -> procs s !! p = Some x -> nowhere Q p -> status x <> ZOMBIE ->
  exists s', insert_to_specific_ready_queue p h s = Ok tt s' /\
    sched_wf (qset Q (QReady h) (Q (QReady h) ++ [p])) s' /\
    (status <$> procs s' !! p = Some READY) /\
    (forall r, r <> p -> last (Q (QReady h)) <> Some r -> procs s' !! r = procs s !! r) /\
    k_vm s' = k_vm s /\ current s' = current s.
Proof.
  intros Hwf Hh Hx Hno Hst.
  destruct (ready_queue_fifo_run Q h p x s) as (s' & Hr & Hw & Hps & _ & Hv & Hc); try done.
  exists s'. split_and!; try done.
  - rewrite Hps, enq_lookup by (done || apply Hno). rewrite decide_True by done. simpl.
    f_equal. by apply readied_alive.
  - intros r Hne Hl. rewrite Hps, enq_lookup by (done || apply Hno).
    rewrite !decide_False by done. by rewrite option_fmap_id.
Qed.

(** ** Blocking and waking *)

(** The state in which hart [h]'s current process [c] sits at the end of its
    block queue. *)
Definition blocked (h c : Z) (x : process) (l : list Z) (s : kernel) : kernel :=
  set_block_queue_head
    (partial_alter (fun _ => if l is [] then Some c else block_queue_head s !! h) h
      (block_queue_head s))
    (set_procs (enq (set_status BLOCKED) c (set_status BLOCKED x) l
      (<[c := set_status BLOCKED x]> (procs s))) s).

Lemma blocked_wf Q h c x s :
  sched_wf Q s -> procs s !! c = Some x -> nowhere Q c ->
  sched_wf (qset Q (QBlock h) (Q (QBlock h) ++ [c])) (blocked h c x (Q (QBlock h)) s).
Proof.
  intros Hwf Hx Hno. set (s1 := set_procs (<[c := set_status BLOCKED x]> (procs s)) s).
  assert (locks_free s1) as Hlk by (destruct (sw_locks _ _ Hwf); by constructor).
  assert (sched_wf Q s1) as Hwf1 by (by apply (wf_update _ s Hwf c x (set_status BLOCKED))).
  apply (wf_enqueue Q s1 Hwf1 (QBlock h) c (set_status BLOCKED x) (set_status BLOCKED)); try done.
  - simpl. by rewrite lookup_insert_eq.
  - intros q'. case_decide as E.
    + subst q'. simpl. by rewrite lookup_partial_alter_eq.
    + destruct q' as [h'|h'|i]; simpl; try done.
      rewrite lookup_partial_alter_ne; [done|]. intros ->. done.
  - destruct Hlk; by constructor.
Qed.

Section Wait.
  Context `{Symbols}.

Lemma block_and_schedule_run Q h c x s :
  sched_wf Q s -> current s !! h = Some c -> procs s !! c = Some x -> nowhere Q c ->
  block_and_schedule h s =
    (let* r := schedule h in ret (inr r)) (blocked h c x (Q (QBlock h)) s).
Proof.
  intros Hwf Hc Hx Hno. unfold block_and_schedule, cur, get_current.
  unfold bind at 1, bind at 1, gets at 1. rewrite Hc. unfold of_option, ret at 1.
  unfold bind at 1. rewrite (upd_proc_run c _ x) by done. unfold bind at 1, gets at 1.
  set (s1 := set_procs _ s).
  assert (locks_free s1) as Hlk by (destruct (sw_locks _ _ Hwf); by constructor).
  assert (sched_wf Q s1) as Hwf1 by (by apply (wf_update _ s Hwf c x (set_status BLOCKED))).
  unfold bind at 1. rewrite (insert_block_run c (set_status BLOCKED x) _ (Q (QBlock h))).
  - unfold bind at 1, modify at 1. done.
  - simpl. by rewrite lookup_insert_eq.
  - apply (sw_queue _ _ Hwf1 (QBlock h)).
  - apply Hwf.
  - by eapply queue_bounded.
  - apply Hno.
Qed.

Lemma do_wait_start h wpid c s : h < NCPU -> current s !! h = Some c ->
  do_wait h wpid s =
    (if 0 <? wpid then
       if NPROC <=? wpid then ret (inl (-1))
       else
         let* x := get_proc wpid in
         if negb (bool_decide (parent x = Some c)) then ret (inl (-1))
         else block_and_schedule h
     else if wpid =? -1 then
       let* f := find_child (Some c) in
       match f with
       | None => ret (inl (-1))
       | Some (i, true) =>
           upd_proc i (set_status FREE) ;;;
           let* x := get_proc i in
           ret (inl (s32 (pid x)))
       | Some (i, false) => block_and_schedule h
       end
     else ret (inl (-1))) s.
Proof.
  intros Hh Hc. unfold do_wait, assert_hart, assert, get_current.
  rewrite (proj2 (Z.ltb_lt h _)) by done. unfold bind at 1, ret at 1.
  unfold bind at 1, gets at 1. by rewrite Hc.
Qed.

(** C35: [do_wait] on a child by pid always blocks the caller: whatever the
    status of the child, the caller goes to the end of its hart's block queue
    and the processor is handed to [schedule]; an invalid pid or a process that
    is not a child gives -1 and changes nothing. *)
Theorem do_wait_pid Q h wpid c x s :
  sched_wf Q s -> h < NCPU -> current s !! h = Some c -> procs s !! c = Some x -> nowhere Q c ->
  0 < wpid ->
  (forall y, wpid < NPROC -> procs s !! wpid = Some y -> parent y = Some c ->
     exists s1, do_wait h wpid s = (let* r := schedule h in ret (inr r)) s1 /\
       sched_wf (qset Q (QBlock h) (Q (QBlock h) ++ [c])) s1 /\
       status <$> procs s1 !! c = Some BLOCKED) /\
  (NPROC <= wpid \/ (forall y, procs s !! wpid = Some y -> parent y <> Some c) ->
     do_wait h wpid s = Ok (inl (-1)) s).
Proof.
  intros Hwf Hh Hc Hx Hno Hw. rewrite (do_wait_start h wpid c) by done.
  rewrite (proj2 (Z.ltb_lt 0 wpid)) by done. split.
  - intros y Hlt Hy Hpar. rewrite (proj2 (Z.leb_gt NPROC wpid)) by done.
    unfold bind at 1. rewrite (get_proc_run wpid y) by done. rewrite Hpar.
    rewrite bool_decide_true by done. cbn [negb].
    exists (blocked h c x (Q (QBlock h)) s). split_and!.
    + by apply block_and_schedule_run.
    + by apply blocked_wf.
    + simpl. unfold enq. by rewrite lookup_insert_eq.
  - intros Hbad. destruct (Z.leb_spec NPROC wpid) as [|Hlt]; [done|].
    destruct Hbad as [|Hbad]; [lia|].
    destruct (proj2 (sw_procs _ _ Hwf wpid) ltac:(lia)) as [y Hy].
    unfold bind at 1. rewrite (get_proc_run wpid y) by done.
    rewrite bool_decide_false by auto. done.
Qed.

Definition is_child (ps : gmap Z process) (c : option Z) (i : Z) : bool :=
  if ps !! i is Some x then bool_decide (parent x = c) && negb (bool_decide (status x = FREE))
  else false.

Definition zombie_at (ps : gmap Z process) (i : Z) : bool :=
  if ps !! i is Some x then bool_decide (status x = ZOMBIE) else false.

Definition first_child (ps : gmap Z process) (c : option Z) (from : Z) (n : nat) : option Z :=
  head (filter (fun i => is_child ps c i = true) (seqZ from (Z.of_nat n))).

Lemma find_child_loop c s n : forall fuel i,
  (forall j, 0 <= j < NPROC -> is_Some (procs s !! j)) ->
  0 <= i -> i + Z.of_nat n = NPROC -> (n < fuel)%nat ->
  loop fuel (fun i =>
    if i <? NPROC then
      let* x := get_proc i in
      if bool_decide (parent x = c) && negb (bool_decide (status x = FREE)) then
        ret (inr (Some (i, bool_decide (status x = ZOMBIE))))
      else ret (inl (i + 1))
    else ret (inr None)) i s
  = Ok ((fun j => (j, zombie_at (procs s) j)) <$> first_child (procs s) c i n) s.
Proof.
  intros fuel i Hps Hi Hn Hf. revert i fuel Hi Hn Hf.
  induction n as [|n IH]; intros i [|fuel] Hi Hn Hf; try lia; simpl loop; unfold bind at 1.
  - by rewrite (proj2 (Z.ltb_ge i NPROC)) by lia.
  - rewrite (proj2 (Z.ltb_lt i NPROC)) by lia. destruct (Hps i) as [x Hx]; [lia|].
    unfold bind at 1. rewrite (get_proc_run i x) by done.
    unfold first_child. rewrite seqZ_cons by lia. rewrite filter_cons.
    assert (is_child (procs s) c i
      = bool_decide (parent x = c) && negb (bool_decide (status x = FREE))) as Hc.
    { unfold is_child. by rewrite Hx. }
    destruct (bool_decide (parent x = c) && negb (bool_decide (status x = FREE))) eqn:E.
    + rewrite decide_True by done. simpl. unfold zombie_at. by rewrite Hx.
    + rewrite decide_False by congruence. unfold ret at 1. cbn iota.
      rewrite IH by lia. unfold first_child. replace (Z.succ i) with (i + 1) by lia.
      by replace (Z.pred (Z.of_nat (S n))) with (Z.of_nat n) by lia.
Qed.

(** C34: [do_wait(-1)] looks only at the first slot that holds a living or
    terminated child: a zombie there is reaped and its pid returned, a living
    child there blocks the caller even if a later child has terminated, and
    with no child the call returns -1. *)
Theorem do_wait_any Q h c x s :
  sched_wf Q s -> h < NCPU -> current s !! h = Some c -> procs s !! c = Some x -> nowhere Q c ->
  match first_child (procs s) (Some c) 0 (Z.to_nat NPROC) with
  | None => do_wait h (-1) s = Ok (inl (-1)) s
  | Some i =>
      if zombie_at (procs s) i then
        exists s', do_wait h (-1) s = Ok (inl i) s' /\
          status <$> procs s' !! i = Some FREE /\
          (forall j, j <> i -> procs s' !! j = procs s !! j)
      else
        exists s1, do_wait h (-1) s = (let* r := schedule h in ret (inr r)) s1 /\
          sched_wf (qset Q (QBlock h) (Q (QBlock h) ++ [c])) s1
  end.
Proof.
  intros Hwf Hh Hc Hx Hno. rewrite (do_wait_start h (-1) c) by done.
  cbn [Z.ltb Z.compare Z.eqb Pos.eqb].
  assert (forall j, 0 <= j < NPROC -> is_Some (procs s !! j)) as Hps
    by (intros j Hj; by apply (sw_procs _ _ Hwf)).
  pose proof (find_child_loop (Some c) s (Z.to_nat NPROC) (S (Z.to_nat NPROC)) 0 Hps) as Hfc.
  rewrite Z2Nat.id in Hfc by done. specialize (Hfc ltac:(lia) ltac:(done) ltac:(lia)).
  fold (find_child (Some c)) in Hfc.
  destruct (first_child _ _ _ _) as [i|] eqn:Ei.
  - assert (0 <= i < NPROC) as Hi.
    { unfold first_child in Ei. apply head_Some_elem_of, list_elem_of_filter in Ei as [_ Ei].
      apply elem_of_seqZ in Ei. rewrite Z2Nat.id in Ei by done. lia. }
    destruct (Hps i Hi) as [y Hy]. destruct (zombie_at (procs s) i) eqn:Ez.
    + eexists. unfold bind. rewrite Hfc. simpl. rewrite Ez.
      rewrite (upd_proc_run i _ y) by done.
      rewrite (get_proc_run i (set_status FREE y)) by (simpl; by rewrite lookup_insert_eq).
      split_and!.
      * do 2 f_equal. simpl. rewrite (sw_pid _ _ Hwf _ _ Hy). apply s32_small. unfold NPROC in Hi. lia.
      * simpl. by rewrite lookup_insert_eq.
      * intros j Hj. simpl. by rewrite lookup_insert_ne.
    + exists (blocked h c x (Q (QBlock h)) s). split; [|by apply blocked_wf].
      unfold bind at 1. rewrite Hfc. simpl. rewrite Ez. by apply block_and_schedule_run.
  - unfold bind at 1. by rewrite Hfc.
Qed.

End Wait.

(** ** A freshly initialised kernel *)

Definition slot_pool : gmap Z process :=
  list_to_map ((fun i => (i, blank_process i)) <$> seqZ 0 NPROC).

Lemma slot_pool_lookup i :
  slot_pool !! i = if decide (0 <= i < NPROC) then Some (blank_process i) else None.
Proof.
  unfold slot_pool. case_decide as Hi.
  - apply elem_of_list_to_map_1.
    + rewrite <- list_fmap_compose. change (fst ∘ (fun i => (i, blank_process i))) with (@id Z).
      rewrite list_fmap_id. apply NoDup_seqZ.
    + apply list_elem_of_fmap. exists i. split; [done|]. apply elem_of_seqZ. lia.
  - apply not_elem_of_list_to_map_1. rewrite <- list_fmap_compose.
    change (fst ∘ (fun i => (i, blank_process i))) with (@id Z).
    rewrite list_fmap_id, elem_of_seqZ. lia.
Qed.

(** Memory [m], no process, no semaphore in use, every hart with zeroed CSRs. *)
Definition fresh_kernel (m : vm) : kernel :=
  Kernel m slot_pool ∅ ∅ ∅ ∅ 0 ∅ 0 0 ∅ 0 0 0 0 0 ∅
    (list_to_map ((fun h => (h, Csr 0 0 0 0 0 0 0)) <$> seqZ 0 NCPU)).

Lemma fresh_kernel_wf m : sched_wf (fun _ => []) (fresh_kernel m).
Proof.
  constructor; simpl.
  - by intros []; simpl.
  - intros _. constructor.
  - intros q1 q2 p Hp. by apply elem_of_nil in Hp.
  - intros q p x Hp. by apply elem_of_nil in Hp.
  - intros i. rewrite slot_pool_lookup. case_decide; split; try done.
  - intros i x. rewrite slot_pool_lookup. case_decide; [|done]. by intros [= <-].
  - by constructor.
Qed.

(** Process 1 ready on hart 0, its trapframe at the bottom of DRAM. *)
Definition demo_process : process :=
  Process 0x80004000 0x80002000 0x80000000 (HeapMan 0 0 0 0) 0 0 1 RUNNING None None 0 0.

Definition running_kernel (m : vm) : kernel :=
  set_current {[0 := 1]} (set_procs (<[1 := demo_process]> slot_pool) (fresh_kernel m)).

Lemma running_kernel_wf m : sched_wf (fun _ => []) (running_kernel m).
Proof.
  apply (wf_update _ _ (fresh_kernel_wf m) 1 (blank_process 1) (fun _ => demo_process));
    try done. by intros q ?%elem_of_nil.
Qed.

Definition ready_kernel (m : vm) : kernel :=
  set_ready_queue_head {[0 := 1]}
    (set_procs (enq readied 1 demo_process [] (procs (running_kernel m))) (running_kernel m)).

Lemma ready_kernel_wf m : sched_wf (qset (fun _ => []) (QReady 0) [1]) (ready_kernel m).
Proof.
  apply (wf_enqueue _ _ (running_kernel_wf m) (QReady 0) 1 demo_process readied); try done.
  - by intros q ?%elem_of_nil.
  - intros [h|h|i]; simpl; try done. case_decide as E.
    + injection E as ->. done.
    + rewrite lookup_singleton_ne; [done|]. intros <-. done.
Qed.

#[local] Instance demo_symbols : Symbols := {|
  trap_sec_start := 0x80003000; smode_trap_vector := 0x80003000;
  smode_trap_handler_entry := 0x80001000 |}.


Lemma ready_queue_fifo_witness : exists s',
  insert_to_specific_ready_queue 1 2 (running_kernel (Vm (free_pages 1) 0)) = Ok tt s' /\
  status <$> procs s' !! 1 = Some READY.
Proof.
  destruct (ready_queue_fifo (fun _ => []) 2 1 demo_process (running_kernel (Vm (free_pages 1) 0)))
    as (s' & H1 & _ & H3 & _);
    [apply running_kernel_wf|unfold NCPU; lia|reflexivity|intros q Hq; inversion Hq|discriminate|].
  exists s'. split; assumption.
Defined.

(** Process 1 on hart 0 with a child 2 that runs elsewhere and a child 3 that
    has terminated. *)
Definition family_kernel (m : vm) : kernel :=
  set_procs (<[3 := set_status ZOMBIE (set_parent (Some 1) (blank_process 3))]>
    (<[2 := set_status RUNNING (set_parent (Some 1) (blank_process 2))]>
      (procs (running_kernel m)))) (running_kernel m).

Lemma family_kernel_wf m : sched_wf (fun _ => []) (family_kernel m).
Proof.
  set (s1 := set_procs (<[2 := set_status RUNNING (set_parent (Some 1) (blank_process 2))]>
    (procs (running_kernel m))) (running_kernel m)).
  assert (sched_wf (fun _ => []) s1) as Hwf1.
  { apply (wf_update _ _ (running_kernel_wf m) 2 (blank_process 2)
      (fun y => set_status RUNNING (set_parent (Some 1) y))); try done. by intros q ?%elem_of_nil. }
  apply (wf_update _ _ Hwf1 3 (blank_process 3)
    (fun y => set_status ZOMBIE (set_parent (Some 1) y))); try done. by intros q ?%elem_of_nil.
Qed.

Lemma do_wait_pid_witness : exists s1,
  do_wait 0 3 (family_kernel (Vm (free_pages 1) 0)) =
    (let* r := schedule 0 in ret (inr r)) s1 /\
  do_wait 0 5 (family_kernel (Vm (free_pages 1) 0)) =
    Ok (inl (-1)) (family_kernel (Vm (free_pages 1) 0)).
Proof.
  destruct (do_wait_pid (fun _ => []) 0 3 1 demo_process (family_kernel (Vm (free_pages 1) 0)))
    as [H1 _];
    [apply family_kernel_wf|reflexivity|reflexivity|reflexivity|intros q Hq; inversion Hq|lia|].
  destruct (H1 (set_status ZOMBIE (set_parent (Some 1) (blank_process 3)))) as (s1 & Hs1 & _);
    [reflexivity|reflexivity|reflexivity|].
  exists s1. split; [exact Hs1|].
  apply (do_wait_pid (fun _ => []) 0 5 1 demo_process (family_kernel (Vm (free_pages 1) 0)));
    [apply family_kernel_wf|reflexivity|reflexivity|reflexivity|intros q Hq; inversion Hq|lia|].
  right. intros y Hy. vm_compute in Hy. injection Hy as <-. discriminate.
Defined.

Lemma do_wait_any_witness : exists s1,
  do_wait 0 (-1) (family_kernel (Vm (free_pages 1) 0)) =
    (let* r := schedule 0 in ret (inr r)) s1.
Proof.
  destruct (do_wait_any (fun _ => []) 0 1 demo_process (family_kernel (Vm (free_pages 1) 0))
    (family_kernel_wf _) eq_refl eq_refl eq_refl) as (s1 & H1 & _).
  { intros q Hq. inversion Hq. }
  exists s1. exact H1.
Defined.
