(* ===== verification/Semaphore.v ===== *)
(** * Semaphores (kernel/semaphore.c, the semaphore syscalls of kernel/syscall.c) *)

From S2P Require Import Prelude Mem Pmm StringLib Vmm Kernel Process Sched Queues.
From stdpp Require Import base gmap list fin_maps.
From Stdlib Require Import ZArith Lia Bool.

Set Default Goal Selector "!".
Open Scope Z_scope.

(** ** The pool *)

(** [semaphores[i]] and [sem->...]; a pointer to a semaphore is its index. *)
Definition get_sem (i : Z) : M kernel semaphore :=
  let* ss := gets semaphores in of_option (ss !! i).
Definition upd_sem (i : Z) (f : semaphore -> semaphore) : M kernel unit :=
  let* x := get_sem i in
  modify (fun s => set_semaphores (<[i := f x]> (semaphores s)) s).

Definition alloc_semaphore_id : M kernel Z :=
  spin_lock semaphore_lock ;;;
  let* semid := gets g_next_semaphore_id in
  modify (fun s => set_g_next_semaphore_id (s64 (g_next_semaphore_id s + 1)) s) ;;;
  spin_unlock semaphore_lock ;;;
  ret semid.

Definition free_sem (x : semaphore) : semaphore :=
  set_sem_status SEM_FREE (set_value (-1) (set_sem_id (-1) x)).

Definition init_semaphore_pool : M kernel unit :=
  spin_lock semaphore_pool_lock ;;;
  loop (Datatypes.S (Z.to_nat NSEMAPHORE)) (fun i =>
    if i <? NSEMAPHORE then
      upd_sem i free_sem ;;;
      ret (inl (i + 1))
    else ret (inr tt)) 0 ;;;
  spin_unlock semaphore_pool_lock.

Definition alloc_semaphore : M kernel (option Z) :=
  let* id := alloc_semaphore_id in
  spin_lock semaphore_pool_lock ;;;
  loop (Datatypes.S (Z.to_nat NSEMAPHORE)) (fun i =>
    if i <? NSEMAPHORE then
      let* x := get_sem i in
      if bool_decide (sem_status x = SEM_FREE) then
        upd_sem i (fun x => set_sem_status SEM_USED (set_sem_id id x)) ;;;
        spin_unlock semaphore_pool_lock ;;;
        ret (inr (Some i))
      else ret (inl (i + 1))
    else
      spin_unlock semaphore_pool_lock ;;;
      ret (inr None)) 0.

Definition get_semaphore (semid : Z) : M kernel (option Z) :=
  loop (Datatypes.S (Z.to_nat NSEMAPHORE)) (fun i =>
    if i <? NSEMAPHORE then
      let* x := get_sem i in
      if (sem_id x =? semid) && bool_decide (sem_status x = SEM_USED) then ret (inr (Some i))
      else ret (inl (i + 1))
    else ret (inr None)) 0.

Definition free_semaphore (i : Z) : M kernel unit :=
  spin_lock semaphore_pool_lock ;;;
  upd_sem i free_sem ;;;
  spin_unlock semaphore_pool_lock.

(** ** P and V *)

Section WithSymbols.
  Context `{Symbols}.

Definition semaphore_P (hartid sem : Z) : M kernel (unit + control) :=
  assert_hart hartid ;;;
  let* c := get_current hartid in
  assert (bool_decide (is_Some c)) ;;;
  let* c := of_option c in
  spin_lock semaphore_lock ;;;
  upd_sem sem (fun x => set_value (s64 (value x - 1)) x) ;;;
  let* x := get_sem sem in
  if value x <? 0 then
    upd_proc c (set_status BLOCKED) ;;;
    let* h := insert_to_block_queue (proc_queue_head x) c in
    upd_sem sem (set_proc_queue_head h) ;;;
    spin_unlock semaphore_lock ;;;
    let* r := schedule hartid in
    ret (inr r)
  else
    spin_unlock semaphore_lock ;;;
    ret (inl tt).

Definition semaphore_V (hartid sem : Z) : M kernel unit :=
  spin_lock semaphore_lock ;;;
  upd_sem sem (fun x => set_value (s64 (value x + 1)) x) ;;;
  let* x := get_sem sem in
  if value x <=? 0 then
    let* r := pick_and_remove_from_block_queue (proc_queue_head x) in
    let '(p, h) := r in
    upd_sem sem (set_proc_queue_head h) ;;;
    match p with
    | None => panic
    | Some p =>
        upd_proc p (set_status READY) ;;;
        insert_to_ready_queue hartid p ;;;
        spin_unlock semaphore_lock
    end
  else spin_unlock semaphore_lock.

(** ** System calls *)

Definition sys_user_sem_new (initval : Z) : M kernel Z :=
  let* sem := alloc_semaphore in
  match sem with
  | None => ret (-1)
  | Some i =>
      upd_sem i (set_value initval) ;;;
      let* x := get_sem i in
      ret (sem_id x)
  end.

Definition sys_user_sem_P (hartid semid : Z) : M kernel (Z + control) :=
  let* sem := get_semaphore semid in
  match sem with
  | None => ret (inl (-1))
  | Some i =>
      let* r := semaphore_P hartid i in
      ret (match r with inl _ => inl 0 | inr c => inr c end)
  end.

Definition sys_user_sem_V (hartid semid : Z) : M kernel Z :=
  let* sem := get_semaphore semid in
  match sem with
  | None => ret (-1)
  | Some i => semaphore_V hartid i ;;; ret 0
  end.

End WithSymbols.

(** ** Running P and V *)

Lemma get_sem_run i x s : semaphores s !! i = Some x -> get_sem i s = Ok x s.
Proof. unfold get_sem, bind, gets, of_option. by intros ->. Qed.

Lemma upd_sem_run i f x s : semaphores s !! i = Some x ->
  upd_sem i f s = Ok tt (set_semaphores (<[i := f x]> (semaphores s)) s).
Proof. intros Hx. unfold upd_sem, bind. by rewrite (get_sem_run i x). Qed.

(** A semaphore in use: as many processes wait as its value is below 0. *)
Record sem_ok (Q : qid -> list Z) (s : kernel) (i v : Z) : Prop := {
  so_value : value <$> semaphores s !! i = Some v;
  so_range : - 2 ^ 62 < v < 2 ^ 62;
  so_count : Z.of_nat (length (Q (QSem i))) = Z.max 0 (- v)
}.

Definition set_sem (i : Z) (x : semaphore) (s : kernel) : kernel :=
  set_semaphores (<[i := x]> (semaphores s)) s.

(** Only the queue head of a semaphore matters to the queues. *)
Lemma set_sem_wf Q s i x y : sched_wf Q s -> semaphores s !! i = Some x ->
  proc_queue_head y = proc_queue_head x -> sched_wf Q (set_sem i y s).
Proof.
  intros Hwf Hx Hy. apply (wf_ext Q s Hwf); [done| |destruct (sw_locks _ _ Hwf); by constructor].
  intros [h|h|j]; simpl; try done. rewrite lookup_insert. case_decide; [|done].
  subst. rewrite Hx. done.
Qed.

Section Run.
  Context `{Symbols}.

(** State after the value of semaphore [i] was lowered and the caller queued. *)
Definition sem_blocked (i c : Z) (x : semaphore) (px : process) (l : list Z) (s : kernel) : kernel :=
  set_sem i (set_proc_queue_head (if l is [] then Some c else proc_queue_head x)
      (set_value (value x - 1) x))
    (set_procs (enq (set_status BLOCKED) c (set_status BLOCKED px) l
      (<[c := set_status BLOCKED px]> (procs s))) s).

Lemma sem_blocked_wf Q i c x px s :
  sched_wf Q s -> semaphores s !! i = Some x -> procs s !! c = Some px -> nowhere Q c ->
  sched_wf (qset Q (QSem i) (Q (QSem i) ++ [c])) (sem_blocked i c x px (Q (QSem i)) s).
Proof.
  intros Hwf Hx Hpx Hno. set (s1 := set_procs (<[c := set_status BLOCKED px]> (procs s)) s).
  assert (locks_free s1) as Hlk by (destruct (sw_locks _ _ Hwf); by constructor).
  assert (sched_wf Q s1) as Hwf1 by (by apply (wf_update _ s Hwf c px (set_status BLOCKED))).
  apply (wf_enqueue Q s1 Hwf1 (QSem i) c (set_status BLOCKED px) (set_status BLOCKED)); try done.
  - simpl. by rewrite lookup_insert_eq.
  - intros q'. case_decide as E.
    + subst q'. simpl. rewrite lookup_insert_eq, Hx. done.
    + destruct q' as [h'|h'|j]; simpl; try done.
      rewrite lookup_insert_ne; [done|]. intros ->. done.
  - destruct Hlk; by constructor.
Qed.

Lemma semaphore_P_start h i c x s :
  h < NCPU -> current s !! h = Some c -> g_semaphore_lock s = 0 -> semaphores s !! i = Some x ->
  - 2 ^ 62 < value x < 2 ^ 62 ->
  semaphore_P h i s =
    (if value x - 1 <? 0 then
       upd_proc c (set_status BLOCKED) ;;;
       let* hd := insert_to_block_queue (proc_queue_head x) c in
       upd_sem i (set_proc_queue_head hd) ;;;
       spin_unlock semaphore_lock ;;;
       let* r := schedule h in
       ret (inr r)
     else spin_unlock semaphore_lock ;;; ret (inl tt))
    (set_sem i (set_value (value x - 1) x) (set_g_semaphore_lock 1 s)).
Proof.
  intros Hh Hc Hl Hx Hv. unfold semaphore_P, assert_hart, assert, get_current.
  rewrite (proj2 (Z.ltb_lt h _)) by done. unfold bind at 1, ret at 1.
  unfold bind at 1, gets at 1. rewrite Hc. rewrite bool_decide_true by (by eexists).
  unfold bind at 1, ret at 1. unfold bind at 1, of_option at 1, ret at 1.
  unfold bind at 1, spin_lock. cbn [semaphore_lock lget lset]. rewrite Hl. cbn [Z.eqb].
  unfold bind at 1. rewrite (upd_sem_run i _ x) by done. rewrite s64_small by lia.
  unfold bind at 1. rewrite (get_sem_run i (set_value (value x - 1) x))
    by (simpl; by rewrite lookup_insert_eq).
  done.
Qed.

Lemma semaphore_P_passes Q h i c x s :
  sched_wf Q s -> h < NCPU -> current s !! h = Some c -> semaphores s !! i = Some x -> 0 < value x < 2 ^ 62 ->
  semaphore_P h i s = Ok (inl tt) (set_sem i (set_value (value x - 1) x) s).
Proof.
  intros Hwf Hh Hc Hx Hv. destruct (sw_locks _ _ Hwf) as [_ _ Hl3 _].
  rewrite (semaphore_P_start h i c x) by (done || lia). rewrite (proj2 (Z.ltb_ge _ 0)) by lia.
  unfold bind, spin_unlock, modify. cbn. by destruct s; simpl in *; subst.
Qed.

Lemma semaphore_P_blocks Q h i c x px s :
  sched_wf Q s -> h < NCPU -> current s !! h = Some c -> procs s !! c = Some px ->
  semaphores s !! i = Some x -> - 2 ^ 62 < value x <= 0 -> nowhere Q c ->
  semaphore_P h i s =
    (let* r := schedule h in ret (inr r)) (sem_blocked i c x px (Q (QSem i)) s).
Proof.
  intros Hwf Hh Hc Hpx Hx Hv Hno. destruct (sw_locks _ _ Hwf) as [Hl1 Hl2 Hl3 Hl4].
  rewrite (semaphore_P_start h i c x) by (done || lia).
  rewrite (proj2 (Z.ltb_lt _ 0)) by lia.
  set (s1 := set_sem _ _ _). unfold bind at 1. rewrite (upd_proc_run c _ px) by done.
  set (s2 := set_procs _ s1).
  assert (sched_wf Q (set_g_semaphore_lock 0 s2)) as Hwf2.
  { apply (wf_update Q (set_sem i (set_value (value x - 1) x) s)
      (set_sem_wf Q s i x (set_value (value x - 1) x) Hwf Hx eq_refl) c px (set_status BLOCKED)); done. }
  unfold bind at 1. rewrite (insert_block_run c (set_status BLOCKED px) _ (Q (QSem i))).
  - unfold bind at 1. rewrite (upd_sem_run i _ (set_value (value x - 1) x))
      by (simpl; by rewrite lookup_insert_eq).
    unfold bind at 1, spin_unlock, modify at 1. f_equal. cbn.
    unfold sem_blocked, set_sem. cbn. rewrite insert_insert_eq. by destruct s; simpl in *; subst.
  - simpl. by rewrite lookup_insert_eq.
  - pose proof (sw_queue _ _ Hwf2 (QSem i)) as Hqu. simpl in Hqu.
    rewrite lookup_insert_eq in Hqu. exact Hqu.
  - apply Hwf.
  - by apply (queue_bounded Q s).
  - apply Hno.
Qed.


(** State after V took [p] off the queue of semaphore [i], made it READY, and
    before it is put into the ready queue. *)
Definition sem_woken (i p : Z) (x : semaphore) (px : process) (s : kernel) : kernel :=
  set_sem i (set_proc_queue_head (queue_next px) (set_value (value x + 1) x))
    (set_procs (<[p := set_status READY (set_queue_next None px)]> (procs s)) s).

Lemma sem_woken_wf Q i p l x px s :
  sched_wf Q s -> semaphores s !! i = Some x -> procs s !! p = Some px -> Q (QSem i) = p :: l ->
  sched_wf (qset Q (QSem i) l) (sem_woken i p x px s) /\ nowhere (qset Q (QSem i) l) p.
Proof.
  intros Hwf Hx Hpx Hq. destruct (sw_locks _ _ Hwf) as [Hl1 Hl2 Hl3 Hl4].
  destruct (unlinked_disjoint Q s Hwf (QSem i) [] p l Hq) as [Hno _]. split; [|done].
  set (s1 := set_sem i (set_proc_queue_head (queue_next px) (set_value (value x + 1) x))
    (set_procs (unl p px [] (procs s)) s)).
  assert (sched_wf (qset Q (QSem i) l) s1) as Hwf1.
  { apply (wf_unlink Q s Hwf (QSem i) [] p l px); try done.
    intros q'. case_decide as E; [subst; simpl; by rewrite lookup_insert_eq|].
    destruct q' as [h'|h'|j]; simpl; try done. rewrite lookup_insert_ne; [done|].
    intros ->. done. }
  apply (wf_update _ s1 Hwf1 p (set_queue_next None px) (set_status READY)); try done.
  - simpl. unfold unl. by rewrite lookup_insert_eq.
  - simpl. unfold unl. rewrite insert_insert_eq. done.
Qed.

Lemma remove_head_run p l px s :
  queue (procs s) (Some p) (p :: l) -> NoDup (p :: l) -> procs s !! p = Some px ->
  pick_and_remove_from_block_queue (Some p) s =
    Ok (Some p, queue_next px) (set_procs (<[p := set_queue_next None px]> (procs s)) s).
Proof.
  intros Hqu Hnd Hpx. unfold pick_and_remove_from_block_queue, remove_from_block_queue,
    unlink_first.
  destruct (unlink_first_loop (fun _ p0 => ret (bool_decide (Some p0 = Some p)))
    (fun r => bool_decide (r = p)) (Some p) s [] p l queue_fuel [] None (Some p))
    as (y & Hy & Hr); try done.
  - intros r z _ _. unfold ret. f_equal. apply bool_decide_ext. naive_solver.
  - by intros r ?%elem_of_nil.
  - by rewrite bool_decide_true.
  - unfold queue_fuel. simpl. lia.
  - simplify_eq. exact Hr.
Qed.

Lemma ready_inserted_unlock p px h l s :
  set_g_semaphore_lock 0 (ready_inserted p px h l s) =
  ready_inserted p px h l (set_g_semaphore_lock 0 s).
Proof. unfold ready_inserted. destruct (decide (p ∈ l)); [done|]. by destruct l. Qed.

Lemma semaphore_V_wakes Q h i p l x px s :
  sched_wf Q s -> 0 <= h < NCPU -> semaphores s !! i = Some x -> procs s !! p = Some px ->
  Q (QSem i) = p :: l -> - 2 ^ 62 < value x < 0 ->
  semaphore_V h i s =
    Ok tt (ready_inserted p (set_status READY (set_queue_next None px)) h (Q (QReady h))
      (sem_woken i p x px s)).
Proof.
  intros Hwf Hh Hx Hpx Hq Hv. destruct (sw_locks _ _ Hwf) as [Hl1 Hl2 Hl3 Hl4].
  pose proof (sw_queue _ _ Hwf (QSem i)) as Hqu. rewrite Hq in Hqu.
  pose proof (queue_head _ _ _ Hqu) as Hhd. simpl in Hhd. rewrite Hx in Hhd. simpl in Hhd.
  pose proof (sw_nodup _ _ Hwf (QSem i)) as Hnd. rewrite Hq in Hnd.
  destruct (sem_woken_wf Q i p l x px s) as [Hwf2 Hno]; try done.
  pose proof (sw_pid _ _ Hwf _ _ Hpx) as Hpid.
  assert (0 <= p < NPROC) by (apply (sw_procs _ _ Hwf); by rewrite Hpx).
  unfold semaphore_V, bind at 1, spin_lock. cbn [semaphore_lock lget lset]. rewrite Hl3.
  cbn [Z.eqb]. unfold bind at 1. rewrite (upd_sem_run i _ x) by done. rewrite s64_small by lia.
  unfold bind at 1. rewrite (get_sem_run i (set_value (value x + 1) x))
    by (simpl; by rewrite lookup_insert_eq).
  cbn [value set_value proc_queue_head]. rewrite (proj2 (Z.leb_le _ 0)) by lia. rewrite Hhd.
  unfold bind at 1. rewrite (remove_head_run p l px);
    [|rewrite <- Hhd; simpl in Hqu; by rewrite Hx in Hqu|done|done].
  unfold bind at 1. rewrite (upd_sem_run i _ (set_value (value x + 1) x))
    by (simpl; by rewrite lookup_insert_eq).
  unfold bind at 1. rewrite (upd_proc_run p _ (set_queue_next None px))
    by (simpl; by rewrite lookup_insert_eq).
  set (s2 := set_procs _ _).
  assert (set_g_semaphore_lock 0 s2 = sem_woken i p x px s) as Hs2.
  { unfold s2, sem_woken, set_sem. cbn. rewrite !insert_insert_eq.
    by destruct s; simpl in *; subst. }
  unfold insert_to_ready_queue, assert_hart, assert. rewrite (proj2 (Z.ltb_lt h _)) by lia.
  unfold bind at 1, bind at 1, ret at 1.
  rewrite (insert_ready_run p (set_status READY (set_queue_next None px)) h (Q (QReady h))).
  - unfold spin_unlock, modify. cbn [semaphore_lock lset]. by rewrite ready_inserted_unlock, Hs2.
  - done.
  - simpl. by rewrite lookup_insert_eq.
  - simpl. lia.
  - done.
  - apply Hl2.
  - pose proof (sw_queue _ _ Hwf2 (QReady h)) as Hqr. rewrite <- Hs2 in Hqr. exact Hqr.
  - apply Hwf.
  - by apply (queue_bounded Q s).
Qed.

Lemma semaphore_V_counts h i x s :
  g_semaphore_lock s = 0 -> semaphores s !! i = Some x -> 0 <= value x < 2 ^ 62 ->
  semaphore_V h i s = Ok tt (set_sem i (set_value (value x + 1) x) s).
Proof.
  intros Hl3 Hx Hv. unfold semaphore_V, bind at 1, spin_lock. cbn [semaphore_lock lget lset].
  rewrite Hl3. cbn [Z.eqb]. unfold bind at 1. rewrite (upd_sem_run i _ x) by done.
  rewrite s64_small by lia. unfold bind at 1.
  rewrite (get_sem_run i (set_value (value x + 1) x)) by (simpl; by rewrite lookup_insert_eq).
  cbn [value set_value]. rewrite (proj2 (Z.leb_gt _ 0)) by lia.
  unfold spin_unlock, modify, set_sem. cbn. by destruct s; simpl in *; subst.
Qed.

End Run.

(** ** Properties *)

Section Properties.
  Context `{Symbols}.

(** P keeps the semaphore invariant (as many waiting processes as the value
    is below 0).  With a positive value it takes one unit and returns; otherwise
    the caller becomes BLOCKED at the end of the semaphore's queue, no other queue
    changes, the lock is released and the processor goes to [schedule]. *)
Theorem semaphore_P_correct Q h i c px v s :
  sched_wf Q s -> h < NCPU -> current s !! h = Some c -> procs s !! c = Some px -> nowhere Q c ->
  sem_ok Q s i v -> - 2 ^ 62 + 1 < v ->
  if 0 <? v then
    exists s', semaphore_P h i s = Ok (inl tt) s' /\ sched_wf Q s' /\ sem_ok Q s' i (v - 1) /\
      procs s' = procs s
  else
    exists s1, semaphore_P h i s = (let* r := schedule h in ret (inr r)) s1 /\
      sched_wf (qset Q (QSem i) (Q (QSem i) ++ [c])) s1 /\
      sem_ok (qset Q (QSem i) (Q (QSem i) ++ [c])) s1 i (v - 1) /\
      status <$> procs s1 !! c = Some BLOCKED.
Proof.
  intros Hwf Hh Hc Hpx Hno [Hv Hr Hn] Hlow. apply fmap_Some in Hv as (x & Hx & Hvx).
  destruct (Z.ltb_spec 0 v).
  - exists (set_sem i (set_value (value x - 1) x) s).
    split_and!; [|by eapply set_sem_wf| |done].
    + apply (semaphore_P_passes Q h i c); done || lia.
    + constructor; [simpl; rewrite lookup_insert_eq; simpl; by f_equal; lia|lia|lia].
  - exists (sem_blocked i c x px (Q (QSem i)) s). split_and!.
    + apply semaphore_P_blocks; done || lia.
    + by apply sem_blocked_wf.
    + constructor; [simpl; rewrite lookup_insert_eq; simpl; by f_equal; lia|lia|].
      rewrite qset_eq, length_app. simpl. lia.
    + simpl. unfold enq. by rewrite lookup_insert_eq.
Qed.

(** V never panics on a semaphore that satisfies the invariant and keeps
    it.  With waiting processes it wakes the one that has waited longest: it
    leaves the semaphore's queue and is appended to the ready queue of the
    calling hart; otherwise the value grows by one. *)
Theorem semaphore_V_correct Q h i v s :
  sched_wf Q s -> 0 <= h < NCPU -> sem_ok Q s i v -> v < 2 ^ 62 - 1 ->
  exists s', semaphore_V h i s = Ok tt s' /\
    match Q (QSem i) with
    | [] => sched_wf Q s' /\ sem_ok Q s' i (v + 1) /\ procs s' = procs s
    | p :: l =>
        let Q1 := qset Q (QSem i) l in
        let Q2 := qset Q1 (QReady h) (Q1 (QReady h) ++ [p]) in
        sched_wf Q2 s' /\ sem_ok Q2 s' i (v + 1) /\ status <$> procs s' !! p = Some READY
    end.
Proof.
  intros Hwf Hh [Hv Hr Hn] Hhi. apply fmap_Some in Hv as (x & Hx & Hvx).
  destruct (Q (QSem i)) as [|p l] eqn:Hq; simpl in Hn.
  - exists (set_sem i (set_value (value x + 1) x) s). split_and!.
    + apply semaphore_V_counts; [apply Hwf|done|lia].
    + by eapply set_sem_wf.
    + constructor; [simpl; rewrite lookup_insert_eq; simpl; by f_equal; lia|lia|].
      rewrite Hq. simpl. lia.
    + done.
  - destruct (queue_lookup _ _ _ p (sw_queue _ _ Hwf (QSem i))) as [px Hpx];
      [rewrite Hq; set_solver|].
    destruct (sem_woken_wf Q i p l x px s) as [Hwf1 Hno]; try done.
    set (px' := set_status READY (set_queue_next None px)).
    exists (ready_inserted p px' h (Q (QReady h)) (sem_woken i p x px s)). cbv zeta.
    rewrite (qset_ne Q (QSem i) (QReady h)) by done.
    assert (procs (sem_woken i p x px s) !! p = Some px') as Hp' by (simpl; by rewrite lookup_insert_eq).
    pose proof (ready_inserted_wf (qset Q (QSem i) l) h p px' _ Hwf1 Hp' Hno ltac:(done)) as Hwf2.
    rewrite (qset_ne Q (QSem i) (QReady h)) in Hwf2 by done.
    assert (p ∉ Q (QReady h)) as Hnr.
    { pose proof (Hno (QReady h)) as Hp. by rewrite qset_ne in Hp by done. }
    split_and!; [apply (semaphore_V_wakes Q h i p l x px s); done || lia|done| |].
    + constructor; [|lia|].
      * unfold ready_inserted. rewrite decide_False by done.
        destruct (Q (QReady h)); simpl; rewrite lookup_insert_eq; simpl; f_equal; lia.
      * rewrite qset_ne, qset_eq by done. lia.
    + unfold ready_inserted. rewrite decide_False by done.
      destruct (Q (QReady h)); simpl; unfold enq; rewrite lookup_insert_eq; done.
Qed.

End Properties.

(** One semaphore with value 0, process 1 running. *)
Definition sem_kernel (v : Z) : kernel :=
  set_semaphores {[0 := Semaphore 0 v SEM_USED None]} (running_kernel (Vm (free_pages 1) 0)).

Lemma sem_kernel_wf v : sched_wf (fun _ => []) (sem_kernel v).
Proof.
  apply (wf_ext _ (running_kernel (Vm (free_pages 1) 0)) (running_kernel_wf _)); try done.
  intros [h|h|i]; simpl; try done. destruct (decide (i = 0)) as [->|].
  - by rewrite lookup_singleton_eq.
  - by rewrite lookup_singleton_ne.
Qed.

#[local] Instance sem_symbols : Symbols := {|
  trap_sec_start := 0x80003000; smode_trap_vector := 0x80003000;
  smode_trap_handler_entry := 0x80001000 |}.

Lemma semaphore_P_correct_witness :
  (exists s', semaphore_P 0 0 (sem_kernel 1) = Ok (inl tt) s') /\
  (exists s1, semaphore_P 0 0 (sem_kernel 0) = (let* r := schedule 0 in ret (inr r)) s1 /\
     status <$> procs s1 !! 1 = Some BLOCKED).
Proof.
  split.
  - destruct (semaphore_P_correct (fun _ => []) 0 0 1 demo_process 1 (sem_kernel 1)
      (sem_kernel_wf 1) eq_refl eq_refl eq_refl) as (s' & H1 & _);
      [intros q Hq; inversion Hq|constructor; [reflexivity|lia|reflexivity]|lia|].
    exists s'. exact H1.
  - destruct (semaphore_P_correct (fun _ => []) 0 0 1 demo_process 0 (sem_kernel 0)
      (sem_kernel_wf 0) eq_refl eq_refl eq_refl) as (s' & H1 & _ & _ & H4);
      [intros q Hq; inversion Hq|constructor; [reflexivity|lia|reflexivity]|lia|].
    exists s'. split; [exact H1|exact H4].
Defined.

Lemma semaphore_V_correct_witness :
  exists s', semaphore_V 0 0 (sem_kernel 3) = Ok tt s' /\ sem_ok (fun _ => []) s' 0 4.
Proof.
  destruct (semaphore_V_correct (fun _ => []) 0 0 3 (sem_kernel 3) (sem_kernel_wf 3))
    as (s' & H1 & _ & H3 & _); [unfold NCPU; lia|constructor; [reflexivity|lia|reflexivity]|lia|].
  exists s'. split; [exact H1|exact H3].
Defined.


