(* ===== verification/Sync.v ===== *)
(** * Harts at the same time (kernel/lock.h, kernel/sync_utils.h)

    The other files run one kernel path at a time; here several harts take their
    steps in any order.  A hart competes for a spin lock with single atomic swaps,
    performs the accesses of its critical section one by one and releases the
    lock; another machine models the harts at a barrier.  The main result is that
    critical sections under one lock behave as the sequential operations do. *)

From S2P Require Import Prelude Mem Pmm StringLib Vmm Kernel Process Sched Queues Semaphore.
From stdpp Require Import base gmap list fin_maps relations.
From Stdlib Require Import ZArith Lia Bool.

Set Default Goal Selector "!".
Open Scope Z_scope.

(** ** Spin locks *)

Section Lock.
  Context {S L : Type} (lk : lens S Z) `{!LensLaws lk}.

(** One access to the shared state by a hart with local state [L]. *)
Definition access : Type := L -> S -> L * S.

Fixpoint run_accesses (al : list access) (l : L) (s : S) : L * S :=
  match al with
  | [] => (l, s)
  | a :: al => let '(l, s) := a l s in run_accesses al l s
  end.

(** The instruction [amoswap.w] on the lock. *)
Definition amoswap (v : Z) (s : S) : Z * S := (lget lk s, lset lk v s).

(** Where a hart is: in the loop of [spin_lock], between [spin_lock] and
    [spin_unlock] with the accesses it still has to do, or past [spin_unlock]. *)
Inductive phase : Type :=
| Spinning
| Inside (rest : list access)
| Released.

Record world : Type := World { shared : S; harts : gmap Z (phase * L) }.

Context (section : Z -> list access) (start : Z -> L).

Inductive hart_step (h : Z) (w : world) : world -> Prop :=
| spin_again l old s :
    harts w !! h = Some (Spinning, l) -> amoswap 1 (shared w) = (old, s) -> old <> 0 ->
    hart_step h w (World s (harts w))
| spin_acquired l s :
    harts w !! h = Some (Spinning, l) -> amoswap 1 (shared w) = (0, s) ->
    hart_step h w (World s (<[h := (Inside (section h), l)]> (harts w)))
| inside_access a rest l l' s :
    harts w !! h = Some (Inside (a :: rest), l) -> a l (shared w) = (l', s) ->
    hart_step h w (World s (<[h := (Inside rest, l')]> (harts w)))
| unlocked l :
    harts w !! h = Some (Inside [], l) ->
    hart_step h w (World (amoswap 0 (shared w)).2 (<[h := (Released, l)]> (harts w))).

Definition world_step (w w' : world) : Prop := exists h, hart_step h w w'.

(** The harts of [hs] at the call of [spin_lock]. *)
Definition all_spinning (hs : list Z) (s : S) : world :=
  World s (list_to_map ((fun h => (h, (Spinning, start h))) <$> hs)).

(** ** The sequential operation *)

Definition critical (h : Z) : M S L :=
  spin_lock lk ;;;
  let* l := (fun s => let '(l, s) := run_accesses (section h) (start h) s in Ok l s) in
  spin_unlock lk ;;;
  ret l.

(** The calls of some harts one after the other, with their results. *)
Inductive sequentially (s0 : S) : list (Z * L) -> S -> Prop :=
| sequentially_nil : sequentially s0 [] s0
| sequentially_snoc o s h l s' :
    sequentially s0 o s -> critical h s = Ok l s' -> sequentially s0 (o ++ [(h, l)]) s'.

(** The accesses of a critical section leave the lock alone. *)
Definition keeps_lock : Prop := forall h a l s,
  a ∈ section h -> lget lk (a l s).2 = lget lk s.

(** *** The invariant *)

(** The calls that have returned, as a sequential run to [s]; nobody is inside and
    the shared state is [s], or one hart is, part of the way from [s]. *)
Record lock_inv (s0 : S) (w : world) (o : list (Z * L)) (s : S) : Prop := {
  li_seq : sequentially s0 o s;
  li_free : lget lk s = 0;
  li_nodup : NoDup o.*1;
  li_released : forall h l, harts w !! h = Some (Released, l) <-> (h, l) ∈ o;
  li_spinning : forall h l, harts w !! h = Some (Spinning, l) -> l = start h;
  li_inside :
    (shared w = s /\ forall h rest l, harts w !! h <> Some (Inside rest, l)) \/
    (exists h done rest l, section h = done ++ rest /\
       harts w !! h = Some (Inside rest, l) /\
       run_accesses done (start h) (lset lk 1 s) = (l, shared w) /\
       forall h' rest' l', harts w !! h' = Some (Inside rest', l') -> h' = h)
}.

Lemma run_accesses_app a1 : forall a2 l s,
  run_accesses (a1 ++ a2) l s = let '(l, s) := run_accesses a1 l s in run_accesses a2 l s.
Proof.
  induction a1 as [|a a1 IH]; intros a2 l s; simpl; [done|]. destruct (a l s). apply IH.
Qed.

Lemma run_accesses_lock al : forall l s,
  (forall a l s, a ∈ al -> lget lk (a l s).2 = lget lk s) ->
  lget lk (run_accesses al l s).2 = lget lk s.
Proof.
  induction al as [|a al IH]; intros l s Ha; simpl; [done|].
  pose proof (Ha a l s ltac:(left)) as H1. destruct (a l s) as [l' s'].
  rewrite IH; [done|]. intros. apply Ha. by right.
Qed.

Lemma critical_run h s : lget lk s = 0 ->
  critical h s =
    let '(l, s') := run_accesses (section h) (start h) (lset lk 1 s) in Ok l (lset lk 0 s').
Proof.
  intros H. unfold critical, bind at 1, spin_lock. rewrite H. change (0 =? 0) with true. cbv iota beta. unfold bind at 1.
  by destruct (run_accesses _ _ _).
Qed.

Lemma inside_locked done rest h s : keeps_lock -> section h = done ++ rest ->
  lget lk (run_accesses done (start h) (lset lk 1 s)).2 = 1.
Proof.
  intros Hk Hs. rewrite run_accesses_lock, lget_lset; [done|].
  intros a l' s' Ha. apply (Hk h). rewrite Hs. apply elem_of_app. by left.
Qed.

(** Looking up a hart after one hart moved. *)
Lemma harts_insert (w : world) h p h' q :
  (<[h := p]> (harts w)) !! h' = Some q <-> h' = h /\ q = p \/ h' <> h /\ harts w !! h' = Some q.
Proof.
  destruct (decide (h = h')) as [->|].
  - rewrite lookup_insert_eq. naive_solver.
  - rewrite lookup_insert_ne by done. naive_solver.
Qed.

Lemma spin_again_inv s0 w o s l old s' h : keeps_lock ->
  lock_inv s0 w o s -> harts w !! h = Some (Spinning, l) ->
  amoswap 1 (shared w) = (old, s') -> old <> 0 -> World s' (harts w) = w.
Proof.
  intros Hk Hi Hh [= <- <-] Hold. destruct (li_inside _ _ _ _ Hi) as [[Hs _]|(g & dn & rest & l' & Hg & _ & Hr & _)].
  - rewrite Hs in Hold. by rewrite (li_free _ _ _ _ Hi) in Hold.
  - pose proof (inside_locked dn rest g s Hk Hg) as H1. rewrite Hr in H1. simpl in H1.
    destruct w as [sh hs]. simpl in *. f_equal. rewrite <- H1. apply lset_lget.
Qed.

Lemma spin_acquired_inv s0 w o s l s' h : keeps_lock ->
  lock_inv s0 w o s -> harts w !! h = Some (Spinning, l) -> amoswap 1 (shared w) = (0, s') ->
  lock_inv s0 (World s' (<[h := (Inside (section h), l)]> (harts w))) o s.
Proof.
  intros Hk Hi Hh [= Hz <-].
  destruct (li_inside _ _ _ _ Hi) as [[Hs Hn]|(g & dn & rest & l' & Hg & _ & Hr & _)].
  2: { pose proof (inside_locked dn rest g s Hk Hg) as H1. rewrite Hr in H1. simpl in H1. lia. }
  destruct Hi as [Hseq Hf Hnd Hrel Hsp _]. split; try done; simpl.
  - intros h' l'. rewrite harts_insert, <- Hrel. split; [naive_solver|].
    intros Hl. right. split; [|done]. intros ->. congruence.
  - intros h' l'. rewrite harts_insert. intros [[-> [=]]|[_ Hl]]. eauto.
  - right. exists h, [], (section h), l. rewrite lookup_insert_eq. do 2 (split; [done|]).
    split; [simpl; by rewrite Hs, (Hsp h l)|].
    intros h' rest' l'. rewrite harts_insert. intros [[-> _]|[_ Hl]]; [done|]. by apply Hn in Hl.
Qed.

Lemma inside_access_inv s0 w o s a rest l l' s' h :
  lock_inv s0 w o s -> harts w !! h = Some (Inside (a :: rest), l) -> a l (shared w) = (l', s') ->
  lock_inv s0 (World s' (<[h := (Inside rest, l')]> (harts w))) o s.
Proof.
  intros Hi Hh Ha.
  destruct (li_inside _ _ _ _ Hi) as [[_ Hn]|(g & dn & rest' & l1 & Hg & Hl1 & Hr & Hu)]; [by apply Hn in Hh|].
  pose proof (Hu _ _ _ Hh) as ->. rewrite Hh in Hl1. injection Hl1 as <- <-.
  destruct Hi as [Hseq Hf Hnd Hrel Hsp _]. split; try done; simpl.
  - intros h' l2. rewrite harts_insert, <- Hrel. split; [naive_solver|].
    intros Hl. right. split; [|done]. intros ->. congruence.
  - intros h' l2. rewrite harts_insert. intros [[-> [=]]|[_ Hl]]. eauto.
  - right. exists g, (dn ++ [a]), rest, l'. rewrite <- app_assoc, lookup_insert_eq. do 2 (split; [done|]).
    split; [by rewrite run_accesses_app, Hr; simpl; rewrite Ha|].
    intros h' rest' l2. rewrite harts_insert. intros [[-> _]|[_ Hl]]; [done|]. by apply Hu in Hl.
Qed.

Lemma unlocked_inv s0 w o s l h : keeps_lock ->
  lock_inv s0 w o s -> harts w !! h = Some (Inside [], l) ->
  lock_inv s0 (World (amoswap 0 (shared w)).2 (<[h := (Released, l)]> (harts w)))
    (o ++ [(h, l)]) (lset lk 0 (shared w)).
Proof.
  intros Hk Hi Hh.
  destruct (li_inside _ _ _ _ Hi) as [[_ Hn]|(g & dn & rest' & l1 & Hg & Hl1 & Hr & Hu)]; [by apply Hn in Hh|].
  pose proof (Hu _ _ _ Hh) as ->. rewrite Hh in Hl1. injection Hl1 as <- <-. rewrite app_nil_r in Hg.
  destruct Hi as [Hseq Hf Hnd Hrel Hsp _].
  assert (g ∉ o.*1) as Hgo.
  { intros (l2 & Hl2 & Hin)%list_elem_of_fmap. destruct l2 as [g' l2]. simpl in Hl2. subst g'.
    apply Hrel in Hin. congruence. }
  split; simpl.
  - econstructor; [done|]. rewrite critical_run, Hg, Hr by done. done.
  - apply lget_lset.
  - rewrite fmap_app. simpl. apply NoDup_app. split_and!; [done| |apply NoDup_singleton].
    intros x Hx ->%list_elem_of_singleton. done.
  - intros h' l2. rewrite harts_insert, elem_of_app, list_elem_of_singleton, <- Hrel.
    destruct (decide (h' = g)) as [->|]; naive_solver.
  - intros h' l2. rewrite harts_insert. intros [[-> [=]]|[_ Hl]]. eauto.
  - left. split; [done|]. intros h' rest l2. rewrite harts_insert. intros [[_ [=]]|[Hne Hl]]. by apply Hu in Hl.
Qed.

Lemma lock_inv_step s0 w w' o s : keeps_lock ->
  lock_inv s0 w o s -> world_step w w' -> exists o' s', lock_inv s0 w' o' s'.
Proof.
  intros Hk Hi [h [l old s1 Hh Ha Ho|l s1 Hh Ha|a rest l l' s1 Hh Ha|l Hh]].
  - rewrite (spin_again_inv _ _ _ _ _ _ _ _ Hk Hi Hh Ha Ho). eauto.
  - eauto using spin_acquired_inv.
  - eauto using inside_access_inv.
  - eauto using unlocked_inv.
Qed.

Lemma all_spinning_lookup hs s h p : NoDup hs ->
  harts (all_spinning hs s) !! h = Some p <-> h ∈ hs /\ p = (Spinning, start h).
Proof.
  intros Hnd. simpl. rewrite <- elem_of_list_to_map.
  2: { rewrite <- list_fmap_compose. simpl. by rewrite list_fmap_id. }
  rewrite list_elem_of_fmap. naive_solver.
Qed.

Lemma lock_inv_init hs s : NoDup hs -> lget lk s = 0 -> lock_inv s (all_spinning hs s) [] s.
Proof.
  intros Hnd Hf. split.
  - constructor.
  - done.
  - constructor.
  - intros h l. rewrite all_spinning_lookup by done. rewrite elem_of_nil. naive_solver.
  - intros h l. rewrite all_spinning_lookup by done. naive_solver.
  - left. split; [done|]. intros h rest l. rewrite all_spinning_lookup by done. naive_solver.
Qed.

Lemma lock_inv_reachable hs s0 w : keeps_lock -> NoDup hs -> lget lk s0 = 0 ->
  rtc world_step (all_spinning hs s0) w -> exists o s, lock_inv s0 w o s.
Proof.
  intros Hk Hnd Hf Hr. assert (exists o s, lock_inv s0 (all_spinning hs s0) o s) as Hi
    by eauto using lock_inv_init.
  induction Hr as [|w1 w2 w3 Hs _ IH]; [done|]. destruct Hi as (o & s & Hi).
  apply IH. eauto using lock_inv_step.
Qed.

End Lock.

Arguments Spinning {S L}.
Arguments Released {S L}.

Section Dom.
  Context {S L : Type} (lk : lens S Z) (section : Z -> list (@access S L)).

Lemma world_step_dom w w' : world_step lk section w w' -> dom (harts w') = dom (harts w).
Proof.
  intros [h [l old s Hh _ _|l s Hh _|a rest l l' s Hh _|l Hh]]; simpl; [done|..];
    rewrite dom_insert_L; apply elem_of_dom_2 in Hh; set_solver.
Qed.

Lemma reachable_dom w w' : rtc (world_step lk section) w w' -> dom (harts w') = dom (harts w).
Proof. induction 1 as [|w1 w2 w3 Hs _ IH]; [done|]. by rewrite IH, (world_step_dom w1). Qed.

(** No more calls have returned than there are harts. *)
Lemma released_length start `{!LensLaws lk} hs s0 w o s : NoDup hs ->
  rtc (world_step lk section) (all_spinning start hs s0) w ->
  lock_inv lk section start s0 w o s -> (length o <= length hs)%nat.
Proof.
  intros Hnd Hr Hi. rewrite <- (length_fmap fst). apply submseteq_length, NoDup_submseteq.
  - apply (li_nodup _ _ _ _ _ _ _ Hi).
  - intros h ([h' l] & -> & Hl)%list_elem_of_fmap. apply (li_released _ _ _ _ _ _ _ Hi) in Hl.
    apply reachable_dom in Hr. apply elem_of_dom_2 in Hl. rewrite Hr in Hl.
    apply elem_of_dom in Hl as [p Hp]. by apply all_spinning_lookup in Hp as [? _].
Qed.

End Dom.

(** *** Progress *)

Section Progress.
  Context {S L : Type} (lk : lens S Z) `{!LensLaws lk} (section : Z -> list (@access S L)).

(** A hart inside can finish its section, one that finds the lock free can go all the
    way. *)
Lemma inside_completes h rest : forall w l, harts w !! h = Some (Inside rest, l) ->
  let r := run_accesses rest l (shared w) in
  rtc (world_step lk section) w (World (lset lk 0 r.2) (<[h := (Released, r.1)]> (harts w))).
Proof.
  induction rest as [|a rest IH]; intros w l Hh; simpl.
  - apply rtc_once. exists h. by apply unlocked.
  - destruct (a l (shared w)) as [l' s'] eqn:Ha.
    eapply rtc_l; [exists h; by eapply inside_access|].
    specialize (IH (World s' (<[h := (Inside rest, l')]> (harts w))) l').
    simpl in IH. rewrite insert_insert_eq in IH. apply IH, lookup_insert_eq.
Qed.

Lemma spinning_completes h w l : harts w !! h = Some (Spinning, l) -> lget lk (shared w) = 0 ->
  let r := run_accesses (section h) l (lset lk 1 (shared w)) in
  rtc (world_step lk section) w (World (lset lk 0 r.2) (<[h := (Released, r.1)]> (harts w))).
Proof.
  intros Hh Hz. eapply rtc_l.
  { exists h. eapply spin_acquired; [done|]. unfold amoswap. by rewrite Hz. }
  pose proof (inside_completes h (section h)
    (World (lset lk 1 (shared w)) (<[h := (Inside (section h), l)]> (harts w))) l) as Hr.
  simpl in Hr. rewrite insert_insert_eq in Hr. apply Hr, lookup_insert_eq.
Qed.

Lemma all_complete (js : list Z) : forall w, lget lk (shared w) = 0 ->
  (forall h r l, harts w !! h <> Some (Inside r, l)) ->
  (forall h l, harts w !! h = Some (Spinning, l) -> h ∈ js) ->
  exists w', rtc (world_step lk section) w w' /\
    forall h p, harts w' !! h = Some p -> exists l, p = (Released, l).
Proof.
  induction js as [|j js IH]; intros w Hz Hin Hsp.
  - exists w. split; [done|]. intros h [[] l] Hh; eauto.
    + apply Hsp in Hh. by apply elem_of_nil in Hh.
    + by apply Hin in Hh.
  - destruct (harts w !! j) as [[[] l]|] eqn:Hj.
    2,3,4: apply IH; [done|done|]; intros h l' Hh; specialize (Hsp h l' Hh);
      apply elem_of_cons in Hsp as [->|?]; congruence || done.
    pose proof (spinning_completes j w l Hj Hz) as Hr. cbv zeta in Hr.
    set (w1 := World _ _) in Hr. destruct (IH w1) as (w' & Hr' & Hall).
    + apply lget_lset.
    + intros h r l'. simpl. destruct (decide (j = h)) as [->|]; [by rewrite lookup_insert_eq|].
      rewrite lookup_insert_ne by done. apply Hin.
    + intros h l'. simpl. destruct (decide (j = h)) as [->|]; [by rewrite lookup_insert_eq|].
      rewrite lookup_insert_ne by done. intros Hh. apply Hsp in Hh. by apply elem_of_cons in Hh as [->|?].
    + exists w'. split; [by etrans|done].
Qed.

(** No reachable state is a dead end. *)
Lemma can_complete start s0 w o s : lock_inv lk section start s0 w o s ->
  exists w', rtc (world_step lk section) w w' /\
    forall h p, harts w' !! h = Some p -> exists l, p = (Released, l).
Proof.
  intros Hi. destruct (li_inside _ _ _ _ _ _ _ Hi) as [[Hs Hn]|(g & dn & rest & l & Hg & Hl & Hr & Hu)].
  - apply (all_complete (elements (dom (harts w)))); [by rewrite Hs, (li_free _ _ _ _ _ _ _ Hi)|done|].
    intros h l Hh. apply elem_of_elements. by apply elem_of_dom_2 in Hh.
  - pose proof (inside_completes g rest w l Hl) as Hc. cbv zeta in Hc. set (w1 := World _ _) in Hc.
    destruct (all_complete (elements (dom (harts w1))) w1) as (w' & Hr' & Hall).
    + apply lget_lset.
    + intros h r l'. simpl. destruct (decide (g = h)) as [->|]; [by rewrite lookup_insert_eq|].
      rewrite lookup_insert_ne by done. intros Hh. by apply Hu in Hh.
    + intros h l' Hh. apply elem_of_elements. by apply elem_of_dom_2 in Hh.
    + exists w'. split; [by etrans|done].
Qed.

(** Harts 0 and 1, one after the other. *)
Lemma two_in_turn start s : lget lk s = 0 ->
  let r0 := run_accesses (section 0) (start 0) (lset lk 1 s) in
  let r1 := run_accesses (section 1) (start 1) (lset lk 1 (lset lk 0 r0.2)) in
  exists w, rtc (world_step lk section) (all_spinning start [0; 1] s) w /\
    harts w !! 0 = Some (Released, r0.1) /\ harts w !! 1 = Some (Released, r1.1).
Proof.
  intros Hz. cbv zeta. set (w0 := all_spinning _ _ s).
  pose proof (spinning_completes 0 w0 (start 0) eq_refl Hz) as H1. cbv zeta in H1.
  set (w1 := World _ _) in H1.
  pose proof (spinning_completes 1 w1 (start 1) eq_refl (lget_lset _ _)) as H2. cbv zeta in H2.
  exists (World (lset lk 0 (run_accesses (section 1) (start 1) (lset lk 1 (shared w1))).2)
    (<[1 := (Released, (run_accesses (section 1) (start 1) (lset lk 1 (shared w1))).1)]> (harts w1))).
  split; [by etrans|]. split; done.
Qed.

End Progress.

Lemma NoDup_0_1 : NoDup [0; 1].
Proof. apply NoDup_cons. split; [set_solver|]. apply NoDup_singleton. Qed.

(** ** Semaphore numbers

    [semid = g_next_semaphore_id; g_next_semaphore_id++;] as the loads and the store
    it consists of. *)

Definition id_accesses : list (@access kernel (Z * Z)) :=
  [fun '(_, t) s => ((g_next_semaphore_id s, t), s);
   fun '(id, _) s => ((id, g_next_semaphore_id s), s);
   fun '(id, t) s => ((id, t), set_g_next_semaphore_id (s64 (t + 1)) s)].

#[global] Instance semaphore_lock_laws : LensLaws semaphore_lock.
Proof. split; by intros []. Qed.

#[global] Instance proc_alloc_lock_laws : LensLaws proc_alloc_lock.
Proof. split; by intros []. Qed.

Lemma id_accesses_lock : keeps_lock semaphore_lock (fun _ => id_accesses).
Proof.
  intros h a [id t] s Ha. unfold id_accesses in Ha.
  repeat (apply elem_of_cons in Ha as [->|Ha]; [done|]). by apply not_elem_of_nil in Ha.
Qed.

(** The accesses under the lock are [alloc_semaphore_id]. *)
Lemma critical_alloc_semaphore_id h s :
  alloc_semaphore_id s =
    (let* l := critical semaphore_lock (fun _ => id_accesses) (fun _ => (0, 0)) h in ret l.1) s.
Proof.
  unfold alloc_semaphore_id, critical, bind, spin_lock. by destruct (lget semaphore_lock s =? 0).
Qed.

Lemma sequential_ids s0 o s :
  sequentially semaphore_lock (fun _ => id_accesses) (fun _ => (0, 0)) s0 o s ->
  0 <= g_next_semaphore_id s0 -> g_next_semaphore_id s0 + Z.of_nat (length o) < 2 ^ 63 ->
  (fun x => x.2.1) <$> o = seqZ (g_next_semaphore_id s0) (Z.of_nat (length o)) /\
  g_next_semaphore_id s = g_next_semaphore_id s0 + Z.of_nat (length o).
Proof.
  intros Hs H0. induction Hs as [|o s h l s' Hs IH Hc]; intros Hlt; [simpl; split; [done|lia]|].
  rewrite length_app in Hlt |- *. simpl in Hlt |- *. destruct IH as [IH1 IH2]; [lia|].
  unfold critical, bind, spin_lock in Hc. destruct (lget semaphore_lock s =? 0); [|done].
  injection Hc as <- <-. simpl.
  assert (forall x s, g_next_semaphore_id (set_g_semaphore_lock x s) = g_next_semaphore_id s) as E by done.
  rewrite fmap_app, IH1. simpl. split.
  - rewrite Nat2Z.inj_add, seqZ_app by lia. f_equal. rewrite IH2. done.
  - rewrite IH2, s64_small by lia. lia.
Qed.

(** ** Process slots

    The search of [alloc_process] under [g_proc_alloc_lock]: the loads of
    [procs[i].status] and [g_proc_reserved[i]] one slot after the other until one is
    free, then the store that reserves it.  Local state: the slot found, and whether
    the status just read was FREE. *)

Definition read_status (i : Z) : @access kernel (option Z * bool) := fun '(found, _) s =>
  match found with
  | Some j => ((Some j, false), s)
  | None =>
      ((None, match procs s !! i with Some p => bool_decide (status p = FREE) | None => false end), s)
  end.
Definition read_reserved (i : Z) : @access kernel (option Z * bool) := fun '(found, free) s =>
  if free && (default 0 (g_proc_reserved s !! i) =? 0) then ((Some i, false), s)
  else ((found, false), s).
Definition write_reserved : @access kernel (option Z * bool) := fun '(found, free) s =>
  match found with
  | Some i => ((found, free), set_g_proc_reserved (<[i := 1]> (g_proc_reserved s)) s)
  | None => ((found, free), s)
  end.

Definition slot_accesses : list (@access kernel (option Z * bool)) :=
  concat (map (fun i => [read_status i; read_reserved i]) (seqZ 0 NPROC)) ++ [write_reserved].

Definition slot_usable (s : kernel) (i : Z) : bool :=
  match procs s !! i with
  | Some p => bool_decide (status p = FREE) && (default 0 (g_proc_reserved s !! i) =? 0)
  | None => false
  end.

(** The first usable one of some slots. *)
Definition first_usable (s : kernel) (js : list Z) : option Z :=
  head (filter (fun i => slot_usable s i = true) js).

Lemma scan_found j js : forall s b,
  run_accesses (concat (map (fun i => [read_status i; read_reserved i]) js)) (Some j, b) s =
    ((Some j, match js with [] => b | _ => false end), s).
Proof.
  induction js as [|i js IH]; intros s b; simpl; [done|]. rewrite IH. by destruct js.
Qed.

Lemma scan_run js : forall s,
  run_accesses (concat (map (fun i => [read_status i; read_reserved i]) js)) (None, false) s =
    ((first_usable s js, false), s).
Proof.
  induction js as [|i js IH]; intros s; [done|]. simpl. unfold first_usable. simpl.
  rewrite filter_cons. fold (slot_usable s i).
  destruct (procs s !! i) as [p|] eqn:Hp; simpl.
  - destruct (bool_decide (status p = FREE) && (default 0 (g_proc_reserved s !! i) =? 0)) eqn:E.
    + rewrite decide_True by (unfold slot_usable; by rewrite Hp). simpl. rewrite scan_found. by destruct js.
    + rewrite decide_False by (unfold slot_usable; rewrite Hp; congruence). apply IH.
  - rewrite decide_False by (unfold slot_usable; rewrite Hp; congruence). apply IH.
Qed.

Lemma slot_run s :
  run_accesses slot_accesses (None, false) s =
    match first_usable s (seqZ 0 NPROC) with
    | Some i => ((Some i, false), set_g_proc_reserved (<[i := 1]> (g_proc_reserved s)) s)
    | None => ((None, false), s)
    end.
Proof.
  unfold slot_accesses. rewrite run_accesses_app, scan_run. simpl.
  by destruct (first_usable s (seqZ 0 NPROC)).
Qed.

Lemma slot_accesses_lock : keeps_lock proc_alloc_lock (fun _ => slot_accesses).
Proof.
  intros h a [found b] s Ha. unfold slot_accesses in Ha.
  apply elem_of_app in Ha as [Ha| ->%list_elem_of_singleton]; [|by destruct found].
  apply list_elem_of_In, in_concat in Ha as (al & Hal & Ha). apply in_map_iff in Hal as (i & <- & _).
  destruct Ha as [<-|[<-|[]]]; [by destruct found|]. simpl. by destruct (_ && _).
Qed.

Lemma reserve_loop n : forall i ps rs s,
  (forall j, i <= j < i + Z.of_nat n -> is_Some (ps !! j)) -> procs s = ps -> g_proc_reserved s = rs ->
  i + Z.of_nat n = NPROC ->
  forall fuel (s' : kernel), (n < fuel)%nat ->
  loop (S := kernel) fuel (fun i =>
    if i <? NPROC then
      let* p := of_option (ps !! i) in
      if bool_decide (status p = FREE) && (default 0 (rs !! i) =? 0) then ret (inr (Some i))
      else ret (inl (i + 1))
    else ret (inr None)) i s' = Ok (first_usable s (seqZ i (Z.of_nat n))) s'.
Proof.
  induction n as [|n IH]; intros i ps rs s Hps Hp Hr Hn [|fuel] s' Hf; try lia.
  - cbn [loop]. unfold bind at 1. by rewrite (proj2 (Z.ltb_ge _ _)) by lia.
  - cbn [loop]. unfold bind at 1. rewrite (proj2 (Z.ltb_lt _ _)) by lia.
    destruct (Hps i ltac:(lia)) as [p Hi]. rewrite Hi. unfold bind at 1. simpl.
    rewrite seqZ_cons by lia. unfold first_usable. rewrite filter_cons.
    assert (slot_usable s i = bool_decide (status p = FREE) && (default 0 (rs !! i) =? 0)) as E
      by (unfold slot_usable; by rewrite Hp, Hr, Hi).
    rewrite E. destruct (bool_decide _ && _); simpl; [done|].
    replace (Z.succ i) with (i + 1) by lia. replace (Z.pred (Z.of_nat (S n))) with (Z.of_nat n) by lia.
    apply (IH (i + 1) ps rs s); [|done|done|lia|lia]. intros. apply Hps. lia.
Qed.

Definition slots_present (s : kernel) : Prop := forall i, 0 <= i < NPROC -> is_Some (procs s !! i).

Lemma reserve_slot_run s : slots_present s -> g_proc_alloc_lock s = 0 ->
  reserve_slot s =
    match first_usable s (seqZ 0 NPROC) with
    | Some i => Ok i (set_g_proc_alloc_lock 0
        (set_g_proc_reserved (<[i := 1]> (g_proc_reserved s)) (set_g_proc_alloc_lock 1 s)))
    | None => Panic
    end.
Proof.
  intros Hp Hl. unfold reserve_slot, bind at 1, spin_lock.
  change (lget proc_alloc_lock s) with (g_proc_alloc_lock s). rewrite Hl.
  change (0 =? 0) with true. cbv iota. do 2 (unfold bind at 1, gets at 1). unfold bind at 1.
  rewrite (reserve_loop (Z.to_nat NPROC) 0 _ _ s); [|apply Hp|done|done|done|lia].
  by destruct (first_usable s _).
Qed.

(** The accesses under the lock are [reserve_slot]. *)
Lemma critical_reserve_slot h s : slots_present s -> g_proc_alloc_lock s = 0 ->
  reserve_slot s =
    (let* l := critical proc_alloc_lock (fun _ => slot_accesses) (fun _ => (None, false)) h in
     match l.1 with Some i => ret i | None => panic end) s.
Proof.
  intros Hp Hl. rewrite reserve_slot_run by done. unfold bind. rewrite critical_run by done.
  rewrite slot_run.
  assert (first_usable (lset proc_alloc_lock 1 s) = first_usable s) as -> by done.
  by destruct (first_usable s _).
Qed.

Lemma first_usable_Some s js i : first_usable s js = Some i -> i ∈ js /\ slot_usable s i = true.
Proof. intros H%head_Some_elem_of. by apply list_elem_of_filter in H as [? ?]. Qed.

(** A sequence of reservations: every slot handed out stays marked, and none is
    handed out twice. *)
Lemma sequential_slots s0 o s :
  sequentially proc_alloc_lock (fun _ => slot_accesses) (fun _ => (None, false)) s0 o s ->
  procs s = procs s0 /\
  (forall i, i ∈ omap (fun x => x.2.1) o -> g_proc_reserved s !! i = Some 1 /\ slot_usable s0 i = true) /\
  NoDup (omap (fun x => x.2.1) o) /\
  (forall i, i ∉ omap (fun x => x.2.1) o -> g_proc_reserved s !! i = g_proc_reserved s0 !! i).
Proof.
  induction 1 as [|o s h l s' Hs (Hp & Hm & Hnd & Hk) Hc]; [split_and!; [done|by intros i ?%elem_of_nil|constructor|done]|].
  unfold critical, bind, spin_lock in Hc. destruct (lget proc_alloc_lock s =? 0); [|done].
  rewrite slot_run in Hc. rewrite omap_app.
  assert (first_usable (lset proc_alloc_lock 1 s) = first_usable s) as E by done. rewrite E in Hc. clear E.
  destruct (first_usable s _) as [i|] eqn:Ei; injection Hc as <- <-; simpl.
  2: { rewrite app_nil_r. done. }
  apply first_usable_Some in Ei as [_ Hi]. unfold slot_usable in Hi.
  destruct (procs s !! i) as [p|] eqn:Hpi; [|done]. apply andb_true_iff in Hi as [Hf Hz].
  assert (i ∉ omap (fun x => x.2.1) o) as Hni.
  { intros Hin. apply Hm in Hin as [Hin _]. rewrite Hin in Hz. done. }
  split_and!; [done| | |].
  - intros j. rewrite elem_of_app, list_elem_of_singleton. intros [Hj| ->].
    + destruct (decide (i = j)) as [->|]; [done|]. rewrite lookup_insert_ne by done. auto.
    + rewrite lookup_insert_eq. split; [done|]. unfold slot_usable.
      rewrite <- Hp, Hpi, <- (Hk i Hni), Hf, Hz. done.
  - apply NoDup_app. split_and!; [done| |apply NoDup_singleton]. intros x Hx ->%list_elem_of_singleton. done.
  - intros j. rewrite elem_of_app, list_elem_of_singleton. intros Hj.
    rewrite lookup_insert_ne by naive_solver. apply Hk. naive_solver.
Qed.

(** ** Barriers *)

(** Before the [amoadd.w], polling the counter, or past the barrier. *)
Inductive bphase : Type := Before | Polling | Past.

#[global] Instance bphase_eq_dec : EqDecision bphase.
Proof. solve_decision. Defined.

Record barrier : Type := Barrier { counter : Z; at_barrier : gmap Z bphase }.

(** One access of [sync_barrier(counter, all)] on hart [h]. *)
Definition barrier_access (all h : Z) (b : barrier) : option barrier :=
  match at_barrier b !! h with
  | Some Before =>
      let local := counter b in
      Some (Barrier (s32 (counter b + 1))
              (<[h := if s32 (local + 1) <? all then Polling else Past]> (at_barrier b)))
  | Some Polling =>
      let local := counter b in
      Some (Barrier (counter b) (<[h := if local <? all then Polling else Past]> (at_barrier b)))
  | _ => None
  end.

Definition barrier_step (all : Z) (b b' : barrier) : Prop :=
  exists h, barrier_access all h b = Some b'.

Definition all_before (c : Z) (hs : list Z) : barrier :=
  Barrier c (list_to_map ((fun h => (h, Before)) <$> hs)).

Definition arrived (b : barrier) : nat := size (filter (fun p => p.2 <> Before) (at_barrier b)).

Record barrier_inv (all : Z) (b : barrier) : Prop := {
  bi_size : Z.of_nat (size (at_barrier b)) = all;
  bi_counter : counter b = Z.of_nat (arrived b);
  bi_past : forall h, at_barrier b !! h = Some Past -> all <= counter b
}.

Lemma arrived_insert b h x : x <> Before ->
  filter (fun p => p.2 <> Before) (<[h := x]> (at_barrier b)) =
    <[h := x]> (filter (fun p => p.2 <> Before) (at_barrier b)).
Proof. intros Hx. by apply map_filter_insert_True. Qed.

Lemma arrived_le b : (arrived b <= size (at_barrier b))%nat.
Proof. apply map_subseteq_size, map_filter_subseteq. Qed.

(** When everybody has arrived nobody is before the barrier. *)
Lemma arrived_all b h : arrived b = size (at_barrier b) -> at_barrier b !! h <> Some Before.
Proof.
  intros He Hb. unfold arrived in He.
  assert (size (filter (fun p => p.2 <> Before) (at_barrier b)) <= size (delete h (at_barrier b)))%nat as Hle.
  { apply map_subseteq_size, map_subseteq_spec. intros i x [Hi Hx]%map_lookup_filter_Some.
    rewrite lookup_delete_ne; [done|]. intros ->. simpl in Hx. congruence. }
  rewrite map_size_delete, Hb in Hle.
  assert (size (at_barrier b) <> 0%nat) by (rewrite map_size_ne_0_lookup; eauto). lia.
Qed.

Lemma barrier_inv_step all b b' : all < 2 ^ 31 ->
  barrier_inv all b -> barrier_step all b b' -> barrier_inv all b'.
Proof.
  intros Hall [Hs Hc Hp] [h Hstep]. unfold barrier_access in Hstep.
  pose proof (arrived_le b) as Hle.
  destruct (at_barrier b !! h) as [[]|] eqn:Hh; try done; injection Hstep as <-.
  - assert (arrived b <> size (at_barrier b)) as Hne by (intros E; by apply (arrived_all _ h E)).
    rewrite s32_small by lia.
    set (x := if counter b + 1 <? all then Polling else Past).
    assert (x <> Before) as Hx by (unfold x; by case_match).
    split; cbn [counter at_barrier].
    + by rewrite map_size_insert_Some by (rewrite Hh; eauto).
    + unfold arrived. cbn [at_barrier]. rewrite arrived_insert by done.
      rewrite map_size_insert_None; [unfold arrived in *; lia|].
      apply map_lookup_filter_None. right. intros y Hy Hyb. simpl in Hyb. congruence.
    + intros h'. destruct (decide (h = h')) as [->|].
      * rewrite lookup_insert_eq. intros [= E]. unfold x in E. destruct (Z.ltb_spec (counter b + 1) all); [done|lia].
      * rewrite lookup_insert_ne by done. intros H'. apply Hp in H'. lia.
  - set (x := if counter b <? all then Polling else Past).
    assert (x <> Before) as Hx by (unfold x; by case_match).
    split; cbn [counter at_barrier].
    + by rewrite map_size_insert_Some by (rewrite Hh; eauto).
    + unfold arrived. cbn [at_barrier]. rewrite arrived_insert by done.
      rewrite map_size_insert_Some; [done|]. exists Polling. by apply map_lookup_filter_Some.
    + intros h'. destruct (decide (h = h')) as [->|].
      * rewrite lookup_insert_eq. intros [= E]. unfold x in E. destruct (Z.ltb_spec (counter b) all); [done|lia].
      * rewrite lookup_insert_ne by done. intros H'. apply Hp in H'. lia.
Qed.

Lemma all_before_lookup c hs h p : at_barrier (all_before c hs) !! h = Some p -> p = Before.
Proof.
  simpl. intros H%elem_of_list_to_map_2. apply list_elem_of_fmap in H as (? & [= -> ->] & _). done.
Qed.

Lemma barrier_inv_init hs : NoDup hs -> barrier_inv (Z.of_nat (length hs)) (all_before 0 hs).
Proof.
  intros Hnd. split.
  - simpl. f_equal. rewrite map_size_list_to_map; [by rewrite length_fmap|].
    rewrite <- list_fmap_compose. simpl. by rewrite list_fmap_id.
  - unfold arrived. replace (filter _ _) with (∅ : gmap Z bphase); [done|]. symmetry.
    apply map_empty. intros i. apply map_lookup_filter_None. right. intros x Hx.
    apply all_before_lookup in Hx as ->. naive_solver.
  - intros h Hh. by apply all_before_lookup in Hh.
Qed.

Lemma barrier_inv_reachable hs b : NoDup hs -> Z.of_nat (length hs) < 2 ^ 31 ->
  rtc (barrier_step (Z.of_nat (length hs))) (all_before 0 hs) b -> barrier_inv (Z.of_nat (length hs)) b.
Proof.
  intros Hnd Hl Hr. pose proof (barrier_inv_init hs Hnd) as Hi.
  induction Hr; eauto using barrier_inv_step.
Qed.

(** ** Properties *)

(** C7: a spin lock makes critical sections atomic, whatever the interleaving of the
    harts' swaps and memory accesses.  At any time at most one hart is inside.  The
    calls that have returned, with their results, are those of a run of the
    sequential operation by one hart after the other; when the lock is free the
    shared state is the one that run leaves, and then every hart that is spinning
    gets the lock with its next swap.  No state is a deadlock: all harts can still
    return. *)
Theorem lock_linearizable {S L} (lk : lens S Z) `{!LensLaws lk} (section : Z -> list (@access S L))
    start hs s0 w :
  keeps_lock lk section -> NoDup hs -> lget lk s0 = 0 ->
  rtc (world_step lk section) (all_spinning start hs s0) w ->
  (forall h h' r r' l l', harts w !! h = Some (Inside r, l) ->
     harts w !! h' = Some (Inside r', l') -> h = h') /\
  (exists o s, sequentially lk section start s0 o s /\ NoDup o.*1 /\
     (forall h l, harts w !! h = Some (Released, l) <-> (h, l) ∈ o) /\
     (lget lk (shared w) = 0 -> shared w = s)) /\
  (lget lk (shared w) = 0 -> forall h l, harts w !! h = Some (Spinning, l) ->
     exists w', hart_step lk section h w w' /\ harts w' !! h = Some (Inside (section h), l)) /\
  (exists w', rtc (world_step lk section) w w' /\
     forall h p, harts w' !! h = Some p -> exists l, p = (Released, l)).
Proof.
  intros Hk Hnd Hf Hr. destruct (lock_inv_reachable lk section start hs s0 w) as (o & s & Hi); [done..|].
  pose proof (li_inside _ _ _ _ _ _ _ Hi) as Hin. split_and!.
  - intros h h' r r' l l' H1 H2. destruct Hin as [[_ Hn]|(g & dn & rest & l1 & _ & _ & _ & Hu)]; [by apply Hn in H1|].
    by rewrite (Hu _ _ _ H1), (Hu _ _ _ H2).
  - exists o, s. destruct Hi as [Hseq Hf' Hnd' Hrel _ _]. do 3 (split; [done|]). intros Hz.
    destruct Hin as [[Hs _]|(g & dn & rest & l1 & Hg & _ & Hrun & _)]; [done|].
    pose proof (inside_locked lk section start dn rest g s Hk Hg) as H1. rewrite Hrun in H1. simpl in H1. lia.
  - intros Hz h l Hh. eexists. split; [eapply spin_acquired; [done|]|].
    + unfold amoswap. by rewrite Hz.
    + apply lookup_insert_eq.
  - by apply (can_complete lk section start s0 w o s).
Qed.

Definition boot_kernel : kernel := fresh_kernel (Vm (two_pages) 0).

Lemma lock_linearizable_witness : exists w,
  harts w !! 1 = Some (Released, (1, 1)) /\
  (forall h h' r r' l l', harts w !! h = Some (Inside r, l) ->
     harts w !! h' = Some (Inside r', l') -> h = h') /\
  (exists o s, sequentially semaphore_lock (fun _ => id_accesses) (fun _ => (0, 0)) boot_kernel o s /\
     NoDup o.*1 /\ (forall h l, harts w !! h = Some (Released, l) <-> (h, l) ∈ o) /\
     (lget semaphore_lock (shared w) = 0 -> shared w = s)) /\
  (lget semaphore_lock (shared w) = 0 -> forall h l, harts w !! h = Some (Spinning, l) ->
     exists w', hart_step semaphore_lock (fun _ => id_accesses) h w w' /\
       harts w' !! h = Some (Inside id_accesses, l)) /\
  (exists w', rtc (world_step semaphore_lock (fun _ => id_accesses)) w w' /\
     forall h p, harts w' !! h = Some p -> exists l, p = (Released, l)).
Proof.
  destruct (two_in_turn semaphore_lock (fun _ => id_accesses) (fun _ => (0, 0)) boot_kernel eq_refl)
    as (w & Hr & _ & H1).
  exists w. split; [exact H1|].
  apply (lock_linearizable semaphore_lock (fun _ => id_accesses) (fun _ => (0, 0)) [0; 1] boot_kernel).
  - apply id_accesses_lock.
  - apply NoDup_0_1.
  - reflexivity.
  - exact Hr.
Defined.

(** No semaphore number is given out twice.  However many harts call
    [alloc_semaphore_id] at the same time, and however their loads and stores
    interleave, the numbers returned are different and come from the next ones in
    turn, as long as the counter does not overflow. *)
Theorem semaphore_ids_distinct hs s0 w h h' x x' :
  NoDup hs -> g_semaphore_lock s0 = 0 -> 0 <= g_next_semaphore_id s0 ->
  g_next_semaphore_id s0 + Z.of_nat (length hs) < 2 ^ 63 ->
  rtc (world_step semaphore_lock (fun _ => id_accesses)) (all_spinning (fun _ => (0, 0)) hs s0) w ->
  harts w !! h = Some (Released, x) -> harts w !! h' = Some (Released, x') -> h <> h' ->
  x.1 <> x'.1 /\
  g_next_semaphore_id s0 <= x.1 < g_next_semaphore_id s0 + Z.of_nat (length hs).
Proof.
  intros Hnd Hl H0 Hlt Hr Hh Hh' Hne.
  destruct (lock_inv_reachable semaphore_lock (fun _ => id_accesses) (fun _ => (0, 0)) hs s0 w)
    as (o & s & Hi); [apply id_accesses_lock|done..|].
  pose proof (released_length _ _ _ _ _ _ _ _ Hnd Hr Hi) as Hlen.
  destruct (sequential_ids s0 o s) as [Hids _]; [apply Hi|done|lia|].
  apply (li_released _ _ _ _ _ _ _ Hi) in Hh, Hh'.
  apply list_elem_of_lookup in Hh as [i Hi1]. apply list_elem_of_lookup in Hh' as [j Hj1].
  assert (forall k y, o !! k = Some y -> y.2.1 = g_next_semaphore_id s0 + Z.of_nat k) as Hk.
  { intros k y Hy. apply (f_equal (fun l => l !! k)) in Hids.
    rewrite list_lookup_fmap, Hy in Hids. symmetry in Hids. apply lookup_seqZ in Hids as [? _]. done. }
  rewrite (Hk i _ Hi1 : x.1 = _), (Hk j _ Hj1 : x'.1 = _). pose proof (lookup_lt_Some _ _ _ Hi1).
  split; [|lia]. intros E. assert (i = j) as -> by lia. congruence.
Qed.

Lemma semaphore_ids_distinct_witness : 0 <> 1 /\ 0 <= 0 < 0 + 2.
Proof.
  destruct (two_in_turn semaphore_lock (fun _ => id_accesses) (fun _ => (0, 0)) boot_kernel eq_refl)
    as (w & Hr & H0 & H1).
  apply (semaphore_ids_distinct [0; 1] boot_kernel w 0 1 (0, 0) (1, 1));
    [apply NoDup_0_1|reflexivity|simpl; lia|simpl; lia|exact Hr|exact H0|exact H1|discriminate].
Defined.

(** C22: no process slot is given out twice.  Harts that search for a slot at the same
    time ([alloc_process] during start-up and fork) reserve different slots, and each
    of them was FREE and not reserved before. *)
Theorem process_slots_distinct hs s0 w h h' i i' b b' :
  NoDup hs -> g_proc_alloc_lock s0 = 0 ->
  rtc (world_step proc_alloc_lock (fun _ => slot_accesses)) (all_spinning (fun _ => (None, false)) hs s0) w ->
  harts w !! h = Some (Released, (Some i, b)) -> harts w !! h' = Some (Released, (Some i', b')) ->
  h <> h' -> i <> i' /\ slot_usable s0 i = true.
Proof.
  intros Hnd Hl Hr Hh Hh' Hne.
  destruct (lock_inv_reachable proc_alloc_lock (fun _ => slot_accesses) (fun _ => (None, false)) hs s0 w)
    as (o & s & Hi); [apply slot_accesses_lock|done..|].
  destruct (sequential_slots s0 o s) as (_ & Hm & Hno & _); [apply Hi|].
  apply (li_released _ _ _ _ _ _ _ Hi) in Hh, Hh'.
  assert (i ∈ omap (fun x : Z * (option Z * bool) => x.2.1) o) as Hin.
  { apply list_elem_of_omap. by eexists (h, (Some i, b)). }
  split; [|by apply Hm]. intros <-.
  apply list_elem_of_split in Hh as (o1 & o2 & ->).
  apply elem_of_app in Hh' as [Hh'|[[= -> _]|Hh']%elem_of_cons]; [|done|];
    rewrite omap_app in Hno; simpl in Hno.
  - apply NoDup_app in Hno as (_ & Hd & _). apply (Hd i); [|left].
    apply list_elem_of_omap. by eexists (h', (Some i, b')).
  - apply NoDup_app in Hno as (_ & _ & Hno). apply NoDup_cons in Hno as [Hno _]. apply Hno.
    apply list_elem_of_omap. by eexists (h', (Some i, b')).
Qed.

Lemma process_slots_distinct_witness : 0 <> 1 /\ slot_usable boot_kernel 0 = true.
Proof.
  destruct (two_in_turn proc_alloc_lock (fun _ => slot_accesses) (fun _ => (None, false)) boot_kernel eq_refl)
    as (w & Hr & H0 & H1).
  apply (process_slots_distinct [0; 1] boot_kernel w 0 1 0 1 false false);
    [apply NoDup_0_1|reflexivity|exact Hr| | |discriminate].
  - rewrite H0. vm_compute. reflexivity.
  - rewrite H1. vm_compute. reflexivity.
Defined.

Lemma first_usable_ext s s' js : (forall i, slot_usable s i = slot_usable s' i) ->
  first_usable s js = first_usable s' js.
Proof. intros E. unfold first_usable. f_equal. apply list_filter_iff. intros i. by rewrite E. Qed.

Lemma reserve_slot_Ok s i s1 : slots_present s -> g_proc_alloc_lock s = 0 -> reserve_slot s = Ok i s1 ->
  first_usable s (seqZ 0 NPROC) = Some i /\
  s1 = set_g_proc_alloc_lock 0
    (set_g_proc_reserved (<[i := 1]> (g_proc_reserved s)) (set_g_proc_alloc_lock 1 s)).
Proof.
  intros Hp Hl. rewrite reserve_slot_run by done. destruct (first_usable s _); [|done].
  by intros [= -> <-].
Qed.

Lemma release_run i s : 0 <= i < NPROC -> g_proc_alloc_lock s = 0 ->
  release_proc_slot_reservation i s = Ok tt (set_g_proc_alloc_lock 0
    (set_g_proc_reserved (<[i := 0]> (g_proc_reserved s)) (set_g_proc_alloc_lock 1 s))).
Proof.
  intros Hi Hl. unfold release_proc_slot_reservation. rewrite (proj2 (Z.leb_gt _ _)) by lia.
  unfold bind at 1, spin_lock. change (lget proc_alloc_lock s) with (g_proc_alloc_lock s). by rewrite Hl.
Qed.



(** C20: the barrier holds every hart until all have arrived.  With as many harts as
    [sync_barrier] is told to wait for and a counter that starts at 0, no hart gets past
    the barrier while another is still before it; once all have arrived, every hart that
    polls leaves with its next load.  The counter is not reset: at a counter that
    has reached the number nobody is held up. *)
Theorem barrier_correct hs b :
  NoDup hs -> Z.of_nat (length hs) < 2 ^ 31 ->
  rtc (barrier_step (Z.of_nat (length hs))) (all_before 0 hs) b ->
  let all := Z.of_nat (length hs) in
  (forall h h', at_barrier b !! h = Some Past -> at_barrier b !! h' <> Some Before) /\
  ((forall h, at_barrier b !! h <> Some Before) ->
     forall h, at_barrier b !! h = Some Polling ->
     exists b', barrier_access all h b = Some b' /\ at_barrier b' !! h = Some Past) /\
  (forall h js, h ∈ js -> NoDup js -> all + 1 < 2 ^ 31 ->
     exists b', barrier_access all h (all_before all js) = Some b' /\ at_barrier b' !! h = Some Past).
Proof.
  intros Hnd Hl Hr all. pose proof (barrier_inv_reachable hs b Hnd Hl Hr) as [Hs Hc Hp].
  pose proof (arrived_le b) as Hle. split_and!.
  - intros h h' Hh. apply Hp in Hh. apply arrived_all. lia.
  - intros Hall h Hh. unfold barrier_access. rewrite Hh. eexists. split; [done|]. simpl.
    rewrite lookup_insert_eq. rewrite (proj2 (Z.ltb_ge _ _)); [done|].
    enough (arrived b = size (at_barrier b)) by lia. unfold arrived. f_equal. apply map_filter_id.
    intros j x Hj Hx. simpl in Hx. subst x. by apply (Hall j).
  - intros h js Hh Hndj Hb. unfold barrier_access.
    assert (at_barrier (all_before all js) !! h = Some Before) as ->.
    { simpl. apply elem_of_list_to_map_1; [|apply list_elem_of_fmap; eauto].
      rewrite <- list_fmap_compose. simpl. by rewrite list_fmap_id. }
    eexists. split; [done|]. simpl. rewrite lookup_insert_eq, s32_small, (proj2 (Z.ltb_ge _ _)) by lia. done.
Qed.

(** Of two harts the first polls. *)
Lemma barrier_correct_witness :
  let b := Barrier 1 (<[0 := Polling]> (at_barrier (all_before 0 [0; 1]))) in
  (forall h h', at_barrier b !! h = Some Past -> at_barrier b !! h' <> Some Before) /\
  ((forall h, at_barrier b !! h <> Some Before) ->
     forall h, at_barrier b !! h = Some Polling ->
     exists b', barrier_access 2 h b = Some b' /\ at_barrier b' !! h = Some Past) /\
  (forall h js, h ∈ js -> NoDup js -> 2 + 1 < 2 ^ 31 ->
     exists b', barrier_access 2 h (all_before 2 js) = Some b' /\ at_barrier b' !! h = Some Past).
Proof.
  apply (barrier_correct [0; 1] (Barrier 1 (<[0 := Polling]> (at_barrier (all_before 0 [0; 1])))));
    [apply NoDup_0_1|simpl; lia|].
  apply rtc_once. exists 0. reflexivity.
Defined.
