(* ===== verification/Trap.v ===== *)
(** * Traps from user mode (kernel/strap.c)

    The page-fault handler with its two cases, a copy-on-write page and a page
    of the growing stack; the timer interrupt and round-robin scheduling. *)

From S2P Require Import Prelude Mem Pmm StringLib Vmm Kernel Process Sched Queues.
From stdpp Require Import base gmap list fin_maps.
From Stdlib Require Import ZArith Lia Bool.

Set Default Goal Selector "!".
Open Scope Z_scope.

#[local] Opaque fill copy_fwd.

Definition CAUSE_USER_ECALL : Z := 0x8.
Definition CAUSE_LOAD_PAGE_FAULT : Z := 0xd.
Definition CAUSE_STORE_PAGE_FAULT : Z := 0xf.
Definition CAUSE_MTIMER_S_TRAP : Z := 0x8000000000000001.
Definition SIP_SSIP : Z := Z.shiftl 1 1.

(** ** Page faults *)

(** The block for copy-on-write pages: [true] when it handled the fault and
    [break]s out of the switch. *)
Definition resolve_cow (page_dir stval : Z) : M pmm bool :=
  let* pte := page_walk page_dir stval false in
  if pte =? 0 then ret false
  else
    let* e := read64 pte in
    if has e PTE_V && has e PTE_COW then
      let old_pa := PTE2PA e in
      let* r := get_page_ref old_pa in
      let* new_page :=
        if 1 <? r then
          let* new_page := alloc_page in
          kmemcpy new_page old_pa PGSIZE ;;;
          dec_page_ref old_pa ;;;
          ret new_page
        else ret old_pa in
      let* e := read64 pte in
      let flags := PTE_FLAGS e in
      let flags := Z.land flags (Z.lnot PTE_COW) in
      let flags := Z.lor flags PTE_W in
      write64 pte (Z.lor (Z.lor (PA2PTE new_page) flags) PTE_V) ;;;
      ret true
    else ret false.

(** The stack case: one new page at the faulting address. *)
Definition grow_stack (page_dir stval : Z) : M pmm unit :=
  let* new_page := alloc_page in
  user_vm_map page_dir (ROUNDDOWN stval PGSIZE) PGSIZE new_page
    (prot_to_type (Z.lor PROT_WRITE PROT_READ) 1).

Definition handle_user_page_fault (hartid mcause sepc stval : Z) : M kernel unit :=
  assert_hart hartid ;;;
  if mcause =? CAUSE_STORE_PAGE_FAULT then
    let* c := cur hartid in
    let* p := get_proc c in
    let* done := zoom pmmL (resolve_cow (pagetable p) stval) in
    if (done : bool) then ret tt
    else
      let* sp := kread64 (trapframe p + TF_SP) in
      if u64 (sp - PGSIZE) <=? stval then zoom pmmL (grow_stack (pagetable p) stval)
      else panic
  else ret tt.

(** ** The timer *)

Definition handle_mtimer_trap (hartid : Z) : M kernel unit :=
  modify (fun s => set_g_ticks (u64 (g_ticks s + 1)) s) ;;;
  let* c := get_csr hartid in
  upd_csr hartid (set_sip (Z.land (sip c) (Z.lnot SIP_SSIP))).

Section WithSymbols.
  Context `{Symbols}.

(** [inl]: back to the interrupted process; [inr]: another one was scheduled. *)
Definition rrsched (hartid : Z) : M kernel (unit + control) :=
  assert_hart hartid ;;;
  let* c := cur hartid in
  let* p := get_proc c in
  if TIME_SLICE_LEN <=? s32 (tick_count p + 1) then
    upd_proc c (set_tick_count 0) ;;;
    upd_proc c (set_status READY) ;;;
    insert_to_ready_queue hartid c ;;;
    let* r := schedule hartid in
    ret (inr r)
  else
    upd_proc c (set_tick_count (s32 (tick_count p + 1))) ;;;
    ret (inl tt).

(** [sys_user_yield] of kernel/syscall.c. *)
Definition sys_user_yield (hartid : Z) : M kernel control :=
  assert_hart hartid ;;;
  let* c := get_current hartid in
  assert (bool_decide (is_Some c)) ;;;
  let* c := of_option c in
  upd_proc c (set_status READY) ;;;
  insert_to_ready_queue hartid c ;;;
  schedule hartid.

End WithSymbols.

(** ** Copy on write *)

(** The flags the handler leaves: writable, no longer copy-on-write. *)
Definition cow_flags (f : Z) : Z :=
  Z.lor (Z.lor (Z.land f (Z.lnot PTE_COW)) PTE_W) PTE_V.

Lemma flags_lor a b : 0 <= a < 1024 -> 0 <= b < 1024 -> 0 <= Z.lor a b < 1024.
Proof.
  intros Ha Hb. split; [apply Z.lor_nonneg; lia|].
  destruct (Z.eq_dec a 0) as [->|]; [rewrite Z.lor_0_l; lia|].
  destruct (Z.eq_dec b 0) as [->|]; [rewrite Z.lor_0_r; lia|].
  apply Z.log2_lt_cancel. rewrite Z.log2_lor by lia. change (Z.log2 1024) with 10.
  apply Z.max_lub_lt; apply Z.log2_lt_pow2; lia.
Qed.

Lemma flags_land a b : 0 <= a < 1024 -> 0 <= Z.land a b < 1024.
Proof.
  intros Ha. assert (Z.land a b = Z.land a b mod 2 ^ 10) as ->; [|apply Z.mod_pos_bound; lia].
  rewrite <- (Z.mod_small a (2 ^ 10)) at 1 by lia. rewrite <- !Z.land_ones by lia.
  by rewrite <- Z.land_assoc, (Z.land_comm (Z.ones 10)), Z.land_assoc.
Qed.

Lemma cow_flags_range f : 0 <= f < 1024 -> 0 <= cow_flags f < 1024.
Proof. intros. unfold cow_flags. by repeat apply flags_lor; try apply flags_land. Qed.

Lemma cow_entry pa f : 0 <= pa < 2 ^ 56 -> 0 <= f < 1024 ->
  Z.lor (Z.lor (PA2PTE pa) (Z.lor (Z.land f (Z.lnot PTE_COW)) PTE_W)) PTE_V
  = pte pa (cow_flags f).
Proof.
  intros. rewrite <- Z.lor_assoc. apply pte_lor; [done|]. by apply cow_flags_range.
Qed.

Lemma page_counted_mem p c s : mem (page_counted p c s) = mem s.
Proof. done. Qed.

(** Page [q] taken off the free list and filled with the bytes of [p]. *)
Definition page_copied (q p : Z) (s : pmm) : pmm :=
  set_mem (copy_fwd (Z.to_nat PGSIZE) (mem s) q p) (page_taken q s).

Section Copy.
  Context (root : Z) (T : tables) (fl : list Z) (s : pmm) (q p : Z).
  Hypothesis Hwf : pmm_wf (q :: fl) s.
  Hypothesis Hvs : vspace root T s.
  Hypothesis Hp : owned s p.

Lemma copy_q : managed s q /\ page_ref s q = 0 /\ q <> p.
Proof.
  destruct (wf_head_managed _ _ Hwf q fl eq_refl) as [Hm H0].
  split_and!; [done|done|]. intros ->. destruct Hp as [_ ?]. lia.
Qed.

Lemma page_copied_load8 x : load8 (mem (page_copied q p s)) x =
  if decide (page_of x = q) then load8 (mem s) (p + (x - q)) else load8 (mem s) x.
Proof.
  destruct copy_q as ([Hqm _] & _ & Hne). destruct Hp as [[Hpm _] _].
  unfold page_copied. simpl mem. rewrite load8_copy_fwd.
  - repeat case_decide; try done; unfold page_of, PGSIZE in *; exfalso; dlia.
  - destruct (pages_apart q p Hqm Hpm Hne); unfold PGSIZE in *; lia.
Qed.

Lemma page_copied_wf : pmm_wf fl (page_copied q p s).
Proof.
  apply (pmm_wf_frame _ (page_taken q s)); [by eapply page_taken_wf|].
  intros b Hb. assert (managed s b) as [Hbm _] by (apply (wf_free _ _ Hwf); set_solver).
  assert (b <> q) by (pose proof (wf_nodup _ _ Hwf) as [? _]%NoDup_cons; set_solver).
  apply load_le_ext. intros x Hx. pose proof (page_copied_load8 x) as E.
  unfold page_copied in E. simpl mem in E. rewrite E, decide_False; [done|].
  destruct copy_q as ([Hqm _] & _). unfold page_of, PGSIZE in *. intros Hpx.
  assert (x / 4096 * 4096 = b) by dlia. congruence.
Qed.

Lemma page_copied_ref b : managed s b -> page_ref (page_copied q p s) b =
  if decide (q = b) then 1 else page_ref s b.
Proof.
  intros Hb. change (page_ref (page_copied q p s) b) with (page_ref (page_taken q s) b).
  apply page_ref_taken; [apply Hwf|apply copy_q|done].
Qed.

Lemma page_copied_vspace : vspace root T (page_copied q p s) /\
  forall va, leaf T (mem (page_copied q p s)) va = leaf T (mem s) va.
Proof.
  destruct copy_q as (_ & H0 & _). apply vspace_frame; [done| |].
  - intros path a x Ha Hx. rewrite page_copied_load8, decide_False; [done|].
    rewrite Hx. intros ->. pose proof (vs_owned _ _ _ Hvs _ _ Ha) as [_ ?]. lia.
  - intros path a Ha. pose proof (vs_owned _ _ _ Hvs _ _ Ha) as [Hm Hr]. split; [done|].
    rewrite page_copied_ref by done. case_decide; lia.
Qed.

(** The three calls on a shared page. *)
Lemma copy_run : 1 < page_ref s p ->
  (let* new_page := alloc_page in
   kmemcpy new_page p PGSIZE ;;;
   dec_page_ref p ;;;
   ret new_page) s = Ok q (page_counted p (page_ref s p - 1) (page_copied q p s)).
Proof.
  intros Hr. destruct copy_q as (Hqm & _ & Hne). pose proof (wf_bounds _ _ Hwf) as Hb.
  pose proof (wf_chain _ _ Hwf) as [Hh _]. destruct Hp as [Hpm _].
  pose proof (managed_range s Hb q Hqm) as (? & ? & _).
  pose proof (managed_range s Hb p Hpm) as (? & ? & _).
  unfold bind at 1. rewrite (alloc_page_run s Hb (wf_unlocked _ _ Hwf) q) by done.
  unfold bind at 1, kmemcpy.
  assert (in_dram q PGSIZE && in_dram p PGSIZE = true) as -> by (unfold in_dram; layout; lia).
  unfold zoom. rewrite memcpy_run by (layout; lia). cbn [lset kmem].
  unfold bind.
  pose proof page_copied_wf as Hwf1.
  assert (page_ref (page_copied q p s) p = page_ref s p) as E.
  { rewrite page_copied_ref by done. by rewrite decide_False. }
  change (lget kmem (page_taken q s)) with (mem s). fold (page_copied q p s).
  rewrite dec_page_ref_run; [by rewrite E|apply Hwf1|apply Hwf1|done|].
  rewrite E. pose proof (wf_ref _ _ Hwf p Hpm). lia.
Qed.

End Copy.

Section Cow.
  Context (root : Z) (T : tables) (fl : list Z) (s : pmm) (va p f : Z).
  Hypothesis Hwf : pmm_wf fl s.
  Hypothesis Hvs : vspace root T s.
  Hypothesis Hva : 0 <= va < MAXVA.
  Hypothesis Hf : 0 <= f < 1024.
  Hypothesis HV : has f PTE_V = true.
  Hypothesis HC : has f PTE_COW = true.
  Hypothesis Hleaf : leaf T (mem s) va = pte p f.
  Hypothesis Hp : owned s p.
  Hypothesis Hnt : forall path, T !! path <> Some p.

Lemma cow_path : exists a, T !! walk_path va = Some a.
Proof.
  unfold leaf in Hleaf. destruct (T !! walk_path va); [by eexists|].
  rewrite has_V in HV. pose proof (odd_pte p f) as H. rewrite <- Hleaf, HV in H. done.
Qed.

(** The guards pass; [choose] yields the page to map. *)
Lemma resolve_cow_run s1 q : managed s q ->
  pmm_wf (tail fl) s1 \/ s1 = s -> vspace root T s1 ->
  leaf T (mem s1) va = pte p f ->
  (if 1 <? page_ref s p then
     let* new_page := alloc_page in
     kmemcpy new_page p PGSIZE ;;; dec_page_ref p ;;; ret new_page
   else ret p) s = Ok q s1 ->
  resolve_cow root va s = Ok true (leaf_set T va (pte q (cow_flags f)) s1).
Proof.
  intros Hq Hwf1 Hvs1 Hl1 Hrun. destruct cow_path as [a Ha].
  pose proof (wf_bounds _ _ Hwf) as Hb. pose proof (wf_unlocked _ _ Hwf) as Hu.
  assert (exists fl1, pmm_wf fl1 s1) as [fl1 Hwf1'] by (destruct Hwf1; subst; eauto).
  pose proof (vs_owned _ _ _ Hvs _ _ Ha) as [Hm _].
  apply managed_range in Hm as (? & _); [|done].
  pose proof (PX_range 0 va ltac:(lia)). pose proof (managed_56 s q Hb Hq) as [? _].
  unfold resolve_cow, bind at 1. rewrite (page_walk_run root T s), Ha by done.
  rewrite (proj2 (Z.eqb_neq _ 0)) by (layout; lia).
  unfold bind at 1. rewrite (read_leaf root T s), Hleaf by done.
  rewrite !has_pte, HV, HC by done. cbn [andb].
  destruct Hp as [Hpm _]. rewrite (PTE2PA_page s) by done.
  unfold bind at 1. rewrite (get_page_ref_run s Hb Hu p Hpm).
  unfold bind at 1. rewrite Hrun. unfold bind at 1.
  rewrite (read_leaf root T s1), Hl1 by (done || apply Hwf1').
  rewrite PTE_FLAGS_pte, cow_entry by done. unfold bind.
  by erewrite leaf_set_run by done.
Qed.

(** The last holder keeps the page. *)
Lemma cow_last : page_ref s p = 1 ->
  resolve_cow root va s = Ok true (leaf_set T va (pte p (cow_flags f)) s).
Proof.
  intros Hr. apply resolve_cow_run; [apply Hp|by right|done|done|].
  by rewrite Hr.
Qed.

(** The state of a shared page after the copy. *)
Definition unshared (q : Z) : pmm := page_counted p (page_ref s p - 1) (page_copied q p s).

Lemma unshared_wf q fl' : fl = q :: fl' -> 1 < page_ref s p -> pmm_wf fl' (unshared q) /\
  vspace root T (unshared q) /\ forall vb, leaf T (mem (unshared q)) vb = leaf T (mem s) vb.
Proof.
  intros -> Hr. destruct (page_copied_vspace root T fl' s q p Hwf Hvs Hp) as [Hvs1 Hl1].
  pose proof (page_copied_wf root T fl' s q p Hwf Hvs Hp) as Hwf1.
  pose proof (wf_ref _ _ Hwf p (proj1 Hp)).
  assert (owned (page_copied q p s) p) as Hp1.
  { destruct Hp. split; [done|]. rewrite (page_copied_ref fl') by done. case_decide; lia. }
  split; [apply page_counted_wf; [done|apply Hp1..|lia]|].
  destruct (page_counted_vspace root T fl' (page_copied q p s) p Hwf1 Hvs1 Hp1
    (page_ref s p - 1)) as [Hvs2 Hl2]; [lia|]. split; [done|].
  intros vb. unfold unshared. by rewrite Hl2, Hl1.
Qed.

Lemma cow_shared q fl' : fl = q :: fl' -> 1 < page_ref s p ->
  resolve_cow root va s = Ok true (leaf_set T va (pte q (cow_flags f)) (unshared q)).
Proof.
  intros E Hr. destruct (unshared_wf q fl' E Hr) as (Hwf1 & Hvs1 & Hl1).
  apply resolve_cow_run; [|left; by rewrite E|done|by rewrite Hl1|].
  - by eapply (wf_head_managed _ _ Hwf).
  - rewrite (proj2 (Z.ltb_lt _ _)) by done. rewrite E in Hwf. by rewrite (copy_run root T fl' s q p Hwf Hvs Hp) by done.
Qed.

(** What the copy leaves behind. *)
Lemma cow_shared_state q fl' f' : fl = q :: fl' -> 1 < page_ref s p -> 0 <= f' < 1024 ->
  let s' := leaf_set T va (pte q f') (unshared q) in
  pmm_wf fl' s' /\ vspace root T s' /\
  (forall vb, 0 <= vb < MAXVA -> leaf T (mem s') vb =
     if decide (vb / PGSIZE = va / PGSIZE) then pte q f' else leaf T (mem s) vb) /\
  page_ref s' p = page_ref s p - 1 /\ page_ref s' q = 1 /\
  (forall b, managed s b -> b <> p -> b <> q -> page_ref s' b = page_ref s b) /\
  (forall i, 0 <= i < PGSIZE -> load8 (mem s') (q + i) = load8 (mem s) (p + i)) /\
  (forall x, page_of x <> q -> (forall path, T !! path <> Some (page_of x)) ->
     load8 (mem s') x = load8 (mem s) x).
Proof.
  intros E Hr Hf' s'. destruct cow_path as [a Ha]. pose proof (wf_bounds _ _ Hwf) as Hb.
  destruct (unshared_wf q fl' E Hr) as (Hwf1 & Hvs1 & Hl1). rewrite E in Hwf.
  destruct (copy_q fl' s q p Hwf Hp) as (Hqm & Hq0 & Hne).
  pose proof (managed_56 s q Hb Hqm) as [Hq56 Hqal].
  assert (0 <= pte q f' < 2 ^ 64) as Hpq by (pose proof (pte_range q f' Hq56 Hf'); lia).
  assert (forall b, managed s b -> page_ref s' b =
    if decide (p = b) then page_ref s p - 1 else if decide (q = b) then 1 else page_ref s b)
    as Href.
  { intros b Hbm. unfold s'. erewrite leaf_set_page_ref by done. unfold unshared.
    rewrite page_ref_counted; [|apply (page_copied_wf root T fl' s q p Hwf Hvs Hp)|apply Hp|done].
    case_decide; [done|]. by rewrite (page_copied_ref fl'). }
  assert (forall x, (forall path, T !! path <> Some (page_of x)) -> load8 (mem s') x =
    if decide (page_of x = q) then load8 (mem s) (p + (x - q)) else load8 (mem s) x) as Hmem.
  { intros x HT. unfold s'. erewrite leaf_set_mem by done.
    unfold unshared. rewrite page_counted_mem. by apply (page_copied_load8 fl'). }
  split_and!; [by eapply leaf_set_wf|by eapply leaf_set_vspace| | | | | |].
  - intros vb Hvb. unfold s'. erewrite leaf_set_leaf by done. by rewrite Hl1.
  - rewrite Href by apply Hp. by case_decide.
  - rewrite Href by done. repeat case_decide; congruence.
  - intros b Hbm ? ?. rewrite Href by done. repeat case_decide; congruence.
  - intros i Hi. assert (page_of (q + i) = q) as Eq by (unfold page_of, PGSIZE in *; dlia).
    rewrite Hmem, decide_True; rewrite ?Eq; [f_equal; lia|done|].
    intros path E'. apply (vs_owned _ _ _ Hvs) in E' as [_ ?]. lia.
  - intros x Hx HT. rewrite Hmem by done. by rewrite decide_False.
Qed.

Lemma cow_no_page : fl = [] -> 1 < page_ref s p -> resolve_cow root va s = Fault.
Proof.
  intros -> Hr. destruct cow_path as [a Ha].
  pose proof (wf_bounds _ _ Hwf) as Hb. pose proof (wf_unlocked _ _ Hwf) as Hu.
  pose proof (vs_owned _ _ _ Hvs _ _ Ha) as [Hm _].
  apply managed_range in Hm as (? & _); [|done]. pose proof (PX_range 0 va ltac:(lia)).
  unfold resolve_cow, bind at 1. rewrite (page_walk_run root T s), Ha by done.
  rewrite (proj2 (Z.eqb_neq _ 0)) by (layout; lia).
  unfold bind at 1. rewrite (read_leaf root T s), Hleaf by done.
  rewrite !has_pte, HV, HC by done. cbn [andb].
  destruct Hp as [Hpm _]. rewrite (PTE2PA_page s) by done.
  unfold bind at 1. rewrite (get_page_ref_run s Hb Hu p Hpm).
  rewrite (proj2 (Z.ltb_lt _ _)) by done. unfold bind at 1, bind at 1.
  rewrite (alloc_page_empty s Hb Hu) by apply Hwf. reflexivity.
Qed.

End Cow.

Lemma testbit_has x k : 0 <= k -> has x (Z.shiftl 1 k) = Z.testbit x k.
Proof.
  intros Hk. unfold has. rewrite Z.shiftl_1_l.
  destruct (Z.testbit x k) eqn:E.
  - rewrite (proj2 (Z.eqb_neq _ 0)); [done|]. intros H0.
    pose proof (Z.land_spec x (2 ^ k) k) as H. rewrite H0, Z.bits_0, E in H.
    by rewrite Z.pow2_bits_true in H.
  - rewrite (proj2 (Z.eqb_eq _ 0)); [done|]. apply Z.bits_inj'. intros n Hn.
    rewrite Z.land_spec, Z.bits_0, Z.pow2_bits_eqb by done.
    destruct (Z.eqb_spec k n) as [->|]; [by rewrite E|apply andb_false_r].
Qed.

Lemma cow_flags_bits f : has (cow_flags f) PTE_V = true /\ has (cow_flags f) PTE_W = true /\
  has (cow_flags f) PTE_COW = false /\
  forall k, 0 <= k -> k <> 0 -> k <> 2 -> k <> 8 ->
    Z.testbit (cow_flags f) k = Z.testbit f k.
Proof.
  unfold PTE_V, PTE_W, PTE_COW. rewrite !testbit_has by lia. unfold cow_flags, PTE_V, PTE_W, PTE_COW.
  rewrite !Z.lor_spec, !Z.land_spec, !Z.lnot_spec by lia.
  change (Z.testbit (Z.shiftl 1 0) 0) with true. change (Z.testbit (Z.shiftl 1 2) 2) with true.
  change (Z.testbit (Z.shiftl 1 8) 8) with true. change (Z.testbit (Z.shiftl 1 2) 8) with false.
  change (Z.testbit (Z.shiftl 1 0) 8) with false.
  rewrite !orb_true_r, andb_false_r. split_and!; [done..|].
  intros k Hk H0 H2 H8. rewrite !Z.lor_spec, Z.land_spec, Z.lnot_spec, !Z.shiftl_1_l by done.
  rewrite !Z.pow2_bits_false by lia. by rewrite andb_true_r, !orb_false_r.
Qed.

(** C4: copy on write gives the writer a page of its own.  A store fault on a
    valid copy-on-write page makes the leaf entry of that page, and no other,
    writable and no longer copy-on-write, with its other permission bits kept.
    The last holder keeps its page.  While the page is shared, the entry gets a
    fresh page with the same 4096 bytes, the old page loses one reference, every
    byte outside the fresh page and the faulting process's own tables is as
    before, so the other holders see nothing.  With no free page the kernel
    faults, as it copies to the NULL that [alloc_page] returned. *)
Theorem cow_fault_isolates root T fl s va p f :
  pmm_wf fl s -> vspace root T s -> 0 <= va < MAXVA -> 0 <= f < 1024 ->
  has f PTE_V = true -> has f PTE_COW = true -> leaf T (mem s) va = pte p f ->
  owned s p -> (forall path, T !! path <> Some p) ->
  let f' := cow_flags f in
  (has f' PTE_W = true /\ has f' PTE_COW = false /\
   forall k, 0 <= k -> k <> 0 -> k <> 2 -> k <> 8 -> Z.testbit f' k = Z.testbit f k) /\
  (page_ref s p = 1 -> exists s', resolve_cow root va s = Ok true s' /\
     evolves root T fl s
       (fun vb => if decide (vb / PGSIZE = va / PGSIZE) then pte p f' else leaf T (mem s) vb)
       T fl s') /\
  (forall q fl', fl = q :: fl' -> 1 < page_ref s p ->
     exists s', resolve_cow root va s = Ok true s' /\ pmm_wf fl' s' /\ vspace root T s' /\
       (forall vb, 0 <= vb < MAXVA -> leaf T (mem s') vb =
          if decide (vb / PGSIZE = va / PGSIZE) then pte q f' else leaf T (mem s) vb) /\
       page_ref s' p = page_ref s p - 1 /\ page_ref s' q = 1 /\
       (forall b, managed s b -> b <> p -> b <> q -> page_ref s' b = page_ref s b) /\
       (forall i, 0 <= i < PGSIZE -> load8 (mem s') (q + i) = load8 (mem s) (p + i)) /\
       (forall x, page_of x <> q -> (forall path, T !! path <> Some (page_of x)) ->
          load8 (mem s') x = load8 (mem s) x)) /\
  (fl = [] -> 1 < page_ref s p -> resolve_cow root va s = Fault).
Proof.
  intros Hwf Hvs Hva Hf HV HC Hl Hp Hnt f'.
  pose proof (wf_bounds _ _ Hwf) as Hb.
  destruct (cow_path T s va p f HV Hl) as [a Ha].
  pose proof (cow_flags_range f Hf) as Hf'. fold f' in Hf'.
  pose proof (managed_56 s p Hb (proj1 Hp)) as [Hp56 _].
  pose proof (pte_range p f' Hp56 Hf').
  split_and!; [apply cow_flags_bits..| | |].
  - intros Hr. eexists. split; [by apply (cow_last root T fl s va p f)|].
    apply (leaf_set_evolves root T fl s va (pte p f') a); try done. lia.
  - intros q fl' E Hr. subst fl. eexists.
    split; [by eapply (cow_shared root T (q :: fl') s va p f Hwf)|].
    by eapply (cow_shared_state root T (q :: fl') s va p f).
  - intros -> Hr. by apply (cow_no_page root T [] s va p f).
Qed.

Lemma cow_fault_isolates_witness : exists s s' q,
  resolve_cow 0x80007000 0x400123 s = Ok true s' /\ page_ref s' 0x80006000 = 1 /\
  page_ref s' q = 1.
Proof.
  destruct (mapped_space_with 0x1D2) as (T & fl & s0 & Hwf & Hvs & Hl & [Hm Hr] & Hnt & Hfl);
    [lia|].
  assert (owned s0 0x80006000) as Ho by (split; [done|lia]).
  set (s := page_counted 0x80006000 2 s0).
  assert (page_ref s 0x80006000 = 2) as Hr2.
  { unfold s. rewrite page_ref_counted by (done || apply Hwf). by case_decide. }
  assert (pmm_wf fl s) as Hwf1 by (apply page_counted_wf; (done || lia)).
  destruct (page_counted_vspace 0x80007000 T fl s0 0x80006000 Hwf Hvs Ho 2) as [Hvs1 Hl1]; [lia|].
  destruct fl as [|q fl]; [simpl in Hfl; lia|].
  destruct (cow_fault_isolates 0x80007000 T (q :: fl) s 0x400123 0x80006000 0x1D3)
    as (_ & _ & H & _); [exact Hwf1|exact Hvs1|rewrite MAXVA_eq; lia|lia|reflexivity|reflexivity
    | |split; [exact Hm|lia]|exact Hnt|].
  { unfold s. rewrite Hl1. exact Hl. }
  destruct (H q fl eq_refl) as (s' & E & _ & _ & _ & E1 & E2 & _); [lia|].
  exists s, s', q. rewrite E1, Hr2. auto.
Defined.

(** ** Round robin *)

Section RoundRobin.
  Context `{Symbols}.

Lemma enq_image l c x ps p y : ps !! c = Some x -> c ∉ l -> ps !! p = Some y ->
  exists y', enq readied c x l ps !! p = Some y' /\
    trapframe y' = trapframe y /\ pagetable y' = pagetable y.
Proof.
  intros Hx Hc Hy. rewrite enq_lookup by done. case_decide as E.
  - subst p. assert (y = x) as -> by congruence. eexists. split; [done|].
    unfold readied. by case_bool_decide.
  - rewrite Hy. case_decide; eexists; done.
Qed.

(** The process gives up the processor: it goes to the end of the queue and the
    head of the queue runs. *)
Lemma reschedule_run Q h c x k s p y :
  sched_wf Q s -> 0 <= h < NCPU -> procs s !! c = Some x -> nowhere Q c -> status x = READY ->
  csrs s !! h = Some k -> head (Q (QReady h) ++ [c]) = Some p -> procs s !! p = Some y ->
  tf_ok y ->
  exists s', (insert_to_ready_queue h c ;;; schedule h) s =
      Ok (ToUser (UserEntry (trapframe y) (MAKE_SATP (pagetable y)))) s' /\
    sched_wf (qset Q (QReady h) (tail (Q (QReady h) ++ [c]))) s' /\
    current s' !! h = Some p /\ status <$> procs s' !! p = Some RUNNING /\
    (c <> p -> tick_count <$> procs s' !! c = Some (tick_count x)).
Proof.
  intros Hwf Hh Hx Hno Hst Hk Hp Hy Htf.
  destruct (ready_queue_fifo_run Q h c x s) as (s1 & Hr & Hwf1 & Hps & Hcs & _);
    [done..|by rewrite Hst|].
  unfold insert_to_ready_queue, assert_hart, assert.
  rewrite (proj2 (Z.ltb_lt h NCPU)) by lia. unfold bind at 1, bind at 1, ret at 1. rewrite Hr.
  destruct (enq_image (Q (QReady h)) c x (procs s) p y) as (y' & Hy' & Et & Ep);
    [done|apply Hno|done|].
  rewrite (schedule_run (qset Q (QReady h) (Q (QReady h) ++ [c])) h s1 Hwf1) by lia.
  destruct (Q (QReady h) ++ [c]) as [|p' l] eqn:El; [done|]. injection Hp as ->.
  unfold qset at 1. rewrite decide_True by done.
  destruct (run_next_run (qset Q (QReady h) (p :: l)) h p l y' k (peeked h s1))
    as (s' & Hn & Hw & _ & Hps' & Hcur & _).
  { by apply peeked_wf. }
  { lia. }
  { unfold qset. by rewrite decide_True. }
  { simpl. by rewrite Hps. }
  { simpl. by rewrite Hcs. }
  { unfold tf_ok. by rewrite Et. }
  exists s'. rewrite Hn, Et, Ep. split_and!; try done.
  - eapply sched_wf_proper; [|reflexivity|exact Hw]. intros q. unfold qset. by case_decide.
  - rewrite Hps', lookup_insert_eq. done.
  - intros Hne. rewrite Hps', lookup_insert_ne by done. simpl. rewrite Hps.
    unfold enq. rewrite lookup_insert_eq. simpl. unfold readied. by case_bool_decide.
Qed.


End RoundRobin.

#[local] Instance demo_symbols : Symbols := {|
  trap_sec_start := 0x80003000; smode_trap_vector := 0x80003000;
  smode_trap_handler_entry := 0x80001000 |}.

