(* ===== verification/Fork.v ===== *)
(** * Sharing the heap on fork (kernel/sched.c)

    [fork_heap_pages] goes over the pages of the parent's heap and gives the
    child the same frames; both processes keep them read-only and marked
    copy-on-write. *)

From S2P Require Import Prelude Mem Pmm Vmm Kernel Process Sched Trap.
From stdpp Require Import base gmap list fin_maps.
From Stdlib Require Import ZArith Lia Bool.

Set Default Goal Selector "!".
Open Scope Z_scope.

#[local] Opaque fill copy_fwd.

(** The permissions of a shared page. *)
Definition fork_flags (f : Z) : Z := Z.lor (Z.lor (Z.land f (Z.lnot PTE_W)) PTE_COW) PTE_V.

(** The leaf entry of both processes for a page that was mapped with [e]. *)
Definition shared (e : Z) : Z := pte (PTE2PA e) (fork_flags (PTE_FLAGS e)).

Lemma fork_flags_range f : 0 <= f < 1024 -> 0 <= fork_flags f < 1024.
Proof. intros. unfold fork_flags. by repeat apply flags_lor; try apply flags_land. Qed.

Lemma fork_flags_bits f : 0 <= f < 1024 ->
  has (fork_flags f) PTE_V = true /\ has (fork_flags f) PTE_W = false /\
  has (fork_flags f) PTE_COW = true.
Proof.
  intros Hf. unfold has. rewrite !negb_true_iff, negb_false_iff, !Z.eqb_neq, Z.eqb_eq.
  assert (forall k b, 0 <= k -> Z.testbit (fork_flags f) k = true -> b = Z.shiftl 1 k ->
    Z.land (fork_flags f) b <> 0) as Hset.
  { intros k b Hk Ht -> E. apply (f_equal (fun z => Z.testbit z k)) in E.
    rewrite Z.land_spec, Z.bits_0, Ht, Z.shiftl_1_l, Z.pow2_bits_true in E by done. done. }
  split_and!.
  - apply (Hset 0); [done| |done]. unfold fork_flags. by rewrite Z.lor_spec, orb_true_r.
  - apply Z.bits_inj'. intros k Hk. rewrite Z.land_spec, Z.bits_0. change PTE_W with (2 ^ 2).
    rewrite Z.pow2_bits_eqb by lia. destruct (Z.eqb_spec 2 k) as [<-|]; [|apply andb_false_r].
    unfold fork_flags. rewrite !Z.lor_spec, Z.land_spec. by rewrite andb_false_r.
  - apply (Hset 8); [done| |done]. unfold fork_flags. by rewrite !Z.lor_spec, orb_true_r.
Qed.

(** ** Two address spaces *)

Definition tables_apart (T T' : gmap (list Z) Z) : Prop :=
  forall p q a, T !! p = Some a -> T' !! q <> Some a.

Record spaces (cpt ppt : Z) (Tc Tp : gmap (list Z) Z) (fl : list Z) (s : pmm) : Prop := {
  sp_wf : pmm_wf fl s;
  sp_child : vspace cpt Tc s;
  sp_parent : vspace ppt Tp s;
  sp_apart : tables_apart Tc Tp
}.

(** How often the page [p] is mapped by [n] pages from [va] on. *)
Fixpoint mapped_to (L : Z -> Z) (n : nat) (va p : Z) : Z :=
  match n with
  | O => 0
  | S n => (if Z.odd (L va) && (PTE2PA (L va) =? p) then 1 else 0) + mapped_to L n (va + PGSIZE) p
  end.

(** The state after [n] pages from [va] on were shared. *)
Record forked (cpt ppt va : Z) (n : nat) (Tc Tp : gmap (list Z) Z) (fl : list Z) (s : pmm)
    (Tc' : gmap (list Z) Z) (fl' : list Z) (s' : pmm) : Prop := {
  fk_spaces : spaces cpt ppt Tc' Tp fl' s';
  fk_free : exists used, fl = used ++ fl';
  fk_new : forall p a, Tc' !! p = Some a -> Tc !! p = Some a \/ a ∈ fl;
  fk_sub : Tc ⊆ Tc';
  fk_child : forall vb, 0 <= vb < MAXVA -> leaf Tc' (mem s') vb =
    if in_range va n vb && Z.odd (leaf Tp (mem s) vb) then shared (leaf Tp (mem s) vb)
    else leaf Tc (mem s) vb;
  fk_parent : forall vb, 0 <= vb < MAXVA -> leaf Tp (mem s') vb =
    if in_range va n vb && Z.odd (leaf Tp (mem s) vb) then shared (leaf Tp (mem s) vb)
    else leaf Tp (mem s) vb;
  fk_managed : forall p, managed s' p <-> managed s p;
  fk_ref : forall p, managed s p -> p ∉ fl ->
    page_ref s' p = page_ref s p + mapped_to (leaf Tp (mem s)) n va p;
  fk_mem : forall x, page_of x ∉ fl -> no_table Tc (page_of x) -> no_table Tp (page_of x) ->
    load8 (mem s') x = load8 (mem s) x
}.

(** A frame that the heap holds: allocated, and not a table of either process. *)
Record frame_ok (Tc Tp : gmap (list Z) Z) (s : pmm) (pa f : Z) : Prop := {
  fr_flags : 0 <= f < 1024;
  fr_owned : owned s pa;
  fr_child : no_table Tc pa;
  fr_parent : no_table Tp pa
}.

Section Page.
  Context (cpt ppt : Z) (Tc Tp : gmap (list Z) Z) (fl : list Z) (s : pmm) (va pa f : Z).
  Hypothesis Hsp : spaces cpt ppt Tc Tp fl s.
  Hypothesis Hva : 0 <= va.
  Hypothesis Hal : va mod PGSIZE = 0.
  Hypothesis Hmax : va + PGSIZE <= MAXVA.
  Hypothesis Hf : frame_ok Tc Tp s pa f.
  Hypothesis Hv : Z.odd f = true.
  Hypothesis Hleaf : leaf Tp (mem s) va = pte pa f.
  Hypothesis Hcount : page_ref s pa < 2 ^ 31 - 1.
  Hypothesis Hc : Z.odd (leaf Tc (mem s) va) = false.
  Hypothesis Hlen : (if Tc !! walk_path va is Some _ then 0 else 2) <= Z.of_nat (length fl).

Let s1 : pmm := page_counted pa (page_ref s pa + 1) s.

Lemma fork_counted : spaces cpt ppt Tc Tp fl s1 /\
  (forall vb, leaf Tc (mem s1) vb = leaf Tc (mem s) vb) /\
  (forall vb, leaf Tp (mem s1) vb = leaf Tp (mem s) vb).
Proof using Hsp Hf Hcount.
  destruct Hsp as [W C P A]. destruct Hf as [_ Ho _ _]. pose proof (proj2 Ho) as Hr.
  destruct (page_counted_vspace cpt Tc fl s pa W C Ho (page_ref s pa + 1)) as [C' LC]; [lia|].
  destruct (page_counted_vspace ppt Tp fl s pa W P Ho (page_ref s pa + 1)) as [P' LP]; [lia|].
  split; [|done]. constructor; [|done|done|done]. apply page_counted_wf; [done|apply Ho|done|lia].
Qed.

(** The entry of the child. *)
Lemma fork_mapped : exists Tc' fl' s2,
  user_vm_map cpt va PGSIZE pa (Z.lor (Z.lor (Z.land f (Z.lnot PTE_W)) PTE_COW) PTE_V) s1 = Ok tt s2 /\
  evolves cpt Tc fl s1 (fun vb => if bool_decide (vb / PGSIZE = va / PGSIZE)
    then pte pa (fork_flags f) else leaf Tc (mem s) vb) Tc' fl' s2 /\
  Z.of_nat (length fl) <= Z.of_nat (length fl') + (if Tc !! walk_path va is Some _ then 0 else 2) /\
  is_Some (Tc' !! walk_path va).
Proof using Hsp Hva Hal Hmax Hf Hcount Hc Hlen.
  destruct fork_counted as ([W C P A] & LC & LP). destruct Hf as [Hfl [Hm _] _ _].
  pose proof (managed_56 s pa (wf_bounds _ _ (sp_wf _ _ _ _ _ _ Hsp)) Hm) as [H56 Hpm].
  pose proof (wf_bounds _ _ (sp_wf _ _ _ _ _ _ Hsp)) as Hb.
  destruct (managed_range s Hb pa Hm) as (Hlo & Hhi & _).
  pose proof (fork_flags_range f Hfl) as Hff. fold (fork_flags f).
  destruct (kern_vm_map_run cpt Tc fl s1 va PGSIZE pa (fork_flags f) 1)
    as (Tc' & fl' & s2 & _ & Hr & Hx & Hl); try done; try (layout; dlia).
  { intros k Hk. assert (k = 0) as -> by lia. by rewrite Z.mul_0_l, Z.add_0_r, LC. }
  { unfold tables_for, crossings. replace (va / PGSIZE + 1 - 1) with (va / PGSIZE) by lia. lia. }
  assert (Z.lor (fork_flags f) PTE_V = fork_flags f) as E.
  { unfold fork_flags. by rewrite <- Z.lor_assoc, Z.lor_diag. }
  rewrite E in Hx. assert (forall vb, 0 <= vb < MAXVA -> mapped (leaf Tc (mem s1)) va pa 1 (fork_flags f) vb =
    if bool_decide (vb / PGSIZE = va / PGSIZE) then pte pa (fork_flags f) else leaf Tc (mem s) vb) as HL.
  { intros vb _. unfold mapped. rewrite LC. case_bool_decide as Eb; destruct (_ && _) eqn:E1; try lia; try done.
    f_equal. lia. }
  exists Tc', fl', s2. split_and!; [done|by eapply evolves_ext| |].
  - unfold tables_for, crossings in Hl. replace (va / PGSIZE + 1 - 1) with (va / PGSIZE) in Hl by lia. lia.
  - pose proof (ev_leaf _ _ _ _ _ _ _ _ Hx va ltac:(unfold PGSIZE in *; lia)) as Hv2.
    rewrite HL, bool_decide_true in Hv2 by (done || (unfold PGSIZE in *; lia)). unfold leaf in Hv2.
    destruct (Tc' !! walk_path va); [by eexists|]. exfalso.
    assert (Z.odd (pte pa (fork_flags f)) = true) as Ho; [|by rewrite <- Hv2 in Ho].
    rewrite odd_pte. destruct (fork_flags_bits f Hfl) as [Hbit _]. by rewrite has_V in Hbit.
Qed.

Lemma fork_page_run : exists Tc' fl' s',
  fork_heap_page cpt ppt va s = Ok tt s' /\
  forked cpt ppt va 1 Tc Tp fl s Tc' fl' s' /\
  is_Some (Tc' !! walk_path va) /\
  Z.of_nat (length fl) <= Z.of_nat (length fl') + (if Tc !! walk_path va is Some _ then 0 else 2).
Proof using All.
  destruct fork_counted as (Hsp1 & LC & LP). destruct fork_mapped as (Tc' & fl' & s2 & Hmap & Hx & Hl & Hs).
  pose proof (sp_wf _ _ _ _ _ _ Hsp) as W. pose proof (wf_bounds _ _ W) as Hb.
  pose proof Hf as [Hfl Ho Hnc Hnp]. pose proof (proj1 Ho) as Hm.
  pose proof (managed_56 s pa Hb Hm) as [H56 Hpm].
  pose proof (fork_flags_range f Hfl) as Hff. pose proof (pte_range pa (fork_flags f) H56 Hff) as Hpr.
  destruct (cow_path Tp s va pa f) as [a Ha]; [by rewrite has_V|done|].
  assert (0 <= va < MAXVA) as Hvr by (unfold PGSIZE in *; lia).
  destruct (evolves_other cpt Tc fl s1 _ Tc' fl' s2 ppt Tp (sp_wf _ _ _ _ _ _ Hsp1) Hx
    (sp_parent _ _ _ _ _ _ Hsp1) (sp_apart _ _ _ _ _ _ Hsp1)) as [P2 LP2].
  pose proof (leaf_set_evolves ppt Tp fl' s2 va (pte pa (fork_flags f)) a (ev_wf _ _ _ _ _ _ _ _ Hx) P2 Hvr
    ltac:(lia) Ha) as Hy.
  assert (tables_apart Tc' Tp) as Happ.
  { intros p q b Hp Hq. destruct (ev_new _ _ _ _ _ _ _ _ Hx p b Hp) as [Hp'|Hin];
      [by eapply (sp_apart _ _ _ _ _ _ Hsp)|].
    by apply (owned_not_free fl s b W (vs_owned _ _ _ (sp_parent _ _ _ _ _ _ Hsp) _ _ Hq)). }
  destruct (evolves_other ppt Tp fl' s2 _ Tp fl' _ cpt Tc' (ev_wf _ _ _ _ _ _ _ _ Hx) Hy
    (ev_vs _ _ _ _ _ _ _ _ Hx)) as [C3 LC3]; [intros p q b Hp Hq; by eapply Happ|].
  set (s3 := leaf_set Tp va (pte pa (fork_flags f)) s2) in *.
  assert (PTE2PA (pte pa f) = pa) as Epa by (by apply (PTE2PA_page s)).
  exists Tc', fl', s3. split_and!; [| |done|done].
  - unfold fork_heap_page, bind at 1. rewrite (page_walk_run ppt Tp s Hb (sp_parent _ _ _ _ _ _ Hsp) va Hvr), Ha.
    pose proof (vs_owned _ _ _ (sp_parent _ _ _ _ _ _ Hsp) _ _ Ha) as [Hma _].
    destruct (managed_range s Hb a Hma) as (? & _). pose proof (PX_range 0 va ltac:(lia)).
    rewrite (proj2 (Z.eqb_neq _ 0)) by (layout; lia). unfold bind at 1.
    rewrite (read_leaf ppt Tp s Hb (sp_parent _ _ _ _ _ _ Hsp) va a Ha), Hleaf, has_V, odd_pte, Hv.
    cbv zeta. rewrite Epa. unfold bind at 1.
    rewrite (inc_page_ref_run s Hb (wf_unlocked _ _ W) pa Hm) by (destruct Ho; lia). fold s1.
    unfold bind at 1. rewrite (read_leaf ppt Tp s1 (wf_bounds _ _ (sp_wf _ _ _ _ _ _ Hsp1))
      (sp_parent _ _ _ _ _ _ Hsp1) va a Ha), LP, Hleaf, PTE_FLAGS_pte by done.
    unfold bind at 1. rewrite Hmap, <- Z.lor_assoc, pte_lor by done. fold (fork_flags f).
    exact (leaf_set_run ppt Tp fl' s2 va _ a (ev_wf _ _ _ _ _ _ _ _ Hx) P2 Ha).
  - constructor.
    + constructor; [apply Hy|done|apply Hy|done].
    + apply Hx.
    + apply Hx.
    + apply Hx.
    + intros vb Hvb. rewrite in_range_one, LC3, (ev_leaf _ _ _ _ _ _ _ _ Hx) by done.
      case_bool_decide as E; [|done]. rewrite (leaf_page Tp _ va vb E), Hleaf, odd_pte, Hv. simpl.
      unfold shared. by rewrite Epa, PTE_FLAGS_pte.
    + intros vb Hvb. rewrite in_range_one, (ev_leaf _ _ _ _ _ _ _ _ Hy) by done.
      case_bool_decide as E; case_decide; try done.
      rewrite (leaf_page Tp _ va vb E), Hleaf, odd_pte, Hv. simpl. unfold shared. by rewrite Epa, PTE_FLAGS_pte.
    + intros p. rewrite (ev_managed _ _ _ _ _ _ _ _ Hy), (ev_managed _ _ _ _ _ _ _ _ Hx). done.
    + intros p Hp Hpf. rewrite (ev_ref _ _ _ _ _ _ _ _ Hy), (ev_ref _ _ _ _ _ _ _ _ Hx).
      * cbn [mapped_to]. rewrite Hleaf, odd_pte, Hv, Epa. unfold s1. rewrite page_ref_counted by done.
        case_decide; destruct (Z.eqb_spec pa p); subst; simpl; congruence || lia.
      * done.
      * done.
      * by apply (ev_managed _ _ _ _ _ _ _ _ Hx).
      * destruct (ev_free _ _ _ _ _ _ _ _ Hx) as [used E]. rewrite E in Hpf. set_solver.
    + intros x Hxf Hxc Hxp. rewrite (ev_mem _ _ _ _ _ _ _ _ Hy), (ev_mem _ _ _ _ _ _ _ _ Hx); [done|done|done| |done].
      destruct (ev_free _ _ _ _ _ _ _ _ Hx) as [used E]. rewrite E in Hxf. set_solver.
Qed.

End Page.

(** A page the parent does not have. *)
Lemma fork_page_skip cpt ppt Tc Tp fl s va : spaces cpt ppt Tc Tp fl s -> 0 <= va < MAXVA ->
  Z.odd (leaf Tp (mem s) va) = false ->
  fork_heap_page cpt ppt va s = Ok tt s /\ forked cpt ppt va 1 Tc Tp fl s Tc fl s.
Proof.
  intros Hsp Hva Hodd. pose proof Hsp as [W C P A]. pose proof (wf_bounds _ _ W) as Hb. split.
  - unfold fork_heap_page, bind at 1. rewrite (page_walk_run ppt Tp s Hb P va Hva).
    destruct (Tp !! walk_path va) as [a|] eqn:Ha; [|done].
    destruct (managed_range s Hb a (proj1 (vs_owned _ _ _ P _ _ Ha))) as (? & _).
    pose proof (PX_range 0 va ltac:(lia)). rewrite (proj2 (Z.eqb_neq _ 0)) by (layout; lia).
    unfold bind at 1. by rewrite (read_leaf ppt Tp s Hb P va a Ha), has_V, Hodd.
  - constructor; try done.
    + by exists [].
    + by left.
    + intros vb _. rewrite in_range_one. case_bool_decide as E; [|done].
      by rewrite (leaf_page Tp _ va vb E), Hodd.
    + intros vb _. rewrite in_range_one. case_bool_decide as E; [|done].
      by rewrite (leaf_page Tp _ va vb E), Hodd.
    + intros p _ _. cbn [mapped_to]. rewrite Hodd. simpl. lia.
Qed.

Lemma mapped_to_ext L L' n p : forall va,
  (forall k, 0 <= k < Z.of_nat n -> L (va + k * PGSIZE) = L' (va + k * PGSIZE)) ->
  mapped_to L n va p = mapped_to L' n va p.
Proof.
  induction n as [|n IH]; intros va H; [done|]. cbn [mapped_to].
  pose proof (H 0 ltac:(lia)) as H0. rewrite Z.mul_0_l, Z.add_0_r in H0. rewrite H0. f_equal.
  apply IH. intros k Hk. replace (va + PGSIZE + k * PGSIZE) with (va + (k + 1) * PGSIZE) by lia. apply H. lia.
Qed.

Lemma mapped_to_nonneg L n p : forall va, 0 <= mapped_to L n va p.
Proof.
  induction n as [|n IH]; intros va; [done|]. cbn [mapped_to]. specialize (IH (va + PGSIZE)).
  destruct (_ && _); lia.
Qed.

Lemma forked_step cpt ppt va n Tc Tp fl s T1 fl1 s1 T2 fl2 s2 : 0 <= va ->
  va + Z.of_nat (S n) * PGSIZE <= MAXVA ->
  forked cpt ppt va 1 Tc Tp fl s T1 fl1 s1 -> forked cpt ppt (va + PGSIZE) n T1 Tp fl1 s1 T2 fl2 s2 ->
  forked cpt ppt va (S n) Tc Tp fl s T2 fl2 s2.
Proof.
  intros Hva Hmax [P1 [u1 F1] N1 S1 C1 A1 G1 R1 M1] [P2 [u2 F2] N2 S2 C2 A2 G2 R2 M2].
  assert (forall vb, 0 <= vb < MAXVA -> in_range va 1 vb = false ->
    leaf T1 (mem s1) vb = leaf Tc (mem s) vb /\ leaf Tp (mem s1) vb = leaf Tp (mem s) vb) as Hout.
  { intros vb Hvb E. by rewrite C1, A1, E by done. }
  constructor.
  - done.
  - exists (u1 ++ u2). by rewrite F1, F2, app_assoc.
  - intros p a [[?|?]%N1|Ha]%N2; [by left|by right|right]. set_solver.
  - by etrans.
  - intros vb Hvb. rewrite C2, in_range_S by done. destruct (in_range va 1 vb) eqn:E.
    + rewrite (in_range_head va n vb E). simpl. rewrite C1, E by done. done.
    + destruct (Hout vb Hvb E) as [-> ->]. done.
  - intros vb Hvb. rewrite A2, in_range_S by done. destruct (in_range va 1 vb) eqn:E.
    + rewrite (in_range_head va n vb E). simpl. rewrite A1, E by done. done.
    + destruct (Hout vb Hvb E) as [_ ->]. done.
  - intros p. by rewrite G2, G1.
  - intros p Hp Hpf. rewrite R2, R1; [|done|done|by apply G1|set_solver]. cbn [mapped_to].
    rewrite (mapped_to_ext (leaf Tp (mem s1)) (leaf Tp (mem s))); [lia|].
    intros k Hk. apply Hout; [unfold PGSIZE in *; lia|]. rewrite in_range_one. apply bool_decide_eq_false.
    replace (va + PGSIZE + k * PGSIZE) with (va + (k + 1) * PGSIZE) by lia. rewrite page_step. lia.
  - intros x Hx Hxc Hxp. rewrite M2, M1; [done|done|done|done|set_solver| |done].
    intros p Hp. destruct (N1 _ _ Hp) as [Hp'|Hin]; [by eapply Hxc|done].
Qed.

(** ** The loop *)

Lemma loop_tables_skip T va n : loop_tables T (va + PGSIZE) n <= loop_tables T va (S n).
Proof.
  pose proof (loop_tables_step T (<[walk_path va := 0]> T) va n) as H.
  rewrite lookup_insert_eq in H. specialize (H ltac:(by eexists)).
  etrans; [|exact H]. unfold loop_tables. destruct n as [|n]; [destruct (T !! walk_path va); lia|].
  unfold tables_for. rewrite lookup_insert. case_decide as E.
  - rewrite E. destruct (T !! _); lia.
  - destruct (T !! walk_path (va + PGSIZE)), (T !! walk_path va); lia.
Qed.

Section Loop.
  Context (cpt ppt top : Z).

Let body : Z -> M pmm (Z + unit) := fun b =>
  if b <? top then
    fork_heap_page cpt ppt b ;;;
    ret (inl (u64 (b + PGSIZE)))
  else ret (inr tt).

(** What the loop needs for the [n] pages from [va] on. *)
Record fork_pre (Tc Tp : gmap (list Z) Z) (fl : list Z) (s : pmm) (va : Z) (n : nat) : Prop := {
  fp_spaces : spaces cpt ppt Tc Tp fl s;
  fp_pages : forall k, 0 <= k < Z.of_nat n -> Z.odd (leaf Tp (mem s) (va + k * PGSIZE)) = true ->
    exists pa f, leaf Tp (mem s) (va + k * PGSIZE) = pte pa f /\ frame_ok Tc Tp s pa f /\
      page_ref s pa + mapped_to (leaf Tp (mem s)) n va pa < 2 ^ 31;
  fp_child : forall k, 0 <= k < Z.of_nat n -> Z.odd (leaf Tc (mem s) (va + k * PGSIZE)) = false;
  fp_tables : loop_tables Tc va n <= Z.of_nat (length fl)
}.

Lemma fork_pre_step Tc Tp fl s va n T1 fl1 s1 : 0 <= va -> va + Z.of_nat (S n) * PGSIZE <= MAXVA ->
  fork_pre Tc Tp fl s va (S n) -> forked cpt ppt va 1 Tc Tp fl s T1 fl1 s1 ->
  loop_tables T1 (va + PGSIZE) n <= Z.of_nat (length fl1) ->
  fork_pre T1 Tp fl1 s1 (va + PGSIZE) n.
Proof.
  intros Hva Hmax [Sp Pg Ch _] [P1 [u1 F1] N1 S1 C1 A1 G1 R1 M1] Htab.
  assert (forall k, 0 <= k < Z.of_nat n -> let vb := va + PGSIZE + k * PGSIZE in
    leaf T1 (mem s1) vb = leaf Tc (mem s) (va + (k + 1) * PGSIZE) /\
    leaf Tp (mem s1) vb = leaf Tp (mem s) (va + (k + 1) * PGSIZE)) as Hout.
  { intros k Hk vb. subst vb. replace (va + PGSIZE + k * PGSIZE) with (va + (k + 1) * PGSIZE) by lia.
    rewrite C1, A1 by (unfold PGSIZE in *; lia).
    assert (in_range va 1 (va + (k + 1) * PGSIZE) = false) as ->; [|done].
    rewrite in_range_one. apply bool_decide_eq_false. rewrite page_step. lia. }
  assert (forall p, owned s p -> p ∉ fl) as Hnf by (intros p; by apply owned_not_free, Sp).
  constructor; [done| | |done].
  - intros k Hk. destruct (Hout k Hk) as [_ E]. rewrite E. intros Ho.
    destruct (Pg (k + 1) ltac:(lia) Ho) as (pa & f & El & [Hf Hw Hc Hp] & Hct). exists pa, f. split; [done|].
    pose proof (mapped_to_nonneg (leaf Tp (mem s)) 1 pa va). destruct Hw as [Hm Hr].
    assert (pa ∉ fl) as Hpf by (by apply Hnf).
    split; [constructor; [done| | |done]|].
    + split; [by apply G1|]. rewrite R1 by done. lia.
    + intros p Hin. destruct (N1 _ _ Hin) as [?|?]; [by eapply Hc|done].
    + rewrite R1 by done. rewrite (mapped_to_ext (leaf Tp (mem s1)) (leaf Tp (mem s))).
      * cbn [mapped_to] in *. lia.
      * intros j Hj. destruct (Hout j Hj) as [_ ->]. f_equal. lia.
  - intros k Hk. destruct (Hout k Hk) as [-> _]. apply Ch. lia.
Qed.

Lemma fork_loop n : forall fuel Tc Tp fl s va, (n < fuel)%nat ->
  0 <= va -> va mod PGSIZE = 0 -> top = va + Z.of_nat n * PGSIZE -> top <= MAXVA ->
  fork_pre Tc Tp fl s va n ->
  exists Tc' fl' s', loop fuel body va s = Ok tt s' /\ forked cpt ppt va n Tc Tp fl s Tc' fl' s'.
Proof.
  induction n as [|n IH]; intros [|fuel] Tc Tp fl s va Hfu Hva Hal Htop Hmax Hpre; try lia; cbn [loop].
  - change (Z.of_nat 0) with 0 in Htop. exists Tc, fl, s. unfold bind, body. rewrite (proj2 (Z.ltb_ge va top)) by lia.
    split; [done|]. destruct Hpre as [Sp _ _ _]. constructor; try done; try (by exists []); try (by left).
    + intros vb _. by rewrite in_range_0.
    + intros vb _. by rewrite in_range_0.
    + intros p _ _. simpl. lia.
  - rewrite Nat2Z.inj_succ in Htop. unfold Z.succ in Htop.
    assert (va + Z.of_nat (S n) * PGSIZE <= MAXVA) as Hmx by (unfold PGSIZE in *; lia).
    pose proof Hpre as [Sp Pg Ch Tb].
    assert (exists T1 fl1 s1, fork_heap_page cpt ppt va s = Ok tt s1 /\
      forked cpt ppt va 1 Tc Tp fl s T1 fl1 s1 /\
      loop_tables T1 (va + PGSIZE) n <= Z.of_nat (length fl1)) as (T1 & fl1 & s1 & Hr & Hx & Hl).
    { specialize (Pg 0 ltac:(lia)). specialize (Ch 0 ltac:(lia)).
      rewrite Z.mul_0_l, Z.add_0_r in Pg, Ch. destruct (Z.odd (leaf Tp (mem s) va)) eqn:Ho.
      - destruct (Pg eq_refl) as (pa & f & El & Hf & Hct). rewrite El, odd_pte in Ho.
        cbn [mapped_to] in Hct. pose proof (mapped_to_nonneg (leaf Tp (mem s)) n pa (va + PGSIZE)).
        assert (PTE2PA (pte pa f) = pa) as Epa.
        { destruct Hf as [Hfl [Hm _] _ _]. apply (PTE2PA_page s); [apply (wf_bounds fl), Sp|done|done]. }
        rewrite El, odd_pte, Ho, Epa, Z.eqb_refl in Hct. cbn [andb] in Hct.
        pose proof (loop_tables_step Tc (<[walk_path va := 0]> Tc) va n) as Hts0.
        rewrite lookup_insert_eq in Hts0. specialize (Hts0 ltac:(by eexists)).
        pose proof (loop_tables_nonneg (<[walk_path va := 0]> Tc) (va + PGSIZE) n).
        destruct (fork_page_run cpt ppt Tc Tp fl s va pa f) as (T1 & fl1 & s1 & Hr & Hx & Hs & Hl);
          [done|done|done|unfold PGSIZE in *; lia|done|done|done|lia|done|lia|].
        exists T1, fl1, s1. split_and!; [done|done|]. pose proof (loop_tables_step Tc T1 va n Hs). lia.
      - destruct (fork_page_skip cpt ppt Tc Tp fl s va Sp) as [Hr Hx];
          [unfold PGSIZE in *; lia|done|]. exists Tc, fl, s. split_and!; [done|done|].
        pose proof (loop_tables_skip Tc va n). lia. }
    destruct (IH fuel T1 Tp fl1 s1 (va + PGSIZE)) as (T2 & fl2 & s2 & Hr2 & Hx2);
      [lia|unfold PGSIZE in *; lia|unfold PGSIZE in *; dlia|unfold PGSIZE in *; lia|done
      |by eapply fork_pre_step|].
    exists T2, fl2, s2. split; [|by eapply forked_step].
    unfold bind at 1, body at 1. rewrite (proj2 (Z.ltb_lt _ _)) by (unfold PGSIZE in *; lia).
    unfold bind at 1. rewrite Hr. unfold ret. rewrite u64_small; [done|].
    rewrite MAXVA_eq in Hmax. unfold PGSIZE in *. lia.
Qed.

End Loop.

(** ** Properties *)

Lemma mapped_to_pos L n p : forall va k, 0 <= k < Z.of_nat n ->
  Z.odd (L (va + k * PGSIZE)) = true -> PTE2PA (L (va + k * PGSIZE)) = p -> 0 < mapped_to L n va p.
Proof.
  induction n as [|n IH]; intros va k Hk Ho Hp; [lia|]. cbn [mapped_to].
  pose proof (mapped_to_nonneg L n p (va + PGSIZE)).
  destruct (decide (k = 0)) as [->|Hne].
  - rewrite Z.mul_0_l, Z.add_0_r in *. rewrite Ho, Hp, Z.eqb_refl. cbn [andb]. lia.
  - specialize (IH (va + PGSIZE) (k - 1)).
    replace (va + PGSIZE + (k - 1) * PGSIZE) with (va + k * PGSIZE) in IH by lia.
    destruct (_ && _); specialize (IH ltac:(lia) Ho Hp); lia.
Qed.

(** The page of the range that an address lies in. *)
Lemma range_page va n vb : va mod PGSIZE = 0 -> va <= vb < va + Z.of_nat n * PGSIZE ->
  exists k, 0 <= k < Z.of_nat n /\ vb / PGSIZE = (va + k * PGSIZE) / PGSIZE /\ in_range va n vb = true.
Proof.
  intros Hal Hvb. exists (vb / PGSIZE - va / PGSIZE). rewrite page_step. unfold in_range, PGSIZE in *.
  assert (va / 4096 <= vb / 4096 < va / 4096 + Z.of_nat n) by dlia. split; [lia|]. split; [lia|].
  revert H. generalize (Z.of_nat n) as z. intros. lia.
Qed.

(** An address of the heap that the parent has mapped: its entries and its bytes
    after the fork. *)
Lemma forked_page cpt ppt Tc Tp fl s Tc' fl' s' va n vb :
  fork_pre cpt ppt Tc Tp fl s va n -> forked cpt ppt va n Tc Tp fl s Tc' fl' s' ->
  0 <= va -> va mod PGSIZE = 0 -> va + Z.of_nat n * PGSIZE <= MAXVA -> va <= vb < va + Z.of_nat n * PGSIZE ->
  Z.odd (leaf Tp (mem s) vb) = true ->
  exists pa f, leaf Tp (mem s) vb = pte pa f /\ frame_ok Tc Tp s pa f /\ frame_ok Tc' Tp s' pa (fork_flags f) /\
    leaf Tc' (mem s') vb = pte pa (fork_flags f) /\ leaf Tp (mem s') vb = pte pa (fork_flags f) /\
    page_ref s' pa = page_ref s pa + mapped_to (leaf Tp (mem s)) n va pa /\ 1 < page_ref s' pa /\
    forall i, 0 <= i < PGSIZE -> load8 (mem s') (pa + i) = load8 (mem s) (pa + i).
Proof.
  intros [Sp Pg Ch Tb] [P1 F1 N1 S1 C1 A1 G1 R1 M1] Hva Hal Hmax Hvb Ho.
  destruct (range_page va n vb Hal Hvb) as (k & Hk & Ek & Hin).
  rewrite (leaf_page Tp _ _ _ Ek) in Ho.
  destruct (Pg k Hk Ho) as (pa & f & El & [Hf Hw Hc Hp] & Hct). pose proof Hw as [Hm Hr].
  assert (pa ∉ fl) as Hpf by (by apply (owned_not_free fl s), Hw; apply Sp).
  assert (PTE2PA (pte pa f) = pa) as Epa by (apply (PTE2PA_page s); [apply (wf_bounds fl), Sp|done|done]).
  assert (0 < mapped_to (leaf Tp (mem s)) n va pa) as Hpos.
  { apply (mapped_to_pos _ n pa va k Hk Ho). by rewrite El. }
  assert (shared (leaf Tp (mem s) vb) = pte pa (fork_flags f)) as Esh.
  { rewrite (leaf_page Tp _ _ _ Ek), El. unfold shared. by rewrite Epa, PTE_FLAGS_pte. }
  assert (0 <= vb < MAXVA) as Hvr by lia.
  exists pa, f. rewrite <- Esh, C1, A1 by done. rewrite Hin, (leaf_page Tp _ _ _ Ek), Ho. cbn [andb].
  split_and!; [done|by constructor| |done|done|by apply R1|rewrite R1 by done; lia|].
  - constructor; [by apply fork_flags_range| | |done].
    + split; [by apply G1|]. rewrite R1 by done. lia.
    + intros p Hin'. destruct (N1 _ _ Hin') as [?|?]; [by eapply Hc|done].
  - intros i Hi. apply M1; unfold no_table.
    all: replace (page_of (pa + i)) with pa; try done.
    all: destruct Hm as [Hm _]; unfold page_of, PGSIZE in *; dlia.
Qed.

Lemma out_of_range va n vb : va mod PGSIZE = 0 -> ~ va <= vb < va + Z.of_nat n * PGSIZE ->
  in_range va n vb = false.
Proof.
  intros Hal Hvb. unfold in_range, PGSIZE in *.
  assert (vb / 4096 < va / 4096 \/ va / 4096 + Z.of_nat n <= vb / 4096) as H by dlia.
  revert H. generalize (Z.of_nat n) as z. intros. lia.
Qed.

(** A write of one of two processes that share the frame [pa]. *)
Lemma forked_write cpt ppt Tc Tp fl s vb pa f q rest :
  spaces cpt ppt Tc Tp fl s -> 0 <= vb < MAXVA -> frame_ok Tc Tp s pa f ->
  has f PTE_V = true -> has f PTE_COW = true ->
  leaf Tc (mem s) vb = pte pa f -> leaf Tp (mem s) vb = pte pa f -> 1 < page_ref s pa ->
  fl = q :: rest ->
  exists s', resolve_cow cpt vb s = Ok true s' /\ q <> pa /\
    leaf Tc (mem s') vb = pte q (cow_flags f) /\ leaf Tp (mem s') vb = pte pa f /\
    forall i, 0 <= i < PGSIZE -> load8 (mem s') (q + i) = load8 (mem s) (pa + i) /\
      load8 (mem s') (pa + i) = load8 (mem s) (pa + i).
Proof.
  intros [W C P A] Hvb [Hfl Ho Hnc Hnp] HV HC Ec Ep Hr E.
  pose proof (cow_flags_range f Hfl) as Hcf.
  destruct (cow_shared_state cpt Tc fl s vb pa f W C Hvb Hfl HV Ec Ho q rest (cow_flags f) E Hr Hcf)
    as (_ & _ & HL & _ & _ & Href & Hcopy & Hmem).
  assert (q ∈ fl) as Hq by (rewrite E; by left).
  assert (q <> pa) as Hne by (intros ->; by apply (owned_not_free fl s pa)).
  eexists. split; [by eapply (cow_shared cpt Tc fl s vb pa f)|]. split; [done|].
  split; [rewrite HL by done; by rewrite decide_True|]. split.
  - destruct (vspace_frame ppt Tp s (leaf_set Tc vb (pte q (cow_flags f)) (unshared s pa q)) P) as [_ HP].
    + intros path a x Ha Hx. apply Hmem; rewrite Hx.
      * intros ->. by apply (owned_not_free fl s q W), Hq; eapply vs_owned.
      * intros p Hp. by eapply A.
    + intros path a Ha. pose proof (vs_owned _ _ _ P _ _ Ha) as Hoa. pose proof Hoa as [Hma Hra].
      destruct (cow_path Tc s vb pa f HV Ec) as [b Hb].
      split; [by apply (leaf_set_managed Tc _ vb _ b)|]. rewrite Href; [done|done|intros ->; by eapply Hnp|].
      intros ->. by apply (owned_not_free fl s q W Hoa).
    + by rewrite HP.
  - intros i Hi. split; [by apply Hcopy|]. apply Hmem.
    all: replace (page_of (pa + i)) with pa; try done.
    all: destruct Ho as [[Hm _] _]; unfold page_of, PGSIZE in *; dlia.
Qed.

(** C5: fork shares the heap copy-on-write.  [fork_heap_pages] over the heap of the
    parent returns, and every heap address the parent has mapped is then mapped by
    both processes to the parent's frame, read-only and marked copy-on-write, with one
    more reference for each such page and the same 4096 bytes; entries outside the
    heap do not change.  A later store fault of the child (with a free page) gives the
    child a page of its own with the bytes of the moment of the fork, while the entry
    and the bytes of the parent stay as they were. *)
Theorem fork_shares_heap cpt ppt Tc Tp fl s bottom n :
  let top := bottom + Z.of_nat n * PGSIZE in
  fork_pre cpt ppt Tc Tp fl s bottom n -> 0 <= bottom -> bottom mod PGSIZE = 0 -> top <= MAXVA ->
  exists Tc' fl' s', fork_heap_pages cpt ppt bottom top s = Ok tt s' /\
    spaces cpt ppt Tc' Tp fl' s' /\
    (forall vb, 0 <= vb < MAXVA -> ~ bottom <= vb < top ->
       leaf Tc' (mem s') vb = leaf Tc (mem s) vb /\ leaf Tp (mem s') vb = leaf Tp (mem s) vb) /\
    (forall vb, bottom <= vb < top -> Z.odd (leaf Tp (mem s) vb) = true -> exists pa f,
       leaf Tp (mem s) vb = pte pa f /\
       leaf Tc' (mem s') vb = pte pa (fork_flags f) /\ leaf Tp (mem s') vb = pte pa (fork_flags f) /\
       has (fork_flags f) PTE_W = false /\ has (fork_flags f) PTE_COW = true /\
       page_ref s' pa = page_ref s pa + mapped_to (leaf Tp (mem s)) n bottom pa /\
       (forall i, 0 <= i < PGSIZE -> load8 (mem s') (pa + i) = load8 (mem s) (pa + i)) /\
       (forall q rest, fl' = q :: rest -> exists s'', resolve_cow cpt vb s' = Ok true s'' /\ q <> pa /\
          leaf Tc' (mem s'') vb = pte q (cow_flags (fork_flags f)) /\
          leaf Tp (mem s'') vb = pte pa (fork_flags f) /\
          forall i, 0 <= i < PGSIZE -> load8 (mem s'') (q + i) = load8 (mem s) (pa + i) /\
            load8 (mem s'') (pa + i) = load8 (mem s) (pa + i))).
Proof.
  intros top Hpre Hb Hal Hmax.
  destruct (fork_loop cpt ppt top n (rounds bottom top) Tc Tp fl s bottom) as (Tc' & fl' & s' & Hr & Hx); try done.
  { unfold rounds. replace (top - bottom) with (Z.of_nat n * PGSIZE) by lia. rewrite Z.div_mul by done. lia. }
  exists Tc', fl', s'. split; [exact Hr|]. pose proof (fk_spaces _ _ _ _ _ _ _ _ _ _ _ Hx) as Hsp.
  split; [done|]. split.
  - intros vb Hvb Hout. rewrite (fk_child _ _ _ _ _ _ _ _ _ _ _ Hx), (fk_parent _ _ _ _ _ _ _ _ _ _ _ Hx) by done.
    assert (in_range bottom n vb = false) as ->; [|done]. by apply out_of_range.
  - intros vb Hvb Ho.
    destruct (forked_page cpt ppt Tc Tp fl s Tc' fl' s' bottom n vb) as
      (pa & f & El & Hf & Hf' & Ec & Ep & Er & Hr1 & Hby); try done.
    exists pa, f. destruct Hf as [Hfl _ _ _]. destruct (fork_flags_bits f Hfl) as (HV & HW & HC).
    split_and!; [done..|]. intros q rest E.
    apply (forked_write cpt ppt Tc' Tp fl' s' vb pa (fork_flags f) q rest) in E as (s'' & E1 & E2 & E3 & E4 & E5);
      try done; [|lia].
    exists s''. split_and!; try done. intros i Hi. destruct (E5 i Hi) as [-> ->]. rewrite Hby by done. done.
Qed.

(** A parent with one heap page and a child with an empty table. *)
Lemma two_spaces : exists cpt Tc Tp fl s,
  fork_pre cpt 0x80007000 Tc Tp fl s 0x400000 1 /\ page_ref s 0x80006000 = 1 /\
  leaf Tp (mem s) 0x400000 = pte 0x80006000 0xD7.
Proof.
  destruct (mapped_space_with 0xD6) as (T & fl & s & W & V & L & [Hm Hr] & Hnt & Hlen); [lia|].
  destruct fl as [|q fl]; [simpl in Hlen; lia|]. cbn [length] in Hlen.
  destruct (zeroed_vspace fl s q W) as [C LC]. pose proof (zeroed_wf fl s q W) as W'.
  pose proof (wf_bounds _ _ W) as Hb.
  destruct (wf_head_managed _ _ W q fl eq_refl) as [Hqm Hq0].
  assert (forall path, T !! path <> Some q) as Hqt.
  { intros path Hp. pose proof (vs_owned _ _ _ V _ _ Hp) as [_ ?]. lia. }
  assert (forall b, managed s b -> b <> q -> page_ref (zeroed q s) b = page_ref s b) as Href.
  { intros b Hmb Hne. change (page_ref (zeroed q s) b) with (page_ref (page_taken q s) b).
    rewrite page_ref_taken by done. case_decide; congruence. }
  destruct (vspace_frame 0x80007000 T s (zeroed q s) V) as [P LP].
  { intros path a x Ha Hx. unfold zeroed. simpl mem. rewrite load8_fill. case_decide; [|done]. exfalso.
    apply (Hqt path). rewrite Ha, <- Hx. f_equal. destruct Hqm as [? _]. unfold page_of, PGSIZE in *. dlia. }
  { intros path a Ha. pose proof (vs_owned _ _ _ V _ _ Ha) as [Hma Hra]. split; [done|].
    rewrite Href; [done|done|]. intros ->. by eapply Hqt. }
  assert (0x80006000 <> q) as Hne by (intros E; rewrite <- E in Hq0; lia).
  exists q, {[[] := q]}, T, fl, (zeroed q s).
  assert (page_ref (zeroed q s) 0x80006000 = 1) as Hr' by (by rewrite Href).
  assert (leaf T (mem (zeroed q s)) 0x400000 = pte 0x80006000 0xD7) as L' by (by rewrite LP).
  split; [|done]. constructor.
  - constructor; [done|done|done|]. intros p1 p2 a [_ <-]%lookup_singleton_Some. apply Hqt.
  - intros k Hk _. assert (k = 0) as -> by lia. exists 0x80006000, 0xD7. split; [exact L'|]. split.
    + constructor; [lia|split; [exact Hm|lia]| |exact Hnt].
      intros p Hp. apply lookup_singleton_Some in Hp as [_ Hp]. congruence.
    + change (mapped_to (leaf T (mem (zeroed q s))) 1 0x400000 0x80006000) with
        ((if Z.odd (leaf T (mem (zeroed q s)) 0x400000) &&
          (PTE2PA (leaf T (mem (zeroed q s)) 0x400000) =? 0x80006000) then 1 else 0) + 0).
      rewrite L', Hr'. vm_compute. done.
  - intros k _. by rewrite LC.
  - unfold loop_tables, tables_for. rewrite lookup_singleton_ne by done.
    change (2 * crossings 0x400000 (Z.of_nat 1) + 2) with 2. lia.
Qed.

Lemma fork_shares_heap_witness : exists cpt s s' Tc' Tp pa f,
  fork_heap_pages cpt 0x80007000 0x400000 0x401000 s = Ok tt s' /\ page_ref s 0x80006000 = 1 /\
  pte pa f = pte 0x80006000 0xD7 /\ leaf Tp (mem s) 0x400123 = pte pa f /\
  leaf Tc' (mem s') 0x400123 = pte pa (fork_flags f) /\ leaf Tp (mem s') 0x400123 = pte pa (fork_flags f).
Proof.
  destruct two_spaces as (cpt & Tc & Tp & fl & s & Hpre & Hr & Hl).
  destruct (fork_shares_heap cpt 0x80007000 Tc Tp fl s 0x400000 1 Hpre) as (Tc' & fl' & s' & Hrun & _ & _ & H);
    [lia|reflexivity|vm_compute; discriminate|].
  assert (leaf Tp (mem s) 0x400123 = pte 0x80006000 0xD7) as Hl2.
  { rewrite <- Hl. apply leaf_page. reflexivity. }
  destruct (H 0x400123) as (pa & f & E1 & E2 & E3 & _); [unfold PGSIZE; lia|by rewrite Hl2|].
  exists cpt, s, s', Tc', Tp, pa, f. split_and!; [exact Hrun|exact Hr|congruence|exact E1|exact E2|exact E3].
Defined.
