(* ===== verification/Fs.v ===== *)
(** * File system objects (kernel/vfs.h, kernel/rfs.h, kernel/ramdev.h)

    The structures of the virtual file system and of the RAM disk file system,
    and the state the file system code works on.  An object that the kernel puts
    on a page of its own (a [vinode], a [dentry], a [super_block], ...) is a
    record in a store keyed by the address of that page; the page itself is
    allocated from and returned to the physical page allocator of [Pmm]. *)

From S2P Require Import Prelude Mem Pmm StringLib HashTable Vmm Kernel.
From stdpp Require Import base gmap list fin_maps.
From Stdlib Require Import ZArith Lia Bool.

Set Default Goal Selector "!".
Open Scope Z_scope.

(** ** Constants *)

Definition RFS_TYPE : Z := 0.
Definition RFS_MAGIC : Z := 0xBEAF.
Definition RFS_BLKSIZE : Z := PGSIZE.
Definition RFS_INODESIZE : Z := 128.
Definition RFS_MAX_INODE_BLKNUM : Z := 10.
Definition DIRECT_BLKNUM : Z := 10.
Definition RFS_DIRECT_BLKNUM : Z := DIRECT_BLKNUM.
Definition RFS_BLK_OFFSET_SUPER : Z := 0.
Definition RFS_BLK_OFFSET_INODE : Z := 1.
Definition RFS_BLK_OFFSET_BITMAP : Z := 11.
Definition RFS_BLK_OFFSET_FREE : Z := 12.
Definition RAMDISK_BLOCK_COUNT : Z := 128.
Definition RAMDISK_BLOCK_SIZE : Z := PGSIZE.
Definition MAX_PATH_LEN : Z := 30.
Definition MAX_DENTRY_NAME_LEN : Z := 30.
Definition SIZEOF_DIRENTRY : Z := 32.
Definition SIZEOF_DINODE : Z := 56.

Definition FILE_I : Z := 0.
Definition DIR_I : Z := 1.
Definition R_FILE : Z := FILE_I.
Definition R_DIR : Z := DIR_I.
Definition R_FREE : Z := 2.
Definition LSEEK_SET : Z := 0.
Definition LSEEK_CUR : Z := 1.

(** A C string: the bytes before the terminating NUL. *)
Abbreviation name := (list Z).

(** ** Structures *)

(** [struct rfs_dinode], the disk inode. *)
Record rfs_dinode : Type := Dinode {
  di_size : Z;
  di_type : Z;
  di_nlinks : Z;
  di_blocks : Z;
  di_addrs : list Z
}.

Definition set_di_size (x : Z) (s : rfs_dinode) : rfs_dinode :=
  Dinode x (di_type s) (di_nlinks s) (di_blocks s) (di_addrs s).
Definition set_di_type (x : Z) (s : rfs_dinode) : rfs_dinode :=
  Dinode (di_size s) x (di_nlinks s) (di_blocks s) (di_addrs s).
Definition set_di_nlinks (x : Z) (s : rfs_dinode) : rfs_dinode :=
  Dinode (di_size s) (di_type s) x (di_blocks s) (di_addrs s).
Definition set_di_blocks (x : Z) (s : rfs_dinode) : rfs_dinode :=
  Dinode (di_size s) (di_type s) (di_nlinks s) x (di_addrs s).
Definition set_di_addrs (x : list Z) (s : rfs_dinode) : rfs_dinode :=
  Dinode (di_size s) (di_type s) (di_nlinks s) (di_blocks s) x.

(** [i_ops]: the table of the file system the inode belongs to. *)
Inductive fs_ops : Type := rfs_i_ops | hostfs_i_ops.

(** [struct vinode]; [v_fs_info] is the address of the directory cache or host
    file it points to, 0 for NULL. *)
Record vinode : Type := Vinode {
  inum : Z;
  ref : Z;
  v_size : Z;
  v_type : Z;
  nlinks : Z;
  blocks : Z;
  addrs : list Z;
  v_fs_info : Z;
  v_sb : Z;
  i_ops : fs_ops
}.

Definition set_inum (x : Z) (s : vinode) : vinode :=
  Vinode x (ref s) (v_size s) (v_type s) (nlinks s) (blocks s) (addrs s) (v_fs_info s) (v_sb s)
    (i_ops s).
Definition set_ref (x : Z) (s : vinode) : vinode :=
  Vinode (inum s) x (v_size s) (v_type s) (nlinks s) (blocks s) (addrs s) (v_fs_info s) (v_sb s)
    (i_ops s).
Definition set_v_size (x : Z) (s : vinode) : vinode :=
  Vinode (inum s) (ref s) x (v_type s) (nlinks s) (blocks s) (addrs s) (v_fs_info s) (v_sb s)
    (i_ops s).
Definition set_v_type (x : Z) (s : vinode) : vinode :=
  Vinode (inum s) (ref s) (v_size s) x (nlinks s) (blocks s) (addrs s) (v_fs_info s) (v_sb s)
    (i_ops s).
Definition set_nlinks (x : Z) (s : vinode) : vinode :=
  Vinode (inum s) (ref s) (v_size s) (v_type s) x (blocks s) (addrs s) (v_fs_info s) (v_sb s)
    (i_ops s).
Definition set_blocks (x : Z) (s : vinode) : vinode :=
  Vinode (inum s) (ref s) (v_size s) (v_type s) (nlinks s) x (addrs s) (v_fs_info s) (v_sb s)
    (i_ops s).
Definition set_addrs (x : list Z) (s : vinode) : vinode :=
  Vinode (inum s) (ref s) (v_size s) (v_type s) (nlinks s) (blocks s) x (v_fs_info s) (v_sb s)
    (i_ops s).
Definition set_v_fs_info (x : Z) (s : vinode) : vinode :=
  Vinode (inum s) (ref s) (v_size s) (v_type s) (nlinks s) (blocks s) (addrs s) x (v_sb s)
    (i_ops s).
Definition set_v_sb (x : Z) (s : vinode) : vinode :=
  Vinode (inum s) (ref s) (v_size s) (v_type s) (nlinks s) (blocks s) (addrs s) (v_fs_info s) x
    (i_ops s).
Definition set_i_ops (x : fs_ops) (s : vinode) : vinode :=
  Vinode (inum s) (ref s) (v_size s) (v_type s) (nlinks s) (blocks s) (addrs s) (v_fs_info s)
    (v_sb s) x.

(** [struct dentry]; NULL pointers are 0. *)
Record dentry : Type := Dentry {
  d_name : name;
  d_ref : Z;
  dentry_inode : Z;
  d_parent : Z
}.

Definition set_d_name (x : name) (s : dentry) : dentry :=
  Dentry x (d_ref s) (dentry_inode s) (d_parent s).
Definition set_d_ref (x : Z) (s : dentry) : dentry :=
  Dentry (d_name s) x (dentry_inode s) (d_parent s).
Definition set_dentry_inode (x : Z) (s : dentry) : dentry :=
  Dentry (d_name s) (d_ref s) x (d_parent s).
Definition set_d_parent (x : Z) (s : dentry) : dentry :=
  Dentry (d_name s) (d_ref s) (dentry_inode s) x.

(** [struct super_block]; for rfs, [s_fs_info] points to the bitmap, an array of
    [int], kept here as its contents. *)
Record super_block : Type := SuperBlock {
  magic : Z;
  sb_size : Z;
  nblocks : Z;
  ninodes : Z;
  s_root : Z;
  s_dev : Z;
  freemap : gmap Z Z
}.

Definition set_magic (x : Z) (s : super_block) : super_block :=
  SuperBlock x (sb_size s) (nblocks s) (ninodes s) (s_root s) (s_dev s) (freemap s).
Definition set_sb_size (x : Z) (s : super_block) : super_block :=
  SuperBlock (magic s) x (nblocks s) (ninodes s) (s_root s) (s_dev s) (freemap s).
Definition set_nblocks (x : Z) (s : super_block) : super_block :=
  SuperBlock (magic s) (sb_size s) x (ninodes s) (s_root s) (s_dev s) (freemap s).
Definition set_ninodes (x : Z) (s : super_block) : super_block :=
  SuperBlock (magic s) (sb_size s) (nblocks s) x (s_root s) (s_dev s) (freemap s).
Definition set_s_root (x : Z) (s : super_block) : super_block :=
  SuperBlock (magic s) (sb_size s) (nblocks s) (ninodes s) x (s_dev s) (freemap s).
Definition set_s_dev (x : Z) (s : super_block) : super_block :=
  SuperBlock (magic s) (sb_size s) (nblocks s) (ninodes s) (s_root s) x (freemap s).
Definition set_freemap (x : gmap Z Z) (s : super_block) : super_block :=
  SuperBlock (magic s) (sb_size s) (nblocks s) (ninodes s) (s_root s) (s_dev s) x.

(** [struct device]; [fs_type] is its [type_num]. *)
Record device : Type := Device {
  dev_name : name;
  dev_id : Z;
  fs_type : Z
}.

Definition set_dev_name (x : name) (s : device) : device :=
  Device x (dev_id s) (fs_type s).
Definition set_dev_id (x : Z) (s : device) : device :=
  Device (dev_name s) x (fs_type s).
Definition set_fs_type (x : Z) (s : device) : device :=
  Device (dev_name s) (dev_id s) x.

(** [struct rfs_device]: the contents of the RAM disk and of the I/O buffer, by
    offset from [d_address] and [iobuffer].  Both belong to the device alone. *)
Record rfs_device : Type := RfsDev {
  disk : bytes;
  iobuffer : bytes
}.

Definition set_disk (x : bytes) (s : rfs_device) : rfs_device :=
  RfsDev x (iobuffer s).
Definition set_iobuffer (x : bytes) (s : rfs_device) : rfs_device :=
  RfsDev (disk s) x.

(** [spike_file_t] (spike_interface/spike_file.h). *)
Record spike_file : Type := SpikeFile {
  kfd : Z;
  refcnt : Z
}.

Definition set_kfd (x : Z) (s : spike_file) : spike_file :=
  SpikeFile x (refcnt s).
Definition set_refcnt (x : Z) (s : spike_file) : spike_file :=
  SpikeFile (kfd s) x.

(** [struct rfs_dir_cache]: the directory's blocks read into consecutive pages
    from [dir_base_addr]. *)
Record rfs_dir_cache : Type := DirCache {
  block_count : Z;
  dir_base_addr : Z
}.

Definition set_block_count (x : Z) (s : rfs_dir_cache) : rfs_dir_cache :=
  DirCache x (dir_base_addr s).
Definition set_dir_base_addr (x : Z) (s : rfs_dir_cache) : rfs_dir_cache :=
  DirCache (block_count s) x.

(** ** Hash keys (kernel/vfs.c) *)

Record dentry_key : Type := DentryKey { dk_parent : Z; dk_name : name }.
Record vinode_key : Type := VinodeKey { vk_inum : Z; vk_sb : Z }.

#[export] Instance dentry_key_eq_dec : EqDecision dentry_key.
Proof. solve_decision. Defined.

Fixpoint djb2 (hash : Z) (l : name) : Z :=
  match l with
  | [] => hash
  | c :: l => djb2 (u64 (u64 (u64 (Z.shiftl hash 5) + hash) + c)) l
  end.

Definition dentry_hash_func (k : dentry_key) : Z :=
  let hash := djb2 5381 (dk_name k) in
  let hash := u64 (u64 (u64 (Z.shiftl hash 5) + hash) + dk_parent k) in
  hash mod HASH_TABLE_SIZE.

Definition dentry_hash_equal (k1 k2 : dentry_key) : bool :=
  bool_decide (dk_name k1 = dk_name k2) && (dk_parent k1 =? dk_parent k2).

Definition vinode_hash_func (k : vinode_key) : Z := u64 (Z.rem (vk_inum k) HASH_TABLE_SIZE).

Definition vinode_hash_equal (k1 k2 : vinode_key) : bool :=
  (vk_inum k1 =? vk_inum k2) && (vk_sb k1 =? vk_sb k2).

#[export] Instance dentry_hash_key : HashKey dentry_key.
Proof.
  refine {| hash_func := dentry_hash_func; hash_equal := dentry_hash_equal |}.
  intros [p1 n1] [p2 n2]. unfold dentry_hash_equal. simpl.
  rewrite andb_true_iff, bool_decide_eq_true, Z.eqb_eq. naive_solver.
Defined.

#[export] Instance vinode_hash_key : HashKey vinode_key.
Proof.
  refine {| hash_func := vinode_hash_func; hash_equal := vinode_hash_equal |}.
  intros [i1 s1] [i2 s2]. unfold vinode_hash_equal. simpl.
  rewrite andb_true_iff, !Z.eqb_eq. naive_solver.
Defined.

(** ** State *)

(** [host_pos] is the position of each descriptor of the host: only the host
    reads and writes it. *)
Record fs : Type := Fs {
  fs_kernel : kernel;
  rfs_device_list : gmap Z rfs_device;
  vinodes : gmap Z vinode;
  dentries : gmap Z dentry;
  super_blocks : gmap Z super_block;
  devices : gmap Z device;
  files : gmap Z file;
  dir_caches : gmap Z rfs_dir_cache;
  fs_list : gmap Z Z;
  vfs_dev_list : gmap Z Z;
  vfs_sb_list : gmap Z Z;
  dentry_hash_table : hash_table dentry_key;
  vinode_hash_table : hash_table vinode_key;
  spike_files : gmap Z spike_file;
  spike_fds : gmap Z Z;
  host_pos : gmap Z Z
}.

Definition set_fs_kernel (x : kernel) (s : fs) : fs :=
  Fs x (rfs_device_list s) (vinodes s) (dentries s) (super_blocks s) (devices s) (files s)
    (dir_caches s) (fs_list s) (vfs_dev_list s) (vfs_sb_list s) (dentry_hash_table s)
    (vinode_hash_table s) (spike_files s) (spike_fds s)
    (host_pos s).
Definition set_rfs_device_list (x : gmap Z rfs_device) (s : fs) : fs :=
  Fs (fs_kernel s) x (vinodes s) (dentries s) (super_blocks s) (devices s) (files s)
    (dir_caches s) (fs_list s) (vfs_dev_list s) (vfs_sb_list s) (dentry_hash_table s)
    (vinode_hash_table s) (spike_files s) (spike_fds s)
    (host_pos s).
Definition set_vinodes (x : gmap Z vinode) (s : fs) : fs :=
  Fs (fs_kernel s) (rfs_device_list s) x (dentries s) (super_blocks s) (devices s) (files s)
    (dir_caches s) (fs_list s) (vfs_dev_list s) (vfs_sb_list s) (dentry_hash_table s)
    (vinode_hash_table s) (spike_files s) (spike_fds s)
    (host_pos s).
Definition set_dentries (x : gmap Z dentry) (s : fs) : fs :=
  Fs (fs_kernel s) (rfs_device_list s) (vinodes s) x (super_blocks s) (devices s) (files s)
    (dir_caches s) (fs_list s) (vfs_dev_list s) (vfs_sb_list s) (dentry_hash_table s)
    (vinode_hash_table s) (spike_files s) (spike_fds s)
    (host_pos s).
Definition set_super_blocks (x : gmap Z super_block) (s : fs) : fs :=
  Fs (fs_kernel s) (rfs_device_list s) (vinodes s) (dentries s) x (devices s) (files s)
    (dir_caches s) (fs_list s) (vfs_dev_list s) (vfs_sb_list s) (dentry_hash_table s)
    (vinode_hash_table s) (spike_files s) (spike_fds s)
    (host_pos s).
Definition set_devices (x : gmap Z device) (s : fs) : fs :=
  Fs (fs_kernel s) (rfs_device_list s) (vinodes s) (dentries s) (super_blocks s) x (files s)
    (dir_caches s) (fs_list s) (vfs_dev_list s) (vfs_sb_list s) (dentry_hash_table s)
    (vinode_hash_table s) (spike_files s) (spike_fds s)
    (host_pos s).
Definition set_files (x : gmap Z file) (s : fs) : fs :=
  Fs (fs_kernel s) (rfs_device_list s) (vinodes s) (dentries s) (super_blocks s) (devices s) x
    (dir_caches s) (fs_list s) (vfs_dev_list s) (vfs_sb_list s) (dentry_hash_table s)
    (vinode_hash_table s) (spike_files s) (spike_fds s)
    (host_pos s).
Definition set_dir_caches (x : gmap Z rfs_dir_cache) (s : fs) : fs :=
  Fs (fs_kernel s) (rfs_device_list s) (vinodes s) (dentries s) (super_blocks s) (devices s)
    (files s) x (fs_list s) (vfs_dev_list s) (vfs_sb_list s) (dentry_hash_table s)
    (vinode_hash_table s) (spike_files s) (spike_fds s)
    (host_pos s).
Definition set_fs_list (x : gmap Z Z) (s : fs) : fs :=
  Fs (fs_kernel s) (rfs_device_list s) (vinodes s) (dentries s) (super_blocks s) (devices s)
    (files s) (dir_caches s) x (vfs_dev_list s) (vfs_sb_list s) (dentry_hash_table s)
    (vinode_hash_table s) (spike_files s) (spike_fds s)
    (host_pos s).
Definition set_vfs_dev_list (x : gmap Z Z) (s : fs) : fs :=
  Fs (fs_kernel s) (rfs_device_list s) (vinodes s) (dentries s) (super_blocks s) (devices s)
    (files s) (dir_caches s) (fs_list s) x (vfs_sb_list s) (dentry_hash_table s)
    (vinode_hash_table s) (spike_files s) (spike_fds s)
    (host_pos s).
Definition set_vfs_sb_list (x : gmap Z Z) (s : fs) : fs :=
  Fs (fs_kernel s) (rfs_device_list s) (vinodes s) (dentries s) (super_blocks s) (devices s)
    (files s) (dir_caches s) (fs_list s) (vfs_dev_list s) x (dentry_hash_table s)
    (vinode_hash_table s) (spike_files s) (spike_fds s)
    (host_pos s).
Definition set_dentry_hash_table (x : hash_table dentry_key) (s : fs) : fs :=
  Fs (fs_kernel s) (rfs_device_list s) (vinodes s) (dentries s) (super_blocks s) (devices s)
    (files s) (dir_caches s) (fs_list s) (vfs_dev_list s) (vfs_sb_list s) x
    (vinode_hash_table s) (spike_files s) (spike_fds s)
    (host_pos s).
Definition set_vinode_hash_table (x : hash_table vinode_key) (s : fs) : fs :=
  Fs (fs_kernel s) (rfs_device_list s) (vinodes s) (dentries s) (super_blocks s) (devices s)
    (files s) (dir_caches s) (fs_list s) (vfs_dev_list s) (vfs_sb_list s) (dentry_hash_table s)
    x (spike_files s) (spike_fds s)
    (host_pos s).
Definition set_spike_files (x : gmap Z spike_file) (s : fs) : fs :=
  Fs (fs_kernel s) (rfs_device_list s) (vinodes s) (dentries s) (super_blocks s) (devices s)
    (files s) (dir_caches s) (fs_list s) (vfs_dev_list s) (vfs_sb_list s) (dentry_hash_table s)
    (vinode_hash_table s) x (spike_fds s)
    (host_pos s).
Definition set_spike_fds (x : gmap Z Z) (s : fs) : fs :=
  Fs (fs_kernel s) (rfs_device_list s) (vinodes s) (dentries s) (super_blocks s) (devices s)
    (files s) (dir_caches s) (fs_list s) (vfs_dev_list s) (vfs_sb_list s) (dentry_hash_table s)
    (vinode_hash_table s) (spike_files s) x
    (host_pos s).
Definition set_host_pos (x : gmap Z Z) (s : fs) : fs :=
  Fs (fs_kernel s) (rfs_device_list s) (vinodes s) (dentries s) (super_blocks s) (devices s)
    (files s) (dir_caches s) (fs_list s) (vfs_dev_list s) (vfs_sb_list s) (dentry_hash_table s)
    (vinode_hash_table s) (spike_files s) (spike_fds s) x.

Definition fs_pmmL : lens fs pmm :=
  Lens (fun s => k_pmm (fs_kernel s))
    (fun p s => set_fs_kernel (lset pmmL p (fs_kernel s)) s).
Definition fs_mem (s : fs) : bytes := mem (k_pmm (fs_kernel s)).
Definition set_fs_mem (m : bytes) (s : fs) : fs :=
  lset fs_pmmL (set_mem m (lget fs_pmmL s)) s.

(** ** Accesses *)

Definition get_vinode (p : Z) : M fs vinode := let* t := gets vinodes in of_option (t !! p).
Definition upd_vinode (p : Z) (f : vinode -> vinode) : M fs unit :=
  let* v := get_vinode p in modify (fun s => set_vinodes (<[p := f v]> (vinodes s)) s).
Definition get_sb (p : Z) : M fs super_block := let* t := gets super_blocks in of_option (t !! p).
Definition upd_sb (p : Z) (f : super_block -> super_block) : M fs unit :=
  let* v := get_sb p in modify (fun s => set_super_blocks (<[p := f v]> (super_blocks s)) s).
Definition get_dentry (p : Z) : M fs dentry := let* t := gets dentries in of_option (t !! p).
Definition upd_dentry (p : Z) (f : dentry -> dentry) : M fs unit :=
  let* v := get_dentry p in modify (fun s => set_dentries (<[p := f v]> (dentries s)) s).
Definition get_rdev (i : Z) : M fs rfs_device :=
  let* t := gets rfs_device_list in of_option (t !! i).
Definition upd_rdev (i : Z) (f : rfs_device -> rfs_device) : M fs unit :=
  let* v := get_rdev i in
  modify (fun s => set_rfs_device_list (<[i := f v]> (rfs_device_list s)) s).

(** [rfs_device_list[v->sb->s_dev->dev_id]]: the index of the device of an inode. *)
Definition rdev_of (v : vinode) : M fs Z :=
  let* sb := get_sb (v_sb v) in
  let* ds := gets devices in
  let* d := of_option (ds !! s_dev sb) in
  ret (dev_id d).

(** [addrs[i]] in a structure with [DIRECT_BLKNUM] of them. *)
Definition get_addr (l : list Z) (i : Z) : M fs Z :=
  if (0 <=? i) && (i <? DIRECT_BLKNUM) then of_option (l !! Z.to_nat i) else fault.

(** [alloc_page] for an object: a NULL page is dereferenced at once. *)
Definition new_page : M fs Z :=
  let* p := zoom fs_pmmL alloc_page in
  if p =? 0 then fault else ret p.

#[export] Instance fs_pages : PageSource fs := {|
  page_alloc := zoom fs_pmmL alloc_page; page_release := fun p => zoom fs_pmmL (free_page p) |}.

Definition dentryT : lens fs (hash_table dentry_key) :=
  Lens dentry_hash_table set_dentry_hash_table.
Definition vinodeT : lens fs (hash_table vinode_key) :=
  Lens vinode_hash_table set_vinode_hash_table.

#[export] Instance dentryT_state : TableState dentryT.
Proof.
  constructor; [by constructor; intros; destruct s|..]; intros s n s' E;
    unfold page_alloc, page_release, fs_pages, zoom in E.
  - destruct (alloc_page _); naive_solver.
  - destruct (free_page _ _); naive_solver.
Qed.

#[export] Instance vinodeT_state : TableState vinodeT.
Proof.
  constructor; [by constructor; intros; destruct s|..]; intros s n s' E;
    unfold page_alloc, page_release, fs_pages, zoom in E.
  - destruct (alloc_page _); naive_solver.
  - destruct (free_page _ _); naive_solver.
Qed.

(** [memcpy] between two separate pieces of memory. *)
Fixpoint blit (n : nat) (src : bytes) (so : Z) (dst : bytes) (d : Z) : bytes :=
  match n with
  | O => dst
  | S n => blit n src (so + 1) (store8 dst d (load8 src so)) (d + 1)
  end.

Lemma load8_blit n : forall src so dst d b,
  load8 (blit n src so dst d) b =
  if decide (d <= b < d + Z.of_nat n) then load8 src (so + (b - d)) else load8 dst b.
Proof.
  induction n as [|n IH]; intros src so dst d b; simpl.
  { case_decide; [lia|done]. }
  rewrite IH, load8_store8.
  assert (u8 (load8 src so) = load8 src so) as Hu by (unfold u8; apply Z.mod_small, load8_range).
  repeat case_decide; subst; try lia; rewrite ?Hu; try done; f_equal; lia.
Qed.

(** [strcpy] out of and [strcmp] against a string that is not in memory. *)
Fixpoint put_string (m : bytes) (a : Z) (l : name) : bytes :=
  match l with
  | [] => store8 m a 0
  | c :: l => put_string (store8 m a c) (a + 1) l
  end.

(** [lim] ends the memory the string is in; reading on is a wild access. *)
Fixpoint string_eq (m : bytes) (lim a : Z) (l : name) : option bool :=
  if lim <=? a then None
  else match l with
       | [] => Some (load8 m a =? 0)
       | c :: l => if load8 m a =? c then string_eq m lim (a + 1) l else Some false
       end.

(** The string at [a], when its NUL comes within [fuel] bytes. *)
Fixpoint string_at (fuel : nat) (m : bytes) (a : Z) : option name :=
  match fuel with
  | O => None
  | S fuel =>
      if load8 m a =? 0 then Some []
      else (cons (load8 m a)) <$> string_at fuel m (a + 1)
  end.

(** ** Constructors (kernel/vfs.c) *)

(** Fields that the function does not set keep what the page held; [i_ops] is
    set by every caller. *)
Definition default_alloc_vinode (sb : Z) : M fs Z :=
  let* p := new_page in
  let* m := gets fs_mem in
  let v := Vinode 0 0 0 (s32 (load32 m (p + 12))) 0 0
    ((fun i => s32 (load32 m (p + 24 + 4 * i))) <$> seqZ 0 DIRECT_BLKNUM)
    (load64 m (p + 64)) sb rfs_i_ops in
  modify (fun s => set_vinodes (<[p := v]> (vinodes s)) s) ;;;
  ret p.

Definition free_vinode_page (p : Z) : M fs unit :=
  zoom fs_pmmL (free_page p) ;;;
  modify (fun s => set_vinodes (delete p (vinodes s)) s).

(** [strcpy] into the field [name] of [MAX_DENTRY_NAME_LEN] bytes. *)
Definition alloc_vfs_dentry (nm : name) (inode parent : Z) : M fs Z :=
  let* p := new_page in
  (if Z.of_nat (length nm) <? MAX_DENTRY_NAME_LEN then ret tt else fault) ;;;
  (if inode =? 0 then ret tt else upd_vinode inode (fun v => set_ref (s32 (ref v + 1)) v)) ;;;
  modify (fun s => set_dentries (<[p := Dentry nm 0 inode parent]> (dentries s)) s) ;;;
  ret p.

Definition free_vfs_dentry (p : Z) : M fs Z :=
  let* d := get_dentry p in
  if 0 <? d_ref d then ret (-1)
  else
    zoom fs_pmmL (free_page p) ;;;
    modify (fun s => set_dentries (delete p (dentries s)) s) ;;;
    ret 0.
