(* ===== verification/Rfs.v ===== *)
(** * The RAM disk and its file system (kernel/ramdev.c, kernel/rfs.c)

    Blocks are moved between the RAM disk and the device's I/O buffer; the
    superblock, the disk inodes and the directory entries are the bytes of those
    blocks.  A function that C gives a pointer to an [int] offset takes the offset
    and returns the new one. *)

From S2P Require Import Prelude Mem Pmm StringLib HashTable Vmm Kernel Fs.
From stdpp Require Import base gmap list fin_maps.
From Stdlib Require Import ZArith Lia Bool.

Set Default Goal Selector "!".
Open Scope Z_scope.

(** ** Blocks *)

Definition block_bytes : nat := Z.to_nat RAMDISK_BLOCK_SIZE.

Definition ramdisk_write (d blkno : Z) : M fs Z :=
  if (blkno <? 0) || (RAMDISK_BLOCK_COUNT <=? blkno) then panic
  else
    upd_rdev d (fun r =>
      set_disk (blit block_bytes (iobuffer r) 0 (disk r) (blkno * RAMDISK_BLOCK_SIZE)) r) ;;;
    ret 0.

Definition ramdisk_read (d blkno : Z) : M fs Z :=
  if (blkno <? 0) || (RAMDISK_BLOCK_COUNT <=? blkno) then panic
  else
    upd_rdev d (fun r =>
      set_iobuffer (blit block_bytes (disk r) (blkno * RAMDISK_BLOCK_SIZE) (iobuffer r) 0) r) ;;;
    ret 0.

Definition rfs_r1block (d n_block : Z) : M fs Z := ramdisk_read d n_block.
Definition rfs_w1block (d n_block : Z) : M fs Z := ramdisk_write d n_block.

(** ** Disk inodes *)

Definition load_int (m : bytes) (a : Z) : Z := s32 (load32 m a).

Fixpoint store_ints (m : bytes) (a : Z) (l : list Z) : bytes :=
  match l with
  | [] => m
  | x :: l => store_ints (store32 m a x) (a + 4) l
  end.

Definition dinode_ints (di : rfs_dinode) : list Z :=
  [di_size di; di_type di; di_nlinks di; di_blocks di] ++ di_addrs di.

Definition put_dinode (m : bytes) (a : Z) (di : rfs_dinode) : bytes :=
  store_ints m a (dinode_ints di).

Definition get_dinode (m : bytes) (a : Z) : rfs_dinode :=
  Dinode (load_int m a) (load_int m (a + 4)) (load_int m (a + 8)) (load_int m (a + 12))
    ((fun i => load_int m (a + 16 + 4 * i)) <$> seqZ 0 RFS_DIRECT_BLKNUM).

Definition inodes_per_block : Z := RFS_BLKSIZE / RFS_INODESIZE.

(** The page that holds the copy, and the copy. *)
Definition rfs_read_dinode (d n_inode : Z) : M fs (Z * rfs_dinode) :=
  let n_block := Z.quot n_inode inodes_per_block + RFS_BLK_OFFSET_INODE in
  let off := Z.rem n_inode inodes_per_block in
  let* _ := ramdisk_read d n_block in
  let* p := new_page in
  let* r := get_rdev d in
  if off <? 0 then fault
  else ret (p, get_dinode (iobuffer r) (off * RFS_INODESIZE)).

Definition rfs_write_dinode (d : Z) (di : rfs_dinode) (n_inode : Z) : M fs Z :=
  let n_block := Z.quot n_inode inodes_per_block + RFS_BLK_OFFSET_INODE in
  let off := Z.rem n_inode inodes_per_block in
  let* _ := ramdisk_read d n_block in
  if off <? 0 then fault
  else
    upd_rdev d (fun r => set_iobuffer (put_dinode (iobuffer r) (off * RFS_INODESIZE) di) r) ;;;
    ramdisk_write d n_block.

(** ** The bitmap *)

(** [freemap[i]], an [int] on a page. *)
Definition freemap_ok (i : Z) : bool := (0 <=? i) && (i <? PGSIZE / 4).

Definition rfs_alloc_block (sb : Z) : M fs Z :=
  let* b := get_sb sb in
  loop (Z.to_nat (nblocks b) + 1) (fun block =>
    if block <? nblocks b then
      if negb (freemap_ok block) then fault
      else if default 0 (freemap b !! block) =? 0 then
        upd_sb sb (set_freemap (<[block := 1]> (freemap b))) ;;;
        ret (inr (RFS_BLK_OFFSET_FREE + block))
      else ret (inl (block + 1))
    else panic) 0.

Definition rfs_free_block (sb block_num : Z) : M fs Z :=
  let* b := get_sb sb in
  let i := block_num - RFS_BLK_OFFSET_FREE in
  if negb (freemap_ok i) then fault
  else upd_sb sb (set_freemap (<[i := 0]> (freemap b))) ;;; ret 0.

(** ** Inodes in memory *)

Definition rfs_alloc_vinode (sb : Z) : M fs Z :=
  let* p := default_alloc_vinode sb in
  upd_vinode p (set_i_ops rfs_i_ops) ;;;
  ret p.

Definition dinode_of (v : vinode) : rfs_dinode :=
  Dinode (v_size v) (v_type v) (nlinks v) (blocks v) (addrs v).

Definition rfs_write_back_vinode (p : Z) : M fs Z :=
  let* v := get_vinode p in
  let* d := rdev_of v in
  let* r := rfs_write_dinode d (dinode_of v) (inum v) in
  if negb (r =? 0) then ret (-1) else ret 0.

Definition rfs_update_vinode (p : Z) : M fs Z :=
  let* v := get_vinode p in
  let* d := rdev_of v in
  let* (pg, di) := rfs_read_dinode d (inum v) in
  upd_vinode p (fun v => set_addrs (di_addrs di) (set_v_type (di_type di)
    (set_blocks (di_blocks di) (set_nlinks (di_nlinks di) (set_v_size (di_size di) v))))) ;;;
  zoom fs_pmmL (free_page pg) ;;;
  ret 0.

(** ** Directory entries *)

Definition rfs_add_direntry (dir : Z) (nm : name) (n : Z) : M fs Z :=
  let* v := get_vinode dir in
  if negb (v_type v =? DIR_I) then ret (-1)
  else
    let* d := rdev_of v in
    let* n_block := get_addr (addrs v) (Z.quot (v_size v) RFS_BLKSIZE) in
    let* _ := rfs_r1block d n_block in
    let a := Z.rem (v_size v) RFS_BLKSIZE in
    if (0 <=? a) && (a + 4 + Z.of_nat (length nm) + 1 <=? RFS_BLKSIZE) then
      upd_rdev d (fun r =>
        set_iobuffer (put_string (store32 (iobuffer r) a n) (a + 4) nm) r) ;;;
      let* _ := rfs_w1block d n_block in
      upd_vinode dir (fun v => set_v_size (s32 (v_size v + SIZEOF_DIRENTRY)) v) ;;;
      let* r := rfs_write_back_vinode dir in
      if negb (r =? 0) then ret (-1) else ret 0
    else fault.

Definition total_direntrys (v : vinode) : Z := s32 (u64 (v_size v) / SIZEOF_DIRENTRY).
Definition one_block_direntrys : Z := RFS_BLKSIZE / SIZEOF_DIRENTRY.

(** The scan over the entries of a directory that [rfs_lookup] and [rfs_unlink]
    share: [p] is the offset of [p_direntry] in the I/O buffer.  The index of the
    entry called [nm], or the number of entries, with the final [p_direntry]. *)
Definition scan_direntrys (d : Z) (v : vinode) (nm : name) : M fs (Z * option Z) :=
  let total := total_direntrys v in
  loop (Z.to_nat total + 1) (fun '(i, p) =>
    if i <? total then
      let* p :=
        if Z.rem i one_block_direntrys =? 0 then
          let* b := get_addr (addrs v) (Z.quot i one_block_direntrys) in
          let* _ := rfs_r1block d b in
          ret (Some 0)
        else ret p in
      let* p := of_option p in
      let* r := get_rdev d in
      let* eq := of_option (string_eq (iobuffer r) RFS_BLKSIZE (p + 4) nm) in
      if (eq : bool) then ret (inr (i, Some p))
      else ret (inl (i + 1, Some (p + SIZEOF_DIRENTRY)))
    else ret (inr (i, p))) (0, None).

(** ** Reading and writing *)

(** [memcpy] from the I/O buffer into a local buffer of the kernel stack. *)
Definition from_iobuffer (d src : Z) (buf : bytes) (dst n : Z) : M fs bytes :=
  let* r := get_rdev d in
  if (0 <=? n) && (0 <=? src) && (src + n <=? RFS_BLKSIZE) then
    ret (blit (Z.to_nat n) (iobuffer r) src buf dst)
  else fault.

(** [memcpy] from memory into the I/O buffer. *)
Definition to_iobuffer (d dst src n : Z) : M fs unit :=
  let* m := gets fs_mem in
  if (0 <=? n) && (0 <=? dst) && (dst + n <=? RFS_BLKSIZE) && in_dram src n then
    upd_rdev d (fun r => set_iobuffer (blit (Z.to_nat n) m src (iobuffer r) dst) r)
  else fault.

(** [strcpy(r_buf, buffer)], where [buffer[len]] is NUL. *)
Definition strcpy_out (r_buf : Z) (buf : bytes) (len : Z) : M fs unit :=
  let* l := of_option (string_at (Z.to_nat len + 1) buf 0) in
  if in_dram r_buf (Z.of_nat (length l) + 1) then
    modify (fun s => set_fs_mem (put_string (fs_mem s) r_buf l) s)
  else fault.

Definition rfs_read (f r_buf len off : Z) : M fs (Z * Z) :=
  let* v := get_vinode f in
  if v_size v <? off then panic
  else
    let len := if v_size v <? off + len then v_size v - off else len in
    if len <? 0 then fault
    else
      let align := Z.rem off RFS_BLKSIZE in
      let block_offset := Z.quot off RFS_BLKSIZE in
      let readtimes := s32 (Z.quot (align + len) RFS_BLKSIZE) in
      let remain := s32 (Z.rem (align + len) RFS_BLKSIZE) in
      let* d := rdev_of v in
      let* b := get_addr (addrs v) block_offset in
      let* _ := rfs_r1block d b in
      let first_block_len := if readtimes =? 0 then len else RFS_BLKSIZE - align in
      let* buffer := from_iobuffer d align ∅ 0 first_block_len in
      let* buffer :=
        if 0 <=? readtimes - 1 then
          let* (buffer, buf_offset, block_offset) :=
            loop (Z.to_nat readtimes) (fun '(buffer, buf_offset, block_offset, readtimes) =>
              if negb (readtimes =? 0) then
                let* b := get_addr (addrs v) block_offset in
                let* _ := rfs_r1block d b in
                let* buffer := from_iobuffer d 0 buffer buf_offset RFS_BLKSIZE in
                ret (inl (buffer, buf_offset + RFS_BLKSIZE, block_offset + 1, readtimes - 1))
              else ret (inr (buffer, buf_offset, block_offset)))
              (buffer, first_block_len, block_offset + 1, readtimes - 1) in
          if 0 <? remain then
            let* b := get_addr (addrs v) block_offset in
            let* _ := rfs_r1block d b in
            from_iobuffer d 0 buffer buf_offset remain
          else ret buffer
        else ret buffer in
      strcpy_out r_buf (store8 buffer len 0) len ;;;
      ret (len, s32 (off + len)).

(** The block at [block_offset] of the file, allocated when it is the first one
    past the end. *)
Definition file_block (f block_offset : Z) : M fs Z :=
  let* v := get_vinode f in
  (if block_offset =? blocks v then
     let* b := rfs_alloc_block (v_sb v) in
     if (0 <=? block_offset) && (block_offset <? DIRECT_BLKNUM) then
       upd_vinode f (fun v => set_blocks (s32 (blocks v + 1))
         (set_addrs (<[Z.to_nat block_offset := b]> (addrs v)) v))
     else fault
   else ret tt) ;;;
  let* v := get_vinode f in
  get_addr (addrs v) block_offset.

Definition rfs_write (f w_buf len off : Z) : M fs (Z * Z) :=
  let* v := get_vinode f in
  if v_size v <? off then panic
  else
    let align := Z.rem off RFS_BLKSIZE in
    let writetimes := s32 (Z.quot (len + align) RFS_BLKSIZE) in
    let remain := s32 (Z.rem (len + align) RFS_BLKSIZE) in
    let block_offset := Z.quot off RFS_BLKSIZE in
    let* d := rdev_of v in
    let* (buf_offset, block_offset, writetimes) :=
      if negb (align =? 0) then
        let* b := get_addr (addrs v) block_offset in
        let* _ := rfs_r1block d b in
        let first_block_len := if writetimes =? 0 then len else RFS_BLKSIZE - align in
        to_iobuffer d align w_buf first_block_len ;;;
        let* _ := rfs_w1block d b in
        ret (first_block_len, block_offset + 1, writetimes - 1)
      else ret (0, block_offset, writetimes) in
    (if 0 <=? writetimes then
       let* (buf_offset, block_offset) :=
         loop (Z.to_nat writetimes + 1) (fun '(buf_offset, block_offset, writetimes) =>
           if negb (writetimes =? 0) then
             let* b := file_block f block_offset in
             to_iobuffer d 0 (w_buf + buf_offset) RFS_BLKSIZE ;;;
             let* _ := rfs_w1block d b in
             ret (inl (buf_offset + RFS_BLKSIZE, block_offset + 1, writetimes - 1))
           else ret (inr (buf_offset, block_offset)))
           (buf_offset, block_offset, writetimes) in
       if 0 <? remain then
         let* b := file_block f block_offset in
         to_iobuffer d 0 (w_buf + buf_offset) remain ;;;
         let* _ := rfs_w1block d b in
         ret tt
       else ret tt
     else ret tt) ;;;
    upd_vinode f (fun v =>
      set_v_size (s32 (if v_size v <? off + len then off + len else v_size v)) v) ;;;
    ret (len, s32 (off + len)).

Definition rfs_lseek (f new_offset whence off : Z) : M fs (Z * Z) :=
  let* v := get_vinode f in
  let file_size := v_size v in
  if whence =? LSEEK_SET then
    if (new_offset <? 0) || (file_size <? new_offset) then ret (-1, off)
    else ret (0, s32 new_offset)
  else if whence =? LSEEK_CUR then
    if (off + new_offset <? 0) || (file_size <? off + new_offset) then ret (-1, off)
    else ret (0, s32 (off + new_offset))
  else ret (-1, off).

(** ** Lookup, creation and links *)

Definition rfs_lookup (parent : Z) (nm : name) : M fs Z :=
  let* v := get_vinode parent in
  let* d := rdev_of v in
  let* (i, p) := scan_direntrys d v nm in
  if i <? total_direntrys v then
    let* p := of_option p in
    let* r := get_rdev d in
    let n := load_int (iobuffer r) p in
    let* child := rfs_alloc_vinode (v_sb v) in
    upd_vinode child (set_inum n) ;;;
    let* e := rfs_update_vinode child in
    if negb (e =? 0) then panic else ret child
  else ret 0.

(** The search for a free disk inode.  When there is none, [free_dinode] is left
    pointing to the last inode read, whose page is free again, and [free_inum]
    is 0. *)
Definition find_free_dinode (d : Z) : M fs (Z * (Z * rfs_dinode)) :=
  let n := inodes_per_block * RFS_MAX_INODE_BLKNUM in
  loop (Z.to_nat n + 1) (fun '(i, last) =>
    if i <? n then
      let* (pg, di) := rfs_read_dinode d i in
      if di_type di =? R_FREE then ret (inr (i, (pg, di)))
      else
        zoom fs_pmmL (free_page pg) ;;;
        ret (inl (i + 1, Some (pg, di)))
    else
      let* l := of_option last in
      ret (inr (0, l))) (0, None).

(** The part of [rfs_create] and [rfs_mkdir] that sets up the disk inode. *)
Definition new_dinode (d sb type : Z) : M fs Z :=
  let* (free_inum, (pg, di)) := find_free_dinode d in
  let* b := rfs_alloc_block sb in
  let* _ := rfs_write_dinode d (Dinode 0 type 1 1 (<[0%nat := b]> (di_addrs di))) free_inum in
  zoom fs_pmmL (free_page pg) ;;;
  ret free_inum.

Definition rfs_create (parent : Z) (nm : name) : M fs Z :=
  let* v := get_vinode parent in
  let* d := rdev_of v in
  let* free_inum := new_dinode d (v_sb v) R_FILE in
  let* new := rfs_alloc_vinode (v_sb v) in
  upd_vinode new (set_inum free_inum) ;;;
  let* _ := rfs_update_vinode new in
  let* result := rfs_add_direntry parent nm free_inum in
  if result =? -1 then ret 0 else ret new.

Definition rfs_mkdir (parent : Z) (nm : name) : M fs Z :=
  let* v := get_vinode parent in
  let* d := rdev_of v in
  let* free_inum := new_dinode d (v_sb v) R_DIR in
  let* result := rfs_add_direntry parent nm free_inum in
  if result =? -1 then ret 0
  else
    let* sub := rfs_alloc_vinode (v_sb v) in
    upd_vinode sub (set_inum free_inum) ;;;
    let* _ := rfs_update_vinode sub in
    ret sub.

Definition rfs_link (parent : Z) (nm : name) (link_node : Z) : M fs Z :=
  upd_vinode link_node (fun v => set_nlinks (s32 (nlinks v + 1)) v) ;;;
  let* l := get_vinode link_node in
  let* r := rfs_add_direntry parent nm (inum l) in
  if r =? -1 then ret (-1)
  else
    let* r := rfs_write_back_vinode link_node in
    if negb (r =? 0) then ret (-1) else ret 0.

(** [struct istat] *)
Record istat : Type := Istat {
  st_inum : Z; st_size : Z; st_type : Z; st_nlinks : Z; st_blocks : Z
}.

Definition rfs_disk_stat (p : Z) : M fs istat :=
  let* v := get_vinode p in
  let* d := rdev_of v in
  let* (pg, di) := rfs_read_dinode d (inum v) in
  zoom fs_pmmL (free_page pg) ;;;
  ret (Istat (inum v) (di_size di) (di_type di) (di_nlinks di) (di_blocks di)).

(** ** Removing an entry *)

(** [memmove] inside one block. *)
Definition shift_bytes (m : bytes) (dst src n : Z) : bytes := blit (Z.to_nat n) m src m dst.

(** The blocks of the directory after the entry's block, moved up by one entry:
    [previous_block] is the page and contents of the block before. *)
Definition shift_blocks (d : Z) (l : list Z) (nb first : Z) (prev : Z * bytes) : M fs (Z * bytes) :=
  loop (Z.to_nat (nb - first) + 1) (fun '(i, (pp, pb)) =>
    if i <? nb then
      let* b := get_addr l i in
      let* _ := rfs_r1block d b in
      let* tp := new_page in
      let* r := get_rdev d in
      let tb := blit block_bytes (iobuffer r) 0 ∅ 0 in
      let pb := blit (Z.to_nat SIZEOF_DIRENTRY) (iobuffer r) 0 pb
                  ((one_block_direntrys - 1) * SIZEOF_DIRENTRY) in
      let tb := shift_bytes tb 0 SIZEOF_DIRENTRY ((one_block_direntrys - 1) * SIZEOF_DIRENTRY) in
      upd_rdev d (fun r => set_iobuffer (blit block_bytes pb 0 (iobuffer r) 0) r) ;;;
      let* b' := get_addr l (i - 1) in
      let* _ := rfs_w1block d b' in
      zoom fs_pmmL (free_page pp) ;;;
      ret (inl (i + 1, (tp, tb)))
    else ret (inr (pp, pb))) (first, prev).

Definition free_blocks (sb : Z) (di : rfs_dinode) : M fs unit :=
  loop (Z.to_nat (di_blocks di) + 1) (fun i =>
    if i <? di_blocks di then
      let* b := get_addr (di_addrs di) i in
      let* _ := rfs_free_block sb b in
      ret (inl (i + 1))
    else ret (inr tt)) 0.

Definition rfs_unlink (parent : Z) (nm : name) (unlink_vinode : Z) : M fs Z :=
  let* v := get_vinode parent in
  let* d := rdev_of v in
  let total := total_direntrys v in
  let* (delete_index, p) := scan_direntrys d v nm in
  let* p := of_option p in
  if RFS_BLKSIZE <? p + 4 then fault
  else
    let* r := get_rdev d in
    let n := load_int (iobuffer r) p in
    if delete_index =? total then ret (-1)
    else
      let* (pg, di) := rfs_read_dinode d n in
      let* u := get_vinode unlink_vinode in
      assert (nlinks u =? di_nlinks di) ;;;
      upd_vinode unlink_vinode (set_nlinks (s32 (nlinks u - 1))) ;;;
      let di := set_di_nlinks (s32 (nlinks u - 1)) di in
      let* di :=
        if di_nlinks di =? 0 then
          free_blocks (v_sb v) di ;;;
          ret (set_di_type R_FREE di)
        else ret di in
      let* _ := rfs_write_dinode d di n in
      zoom fs_pmmL (free_page pg) ;;;
      let delete_block_index := Z.quot delete_index one_block_direntrys in
      let* b := get_addr (addrs v) delete_block_index in
      let* _ := rfs_r1block d b in
      let off := Z.rem delete_index one_block_direntrys in
      upd_rdev d (fun r => set_iobuffer (shift_bytes (iobuffer r) (off * SIZEOF_DIRENTRY)
        ((off + 1) * SIZEOF_DIRENTRY) ((one_block_direntrys - off - 1) * SIZEOF_DIRENTRY)) r) ;;;
      let* pp := new_page in
      let* r := get_rdev d in
      let* v := get_vinode parent in
      let* (pp, pb) := shift_blocks d (addrs v) (blocks v) (delete_block_index + 1)
                         (pp, blit block_bytes (iobuffer r) 0 ∅ 0) in
      upd_rdev d (fun r => set_iobuffer (blit block_bytes pb 0 (iobuffer r) 0) r) ;;;
      let* last := get_addr (addrs v) (blocks v - 1) in
      let* _ := rfs_w1block d last in
      zoom fs_pmmL (free_page pp) ;;;
      (if (Z.rem (total - 1) one_block_direntrys =? 0) && (1 <? blocks v) then
         let* _ := rfs_free_block (v_sb v) last in
         upd_vinode parent (fun v => set_blocks (s32 (blocks v - 1)) v)
       else ret tt) ;;;
      upd_vinode parent (fun v => set_v_size (s32 (v_size v - SIZEOF_DIRENTRY)) v) ;;;
      let* r := rfs_write_back_vinode parent in
      if negb (r =? 0) then ret (-1) else ret 0.

(** ** Reading a directory *)

Definition page_write (p : Z) (src : bytes) : M fs unit :=
  if in_dram p PGSIZE then
    modify (fun s => set_fs_mem (blit block_bytes src 0 (fs_mem s) p) s)
  else fault.

Definition rfs_hook_opendir (p : Z) : M fs Z :=
  let* v := get_vinode p in
  let* d := rdev_of v in
  let* pdire :=
    loop (Z.to_nat (blocks v) + 1) (fun '(i, pdire) =>
      if 0 <=? i then
        let* q := zoom fs_pmmL alloc_page in
        if negb (pdire =? 0) && negb (pdire - q =? RFS_BLKSIZE) then panic
        else
          let* b := get_addr (addrs v) i in
          let* _ := rfs_r1block d b in
          let* r := get_rdev d in
          page_write q (iobuffer r) ;;;
          ret (inl (i - 1, q))
      else ret (inr pdire)) (blocks v - 1, 0) in
  let* c := new_page in
  modify (fun s => set_dir_caches (<[c := DirCache (blocks v) pdire]> (dir_caches s)) s) ;;;
  upd_vinode p (set_v_fs_info c) ;;;
  ret 0.

Definition get_cache (c : Z) : M fs rfs_dir_cache :=
  let* t := gets dir_caches in of_option (t !! c).

Definition rfs_hook_closedir (p : Z) : M fs Z :=
  let* v := get_vinode p in
  let* c := get_cache (v_fs_info v) in
  loop (Z.to_nat (block_count c) + 1) (fun i =>
    if i <? block_count c then
      zoom fs_pmmL (free_page (dir_base_addr c + i * RFS_BLKSIZE)) ;;;
      ret (inl (i + 1))
    else ret (inr 0)) 0.

(** [struct dir]: the result is [None] at the end of the directory.  [dir->name]
    has room for [MAX_FILE_NAME_LEN] bytes. *)
Definition MAX_FILE_NAME_LEN : Z := 32.

Definition rfs_readdir (p off : Z) : M fs (option (name * Z) * Z) :=
  let* v := get_vinode p in
  if total_direntrys v <=? off then ret (None, off)
  else
    let* c := get_cache (v_fs_info v) in
    let a := dir_base_addr c + SIZEOF_DIRENTRY * off in
    let* m := gets fs_mem in
    if in_dram a SIZEOF_DIRENTRY then
      let* nm := of_option (string_at (Z.to_nat MAX_FILE_NAME_LEN) m (a + 4)) in
      ret (Some (nm, load_int m a), s32 (off + 1))
    else fault.

(** ** Formatting and mounting *)

(** [junk] is what the stack holds where [root_dinode.addrs[1..9]] is not set. *)
Definition rfs_format_dev (junk : list Z) (dev : Z) : M fs Z :=
  let* ds := gets devices in
  let* dv := of_option (ds !! dev) in
  let d := dev_id dv in
  upd_rdev d (fun r => set_iobuffer (store_ints (iobuffer r) 0
    [RFS_MAGIC; 1 + RFS_MAX_INODE_BLKNUM + 1 + RFS_MAX_INODE_BLKNUM * RFS_DIRECT_BLKNUM;
     RFS_MAX_INODE_BLKNUM * RFS_DIRECT_BLKNUM; inodes_per_block * RFS_MAX_INODE_BLKNUM]) r) ;;;
  let* e := rfs_w1block d RFS_BLK_OFFSET_SUPER in
  if negb (e =? 0) then panic
  else
    upd_rdev d (fun r => set_iobuffer
      (foldl (fun m i => store_ints m (i * RFS_INODESIZE) [0; R_FREE; 0; 0])
        (iobuffer r) (seqZ 0 inodes_per_block)) r) ;;;
    loop (Z.to_nat RFS_MAX_INODE_BLKNUM + 1) (fun inode_block =>
      if inode_block <? RFS_MAX_INODE_BLKNUM then
        let* e := rfs_w1block d (RFS_BLK_OFFSET_INODE + inode_block) in
        if negb (e =? 0) then panic else ret (inl (inode_block + 1))
      else ret (inr tt)) 0 ;;;
    let* e := rfs_write_dinode d (Dinode 0 R_DIR 1 1 (RFS_BLK_OFFSET_FREE :: junk)) 0 in
    if negb (e =? 0) then ret (-1)
    else
      upd_rdev d (fun r =>
        set_iobuffer (store32 (fill block_bytes (iobuffer r) 0 0) 0 1) r) ;;;
      let* e := rfs_w1block d RFS_BLK_OFFSET_BITMAP in
      if negb (e =? 0) then ret (-1) else ret 0.

Definition rfs_get_superblock (dev : Z) : M fs Z :=
  let* ds := gets devices in
  let* dv := of_option (ds !! dev) in
  let d := dev_id dv in
  let* e := rfs_r1block d RFS_BLK_OFFSET_SUPER in
  if negb (e =? 0) then panic
  else
    let* r := get_rdev d in
    let io := iobuffer r in
    let* sb := new_page in
    modify (fun s => set_super_blocks (<[sb := SuperBlock (load_int io 0) (load_int io 4)
      (load_int io 8) (load_int io 12) 0 dev ∅]> (super_blocks s)) s) ;;;
    if negb (load_int io 0 =? RFS_MAGIC) then panic
    else
      let* root_inode := rfs_alloc_vinode sb in
      upd_vinode root_inode (set_inum 0) ;;;
      let* _ := rfs_update_vinode root_inode in
      let* root_dentry := alloc_vfs_dentry [47] root_inode 0 in
      upd_sb sb (set_s_root root_dentry) ;;;
      let* e := rfs_r1block d RFS_BLK_OFFSET_BITMAP in
      if negb (e =? 0) then panic
      else
        let* _ := new_page in
        let* r := get_rdev d in
        upd_sb sb (set_freemap (list_to_map
          ((fun i => (i, load_int (iobuffer r) (4 * i))) <$> seqZ 0 (PGSIZE / 4)))) ;;;
        ret sb.

Definition register_rfs : M fs Z :=
  let* _ := new_page in
  loop 11 (fun i =>
    if i <? 10 then
      let* l := gets fs_list in
      if l !! i is None then
        modify (fun s => set_fs_list (<[i := RFS_TYPE]> (fs_list s)) s) ;;; ret (inr 0)
      else ret (inl (i + 1))
    else ret (inr (-1))) 0.

(** The lowest of [n] consecutive indices that is not a key of [l]. *)
Definition first_unused {A} (l : gmap Z A) (n : Z) : option Z :=
  head (filter (fun i => l !! i = None) (seqZ 0 n)).

Definition init_rfs_device (nm : name) : M fs Z :=
  let* l := gets fs_list in
  if bool_decide (Exists (fun i => l !! i = Some RFS_TYPE) (seqZ 0 10)) then
    let* ramdisk_addr :=
      loop (Z.to_nat RAMDISK_BLOCK_COUNT + 1) (fun '(i, curr) =>
        if i <? RAMDISK_BLOCK_COUNT then
          let* q := zoom fs_pmmL alloc_page in
          if negb (curr =? 0) && negb (curr - q =? PGSIZE) then panic
          else ret (inl (i + 1, q))
        else ret (inr curr)) (0, 0) in
    let* devs := gets rfs_device_list in
    match first_unused devs 10 with
    | None => panic
    | Some device_id =>
        let* _ := new_page in
        let* io := new_page in
        let* m := gets fs_mem in
        modify (fun s => set_rfs_device_list (<[device_id := RfsDev
          (blit (Z.to_nat (RAMDISK_BLOCK_COUNT * RAMDISK_BLOCK_SIZE)) m ramdisk_addr ∅ 0)
          (blit block_bytes m io ∅ 0)]> (rfs_device_list s)) s) ;;;
        let* p := new_page in
        modify (fun s => set_devices (<[p := Device nm device_id RFS_TYPE]> (devices s)) s) ;;;
        let* vl := gets vfs_dev_list in
        (if first_unused vl 10 is Some i then
           modify (fun s => set_vfs_dev_list (<[i := p]> (vfs_dev_list s)) s)
         else ret tt) ;;;
        ret p
    end
  else panic.
