(* ===== verification/RfsDisk.v ===== *)
(** * The disk of the RAM disk file system: theorems

    What block reads and writes do to the bytes of the disk, the disk inodes and
    the block bitmap. *)

From S2P Require Import Prelude Mem Pmm StringLib HashTable Vmm Kernel Fs Rfs.
From stdpp Require Import base gmap list fin_maps.
From Stdlib Require Import ZArith Lia Bool.

Set Default Goal Selector "!".
Open Scope Z_scope.

(** ** Blocks and the I/O buffer *)

#[global] Opaque blit fill.

Definition rdev_set (d : Z) (r : rfs_device) (s : fs) : fs :=
  set_rfs_device_list (<[d := r]> (rfs_device_list s)) s.
Definition loaded (b : Z) (r : rfs_device) : rfs_device :=
  set_iobuffer (blit block_bytes (disk r) (b * RAMDISK_BLOCK_SIZE) (iobuffer r) 0) r.
Definition stored (b : Z) (r : rfs_device) : rfs_device :=
  set_disk (blit block_bytes (iobuffer r) 0 (disk r) (b * RAMDISK_BLOCK_SIZE)) r.

(** Byte [i] of block [b]. *)
Definition disk_byte (r : rfs_device) (b i : Z) : Z := load8 (disk r) (b * PGSIZE + i).

Lemma block_bytes_Z : Z.of_nat block_bytes = PGSIZE.
Proof. reflexivity. Qed.

Lemma loaded_byte b r i : 0 <= i < PGSIZE -> load8 (iobuffer (loaded b r)) i = disk_byte r b i.
Proof.
  intros Hi. simpl. rewrite load8_blit, block_bytes_Z, decide_True by lia.
  unfold disk_byte, RAMDISK_BLOCK_SIZE. f_equal. lia.
Qed.

Lemma stored_byte b r b' i : 0 <= i < PGSIZE -> disk_byte (stored b r) b' i =
  if decide (b' = b) then load8 (iobuffer r) i else disk_byte r b' i.
Proof.
  intros Hi. unfold disk_byte. simpl. rewrite load8_blit, block_bytes_Z.
  unfold RAMDISK_BLOCK_SIZE, PGSIZE in *. repeat case_decide; subst; try done; try lia.
  f_equal. lia.
Qed.

Lemma get_rdev_run d r s : rfs_device_list s !! d = Some r -> get_rdev d s = Ok r s.
Proof. intros E. unfold get_rdev, bind, gets. by rewrite E. Qed.

Lemma upd_rdev_run d r f s : rfs_device_list s !! d = Some r ->
  upd_rdev d f s = Ok tt (rdev_set d (f r) s).
Proof. intros E. unfold upd_rdev, bind. by rewrite (get_rdev_run d r). Qed.

Lemma block_guard b : 0 <= b < RAMDISK_BLOCK_COUNT ->
  (b <? 0) || (RAMDISK_BLOCK_COUNT <=? b) = false.
Proof. lia. Qed.

Lemma ramdisk_read_run d r b s : rfs_device_list s !! d = Some r -> 0 <= b < RAMDISK_BLOCK_COUNT ->
  ramdisk_read d b s = Ok 0 (rdev_set d (loaded b r) s).
Proof.
  intros E Hb. unfold ramdisk_read. rewrite block_guard by done.
  unfold bind. by rewrite (upd_rdev_run d r).
Qed.

Lemma ramdisk_write_run d r b s : rfs_device_list s !! d = Some r -> 0 <= b < RAMDISK_BLOCK_COUNT ->
  ramdisk_write d b s = Ok 0 (rdev_set d (stored b r) s).
Proof.
  intros E Hb. unfold ramdisk_write. rewrite block_guard by done.
  unfold bind. by rewrite (upd_rdev_run d r).
Qed.

Lemma rdev_set_lookup d r s : rfs_device_list (rdev_set d r s) !! d = Some r.
Proof. simpl. apply lookup_insert_eq. Qed.

Lemma rdev_set_set d r r' s : rdev_set d r' (rdev_set d r s) = rdev_set d r' s.
Proof. unfold rdev_set. simpl. by rewrite insert_insert_eq. Qed.

#[export] Hint Resolve rdev_set_lookup : pke.

(** ** Integers in a block *)

(** [m'] holds at [x + k] what [m] holds at [x], for the addresses in [P]. *)
Definition shifted (k : Z) (P : Z -> Prop) (m m' : bytes) : Prop :=
  forall x, P x -> load8 m x = load8 m' (x + k).

Lemma shifted_store_le k P n : forall m m' a v, shifted k P m m' ->
  shifted k P (store_le n m a v) (store_le n m' (a + k) v).
Proof.
  induction n as [|n IH]; intros m m' a v Hs; [done|]. unfold store_le. fold store_le.
  replace (a + k + 1) with (a + 1 + k) by lia. apply IH. intros x Hx.
  rewrite !load8_store8. rewrite (Hs x Hx). repeat case_decide; done || lia.
Qed.

Lemma shifted_store_ints k P l : forall m m' a, shifted k P m m' ->
  shifted k P (store_ints m a l) (store_ints m' (a + k) l).
Proof.
  induction l as [|v l IH]; intros m m' a Hs; [done|]. simpl.
  replace (a + k + 4) with (a + 4 + k) by lia. apply IH. by apply shifted_store_le.
Qed.

Lemma load8_store_ints_ne l : forall m a x, x < a \/ a + 4 * Z.of_nat (length l) <= x ->
  load8 (store_ints m a l) x = load8 m x.
Proof.
  induction l as [|v l IH]; intros m a x Hx; [done|]. simpl length in Hx. simpl.
  rewrite IH by lia. apply (load8_store_le_ne 4). lia.
Qed.

Lemma s32_mod v : s32 (v mod 2 ^ 32) = s32 v.
Proof.
  unfold s32. f_equal. rewrite <- (Zplus_mod_idemp_l v). done.
Qed.

Lemma load_int_store_ints l : forall m a i v, l !! i = Some v ->
  load_int (store_ints m a l) (a + 4 * Z.of_nat i) = s32 v.
Proof.
  induction l as [|u l IH]; intros m a i v Hi; [done|]. destruct i as [|i]; simpl in Hi |- *.
  - injection Hi as ->. rewrite Z.mul_0_r, Z.add_0_r. unfold load_int.
    assert (load32 (store_ints (store32 m a v) (a + 4) l) a = load32 (store32 m a v) a) as ->.
    { apply load_le_ext. intros x Hx. apply load8_store_ints_ne. lia. }
    rewrite load_store_le_eq. apply s32_mod.
  - replace (a + 4 * Z.of_nat (S i)) with (a + 4 + 4 * Z.of_nat i) by lia. by apply IH.
Qed.

Lemma load_int_ext m m' a : (forall x, a <= x < a + 4 -> load8 m' x = load8 m x) ->
  load_int m' a = load_int m a.
Proof. intros E. unfold load_int. f_equal. apply load_le_ext. intros x Hx. apply E. lia. Qed.

Lemma load_le_cross n : forall m m' a b,
  (forall i, 0 <= i < Z.of_nat n -> load8 m (a + i) = load8 m' (b + i)) ->
  load_le n m a = load_le n m' b.
Proof.
  induction n as [|n IH]; intros m m' a b E; [done|]. unfold load_le. fold load_le.
  rewrite <- (Z.add_0_r a) at 1. rewrite <- (Z.add_0_r b) at 1. rewrite E by lia.
  do 2 f_equal. apply IH. intros i Hi. rewrite <- !Z.add_assoc. apply E. lia.
Qed.

(** ** Disk inodes *)

Definition int_range (x : Z) : Prop := - 2 ^ 31 <= x < 2 ^ 31.

Definition dinode_ok (di : rfs_dinode) : Prop :=
  Forall int_range (dinode_ints di) /\ length (di_addrs di) = Z.to_nat RFS_DIRECT_BLKNUM.

Lemma get_put_dinode m a di : dinode_ok di -> get_dinode (put_dinode m a di) a = di.
Proof.
  intros [Hr Hl]. unfold get_dinode, put_dinode.
  assert (forall i v, dinode_ints di !! i = Some v ->
    load_int (store_ints m a (dinode_ints di)) (a + 4 * Z.of_nat i) = v) as H.
  { intros i v Hi. rewrite (load_int_store_ints _ m a i v Hi). apply s32_small.
    rewrite Forall_lookup in Hr. apply (Hr i v Hi). }
  destruct di as [sz ty nl bl ad]. unfold dinode_ints in *.
  cbn [di_size di_type di_nlinks di_blocks di_addrs] in *.
  f_equal.
  1: etrans; [|apply (H 0%nat sz eq_refl)].
  2: etrans; [|apply (H 1%nat ty eq_refl)].
  3: etrans; [|apply (H 2%nat nl eq_refl)].
  4: etrans; [|apply (H 3%nat bl eq_refl)].
  1-4: f_equal; lia.
  apply list_eq. intros i. rewrite list_lookup_fmap. destruct (ad !! i) as [v|] eqn:Ei.
  - pose proof (lookup_lt_Some _ _ _ Ei). rewrite lookup_seqZ_lt by (unfold RFS_DIRECT_BLKNUM in *; lia).
    simpl. f_equal. etrans; [|apply (H (4 + i)%nat v Ei)]. f_equal. lia.
  - apply lookup_ge_None in Ei. rewrite lookup_seqZ_ge; [done|]. lia.
Qed.

(** Where disk inode [n] is. *)
Definition inode_block (n : Z) : Z := n / inodes_per_block + RFS_BLK_OFFSET_INODE.
Definition inode_slot (n : Z) : Z := n mod inodes_per_block * RFS_INODESIZE.
Definition inode_pos (n : Z) : Z := inode_block n * PGSIZE + inode_slot n.
Definition disk_dinode (r : rfs_device) (n : Z) : rfs_dinode := get_dinode (disk r) (inode_pos n).
Definition inode_number (n : Z) : Prop := 0 <= n < inodes_per_block * RFS_MAX_INODE_BLKNUM.

Lemma inodes_per_block_eq : inodes_per_block = 32.
Proof. reflexivity. Qed.

Ltac inode_arith :=
  unfold inode_number, inode_pos, inode_block, inode_slot, RFS_MAX_INODE_BLKNUM,
    RFS_BLK_OFFSET_INODE, RAMDISK_BLOCK_COUNT, RFS_INODESIZE, PGSIZE in *;
  rewrite ?inodes_per_block_eq in *; dlia.

Lemma inode_in_disk n : inode_number n -> 0 <= inode_block n < RAMDISK_BLOCK_COUNT /\
  0 <= inode_slot n /\ inode_slot n + SIZEOF_DINODE <= PGSIZE.
Proof. unfold SIZEOF_DINODE. intros. inode_arith. Qed.

Lemma inode_pos_apart n n' : inode_number n -> inode_number n' -> n <> n' ->
  inode_pos n + SIZEOF_DINODE <= inode_pos n' \/ inode_pos n' + SIZEOF_DINODE <= inode_pos n.
Proof. unfold SIZEOF_DINODE. intros. inode_arith. Qed.

(** The device after disk inode [n] was overwritten with [di]. *)
Definition dinode_written (n : Z) (di : rfs_dinode) (r : rfs_device) : rfs_device :=
  let r1 := loaded (inode_block n) r in
  stored (inode_block n) (set_iobuffer (put_dinode (iobuffer r1) (inode_slot n) di) r1).

Lemma dinode_ints_length di : dinode_ok di -> 4 * Z.of_nat (length (dinode_ints di)) = SIZEOF_DINODE.
Proof.
  intros [_ Hl]. unfold dinode_ints. rewrite length_app, Hl. reflexivity.
Qed.

Lemma dinode_written_disk n di r : inode_number n -> dinode_ok di ->
  mem_equiv (disk (dinode_written n di r)) (put_dinode (disk r) (inode_pos n) di).
Proof.
  intros Hn Hdi x. pose proof (inode_in_disk n Hn) as (_ & H1 & H2).
  pose proof (dinode_ints_length di Hdi) as Hl.
  unfold dinode_written. simpl. rewrite load8_blit, block_bytes_Z.
  unfold RAMDISK_BLOCK_SIZE. case_decide as Hx.
  - unfold put_dinode, inode_pos.
    rewrite (shifted_store_ints (inode_block n * PGSIZE) (fun y => 0 <= y < PGSIZE) _ _ (disk r)).
    + f_equal; [|lia]. f_equal; lia.
    + intros y Hy. rewrite load8_blit, block_bytes_Z, decide_True by lia. f_equal.
      unfold RAMDISK_BLOCK_SIZE. lia.
    + lia.
  - symmetry. apply load8_store_ints_ne. rewrite Hl. unfold inode_pos. lia.
Qed.

Lemma get_dinode_ext m m' a : (forall x, a <= x < a + SIZEOF_DINODE -> load8 m x = load8 m' x) ->
  get_dinode m a = get_dinode m' a.
Proof.
  unfold SIZEOF_DINODE. intros E. unfold get_dinode.
  f_equal; try (apply load_int_ext; intros; apply E; lia).
  apply list_fmap_ext. intros i y Hy. apply lookup_seqZ in Hy as [-> Hi].
  unfold RFS_DIRECT_BLKNUM, DIRECT_BLKNUM in Hi. apply load_int_ext. intros. apply E. lia.
Qed.

Lemma disk_dinode_written n n' di r : inode_number n -> inode_number n' -> dinode_ok di ->
  disk_dinode (dinode_written n di r) n' = if decide (n' = n) then di else disk_dinode r n'.
Proof.
  intros Hn Hn' Hdi. unfold disk_dinode.
  rewrite (get_dinode_ext _ (put_dinode (disk r) (inode_pos n) di))
    by (intros; by apply dinode_written_disk).
  case_decide as E; [subst; by apply get_put_dinode|].
  apply get_dinode_ext. intros x Hx. apply load8_store_ints_ne.
  rewrite dinode_ints_length by done. pose proof (inode_pos_apart n n' Hn Hn'). lia.
Qed.

Lemma quot_rem_inode n : 0 <= n -> Z.quot n inodes_per_block = n / inodes_per_block /\
  Z.rem n inodes_per_block = n mod inodes_per_block.
Proof. intros. rewrite inodes_per_block_eq. split; [apply Z.quot_div_nonneg|apply Z.rem_mod_nonneg]; lia. Qed.

Lemma rfs_write_dinode_run d r di n s : rfs_device_list s !! d = Some r -> inode_number n ->
  rfs_write_dinode d di n s = Ok 0 (rdev_set d (dinode_written n di r) s).
Proof.
  intros Hr Hn. pose proof (inode_in_disk n Hn) as (Hb & H1 & _).
  unfold rfs_write_dinode. destruct (quot_rem_inode n) as [-> ->]; [apply Hn|].
  fold (inode_block n). unfold bind at 1. rewrite (ramdisk_read_run d r) by done.
  rewrite (proj2 (Z.ltb_ge _ 0)) by (apply Z.mod_pos_bound; by rewrite inodes_per_block_eq).
  unfold bind at 1. rewrite (upd_rdev_run d (loaded (inode_block n) r)) by auto with pke.
  rewrite rdev_set_set.
  rewrite (ramdisk_write_run d (set_iobuffer (put_dinode (iobuffer (loaded (inode_block n) r))
    (inode_slot n) di) (loaded (inode_block n) r))) by auto with pke.
  by rewrite rdev_set_set.
Qed.

Lemma rfs_read_dinode_run d r n s p s1 : rfs_device_list s !! d = Some r -> inode_number n ->
  new_page (rdev_set d (loaded (inode_block n) r) s) = Ok p s1 ->
  rfs_device_list s1 = rfs_device_list (rdev_set d (loaded (inode_block n) r) s) ->
  rfs_read_dinode d n s = Ok (p, disk_dinode r n) s1.
Proof.
  intros Hr Hn Hp Hs1. pose proof (inode_in_disk n Hn) as (Hb & H1 & H2).
  unfold rfs_read_dinode. destruct (quot_rem_inode n) as [-> ->]; [apply Hn|].
  fold (inode_block n). unfold bind at 1. rewrite (ramdisk_read_run d r) by done.
  unfold bind at 1. rewrite Hp. unfold bind.
  rewrite (get_rdev_run d (loaded (inode_block n) r)) by (rewrite Hs1; auto with pke).
  rewrite (proj2 (Z.ltb_ge _ 0)) by (apply Z.mod_pos_bound; by rewrite inodes_per_block_eq).
  unfold ret. do 2 f_equal. fold (inode_slot n).
  unfold disk_dinode, get_dinode.
  assert (forall o, 0 <= o -> o + 4 <= SIZEOF_DINODE ->
    load_int (iobuffer (loaded (inode_block n) r)) (inode_slot n + o) =
    load_int (disk r) (inode_pos n + o)) as E.
  { intros o Ho Ho'. unfold load_int. f_equal. apply load_le_cross. intros i Hi.
    rewrite loaded_byte by lia. unfold disk_byte, inode_pos. f_equal. lia. }
  unfold SIZEOF_DINODE in E.
  rewrite <- (Z.add_0_r (inode_slot n)), <- (Z.add_0_r (inode_pos n)).
  rewrite <- !Z.add_assoc. f_equal; try (apply E; lia).
  apply list_fmap_ext. intros i y Hy. apply lookup_seqZ in Hy as [-> Hi].
  unfold RFS_DIRECT_BLKNUM, DIRECT_BLKNUM in Hi. rewrite <- !Z.add_assoc. apply E; lia.
Qed.

(** ** Pages *)

Definition fs_page_taken (p : Z) (s : fs) : fs := lset fs_pmmL (page_taken p (lget fs_pmmL s)) s.

Lemma new_page_run p fl s : pmm_wf (p :: fl) (lget fs_pmmL s) -> new_page s = Ok p (fs_page_taken p s).
Proof.
  intros Hwf. destruct (wf_head_managed _ _ Hwf p fl eq_refl) as [Hm _].
  pose proof (managed_range _ (wf_bounds _ _ Hwf) p Hm) as (Hlo & _).
  pose proof (wf_chain _ _ Hwf) as [Hh _].
  unfold new_page, bind, zoom.
  rewrite (alloc_page_run _ (wf_bounds _ _ Hwf) (wf_unlocked _ _ Hwf) p) by done.
  by rewrite (proj2 (Z.eqb_neq p 0)) by (layout; lia).
Qed.

Lemma inode_blocks_only n di r b i : inode_number n -> dinode_ok di ->
  RFS_BLK_OFFSET_BITMAP <= b -> 0 <= i < PGSIZE ->
  disk_byte (dinode_written n di r) b i = disk_byte r b i.
Proof.
  intros Hn Hdi Hb Hi. unfold disk_byte. rewrite (dinode_written_disk n di r Hn Hdi).
  apply load8_store_ints_ne. rewrite dinode_ints_length by done.
  unfold RFS_BLK_OFFSET_BITMAP, SIZEOF_DINODE in *. inode_arith.
Qed.

(** A disk inode written to the disk is read back as written, the other
    disk inodes and every block after the inode blocks are unchanged. *)
Theorem dinode_roundtrip d r di n p fl s :
  rfs_device_list s !! d = Some r -> inode_number n -> dinode_ok di ->
  pmm_wf (p :: fl) (lget fs_pmmL s) ->
  exists s1 s2 r1, rfs_write_dinode d di n s = Ok 0 s1 /\
    rfs_read_dinode d n s1 = Ok (p, di) s2 /\
    rfs_device_list s1 !! d = Some r1 /\
    (forall n', inode_number n' -> n' <> n -> disk_dinode r1 n' = disk_dinode r n') /\
    (forall b i, RFS_BLK_OFFSET_BITMAP <= b -> 0 <= i < PGSIZE ->
       disk_byte r1 b i = disk_byte r b i).
Proof.
  intros Hr Hn Hdi Hwf. set (r1 := dinode_written n di r).
  exists (rdev_set d r1 s).
  eexists. exists r1. split_and!.
  - by apply rfs_write_dinode_run.
  - rewrite (rfs_read_dinode_run d r1 n _ p
      (fs_page_taken p (rdev_set d (loaded (inode_block n) r1) (rdev_set d r1 s)))).
    + unfold r1. by rewrite disk_dinode_written, decide_True by done.
    + auto with pke.
    + done.
    + by apply (new_page_run p fl).
    + done.
  - auto with pke.
  - intros n' Hn' Hne. unfold r1. by rewrite disk_dinode_written, decide_False by done.
  - intros b i Hb Hi. by apply inode_blocks_only.
Qed.

Definition demo_dinode : rfs_dinode := Dinode 5 R_FILE 1 1 [20; 0; 0; 0; 0; 0; 0; 0; 0; 0].

Definition demo_fs : fs :=
  Fs (Kernel (Vm (free_pages 4) 0) ∅ ∅ ∅ ∅ ∅ 0 ∅ 0 0 ∅ 0 0 0 0 0 ∅ ∅)
    {[0 := RfsDev ∅ ∅]} ∅ ∅ ∅ ∅ ∅ ∅ ∅ ∅ ∅ ∅ ∅ ∅ ∅ ∅.

Lemma dinode_roundtrip_witness : exists s1 s2,
  rfs_write_dinode 0 demo_dinode 37 demo_fs = Ok 0 s1 /\
  rfs_read_dinode 0 37 s1 = Ok (0x80003000, demo_dinode) s2.
Proof.
  destruct (dinode_roundtrip 0 (RfsDev ∅ ∅) demo_dinode 37 0x80003000
    (page_stack DRAM_BASE 3) demo_fs) as (s1 & s2 & r1 & H1 & H2 & _);
    [reflexivity|unfold inode_number; rewrite inodes_per_block_eq; unfold RFS_MAX_INODE_BLKNUM; lia
    | |apply (free_pages_wf 4); lia|].
  { split; [|reflexivity]. repeat apply Forall_cons_2; [vm_compute; split; congruence..|apply Forall_nil_2]. }
  exists s1, s2. split; assumption.
Defined.

(** ** The bitmap *)

(** The free data blocks, as indices in the bitmap. *)
Definition free_indices (b : super_block) : list Z :=
  filter (fun i => default 0 (freemap b !! i) = 0) (seqZ 0 (nblocks b)).

Definition sb_set (p : Z) (b : super_block) (s : fs) : fs :=
  set_super_blocks (<[p := b]> (super_blocks s)) s.
Definition block_taken (i : Z) (b : super_block) : super_block :=
  set_freemap (<[i := 1]> (freemap b)) b.

Lemma get_sb_run p b s : super_blocks s !! p = Some b -> get_sb p s = Ok b s.
Proof. intros E. unfold get_sb, bind, gets. by rewrite E. Qed.

Lemma upd_sb_run p b f s : super_blocks s !! p = Some b -> upd_sb p f s = Ok tt (sb_set p (f b) s).
Proof. intros E. unfold upd_sb, bind. by rewrite (get_sb_run p b). Qed.

Lemma alloc_block_loop sb b s n : forall fuel i,
  super_blocks s !! sb = Some b -> nblocks b <= PGSIZE / 4 -> 0 <= i ->
  i + Z.of_nat n = nblocks b -> (n < fuel)%nat ->
  loop fuel (fun block =>
    if block <? nblocks b then
      if negb (freemap_ok block) then fault
      else if default 0 (freemap b !! block) =? 0 then
        upd_sb sb (set_freemap (<[block := 1]> (freemap b))) ;;;
        ret (inr (RFS_BLK_OFFSET_FREE + block))
      else ret (inl (block + 1))
    else panic) i s =
  match filter (fun i => default 0 (freemap b !! i) = 0) (seqZ i (Z.of_nat n)) with
  | j :: _ => Ok (RFS_BLK_OFFSET_FREE + j) (sb_set sb (block_taken j b) s)
  | [] => Panic
  end.
Proof.
  intros fuel i Hb Hnb. revert i fuel.
  induction n as [|n IH]; intros i [|fuel] Hi Hn Hf; try lia; cbn [loop]; unfold bind at 1.
  - by rewrite (proj2 (Z.ltb_ge i (nblocks b))) by lia.
  - rewrite (proj2 (Z.ltb_lt i (nblocks b))) by lia.
    assert (freemap_ok i = true) as -> by (unfold freemap_ok; lia). cbn [negb].
    rewrite seqZ_cons, filter_cons by lia.
    destruct (Z.eqb_spec (default 0 (freemap b !! i)) 0) as [E|E].
    + rewrite decide_True by done. unfold bind. by rewrite (upd_sb_run sb b).
    + rewrite decide_False by done. unfold ret at 1. cbn iota. rewrite IH by lia.
      replace (Z.succ i) with (i + 1) by lia.
      by replace (Z.pred (Z.of_nat (S n))) with (Z.of_nat n) by lia.
Qed.

Lemma rfs_alloc_block_run sb b s :
  super_blocks s !! sb = Some b -> 0 <= nblocks b <= PGSIZE / 4 ->
  rfs_alloc_block sb s =
    match free_indices b with
    | i :: _ => Ok (RFS_BLK_OFFSET_FREE + i) (sb_set sb (block_taken i b) s)
    | [] => Panic
    end.
Proof.
  intros Hb Hn. unfold rfs_alloc_block, bind at 1. rewrite (get_sb_run sb b) by done.
  rewrite (alloc_block_loop sb b s (Z.to_nat (nblocks b))) by (done || lia).
  unfold free_indices. by rewrite Z2Nat.id by lia.
Qed.

Lemma free_indices_elem b i : i ∈ free_indices b <->
  0 <= i < nblocks b /\ default 0 (freemap b !! i) = 0.
Proof. unfold free_indices. rewrite list_elem_of_filter, elem_of_seqZ. lia. Qed.

Lemma free_indices_taken b i : NoDup (free_indices (block_taken i b)) /\
  (forall j, j ∈ free_indices (block_taken i b) <-> j ∈ free_indices b /\ j <> i).
Proof.
  split; [apply NoDup_filter, NoDup_seqZ|]. intros j. rewrite !free_indices_elem. simpl.
  rewrite lookup_insert. case_decide; simpl; [naive_solver lia|naive_solver].
Qed.

Lemma free_indices_length b i l : free_indices b = i :: l ->
  length (free_indices (block_taken i b)) = length l.
Proof.
  intros E. apply Permutation_length. apply NoDup_Permutation.
  - apply free_indices_taken.
  - assert (NoDup (free_indices b)) as Hnd by apply NoDup_filter, NoDup_seqZ.
    rewrite E in Hnd. by apply NoDup_cons in Hnd as [_ ?].
  - intros j. rewrite (proj2 (free_indices_taken b i)), E, elem_of_cons.
    assert (NoDup (free_indices b)) as Hnd by apply NoDup_filter, NoDup_seqZ.
    rewrite E in Hnd. apply NoDup_cons in Hnd as [Hni _]. naive_solver.
Qed.
