(* ===== verification/RfsFile.v ===== *)
(** * Files of the RAM disk file system: theorems

    [rfs_write] and [rfs_read] against a file as a sequence of bytes spread over
    the blocks of its inode. *)

From S2P Require Import Prelude Mem Pmm StringLib HashTable Vmm Kernel Fs Rfs RfsDisk.
From stdpp Require Import base gmap list fin_maps.
From Stdlib Require Import ZArith Lia Bool.

Set Default Goal Selector "!".
Open Scope Z_scope.

(** ** A file *)

(** Block [k] of an inode, and byte [i] of the file. *)
Definition block_at (v : vinode) (k : Z) : Z := default 0 (addrs v !! Z.to_nat k).
Definition fbyte (v : vinode) (r : rfs_device) (i : Z) : Z :=
  disk_byte r (block_at v (i / PGSIZE)) (i mod PGSIZE).

Definition in_use (b : super_block) (a : Z) : Prop :=
  default 0 (freemap b !! (a - RFS_BLK_OFFSET_FREE)) <> 0.

(** The blocks of the inode are distinct data blocks marked as used. *)
Record file_wf (v : vinode) (b : super_block) : Prop := {
  fw_length : length (addrs v) = Z.to_nat DIRECT_BLKNUM;
  fw_blocks : 0 <= blocks v <= DIRECT_BLKNUM;
  fw_nblocks : 0 <= nblocks b <= RFS_MAX_INODE_BLKNUM * RFS_DIRECT_BLKNUM;
  fw_data : forall k, 0 <= k < blocks v ->
    RFS_BLK_OFFSET_FREE <= block_at v k < RFS_BLK_OFFSET_FREE + nblocks b /\ in_use b (block_at v k);
  fw_inj : forall j k, 0 <= j < blocks v -> 0 <= k < blocks v ->
    block_at v j = block_at v k -> j = k
}.

(** Inode [f] is [v], on the device [d] with contents [r] and super block [b]. *)
Record on_disk (f d : Z) (v : vinode) (r : rfs_device) (b : super_block) (s : fs) : Prop := {
  od_v : vinodes s !! f = Some v;
  od_b : super_blocks s !! v_sb v = Some b;
  od_d : exists dv, devices s !! s_dev b = Some dv /\ dev_id dv = d;
  od_r : rfs_device_list s !! d = Some r;
  od_wf : file_wf v b
}.

(** The file may have gained blocks, all of them free before. *)
Record grows (v : vinode) (b : super_block) (v' : vinode) (b' : super_block) : Prop := {
  gr_v : v' = set_blocks (blocks v') (set_addrs (addrs v') v);
  gr_b : b' = set_freemap (freemap b') b;
  gr_blocks : 0 <= blocks v <= blocks v';
  gr_old : forall k, 0 <= k < blocks v -> block_at v' k = block_at v k;
  gr_new : forall k, blocks v <= k < blocks v' -> ~ in_use b (block_at v' k);
  gr_used : forall a, in_use b a -> in_use b' a;
  gr_free : Z.of_nat (length (free_indices b)) =
    Z.of_nat (length (free_indices b')) + (blocks v' - blocks v)
}.

(** What a write may change in the state. *)
Record frame (f d p : Z) (s s' : fs) : Prop := {
  fr_kernel : fs_kernel s' = fs_kernel s;
  fr_devices : devices s' = devices s;
  fr_vinodes : delete f (vinodes s') = delete f (vinodes s);
  fr_sbs : delete p (super_blocks s') = delete p (super_blocks s);
  fr_rdevs : delete d (rfs_device_list s') = delete d (rfs_device_list s)
}.

Lemma frame_refl f d p s : frame f d p s s.
Proof. done. Qed.

Lemma frame_trans f d p s1 s2 s3 : frame f d p s1 s2 -> frame f d p s2 s3 -> frame f d p s1 s3.
Proof. intros [] []. constructor; congruence. Qed.

Lemma grows_refl v b : 0 <= blocks v -> grows v b v b.
Proof.
  intros. constructor; try done; try lia; [by destruct v|by destruct b].
Qed.

Lemma grows_trans v1 b1 v2 b2 v3 b3 :
  grows v1 b1 v2 b2 -> grows v2 b2 v3 b3 -> grows v1 b1 v3 b3.
Proof.
  intros [V B N O W U F] [V' B' N' O' W' U' F']. constructor.
  - rewrite V', V. by destruct v1.
  - rewrite B', B. by destruct b1.
  - lia.
  - intros k Hk. rewrite O', O by lia. done.
  - intros k Hk Hu. destruct (Z.lt_ge_cases k (blocks v2)).
    + apply (W k); [lia|]. by rewrite <- O' by (pose proof Hk; lia).
    + apply (W' k); [lia|]. auto.
  - auto.
  - lia.
Qed.

(** ** Runs of the parts *)

Lemma get_vinode_run f v s : vinodes s !! f = Some v -> get_vinode f s = Ok v s.
Proof. intros E. unfold get_vinode, bind, gets. by rewrite E. Qed.

Definition vinode_set (f : Z) (v : vinode) (s : fs) : fs :=
  set_vinodes (<[f := v]> (vinodes s)) s.

Lemma upd_vinode_run f v g s : vinodes s !! f = Some v ->
  upd_vinode f g s = Ok tt (vinode_set f (g v) s).
Proof. intros E. unfold upd_vinode, bind. by rewrite (get_vinode_run f v). Qed.

Lemma get_addr_run v k s : length (addrs v) = Z.to_nat DIRECT_BLKNUM -> 0 <= k < DIRECT_BLKNUM ->
  get_addr (addrs v) k s = Ok (block_at v k) s.
Proof.
  intros Hl Hk. unfold get_addr, block_at.
  replace ((0 <=? k) && (k <? DIRECT_BLKNUM)) with true by lia.
  destruct (lookup_lt_is_Some_2 (addrs v) (Z.to_nat k)) as [a ->]; [lia|done].
Qed.

Section Run.
  Context (f d : Z) (v : vinode) (r : rfs_device) (b : super_block) (s : fs).
  Hypothesis H : on_disk f d v r b s.

Lemma rdev_of_run : rdev_of v s = Ok d s.
Proof.
  destruct H as [_ Hb [dv [Hd <-]] _ _]. unfold rdev_of, bind at 1.
  rewrite (get_sb_run _ b) by done. unfold bind, gets. by rewrite Hd.
Qed.

Lemma file_block_in_range k : 0 <= k < blocks v -> 0 <= block_at v k < RAMDISK_BLOCK_COUNT.
Proof.
  intros Hk. destruct H as [_ _ _ _ [_ _ Hn Hd _]]. destruct (Hd k Hk) as [Ha _].
  unfold RFS_BLK_OFFSET_FREE, RAMDISK_BLOCK_COUNT, RFS_MAX_INODE_BLKNUM, RFS_DIRECT_BLKNUM,
    DIRECT_BLKNUM in *. lia.
Qed.

(** The state with new device contents. *)
Lemma on_disk_rdev r' : on_disk f d v r' b (rdev_set d r' s) /\ frame f d (v_sb v) s (rdev_set d r' s).
Proof.
  destruct H. split; constructor; try done.
  - simpl. apply lookup_insert_eq.
  - simpl. by rewrite delete_insert_eq.
Qed.

End Run.

(** ** Getting a block to write to *)

Definition with_block (v : vinode) (a : Z) : vinode :=
  set_blocks (blocks v + 1) (set_addrs (<[Z.to_nat (blocks v) := a]> (addrs v)) v).

Lemma with_block_at v a k : length (addrs v) = Z.to_nat DIRECT_BLKNUM ->
  0 <= blocks v < DIRECT_BLKNUM -> 0 <= k ->
  block_at (with_block v a) k = if decide (k = blocks v) then a else block_at v k.
Proof.
  intros Hl Hb Hk. unfold block_at. simpl. case_decide as E.
  - subst k. rewrite list_lookup_insert_eq by lia. done.
  - rewrite list_lookup_insert_ne by lia. done.
Qed.

Lemma in_use_taken b i a : in_use (block_taken i b) a <-> in_use b a \/ a = RFS_BLK_OFFSET_FREE + i.
Proof.
  unfold in_use. simpl. rewrite lookup_insert. case_decide; simpl.
  - split; [right; lia|done].
  - split; [by left|]. intros [?| ->]; [done|lia].
Qed.

Section FileBlock.
  Context (f d : Z) (v : vinode) (r : rfs_device) (b : super_block) (s : fs).
  Hypothesis H : on_disk f d v r b s.

Lemma file_block_old k : 0 <= k < blocks v -> file_block f k s = Ok (block_at v k) s.
Proof.
  intros Hk. pose proof H as [Hv _ _ _ [Hl Hb _ _ _]].
  unfold file_block, bind at 1. rewrite (get_vinode_run f v) by done.
  rewrite (proj2 (Z.eqb_neq k (blocks v))) by lia. unfold bind at 1, ret at 1.
  unfold bind. rewrite (get_vinode_run f v) by done. apply get_addr_run; [done|lia].
Qed.

Definition extended (i : Z) : fs :=
  vinode_set f (with_block v (RFS_BLK_OFFSET_FREE + i)) (sb_set (v_sb v) (block_taken i b) s).

Lemma file_block_new i l : free_indices b = i :: l -> blocks v < DIRECT_BLKNUM ->
  file_block f (blocks v) s = Ok (RFS_BLK_OFFSET_FREE + i) (extended i).
Proof.
  intros Hi Hlt. pose proof H as [Hv Hb _ _ [Hl Hbl Hn _ _]].
  unfold file_block, bind at 1. rewrite (get_vinode_run f v) by done.
  rewrite Z.eqb_refl. unfold bind at 1, bind at 1.
  rewrite (rfs_alloc_block_run _ b) by (done ||
    (unfold RFS_MAX_INODE_BLKNUM, RFS_DIRECT_BLKNUM, DIRECT_BLKNUM, PGSIZE in *; dlia)).
  rewrite Hi. replace ((0 <=? blocks v) && (blocks v <? DIRECT_BLKNUM)) with true by lia.
  rewrite (upd_vinode_run f v) by done.
  rewrite s32_small by (unfold DIRECT_BLKNUM in *; lia). fold (with_block v (RFS_BLK_OFFSET_FREE + i)).
  fold (extended i). unfold bind.
  rewrite (get_vinode_run f (with_block v (RFS_BLK_OFFSET_FREE + i)))
    by (simpl; apply lookup_insert_eq).
  rewrite get_addr_run; [|simpl; by rewrite length_insert|lia].
  by rewrite with_block_at, decide_True by (done || lia).
Qed.

Lemma extended_ok i l : free_indices b = i :: l -> blocks v < DIRECT_BLKNUM ->
  on_disk f d (with_block v (RFS_BLK_OFFSET_FREE + i)) r (block_taken i b) (extended i) /\
  grows v b (with_block v (RFS_BLK_OFFSET_FREE + i)) (block_taken i b) /\
  frame f d (v_sb v) s (extended i).
Proof.
  intros Hi Hlt. pose proof H as [Hv Hb Hd Hr [Hl Hbl Hn Hda Hinj]].
  assert (i ∈ free_indices b) as [Hir Hi0]%free_indices_elem by (rewrite Hi; by left).
  assert (forall k, 0 <= k < blocks v -> block_at v k <> RFS_BLK_OFFSET_FREE + i) as Hfresh.
  { intros k Hk E. apply Hda in Hk as [_ Hu]. unfold in_use in Hu. rewrite E in Hu.
    by replace (RFS_BLK_OFFSET_FREE + i - RFS_BLK_OFFSET_FREE) with i in Hu by lia. }
  split_and!.
  - constructor; simpl; [apply lookup_insert_eq|apply lookup_insert_eq|done|done|].
    constructor; simpl; [by rewrite length_insert|lia|done| |].
    + intros k Hk. rewrite with_block_at by (done || lia). case_decide as E.
      * split; [unfold block_taken; simpl; lia|]. apply in_use_taken. by right.
      * destruct (Hda k) as [? ?]; [lia|]. split; [done|]. apply in_use_taken. by left.
    + intros j k Hj Hk. rewrite !with_block_at by (done || lia).
      repeat case_decide; try lia; intros E.
      * exfalso. apply (Hfresh k); [lia|done].
      * exfalso. apply (Hfresh j); [lia|done].
      * apply Hinj; [lia..|done].
  - constructor; simpl; try done.
    + lia.
    + intros k Hk. by rewrite with_block_at, decide_False by (done || lia).
    + intros k Hk. assert (k = blocks v) as -> by lia. rewrite with_block_at, decide_True by (done || lia).
      unfold in_use. replace (RFS_BLK_OFFSET_FREE + i - RFS_BLK_OFFSET_FREE) with i by lia. by intros [].
    + intros a Ha. apply in_use_taken. by left.
    + rewrite (free_indices_length b i l Hi), Hi. simpl. lia.
  - constructor; simpl; try done; by rewrite delete_insert_eq.
Qed.

Lemma file_block_spec k : 0 <= k < DIRECT_BLKNUM -> k <= blocks v ->
  (k = blocks v -> free_indices b <> []) ->
  exists v' b' s', file_block f k s = Ok (block_at v' k) s' /\
    on_disk f d v' r b' s' /\ grows v b v' b' /\ frame f d (v_sb v) s s' /\
    blocks v' = Z.max (blocks v) (k + 1).
Proof.
  intros Hk Hle Hfree. pose proof (fw_blocks _ _ (od_wf _ _ _ _ _ _ H)) as Hbl.
  pose proof (fw_length _ _ (od_wf _ _ _ _ _ _ H)) as Hl.
  destruct (Z.lt_ge_cases k (blocks v)).
  - exists v, b, s. split_and!; [apply file_block_old; lia|done|apply grows_refl; lia|done|lia].
  - assert (k = blocks v) as -> by lia. destruct (free_indices b) as [|i l] eqn:Ei; [by destruct Hfree|].
    destruct (extended_ok i l Ei) as (H1 & H2 & H3); [lia|].
    eexists _, _, _. split_and!; [|exact H1|exact H2|exact H3|simpl; lia].
    rewrite (file_block_new i l) by (done || lia).
    by rewrite with_block_at, decide_True by (done || lia).
Qed.

End FileBlock.

(** ** Writing one block *)

Definition buffered (dst src n : Z) (m : bytes) (r : rfs_device) : rfs_device :=
  set_iobuffer (blit (Z.to_nat n) m src (iobuffer r) dst) r.

Lemma to_iobuffer_run d r dst src n s : rfs_device_list s !! d = Some r ->
  0 <= n -> 0 <= dst -> dst + n <= PGSIZE -> in_dram src n = true ->
  to_iobuffer d dst src n s = Ok tt (rdev_set d (buffered dst src n (fs_mem s) r) s).
Proof.
  intros Hr Hn Hd Hle Hin. unfold to_iobuffer, bind, gets. rewrite Hin.
  replace ((0 <=? n) && (0 <=? dst) && (dst + n <=? RFS_BLKSIZE)) with true
    by (unfold RFS_BLKSIZE; lia).
  cbn [andb]. by rewrite (upd_rdev_run d r).
Qed.

Lemma buffered_byte dst src n m r i : 0 <= n -> load8 (iobuffer (buffered dst src n m r)) i =
  if decide (dst <= i < dst + n) then load8 m (src + (i - dst)) else load8 (iobuffer r) i.
Proof. intros Hn. simpl. rewrite load8_blit. by rewrite Z2Nat.id. Qed.

(** Bytes [from, from + n) of block [a] come from memory, the rest of the block
    from [old]. *)
Definition block_update (r r' : rfs_device) (a from n src : Z) (m : bytes) (old : Z -> Z) : Prop :=
  forall c i, 0 <= i < PGSIZE -> disk_byte r' c i =
    if decide (c = a) then
      if decide (from <= i < from + n) then load8 m (src + (i - from)) else old i
    else disk_byte r c i.

Lemma store_block_run d r a dst src n s : rfs_device_list s !! d = Some r ->
  0 <= a < RAMDISK_BLOCK_COUNT -> 0 <= n -> 0 <= dst -> dst + n <= PGSIZE -> in_dram src n = true ->
  exists r', (to_iobuffer d dst src n ;;; rfs_w1block d a) s = Ok 0 (rdev_set d r' s) /\
    block_update r r' a dst n src (fs_mem s) (load8 (iobuffer r)).
Proof.
  intros Hr Ha Hn Hd Hle Hin. exists (stored a (buffered dst src n (fs_mem s) r)). split.
  - unfold bind. rewrite (to_iobuffer_run d r) by done. unfold rfs_w1block.
    rewrite (ramdisk_write_run d (buffered dst src n (fs_mem s) r)) by auto with pke.
    by rewrite rdev_set_set.
  - intros c i Hi. rewrite stored_byte by done. case_decide; [|done]. by apply buffered_byte.
Qed.

(** ** Writing a range *)

(** Bytes [lo, hi) of the file now come from memory at [src]; the bytes of the
    first block before [lo] are kept, those of the last block after [hi] are
    [tail]; no other block changed. *)
Record wrote (v : vinode) (r r' : rfs_device) (lo hi src : Z) (m : bytes) (tail : Z -> Z) : Prop := {
  w_data : forall x, lo <= x < hi -> fbyte v r' x = load8 m (src + (x - lo));
  w_head : forall x, lo / PGSIZE * PGSIZE <= x < lo -> fbyte v r' x = fbyte v r x;
  w_tail : forall x, hi <= x -> x / PGSIZE = (hi - 1) / PGSIZE -> fbyte v r' x = tail x;
  w_rest : forall c i, 0 <= i < PGSIZE ->
    (forall j, lo / PGSIZE <= j <= (hi - 1) / PGSIZE -> c <> block_at v j) ->
    disk_byte r' c i = disk_byte r c i
}.

Definition distinct_upto (v : vinode) (n : Z) : Prop := forall j k,
  0 <= j < n -> 0 <= k < n -> block_at v j = block_at v k -> j = k.

Lemma wrote_block v r r' k from n src m old : 0 <= from -> 0 < n -> from + n <= PGSIZE ->
  block_update r r' (block_at v k) from n src m old ->
  (forall i, 0 <= i < from -> old i = disk_byte r (block_at v k) i) ->
  wrote v r r' (k * PGSIZE + from) (k * PGSIZE + from + n) src m (fun x => old (x mod PGSIZE)).
Proof.
  intros Hf Hn Hle Hu Hold. unfold block_update, PGSIZE in *. constructor; unfold fbyte, PGSIZE.
  - intros x Hx. assert (x / 4096 = k) as Ek by dlia. rewrite Ek.
    rewrite Hu, decide_True, decide_True by (done || dlia). f_equal. dlia.
  - intros x Hx. assert (x / 4096 = k) as Ek by dlia. rewrite Ek.
    rewrite Hu, decide_True, decide_False by (done || dlia). apply Hold. dlia.
  - intros x Hx Ex. assert (x / 4096 = k) as Ek by dlia. rewrite Ek.
    by rewrite Hu, decide_True, decide_False by (done || dlia).
  - intros c i Hi Hc. rewrite Hu by done. rewrite decide_False; [done|]. apply Hc. dlia.
Qed.

Lemma wrote_trans v r r1 r2 lo mid hi src m t1 t2 :
  0 <= lo -> lo < mid < hi -> mid mod PGSIZE = 0 -> distinct_upto v ((hi - 1) / PGSIZE + 1) ->
  wrote v r r1 lo mid src m t1 -> wrote v r1 r2 mid hi (src + (mid - lo)) m t2 ->
  wrote v r r2 lo hi src m t2.
Proof.
  intros Hlo Hm Hal Hd [D1 A1 T1 R1] [D2 A2 T2 R2]. unfold PGSIZE in *.
  assert (forall x, lo / 4096 * 4096 <= x < mid -> fbyte v r2 x = fbyte v r1 x) as Hkeep.
  { intros x Hx. apply R2; [unfold PGSIZE; dlia|]. intros j Hj E. apply Hd in E; [|unfold PGSIZE in *; dlia..].
    unfold PGSIZE in E. dlia. }
  constructor; unfold PGSIZE in *.
  - intros x Hx. destruct (Z.lt_ge_cases x mid).
    + rewrite Hkeep by dlia. apply D1. lia.
    + rewrite D2 by lia. f_equal. lia.
  - intros x Hx. rewrite Hkeep by dlia. by apply A1.
  - intros x Hx Ex. by apply T2.
  - intros c i Hi Hc. rewrite R2, R1; [done|done| |done|].
    + intros j Hj. apply Hc. dlia.
    + intros j Hj. apply Hc. dlia.
Qed.

Lemma wrote_grows v v' b b' r r' lo hi src m t : 0 <= lo -> (hi - 1) / PGSIZE < blocks v ->
  grows v b v' b' -> wrote v r r' lo hi src m t -> lo < hi -> wrote v' r r' lo hi src m t.
Proof.
  intros Hlo Hb Hg [D A T R] Hlt. unfold PGSIZE in *.
  assert (forall j, 0 <= j <= (hi - 1) / 4096 -> block_at v' j = block_at v j) as E.
  { intros j Hj. apply (gr_old _ _ _ _ Hg). lia. }
  assert (forall x q, 0 <= x -> x / 4096 <= (hi - 1) / 4096 -> fbyte v' q x = fbyte v q x) as Ef.
  { intros x q H0 H1. unfold fbyte, PGSIZE. rewrite E; [done|]. dlia. }
  constructor; unfold PGSIZE in *.
  - intros x Hx. rewrite Ef by dlia. by apply D.
  - intros x Hx. rewrite !Ef by dlia. by apply A.
  - intros x Hx Ex. rewrite Ef by dlia. by apply T.
  - intros c i Hi Hc. apply R; [done|]. intros j Hj. rewrite <- E by dlia. by apply Hc.
Qed.

(** A range that may be empty. *)
Definition advanced (v : vinode) (r r' : rfs_device) (lo hi src : Z) (m : bytes) (tail : Z -> Z) : Prop :=
  lo = hi /\ (forall c i, disk_byte r' c i = disk_byte r c i) \/ lo < hi /\ wrote v r r' lo hi src m tail.

Lemma wrote_same_start v r r0 r' lo hi src m t : (forall c i, disk_byte r0 c i = disk_byte r c i) ->
  wrote v r0 r' lo hi src m t -> wrote v r r' lo hi src m t.
Proof.
  intros E [D A T R]. constructor; auto.
  - intros x Hx. rewrite A by done. apply E.
  - intros c i Hi Hc. rewrite R by done. apply E.
Qed.

Lemma advanced_trans v r r1 r2 lo mid hi src m t1 t2 :
  0 <= lo -> mid mod PGSIZE = 0 -> distinct_upto v ((hi - 1) / PGSIZE + 1) ->
  advanced v r r1 lo mid src m t1 -> mid < hi -> wrote v r1 r2 mid hi (src + (mid - lo)) m t2 ->
  wrote v r r2 lo hi src m t2.
Proof.
  intros Hlo Hal Hd [[-> E]|[Hlt Hw]] Hmh Hw2.
  - rewrite Z.sub_diag, Z.add_0_r in Hw2. by eapply wrote_same_start.
  - by eapply wrote_trans.
Qed.

(** A write to a block of the file, allocated if need be. *)
Lemma write_round f d v r b s k src n :
  on_disk f d v r b s -> 0 <= k < DIRECT_BLKNUM -> k <= blocks v ->
  (k = blocks v -> free_indices b <> []) -> 0 < n <= PGSIZE -> in_dram src n = true ->
  exists v' r' b' s',
    (forall A (K : M fs A), (let* a := file_block f k in
       to_iobuffer d 0 src n ;;; let* _ := rfs_w1block d a in K) s = K s') /\
    on_disk f d v' r' b' s' /\ grows v b v' b' /\ frame f d (v_sb v) s s' /\
    blocks v' = Z.max (blocks v) (k + 1) /\
    wrote v' r r' (k * PGSIZE) (k * PGSIZE + n) src (fs_mem s)
      (fun x => load8 (iobuffer r) (x mod PGSIZE)).
Proof.
  intros H Hk Hle Hfree Hn Hin.
  destruct (file_block_spec f d v r b s H k Hk Hle Hfree) as (v' & b' & s1 & Hf & Hod & Hg & Hfr & Hbl).
  assert (0 <= block_at v' k < RAMDISK_BLOCK_COUNT) as Ha.
  { apply (file_block_in_range f d v' r b' s1 Hod). lia. }
  destruct (store_block_run d r (block_at v' k) 0 src n s1) as (r' & Hrun & Hu);
    try done; try lia; [apply Hod|].
  assert (v_sb v' = v_sb v) as Hsb by (by rewrite (gr_v _ _ _ _ Hg)).
  destruct (on_disk_rdev f d v' r b' s1 Hod r') as [Hod' Hfr'].
  exists v', r', b', (rdev_set d r' s1). split_and!; try done.
  - intros A K. unfold bind at 1. rewrite Hf. unfold bind in *.
    destruct (to_iobuffer d 0 src n s1) as [[] s2| | |]; try done. by rewrite Hrun.
  - rewrite Hsb in Hfr'. by eapply frame_trans.
  - assert (fs_mem s1 = fs_mem s) as Em by (unfold fs_mem; by rewrite (fr_kernel _ _ _ _ _ Hfr)).
    rewrite Em in Hu. rewrite <- (Z.add_0_r (k * PGSIZE)).
    apply wrote_block; [lia|lia|lia|done|]. intros i Hi. lia.
Qed.

Lemma wrote_any_tail v r r' lo hi src m t t' : hi mod PGSIZE = 0 ->
  wrote v r r' lo hi src m t -> wrote v r r' lo hi src m t'.
Proof.
  intros Hal [D A T R]. constructor; auto. unfold PGSIZE in *. intros x Hx Ex. dlia.
Qed.

Lemma wrote_same_end v r r1 r' lo hi src m t : (forall c i, disk_byte r' c i = disk_byte r1 c i) ->
  wrote v r r1 lo hi src m t -> wrote v r r' lo hi src m t.
Proof.
  intros E [D A T R]. constructor.
  - intros x Hx. unfold fbyte. rewrite E. by apply D.
  - intros x Hx. unfold fbyte. rewrite E. by apply A.
  - intros x Hx Ex. unfold fbyte. rewrite E. by apply T.
  - intros c i Hi Hc. rewrite E. by apply R.
Qed.

Lemma wrote_advanced v r r1 r2 lo mid hi src m t1 t2 :
  0 <= lo -> lo < mid <= hi -> mid mod PGSIZE = 0 -> hi mod PGSIZE = 0 ->
  distinct_upto v ((hi - 1) / PGSIZE + 1) ->
  wrote v r r1 lo mid src m t1 -> advanced v r1 r2 mid hi (src + (mid - lo)) m t2 ->
  wrote v r r2 lo hi src m t2.
Proof.
  intros Hlo Hm Hal Hal' Hd Hw [[-> E]|[Hlt Hw2]].
  - eapply wrote_any_tail; [done|]. by eapply wrote_same_end.
  - eapply (wrote_trans v r r1 r2 lo mid hi); try done; lia.
Qed.

Lemma on_disk_distinct f d v r b s n : on_disk f d v r b s -> n <= blocks v -> distinct_upto v n.
Proof. intros H Hn j k Hj Hk. apply (fw_inj _ _ (od_wf _ _ _ _ _ _ H)); lia. Qed.

Lemma in_dram_part a n b k : in_dram a n = true -> a <= b -> b + k <= a + n -> in_dram b k = true.
Proof. unfold in_dram. lia. Qed.

Section WriteLoop.
  Context (f d w_buf : Z).

Definition write_body (x : Z * Z * Z) : M fs (Z * Z * Z + Z * Z) :=
  let '(buf_offset, block_offset, writetimes) := x in
  if negb (writetimes =? 0) then
    let* b := file_block f block_offset in
    to_iobuffer d 0 (w_buf + buf_offset) RFS_BLKSIZE ;;;
    let* _ := rfs_w1block d b in
    ret (inl (buf_offset + RFS_BLKSIZE, block_offset + 1, writetimes - 1))
  else ret (inr (buf_offset, block_offset)).

Lemma write_loop n : forall fuel v r b s k o,
  on_disk f d v r b s -> 0 <= k -> k + Z.of_nat n <= DIRECT_BLKNUM -> k <= blocks v ->
  k + Z.of_nat n - blocks v <= Z.of_nat (length (free_indices b)) -> (n < fuel)%nat ->
  in_dram (w_buf + o) (Z.of_nat n * PGSIZE) = true ->
  exists v' r' b' s',
    loop fuel write_body (o, k, Z.of_nat n) s =
      Ok (o + Z.of_nat n * PGSIZE, k + Z.of_nat n) s' /\
    on_disk f d v' r' b' s' /\ grows v b v' b' /\ frame f d (v_sb v) s s' /\
    blocks v' = Z.max (blocks v) (k + Z.of_nat n) /\
    (n = O -> s' = s) /\
    advanced v' r r' (k * PGSIZE) ((k + Z.of_nat n) * PGSIZE) (w_buf + o) (fs_mem s) (fun _ => 0).
Proof.
  induction n as [|n IH]; intros [|fuel] v r b s k o H Hk Hmax Hle Hfree Hf Hin; try lia;
    cbn [loop]; unfold bind at 1.
  - simpl. exists v, r, b, s. rewrite !Z.mul_0_l, !Z.add_0_r.
    split_and!; try done; [|lia|by left].
    apply grows_refl, (od_wf _ _ _ _ _ _ H).
  - unfold write_body. rewrite (proj2 (Z.eqb_neq _ 0)) by lia. cbn [negb].
    destruct (write_round f d v r b s k (w_buf + o) PGSIZE H) as
      (v1 & r1 & b1 & s1 & Hrun & H1 & Hg1 & Hf1 & Hb1 & Hw1); try (unfold PGSIZE; lia).
    { intros -> E. rewrite E in Hfree. simpl in Hfree. lia. }
    { eapply in_dram_part; [exact Hin|lia|]. unfold PGSIZE. lia. }
    unfold RFS_BLKSIZE. rewrite Hrun. unfold ret at 1. cbn iota.
    replace (Z.of_nat (S n) - 1) with (Z.of_nat n) by lia.
    pose proof (gr_free _ _ _ _ Hg1) as Hfr1.
    destruct (IH fuel v1 r1 b1 s1 (k + 1) (o + PGSIZE)) as
      (v' & r' & b' & s' & Hrun' & H' & Hg' & Hf' & Hb' & _ & Hw'); try done; try lia.
    { eapply in_dram_part; [exact Hin|unfold PGSIZE; lia|]. unfold PGSIZE. lia. }
    assert (v_sb v1 = v_sb v) as Hsb by (by rewrite (gr_v _ _ _ _ Hg1)).
    assert (fs_mem s1 = fs_mem s) as Em by (unfold fs_mem; by rewrite (fr_kernel _ _ _ _ _ Hf1)).
    exists v', r', b', s'. split_and!.
    + etrans; [exact Hrun'|]. do 2 f_equal; lia.
    + done.
    + by eapply grows_trans.
    + rewrite Hsb in Hf'. by eapply frame_trans.
    + lia.
    + done.
    + right. split; [unfold PGSIZE; lia|]. rewrite Em in Hw'.
      eapply (wrote_advanced v' r r1 r' _ ((k + 1) * PGSIZE)).
      * unfold PGSIZE. lia.
      * unfold PGSIZE. lia.
      * apply Z.mod_mul. done.
      * apply Z.mod_mul. done.
      * eapply (on_disk_distinct f d v' r' b' s'); [done|]. unfold PGSIZE. dlia.
      * eapply (wrote_grows v1 v' b1 b'); [unfold PGSIZE; lia| |done| |unfold PGSIZE; lia].
        -- unfold PGSIZE. dlia.
        -- replace ((k + 1) * PGSIZE) with (k * PGSIZE + PGSIZE) by lia. exact Hw1.
      * replace (w_buf + o + ((k + 1) * PGSIZE - k * PGSIZE)) with (w_buf + (o + PGSIZE)) by lia.
        replace (k + Z.of_nat (S n)) with (k + 1 + Z.of_nat n) by lia. exact Hw'.
Qed.

End WriteLoop.

Section WriteRest.
  Context (f d w_buf : Z).

(** Complete blocks, then the remaining data. *)
Definition write_rest (x : Z * Z * Z) (remain : Z) : M fs unit :=
  let* (buf_offset, block_offset) := loop (Z.to_nat (snd x) + 1) (write_body f d w_buf) x in
  if 0 <? remain then
    let* b := file_block f block_offset in
    to_iobuffer d 0 (w_buf + buf_offset) remain ;;;
    let* _ := rfs_w1block d b in
    ret tt
  else ret tt.

Lemma write_rest_run n rem v r b s k o :
  on_disk f d v r b s -> 0 <= k <= blocks v -> 0 <= n -> 0 <= rem < PGSIZE ->
  let hi := k * PGSIZE + n * PGSIZE + rem in
  let top := (hi + PGSIZE - 1) / PGSIZE in
  hi <= DIRECT_BLKNUM * PGSIZE -> top - blocks v <= Z.of_nat (length (free_indices b)) ->
  in_dram (w_buf + o) (n * PGSIZE + rem) = true ->
  exists v' r' b' s' tail, write_rest (o, k, n) rem s = Ok tt s' /\
    on_disk f d v' r' b' s' /\ grows v b v' b' /\ frame f d (v_sb v) s s' /\
    blocks v' = Z.max (blocks v) top /\
    advanced v' r r' (k * PGSIZE) hi (w_buf + o) (fs_mem s) tail /\
    (n = 0 -> forall x, tail x = load8 (iobuffer r) (x mod PGSIZE)).
Proof.
  intros H Hk Hn Hrem hi top Hhi Hfree Hin. unfold write_rest. cbn [snd].
  assert (k + n <= top) as Htop by (unfold top, hi, PGSIZE in *; dlia).
  destruct (write_loop f d w_buf (Z.to_nat n) (Z.to_nat n + 1) v r b s k o) as
    (v1 & r1 & b1 & s1 & Hrun & H1 & Hg1 & Hf1 & Hb1 & Hs1 & Hw1); rewrite ?Z2Nat.id by lia;
    try done; try lia.
  { unfold hi, PGSIZE, DIRECT_BLKNUM in *. lia. }
  { eapply in_dram_part; [exact Hin|lia|lia]. }
  rewrite Z2Nat.id in Hrun, Hb1, Hw1 by lia.
  unfold bind at 1. rewrite Hrun. destruct (Z.ltb_spec 0 rem) as [Hr|Hr].
  2: { assert (rem = 0) as -> by lia.
       assert (hi = (k + n) * PGSIZE) as Ehi by (unfold hi; lia).
       exists v1, r1, b1, s1, (fun x => load8 (iobuffer r) (x mod PGSIZE)).
       split_and!; try done.
       - unfold top. rewrite Ehi, Hb1. unfold PGSIZE. f_equal. dlia.
       - rewrite Ehi. destruct Hw1 as [[? ?]|[? Hw1]]; [by left|right]. split; [done|].
         eapply wrote_any_tail; [apply Z.mod_mul; done|exact Hw1]. }
  assert (top = k + n + 1) as Et by (unfold top, hi, PGSIZE in *; dlia).
  assert (fs_mem s1 = fs_mem s) as Em by (unfold fs_mem; by rewrite (fr_kernel _ _ _ _ _ Hf1)).
  assert (v_sb v1 = v_sb v) as Hsb by (by rewrite (gr_v _ _ _ _ Hg1)).
  destruct (write_round f d v1 r1 b1 s1 (k + n) (w_buf + (o + n * PGSIZE)) rem H1) as
    (v' & r' & b' & s' & Hrun' & H' & Hg' & Hf' & Hb' & Hw').
  { unfold hi, PGSIZE, DIRECT_BLKNUM in *. lia. }
  { lia. }
  { intros E E0. pose proof (gr_free _ _ _ _ Hg1) as Hfr. rewrite E0 in Hfr. simpl in Hfr. lia. }
  { lia. }
  { eapply in_dram_part; [exact Hin|unfold PGSIZE; lia|lia]. }
  exists v', r', b', s', (fun x => load8 (iobuffer r1) (x mod PGSIZE)). rewrite Hrun'.
  split_and!; try done.
  - by eapply grows_trans.
  - rewrite Hsb in Hf'. by eapply frame_trans.
  - lia.
  - right. split; [unfold hi, PGSIZE in *; lia|]. rewrite Em in Hw'.
    replace ((k + n) * PGSIZE + rem) with hi in Hw' by (unfold hi; lia).
    eapply (advanced_trans v' r r1 r' _ ((k + n) * PGSIZE)).
    + unfold PGSIZE. lia.
    + apply Z.mod_mul. done.
    + eapply (on_disk_distinct f d v' r' b' s'); [done|]. unfold hi, PGSIZE in *. dlia.
    + destruct Hw1 as [?|[Hlt Hw1]]; [by left|right]. split; [done|].
      eapply (wrote_grows v1 v' b1 b'); [unfold PGSIZE; lia| |done|exact Hw1|done].
      unfold PGSIZE. dlia.
    + unfold hi, PGSIZE in *. lia.
    + replace (w_buf + o + ((k + n) * PGSIZE - k * PGSIZE)) with (w_buf + (o + n * PGSIZE)) by lia.
      exact Hw'.
  - intros -> x. rewrite Hs1 in H1 by done. f_equal. f_equal.
    pose proof (od_r _ _ _ _ _ _ H). pose proof (od_r _ _ _ _ _ _ H1). congruence.
Qed.

End WriteRest.

(** The first block of a write that does not start at a block boundary. *)
Lemma write_first f d v r b s w_buf off n : on_disk f d v r b s -> 0 <= off ->
  off / PGSIZE < blocks v -> 0 < n -> off mod PGSIZE + n <= PGSIZE -> in_dram w_buf n = true ->
  exists r1, (forall A (K : M fs A),
    (let* a := get_addr (addrs v) (off / PGSIZE) in
     let* _ := rfs_r1block d a in
     to_iobuffer d (off mod PGSIZE) w_buf n ;;;
     let* _ := rfs_w1block d a in K) s = K (rdev_set d r1 s)) /\
    wrote v r r1 off (off + n) w_buf (fs_mem s) (fbyte v r).
Proof.
  intros H H0 Hk Hn Hle Hin. set (k := off / PGSIZE) in *.
  assert (0 <= k) as Hk0 by (unfold k, PGSIZE; dlia).
  pose proof (file_block_in_range f d v r b s H k ltac:(lia)) as Ha.
  pose proof H as [_ _ _ Hr [Hl Hbl _ _ _]].
  assert (0 <= off mod PGSIZE) as Hal by (unfold PGSIZE; dlia).
  destruct (store_block_run d (loaded (block_at v k) r) (block_at v k) (off mod PGSIZE) w_buf n
    (rdev_set d (loaded (block_at v k) r) s)) as (r1 & Hrun & Hu); try done; try lia;
    [auto with pke|].
  exists r1. split.
  - intros A K. unfold bind at 1. rewrite get_addr_run by (done || lia).
    unfold bind at 1, rfs_r1block. rewrite (ramdisk_read_run d r) by done.
    unfold bind in Hrun |- *.
    destruct (to_iobuffer d (off mod PGSIZE) w_buf n _) as [[] s2| | |]; try done.
    rewrite Hrun. by rewrite rdev_set_set.
  - assert (off = k * PGSIZE + off mod PGSIZE) as Eo by (unfold k, PGSIZE; dlia).
    rewrite Eo at 1 2. change (fs_mem s) with (fs_mem (rdev_set d (loaded (block_at v k) r) s)).
    pose proof (wrote_block v (loaded (block_at v k) r) r1 k (off mod PGSIZE) n w_buf _ _
      Hal Hn Hle Hu) as Hw.
    destruct Hw as [D A T R].
    { intros i Hi. by rewrite loaded_byte by lia. }
    constructor; [exact D|exact A| |exact R].
    intros x Hx Ex. rewrite T by done. rewrite loaded_byte by (unfold PGSIZE; dlia).
    unfold fbyte. f_equal. f_equal. unfold PGSIZE in *. dlia.
Qed.

Section Write.
  Context (f d w_buf len off : Z) (v : vinode).

(** The three phases of [rfs_write]; [first_len] bytes go to the first block when
    it is not written from its start. *)
Definition write_times : Z := (len + off mod PGSIZE) / PGSIZE.
Definition first_len : Z := if write_times =? 0 then len else PGSIZE - off mod PGSIZE.

Definition write_start : M fs (Z * Z * Z) :=
  if negb (off mod PGSIZE =? 0) then
    let* b := get_addr (addrs v) (off / PGSIZE) in
    let* _ := rfs_r1block d b in
    to_iobuffer d (off mod PGSIZE) w_buf first_len ;;;
    let* _ := rfs_w1block d b in
    ret (first_len, off / PGSIZE + 1, write_times - 1)
  else ret (0, off / PGSIZE, write_times).

Definition write_data : M fs unit :=
  let* x := write_start in
  if 0 <=? snd x then write_rest f d w_buf x ((len + off mod PGSIZE) mod PGSIZE) else ret tt.

Lemma rfs_write_unfold s : vinodes s !! f = Some v -> rdev_of v s = Ok d s ->
  off <= v_size v -> 0 <= off -> 0 < len -> off + len < 2 ^ 31 ->
  rfs_write f w_buf len off s =
    (write_data ;;;
     upd_vinode f (fun v =>
       set_v_size (s32 (if v_size v <? off + len then off + len else v_size v)) v) ;;;
     ret (len, s32 (off + len))) s.
Proof.
  intros Hv Hd Hle H0 Hlen Hmax. unfold rfs_write, bind at 1. rewrite (get_vinode_run f v) by done.
  rewrite (proj2 (Z.ltb_ge (v_size v) off)) by done. unfold RFS_BLKSIZE.
  rewrite Z.quot_div_nonneg by (unfold PGSIZE; lia).
  rewrite (Z.rem_mod_nonneg off) by (unfold PGSIZE; lia).
  assert (0 <= off mod PGSIZE <= off) as Hal by (unfold PGSIZE; dlia).
  rewrite Z.quot_div_nonneg, Z.rem_mod_nonneg by (unfold PGSIZE in *; lia).
  rewrite (s32_small ((len + off mod PGSIZE) / PGSIZE)) by (unfold PGSIZE in *; dlia).
  rewrite (s32_small ((len + off mod PGSIZE) mod PGSIZE)) by (unfold PGSIZE in *; dlia).
  unfold bind at 1. rewrite Hd. fold write_times. fold first_len.
  unfold write_data, write_start. destruct (negb (off mod PGSIZE =? 0)).
  - unfold bind. destruct (get_addr _ _ s) as [a s1| | |]; try done.
    destruct (rfs_r1block d a s1) as [? s2| | |]; try done.
    destruct (to_iobuffer _ _ _ _ s2) as [? s3| | |]; try done.
    destruct (rfs_w1block d a s3) as [? s4| | |]; done.
  - done.
Qed.

  Context (r : rfs_device) (b : super_block) (s : fs).
  Hypothesis H : on_disk f d v r b s.
  Hypothesis Hoff : 0 <= off <= v_size v.
  Hypothesis Hsize : v_size v <= blocks v * PGSIZE.
  Hypothesis Hlen : 0 < len.
  Hypothesis Hmax : off + len <= DIRECT_BLKNUM * PGSIZE.
  Hypothesis Hin : in_dram w_buf len = true.
  Hypothesis Hfree :
    (off + len + PGSIZE - 1) / PGSIZE - blocks v <= Z.of_nat (length (free_indices b)).

(** What the bytes after the range in its last block become. *)
Definition tail_ok (tail : Z -> Z) : Prop :=
  (off mod PGSIZE <> 0 -> off mod PGSIZE + len < PGSIZE -> forall x, tail x = fbyte v r x) /\
  (off mod PGSIZE = 0 -> len < PGSIZE -> forall x, tail x = load8 (iobuffer r) (x mod PGSIZE)).

Lemma write_data_aligned : off mod PGSIZE = 0 -> exists v' r' b' s' tail,
  write_data s = Ok tt s' /\ on_disk f d v' r' b' s' /\ grows v b v' b' /\
  frame f d (v_sb v) s s' /\ wrote v' r r' off (off + len) w_buf (fs_mem s) tail /\
  off + len <= blocks v' * PGSIZE /\ tail_ok tail.
Proof.
  intros Hal. unfold write_data, write_start. rewrite Hal. cbn [Z.eqb negb].
  unfold bind at 1, ret at 1. cbn [snd]. unfold write_times. rewrite Hal, Z.add_0_r.
  assert (off = off / PGSIZE * PGSIZE) as Eo by (unfold PGSIZE in *; dlia).
  assert (len = len / PGSIZE * PGSIZE + len mod PGSIZE) as El by (unfold PGSIZE in *; dlia).
  assert (off / PGSIZE * PGSIZE + len / PGSIZE * PGSIZE + len mod PGSIZE = off + len) as Eh by lia.
  rewrite (proj2 (Z.leb_le 0 _)) by (unfold PGSIZE in *; dlia).
  destruct (write_rest_run f d w_buf (len / PGSIZE) (len mod PGSIZE) v r b s (off / PGSIZE) 0 H)
    as (v' & r' & b' & s' & tail & Hrun & H' & Hg & Hf & Hb & Hw & Ht).
  { unfold PGSIZE in *. dlia. }
  { unfold PGSIZE in *. dlia. }
  { unfold PGSIZE. dlia. }
  { by rewrite Eh. }
  { rewrite Eh. done. }
  { rewrite Z.add_0_r, <- El. done. }
  rewrite Eh, <- Eo, Z.add_0_r in Hw. destruct Hw as [[? _]|[_ Hw]]; [lia|].
  exists v', r', b', s', tail. do 5 (split; [done|]).
  split; [cbv zeta in Hb; rewrite Eh in Hb; rewrite Hb; unfold PGSIZE; dlia|]. split; [done|].
  intros _ Hlt. apply Ht. unfold PGSIZE in *. dlia.
Qed.

Lemma write_data_unaligned : off mod PGSIZE <> 0 -> exists v' r' b' s' tail,
  write_data s = Ok tt s' /\ on_disk f d v' r' b' s' /\ grows v b v' b' /\
  frame f d (v_sb v) s s' /\ wrote v' r r' off (off + len) w_buf (fs_mem s) tail /\
  off + len <= blocks v' * PGSIZE /\ tail_ok tail.
Proof.
  intros Hal. unfold write_data, write_start. rewrite (proj2 (Z.eqb_neq _ 0)) by done. cbn [negb].
  assert (0 < off mod PGSIZE < PGSIZE) as Hr by (unfold PGSIZE in *; dlia).
  assert (off / PGSIZE < blocks v) as Hk by (unfold PGSIZE in *; dlia).
  assert (0 < first_len <= len /\ off mod PGSIZE + first_len <= PGSIZE) as [Hfl Hfe].
  { unfold first_len, write_times. case_match eqn:E; unfold PGSIZE in *; dlia. }
  destruct (write_first f d v r b s w_buf off first_len H) as (r1 & Hrun1 & Hw1);
    [lia|done|lia|done|by eapply in_dram_part; [exact Hin|lia|lia]|].
  destruct (on_disk_rdev f d v r b s H r1) as [H1 Hf1].
  unfold bind at 1. rewrite Hrun1. unfold ret at 1. cbn [snd].
  unfold first_len in *. destruct (Z.eqb_spec write_times 0) as [E|E].
  - exists v, r1, b, (rdev_set d r1 s), (fbyte v r). rewrite E.
    do 5 (split; [first [done|apply grows_refl, H]|]).
    split; [unfold write_times, PGSIZE in *; dlia|]. split; [done|]. intros ?. lia.
  - assert (1 <= write_times) by (unfold write_times, PGSIZE in *; dlia).
    rewrite (proj2 (Z.leb_le 0 _)) by lia. set (k := off / PGSIZE + 1).
    set (rem := (len + off mod PGSIZE) mod PGSIZE).
    assert (k * PGSIZE + (write_times - 1) * PGSIZE + rem = off + len) as Eh.
    { unfold k, rem, write_times, PGSIZE in *. dlia. }
    assert (off + (PGSIZE - off mod PGSIZE) = k * PGSIZE) as Ek by (unfold k, PGSIZE in *; dlia).
    destruct (write_rest_run f d w_buf (write_times - 1) rem v r1 b (rdev_set d r1 s) k
      (PGSIZE - off mod PGSIZE) H1) as (v' & r' & b' & s' & tail & Hrun & H' & Hg & Hf & Hb & Hw & _).
    { unfold k, PGSIZE in *. dlia. }
    { lia. }
    { unfold rem, PGSIZE. dlia. }
    { by rewrite Eh. }
    { by rewrite Eh. }
    { eapply in_dram_part; [exact Hin|lia|]. unfold k, PGSIZE in *. lia. }
    cbv zeta in Hb. rewrite Eh in Hw, Hb. rewrite Ek in Hw1.
    assert (tail_ok tail) as Ht.
    { split; [|done]. intros _ Hlt. unfold write_times, PGSIZE in *. exfalso. dlia. }
    assert (wrote v' r r1 off (k * PGSIZE) w_buf (fs_mem s) (fbyte v r)) as Hw1'.
    { eapply (wrote_grows v v' b b'); [lia| |done|done|lia]. unfold k, PGSIZE in *. dlia. }
    exists v', r', b', s', tail. do 4 (split; [first [done|by eapply frame_trans]|]).
    split; [|split; [rewrite Hb; unfold PGSIZE; dlia|done]].
    change (fs_mem (rdev_set d r1 s)) with (fs_mem s) in Hw.
    assert (k * PGSIZE mod PGSIZE = 0) as Hkm by (apply Z.mod_mul; done).
    destruct Hw as [[Ee Esame]|[Hlt Hw]].
    + rewrite <- Ee. eapply wrote_any_tail; [done|]. by eapply wrote_same_end.
    + eapply (wrote_trans v' r r1 r' off (k * PGSIZE)); try done; [lia|lia| |].
      * eapply (on_disk_distinct f d v' r' b' s'); [done|].
        rewrite Hb. unfold PGSIZE. dlia.
      * replace (w_buf + (k * PGSIZE - off)) with (w_buf + (PGSIZE - off mod PGSIZE)) by lia.
        exact Hw.
Qed.

End Write.

(** A file that can be written at [off] for [len] bytes. *)
Record writable_at (v : vinode) (b : super_block) (w_buf len off : Z) : Prop := {
  wa_off : 0 <= off <= v_size v;
  wa_size : v_size v <= blocks v * PGSIZE;
  wa_len : 0 < len;
  wa_max : off + len <= DIRECT_BLKNUM * PGSIZE;
  wa_buf : in_dram w_buf len = true;
  wa_free : (off + len + PGSIZE - 1) / PGSIZE - blocks v <= Z.of_nat (length (free_indices b))
}.

Lemma rfs_write_run f d w_buf len off v r b s :
  on_disk f d v r b s -> writable_at v b w_buf len off ->
  exists v1 v' r' b' s' tail, rfs_write f w_buf len off s = Ok (len, off + len) s' /\
    on_disk f d v' r' b' s' /\ grows v b v1 b' /\
    v' = set_v_size (Z.max (v_size v) (off + len)) v1 /\ frame f d (v_sb v) s s' /\
    wrote v' r r' off (off + len) w_buf (fs_mem s) tail /\ tail_ok len off v r tail /\
    v_size v' <= blocks v' * PGSIZE.
Proof.
  intros H [Hoff Hsize Hlen Hmax Hin Hfree].
  assert (blocks v <= DIRECT_BLKNUM) as Hb by apply (od_wf _ _ _ _ _ _ H).
  rewrite (rfs_write_unfold f d w_buf len off v);
    [|apply H|by eapply rdev_of_run|lia|lia|done|unfold DIRECT_BLKNUM, PGSIZE in *; lia].
  assert (exists v' r' b' s' tail, write_data f d w_buf len off v s = Ok tt s' /\
    on_disk f d v' r' b' s' /\ grows v b v' b' /\ frame f d (v_sb v) s s' /\
    wrote v' r r' off (off + len) w_buf (fs_mem s) tail /\
    off + len <= blocks v' * PGSIZE /\ tail_ok len off v r tail)
    as (v' & r' & b' & s' & tail & Hrun & H' & Hg & Hf & Hw & Hb' & Ht).
  { destruct (Z.eq_dec (off mod PGSIZE) 0).
    - by eapply write_data_aligned.
    - by eapply write_data_unaligned. }
  pose proof (gr_v _ _ _ _ Hg) as Ev. assert (v_size v' = v_size v) as Es by (by rewrite Ev).
  exists v', (set_v_size (Z.max (v_size v) (off + len)) v'), r', b',
    (vinode_set f (set_v_size (Z.max (v_size v) (off + len)) v') s'), tail.
  unfold bind. rewrite Hrun. rewrite (upd_vinode_run f v') by apply H'. rewrite Es.
  assert (v_size v < 2 ^ 31 /\ off + len < 2 ^ 31) as [? ?]
    by (unfold DIRECT_BLKNUM, PGSIZE in *; lia).
  split; [|split].
  - rewrite (s32_small (off + len)) by lia. unfold ret. do 3 f_equal.
    destruct (Z.ltb_spec (v_size v) (off + len)); rewrite s32_small; lia.
  - destruct H' as [Hv' Hsb' Hd' Hr' [F1 F2 F3 F4 F5]]. constructor; try done.
    simpl. apply lookup_insert_eq.
  - do 2 (split; [done|]). split; [|split; [|split; [done|]]].
    + destruct Hf. constructor; try done. simpl. by rewrite delete_insert_eq.
    + destruct Hw. by constructor.
    + pose proof (gr_blocks _ _ _ _ Hg). simpl. unfold PGSIZE in *. lia.
Qed.

Section Effect.
  Context (f d w_buf len off : Z) (v v1 v' : vinode) (r r' : rfs_device) (b b' : super_block).
  Context (s s' : fs) (m : bytes) (tail : Z -> Z).
  Hypothesis H : on_disk f d v r b s.
  Hypothesis Hw : writable_at v b w_buf len off.
  Hypothesis H' : on_disk f d v' r' b' s'.
  Hypothesis Hg : grows v b v1 b'.
  Hypothesis Ev : v' = set_v_size (Z.max (v_size v) (off + len)) v1.
  Hypothesis Hwr : wrote v' r r' off (off + len) w_buf m tail.
  Hypothesis Hs : v_size v' <= blocks v' * PGSIZE.

Lemma old_block k : 0 <= k < blocks v -> block_at v' k = block_at v k.
Proof. intros Hk. rewrite Ev. apply (gr_old _ _ _ _ Hg k Hk). Qed.

Lemma other_block x : 0 <= x < v_size v ->
  x / PGSIZE < off / PGSIZE \/ (off + len - 1) / PGSIZE < x / PGSIZE -> fbyte v' r' x = fbyte v r x.
Proof.
  intros Hx Hk. destruct Hw as [? Hsz ? ? _ _].
  assert (0 <= x / PGSIZE < blocks v) as Hb by (unfold PGSIZE in *; dlia).
  unfold fbyte. rewrite (w_rest _ _ _ _ _ _ _ _ Hwr).
  - by rewrite old_block.
  - unfold PGSIZE. dlia.
  - intros j Hj E.
    assert (off + len <= blocks v' * PGSIZE) as Hle by (rewrite Ev in Hs |- *; simpl in *; lia).
    assert (blocks v <= blocks v') as Hbb by (rewrite Ev; apply Hg).
    apply (fw_inj _ _ (od_wf _ _ _ _ _ _ H')) in E; [lia|lia|].
    unfold PGSIZE in *. dlia.
Qed.

Lemma before_range x : 0 <= x < off -> fbyte v' r' x = fbyte v r x.
Proof.
  intros Hx. destruct (Z.lt_ge_cases (x / PGSIZE) (off / PGSIZE)) as [Hlt|Hge].
  - apply other_block; [|by left]. destruct Hw. lia.
  - rewrite (w_head _ _ _ _ _ _ _ _ Hwr) by (unfold PGSIZE in *; dlia).
    unfold fbyte. rewrite old_block; [done|]. destruct Hw. unfold PGSIZE in *. dlia.
Qed.

Lemma other_files a i : in_use b a -> (forall k, 0 <= k < blocks v -> a <> block_at v k) ->
  0 <= i < PGSIZE -> disk_byte r' a i = disk_byte r a i.
Proof.
  intros Hu Hk Hi. apply (w_rest _ _ _ _ _ _ _ _ Hwr); [done|]. intros j Hj ->.
  assert (off + len <= blocks v' * PGSIZE) as Hle by (rewrite Ev in Hs |- *; simpl in *; lia).
  destruct Hw. destruct (Z.lt_ge_cases j (blocks v)) as [Hlt|Hge].
  - apply (Hk j); [unfold PGSIZE in *; dlia|]. apply old_block. unfold PGSIZE in *. dlia.
  - apply (gr_new _ _ _ _ Hg j); [|by rewrite Ev in Hu].
    rewrite Ev in Hle. simpl in Hle. unfold PGSIZE in *. dlia.
Qed.

End Effect.

(** C25: [rfs_write] writes the file it is given and no other.  For a write of
    [len] bytes at an offset not past the end of the file, within the 10 blocks
    of an inode and with enough free blocks, it returns [len], advances the
    offset by [len], and the bytes [off, off+len) of the file are those of the
    buffer; the bytes before [off] and those in later blocks are kept, the size
    is the larger of the old one and the end of the write, the blocks of the file
    are still distinct blocks marked in the bitmap, and every block that was in
    use by another file keeps its contents. *)
Theorem rfs_write_correct f d w_buf len off v r b s :
  on_disk f d v r b s -> writable_at v b w_buf len off ->
  exists v' r' b' s', rfs_write f w_buf len off s = Ok (len, off + len) s' /\
    on_disk f d v' r' b' s' /\ v_size v' = Z.max (v_size v) (off + len) /\
    fs_mem s' = fs_mem s /\
    (forall i, off <= i < off + len -> fbyte v' r' i = load8 (fs_mem s) (w_buf + (i - off))) /\
    (forall i, 0 <= i < off -> fbyte v' r' i = fbyte v r i) /\
    (forall i, off + len <= i < v_size v -> (off + len - 1) / PGSIZE < i / PGSIZE ->
       fbyte v' r' i = fbyte v r i) /\
    (forall a i, in_use b a -> (forall k, 0 <= k < blocks v -> a <> block_at v k) ->
       0 <= i < PGSIZE -> disk_byte r' a i = disk_byte r a i).
Proof.
  intros H Hw. destruct (rfs_write_run f d w_buf len off v r b s H Hw)
    as (v1 & v' & r' & b' & s' & tail & Hrun & H' & Hg & Ev & Hf & Hwr & _ & Hs).
  exists v', r', b', s'. split_and!; try done.
  - by rewrite Ev.
  - unfold fs_mem. by rewrite (fr_kernel _ _ _ _ _ Hf).
  - apply Hwr.
  - by eapply before_range.
  - intros i Hi Hk. eapply other_block; try done; [|by right]. destruct Hw. lia.
  - by eapply other_files.
Qed.

(** C37: a short write at a block boundary overwrites the rest of the block.
    The bytes of the file after the written range, up to the end of that block,
    become the stale contents of the device's I/O buffer, as the block is not
    read before the new bytes are put in front of it.  A write that starts inside
    a block keeps them. *)
Theorem rfs_write_short_clobbers_tail f d w_buf len off v r b s :
  on_disk f d v r b s -> writable_at v b w_buf len off ->
  off mod PGSIZE + len < PGSIZE ->
  exists v' r' b' s', rfs_write f w_buf len off s = Ok (len, off + len) s' /\
    on_disk f d v' r' b' s' /\
    forall i, off + len <= i < v_size v -> i / PGSIZE = off / PGSIZE ->
      fbyte v' r' i =
        if off mod PGSIZE =? 0 then load8 (iobuffer r) (i mod PGSIZE) else fbyte v r i.
Proof.
  intros H Hw Hsh. destruct (rfs_write_run f d w_buf len off v r b s H Hw)
    as (v1 & v' & r' & b' & s' & tail & Hrun & H' & Hg & Ev & Hf & Hwr & [T1 T2] & Hs).
  exists v', r', b', s'. split_and!; try done. intros i Hi Hk. destruct Hw.
  rewrite (w_tail _ _ _ _ _ _ _ _ Hwr) by (unfold PGSIZE in *; dlia).
  destruct (Z.eqb_spec (off mod PGSIZE) 0); [apply T2; [done|lia]|by apply T1].
Qed.

(** ** Reading *)

Lemma from_iobuffer_run d r src buf dst n s : rfs_device_list s !! d = Some r ->
  0 <= n -> 0 <= src -> src + n <= PGSIZE ->
  from_iobuffer d src buf dst n s = Ok (blit (Z.to_nat n) (iobuffer r) src buf dst) s.
Proof.
  intros Hr Hn Hs Hle. unfold from_iobuffer, bind. rewrite (get_rdev_run d r) by done.
  by replace ((0 <=? n) && (0 <=? src) && (src + n <=? RFS_BLKSIZE)) with true
    by (unfold RFS_BLKSIZE; lia).
Qed.

Section Read.
  Context (f d : Z) (v : vinode) (r : rfs_device) (b : super_block) (s : fs).
  Hypothesis H : on_disk f d v r b s.

(** The state with the device contents [r'] in place of [r]; reading changes only
    the I/O buffer. *)
Lemma read_round r' k src buf dst n : disk r' = disk r -> 0 <= k < blocks v ->
  0 <= n -> 0 <= src -> src + n <= PGSIZE ->
  exists r'' buf',
    (forall A (K : bytes -> M fs A),
      (let* a := get_addr (addrs v) k in
       let* _ := rfs_r1block d a in
       let* buf := from_iobuffer d src buf dst n in K buf) (rdev_set d r' s) =
      K buf' (rdev_set d r'' s)) /\
    disk r'' = disk r /\
    forall x, load8 buf' x = if decide (dst <= x < dst + n)
      then fbyte v r (k * PGSIZE + src + (x - dst)) else load8 buf x.
Proof.
  intros Hr' Hk Hn Hs Hle. pose proof (file_block_in_range f d v r b s H k Hk) as Ha.
  pose proof H as [_ _ _ Hr [Hl Hb _ _ _]].
  set (r'' := loaded (block_at v k) r').
  exists r'', (blit (Z.to_nat n) (iobuffer r'') src buf dst). split_and!; [|done|].
  - intros A K. unfold bind at 1. rewrite get_addr_run by (done || lia).
    unfold bind at 1, rfs_r1block. rewrite (ramdisk_read_run d r') by auto with pke.
    unfold bind. rewrite (from_iobuffer_run d r'') by auto with pke. by rewrite rdev_set_set.
  - intros x. rewrite load8_blit, Z2Nat.id by done. case_decide; [|done].
    unfold r''. rewrite loaded_byte by lia. unfold fbyte, disk_byte. rewrite Hr'.
    f_equal. unfold PGSIZE in *.
    assert ((k * 4096 + src + (x - dst)) / 4096 = k) as -> by dlia. dlia.
Qed.

Definition read_body (x : bytes * Z * Z * Z) : M fs (bytes * Z * Z * Z + bytes * Z * Z) :=
  let '(buffer, buf_offset, block_offset, readtimes) := x in
  if negb (readtimes =? 0) then
    let* b := get_addr (addrs v) block_offset in
    let* _ := rfs_r1block d b in
    let* buffer := from_iobuffer d 0 buffer buf_offset RFS_BLKSIZE in
    ret (inl (buffer, buf_offset + RFS_BLKSIZE, block_offset + 1, readtimes - 1))
  else ret (inr (buffer, buf_offset, block_offset)).

Lemma read_loop n : forall fuel r' buf o k,
  disk r' = disk r -> 0 <= k -> k + Z.of_nat n <= blocks v -> (n < fuel)%nat ->
  exists r'' buf',
    loop fuel read_body (buf, o, k, Z.of_nat n) (rdev_set d r' s) =
      Ok (buf', o + Z.of_nat n * PGSIZE, k + Z.of_nat n) (rdev_set d r'' s) /\
    disk r'' = disk r /\
    forall x, load8 buf' x = if decide (o <= x < o + Z.of_nat n * PGSIZE)
      then fbyte v r (k * PGSIZE + (x - o)) else load8 buf x.
Proof.
  induction n as [|n IH]; intros [|fuel] r' buf o k Hr' Hk Hb Hf; try lia; cbn [loop];
    unfold bind at 1.
  - simpl. exists r', buf. rewrite !Z.add_0_r. split_and!; try done.
    intros x. case_decide; [lia|done].
  - unfold read_body at 1. rewrite (proj2 (Z.eqb_neq _ 0)) by lia. cbn [negb]. unfold RFS_BLKSIZE.
    destruct (read_round r' k 0 buf o PGSIZE) as (r1 & buf1 & Hrun & Hd1 & Hb1);
      [done|lia|done..|].
    rewrite Hrun. unfold ret at 1. cbn iota.
    replace (Z.of_nat (S n) - 1) with (Z.of_nat n) by lia.
    destruct (IH fuel r1 buf1 (o + PGSIZE) (k + 1)) as (r'' & buf' & Hrun' & Hd' & Hb');
      [done|lia|lia|lia|].
    exists r'', buf'. split_and!; [|done|].
    + etrans; [exact Hrun'|]. do 2 f_equal; [f_equal|]; lia.
    + intros x. rewrite Hb', Hb1. unfold PGSIZE in *.
      repeat case_decide; try lia; try done; f_equal; lia.
Qed.

Lemma read_rest n rem r' buf o k : disk r' = disk r -> 0 <= k -> 0 <= n -> 0 <= rem < PGSIZE ->
  k + n + (if 0 <? rem then 1 else 0) <= blocks v ->
  exists r'' buf',
    (let* (buffer, buf_offset, block_offset) :=
       loop (Z.to_nat (n + 1)) read_body (buf, o, k, n) in
     if 0 <? rem then
       let* b := get_addr (addrs v) block_offset in
       let* _ := rfs_r1block d b in
       from_iobuffer d 0 buffer buf_offset rem
     else ret buffer) (rdev_set d r' s) = Ok buf' (rdev_set d r'' s) /\
    disk r'' = disk r /\
    forall x, load8 buf' x = if decide (o <= x < o + n * PGSIZE + rem)
      then fbyte v r (k * PGSIZE + (x - o)) else load8 buf x.
Proof.
  intros Hr' Hk Hn Hrem Hb.
  destruct (read_loop (Z.to_nat n) (Z.to_nat (n + 1)) r' buf o k) as (r1 & buf1 & Hrun & Hd1 & Hb1);
    [done|done|destruct (0 <? rem); lia|lia|]. rewrite Z2Nat.id in Hrun, Hb1 by done.
  unfold bind at 1. rewrite Hrun. destruct (Z.ltb_spec 0 rem).
  - destruct (read_round r1 (k + n) 0 buf1 (o + n * PGSIZE) rem) as (r2 & buf2 & Hrun2 & Hd2 & Hb2);
      [done|lia|lia|lia|lia|].
    exists r2, buf2. split_and!; [|done|].
    + etrans; [|exact (Hrun2 _ ret)]. unfold bind.
      destruct (get_addr _ _ _); try done. destruct (rfs_r1block _ _ _); try done.
      by destruct (from_iobuffer _ _ _ _ _ _).
    + intros x. rewrite Hb2, Hb1. unfold PGSIZE in *.
      repeat case_decide; try lia; try done; f_equal; lia.
  - exists r1, buf1. split_and!; [done|done|]. intros x. rewrite Hb1.
    replace (o + n * PGSIZE + rem) with (o + n * PGSIZE) by lia. done.
Qed.

End Read.

(** The first [n] bytes of memory from [a], and of a file from [off]. *)
Definition bytes_at (m : bytes) (a n : Z) : list Z := (fun i => load8 m (a + i)) <$> seqZ 0 n.
Definition file_bytes (v : vinode) (r : rfs_device) (off n : Z) : list Z :=
  (fun i => fbyte v r (off + i)) <$> seqZ 0 n.

Fixpoint upto_nul (l : list Z) : list Z :=
  match l with
  | [] => []
  | c :: l => if c =? 0 then [] else c :: upto_nul l
  end.

Lemma string_at_bytes n : forall m a, load8 m (a + Z.of_nat n) = 0 ->
  string_at (n + 1) m a = Some (upto_nul (bytes_at m a (Z.of_nat n))).
Proof.
  unfold bytes_at. induction n as [|n IH]; intros m a H0; simpl.
  - rewrite Z.add_0_r in H0. by rewrite H0.
  - rewrite seqZ_cons by lia. simpl. rewrite Z.add_0_r.
    destruct (Z.eqb_spec (load8 m a) 0); [done|].
    rewrite IH by (rewrite <- H0; f_equal; lia). simpl. do 3 f_equal.
    replace (Z.pred (Z.of_nat (S n))) with (Z.of_nat n) by lia.
    change (Z.succ 0) with (1 + 0). rewrite <- fmap_add_seqZ, <- list_fmap_compose.
    apply list_fmap_ext.
    intros i x Hx. simpl. f_equal. lia.
Qed.

Lemma upto_nul_length l : (length (upto_nul l) <= length l)%nat.
Proof. induction l as [|c l IH]; simpl; [done|]. case_match; simpl; lia. Qed.

Lemma rdev_set_id d r s : rfs_device_list s !! d = Some r -> rdev_set d r s = s.
Proof. intros Hr. unfold rdev_set. rewrite insert_id by done. by destruct s. Qed.

Lemma strcpy_out_run r_buf buf n s : 0 <= n -> in_dram r_buf (n + 1) = true ->
  strcpy_out r_buf (store8 buf n 0) n s =
    Ok tt (set_fs_mem (put_string (fs_mem s) r_buf (upto_nul (bytes_at buf 0 n))) s).
Proof.
  intros Hn Hin. unfold strcpy_out, bind.
  rewrite string_at_bytes by (rewrite Z2Nat.id, Z.add_0_l by done; by rewrite load8_store8_eq).
  rewrite Z2Nat.id by done. cbn [of_option]. unfold ret.
  assert (bytes_at (store8 buf n 0) 0 n = bytes_at buf 0 n) as ->.
  { apply list_fmap_ext. intros i x Hx. apply lookup_seqZ in Hx as [-> Hi].
    apply load8_store8_ne. lia. }
  pose proof (upto_nul_length (bytes_at buf 0 n)) as Hl. unfold bytes_at in Hl at 2.
  rewrite length_fmap, length_seqZ in Hl.
  rewrite (in_dram_part r_buf (n + 1)) by (done || lia). done.
Qed.

(** The data of the read, in the local buffer. *)
Definition read_data (d : Z) (v : vinode) (off n : Z) : M fs bytes :=
  let readtimes := (off mod PGSIZE + n) / PGSIZE in
  let remain := (off mod PGSIZE + n) mod PGSIZE in
  let* b := get_addr (addrs v) (off / PGSIZE) in
  let* _ := rfs_r1block d b in
  let first_block_len := if readtimes =? 0 then n else PGSIZE - off mod PGSIZE in
  let* buffer := from_iobuffer d (off mod PGSIZE) ∅ 0 first_block_len in
  if 0 <=? readtimes - 1 then
    let* (buffer, buf_offset, block_offset) :=
      loop (Z.to_nat readtimes) (read_body d v)
        (buffer, first_block_len, off / PGSIZE + 1, readtimes - 1) in
    if 0 <? remain then
      let* b := get_addr (addrs v) block_offset in
      let* _ := rfs_r1block d b in
      from_iobuffer d 0 buffer buf_offset remain
    else ret buffer
  else ret buffer.

Lemma read_data_run f d off n v r b s : on_disk f d v r b s -> 0 <= off -> 0 < n ->
  off + n <= blocks v * PGSIZE ->
  exists r' buf, read_data d v off n s = Ok buf (rdev_set d r' s) /\ disk r' = disk r /\
    bytes_at buf 0 n = file_bytes v r off n.
Proof.
  intros H Hoff Hn Hb. replace (read_data d v off n s) with (read_data d v off n (rdev_set d r s))
    by (by rewrite (rdev_set_id d r s) by apply H). unfold read_data.
  set (times := (off mod PGSIZE + n) / PGSIZE). set (rem := (off mod PGSIZE + n) mod PGSIZE).
  set (fl := if times =? 0 then n else PGSIZE - off mod PGSIZE).
  assert (0 <= fl /\ off mod PGSIZE + fl <= PGSIZE) as [Hfl Hfe].
  { unfold fl, times. case_match eqn:E; unfold PGSIZE in *; dlia. }
  destruct (read_round f d v r b s H r (off / PGSIZE) (off mod PGSIZE) ∅ 0 fl)
    as (r1 & buf1 & Hrun1 & Hd1 & Hb1); [done|unfold PGSIZE in *; dlia|done| |done|].
  { unfold PGSIZE. dlia. }
  rewrite Hrun1. unfold fl in *. destruct (Z.eqb_spec times 0) as [E|E].
  - rewrite (proj2 (Z.leb_gt _ _)) by lia. exists r1, buf1. split_and!; [done|done|].
    apply list_fmap_ext. intros i x Hx. apply lookup_seqZ in Hx as [-> Hi].
    rewrite Hb1, decide_True by lia. f_equal. unfold PGSIZE. dlia.
  - rewrite (proj2 (Z.leb_le _ _)) by (unfold times, PGSIZE in *; dlia).
    destruct (read_rest f d v r b s H (times - 1) rem r1 buf1 (PGSIZE - off mod PGSIZE)
      (off / PGSIZE + 1)) as (r2 & buf2 & Hrun2 & Hd2 & Hb2); [done| | | | |].
    { unfold PGSIZE in *. dlia. }
    { unfold times, PGSIZE in *. dlia. }
    { unfold rem, PGSIZE. dlia. }
    { unfold times, rem, PGSIZE in *. case_match eqn:Er; dlia. }
    replace (times - 1 + 1) with times in Hrun2 by lia.
    exists r2, buf2. split_and!; [exact Hrun2|done|].
    apply list_fmap_ext. intros i x Hx. apply lookup_seqZ in Hx as [-> Hi].
    rewrite Hb2, Hb1. repeat case_decide; unfold times, rem, PGSIZE in *;
      first [exfalso; dlia|f_equal; dlia].
Qed.

Lemma rfs_read_run f d r_buf len off v r b s :
  on_disk f d v r b s -> 0 <= off < v_size v -> v_size v <= blocks v * PGSIZE -> 0 < len ->
  let n := Z.min len (v_size v - off) in
  in_dram r_buf (n + 1) = true ->
  exists r', rfs_read f r_buf len off s = Ok (n, off + n)
      (set_fs_mem (put_string (fs_mem s) r_buf (upto_nul (file_bytes v r off n))) (rdev_set d r' s)) /\
    disk r' = disk r.
Proof.
  intros H Hoff Hsz Hlen n Hin. pose proof (fw_blocks _ _ (od_wf _ _ _ _ _ _ H)) as Hbl.
  destruct (read_data_run f d off n v r b s H) as (r' & buf & Hrun & Hd & Hbuf);
    [lia|lia|lia|]. exists r'. split; [|done].
  assert (n <= 40960) by (unfold DIRECT_BLKNUM, PGSIZE in *; lia).
  unfold rfs_read, bind at 1. rewrite (get_vinode_run f v) by apply H.
  rewrite (proj2 (Z.ltb_ge (v_size v) off)) by lia.
  replace (if v_size v <? off + len then v_size v - off else len) with n
    by (unfold n; destruct (Z.ltb_spec (v_size v) (off + len)); lia).
  rewrite (proj2 (Z.ltb_ge n 0)) by lia. unfold RFS_BLKSIZE.
  rewrite (Z.quot_div_nonneg off) by (unfold PGSIZE; lia).
  rewrite (Z.rem_mod_nonneg off) by (unfold PGSIZE; lia).
  assert (0 <= off mod PGSIZE < PGSIZE) as Hal by (unfold PGSIZE; dlia).
  rewrite Z.quot_div_nonneg, Z.rem_mod_nonneg by (unfold PGSIZE in *; lia).
  rewrite !s32_small by (unfold DIRECT_BLKNUM, PGSIZE in *; dlia).
  unfold bind at 1. rewrite (rdev_of_run f d v r b s H).
  transitivity ((let* buffer := read_data d v off n in
    strcpy_out r_buf (store8 buffer n 0) n ;;; ret (n, off + n)) s).
  - unfold read_data, bind. destruct (get_addr _ _ s) as [a s1| | |]; try done.
    destruct (rfs_r1block d a s1) as [? s2| | |]; try done.
    by destruct (from_iobuffer _ _ _ _ _ s2) as [? s3| | |].
  - unfold bind. rewrite Hrun, strcpy_out_run by (done || lia). by rewrite Hbuf.
Qed.

(** C27: [rfs_read] returns the bytes of the file.  Reading [len] bytes at an
    offset before the end of the file returns the number of bytes up to the end
    of the file or [len], advances the offset by it, and puts the bytes of the
    file from that offset, up to the first NUL, as a string in the buffer; the
    disk and the inodes are unchanged.  Reading past the end panics. *)
Theorem rfs_read_correct f d r_buf len off v r b s :
  on_disk f d v r b s -> 0 <= off -> v_size v <= blocks v * PGSIZE -> 0 < len ->
  let n := Z.min len (v_size v - off) in
  (v_size v < off -> rfs_read f r_buf len off s = Panic) /\
  (off < v_size v -> in_dram r_buf (n + 1) = true ->
   exists r' s', rfs_read f r_buf len off s = Ok (n, off + n) s' /\
     fs_mem s' = put_string (fs_mem s) r_buf (upto_nul (file_bytes v r off n)) /\
     rfs_device_list s' !! d = Some r' /\ disk r' = disk r /\ vinodes s' = vinodes s).
Proof.
  intros H Hoff Hsz Hlen n. split.
  - intros Hlt. unfold rfs_read, bind at 1. rewrite (get_vinode_run f v) by apply H.
    by rewrite (proj2 (Z.ltb_lt (v_size v) off)) by lia.
  - intros Hlt Hin. destruct (rfs_read_run f d r_buf len off v r b s H) as (r' & Hrun & Hd);
      [lia|done..|].
    eexists r', _. split_and!; [exact Hrun|done|simpl; apply lookup_insert_eq|done|done].
Qed.

(** C9: what is written to a file is read back.  After a write of [len] bytes,
    reading [len] bytes at the same offset returns [len] and stores in the
    reader's buffer the bytes written, up to their first NUL. *)
Theorem rfs_write_read_roundtrip f d w_buf r_buf len off v r b s :
  on_disk f d v r b s -> writable_at v b w_buf len off -> in_dram r_buf (len + 1) = true ->
  exists s1 s2, rfs_write f w_buf len off s = Ok (len, off + len) s1 /\
    rfs_read f r_buf len off s1 = Ok (len, off + len) s2 /\
    fs_mem s2 = put_string (fs_mem s) r_buf (upto_nul (bytes_at (fs_mem s) w_buf len)).
Proof.
  intros H Hw Hin. destruct (rfs_write_run f d w_buf len off v r b s H Hw)
    as (v1 & v' & r' & b' & s1 & tail & Hrun & H' & Hg & Ev & Hf & Hwr & _ & Hs).
  destruct Hw as [Hoff _ Hlen _ _ _].
  assert (Z.min len (v_size v' - off) = len) as En by (rewrite Ev; simpl; lia).
  destruct (rfs_read_run f d r_buf len off v' r' b' s1 H') as (r2 & Hrun2 & _);
    rewrite ?En; try done; [rewrite Ev; simpl; lia|].
  rewrite En in Hrun2. eexists s1, _. split_and!; [done|exact Hrun2|].
  assert (fs_mem s1 = fs_mem s) as -> by (unfold fs_mem; by rewrite (fr_kernel _ _ _ _ _ Hf)).
  assert (file_bytes v' r' off len = bytes_at (fs_mem s) w_buf len) as ->; [|done].
  apply list_fmap_ext. intros i x Hx. apply lookup_seqZ in Hx as [-> Hi].
  rewrite (w_data _ _ _ _ _ _ _ _ Hwr) by lia. f_equal. lia.
Qed.

(** ** An open file, for the examples *)

Definition demo_sb : super_block := SuperBlock RFS_MAGIC 112 100 320 0 0x80003000 {[0 := 1; 1 := 1]}.
Definition demo_inode : vinode :=
  Vinode 1 1 100 FILE_I 1 1 [13; 0; 0; 0; 0; 0; 0; 0; 0; 0] 0 0x80002000 rfs_i_ops.
Definition demo_text : bytes := put_string ∅ 0x80010000 [104; 101; 108; 108; 111].
Definition file_fs : fs :=
  Fs (Kernel (Vm (set_mem demo_text (free_pages 4)) 0) ∅ ∅ ∅ ∅ ∅ 0 ∅ 0 0 ∅ 0 0 0 0 0 ∅ ∅)
    {[0 := RfsDev ∅ {[50 := 7]}]} {[0x80001000 := demo_inode]} ∅ {[0x80002000 := demo_sb]}
    {[0x80003000 := Device [] 0 RFS_TYPE]} ∅ ∅ ∅ ∅ ∅ ∅ ∅ ∅ ∅ ∅.

Lemma file_fs_on_disk : on_disk 0x80001000 0 demo_inode (RfsDev ∅ {[50 := 7]}) demo_sb file_fs.
Proof.
  constructor; try reflexivity; [by eexists|].
  constructor; [reflexivity|vm_compute; split; congruence|vm_compute; split; congruence| |];
    simpl.
  - intros k Hk. assert (k = 0) as -> by lia. split; [vm_compute; split; congruence|done].
  - lia.
Qed.

Lemma demo_writable len off : 0 < len -> 0 <= off <= 100 -> len <= 4000 ->
  writable_at demo_inode demo_sb 0x80010000 len off.
Proof.
  intros. constructor; simpl; unfold DIRECT_BLKNUM, PGSIZE in *; try lia.
  - unfold in_dram. layout. lia.
  - assert ((off + len + 4096 - 1) / 4096 <= 2) by dlia.
    change (length (free_indices demo_sb)) with 98%nat. lia.
Qed.

Lemma rfs_write_correct_witness : exists v' r' b' s',
  rfs_write 0x80001000 0x80010000 5 0 file_fs = Ok (5, 5) s' /\
  on_disk 0x80001000 0 v' r' b' s' /\ fbyte v' r' 1 = 101.
Proof.
  destruct (rfs_write_correct 0x80001000 0 0x80010000 5 0 demo_inode (RfsDev ∅ {[50 := 7]})
    demo_sb file_fs file_fs_on_disk) as (v' & r' & b' & s' & H1 & H2 & _ & _ & H3 & _);
    [apply demo_writable; lia|].
  exists v', r', b', s'. split; [exact H1|]. split; [exact H2|]. rewrite H3 by lia. reflexivity.
Defined.

Lemma rfs_write_short_clobbers_tail_witness : exists v' r' s',
  rfs_write 0x80001000 0x80010000 5 0 file_fs = Ok (5, 5) s' /\ fbyte v' r' 50 = 7.
Proof.
  destruct (rfs_write_short_clobbers_tail 0x80001000 0 0x80010000 5 0 demo_inode
    (RfsDev ∅ {[50 := 7]}) demo_sb file_fs file_fs_on_disk) as (v' & r' & b' & s' & H1 & _ & H2);
    [apply demo_writable; lia|reflexivity|].
  exists v', r', s'. split; [exact H1|]. rewrite H2; [reflexivity|simpl; lia|reflexivity].
Defined.

Lemma rfs_read_correct_witness : exists s',
  rfs_read 0x80001000 0x80020000 20 90 file_fs = Ok (10, 100) s' /\
  rfs_read 0x80001000 0x80020000 20 101 file_fs = Panic.
Proof.
  destruct (rfs_read_correct 0x80001000 0 0x80020000 20 90 demo_inode (RfsDev ∅ {[50 := 7]})
    demo_sb file_fs file_fs_on_disk) as [_ H]; [lia|vm_compute; congruence|lia|].
  destruct H as (r' & s' & H1 & _); [simpl; lia|reflexivity|].
  exists s'. split; [exact H1|].
  apply (rfs_read_correct 0x80001000 0 0x80020000 20 101 demo_inode (RfsDev ∅ {[50 := 7]})
    demo_sb file_fs file_fs_on_disk); [lia|vm_compute; congruence|lia|simpl; lia].
Defined.

Lemma rfs_write_read_roundtrip_witness : exists s1 s2,
  rfs_write 0x80001000 0x80010000 5 0 file_fs = Ok (5, 5) s1 /\
  rfs_read 0x80001000 0x80020000 5 0 s1 = Ok (5, 5) s2 /\
  fs_mem s2 = put_string (fs_mem file_fs) 0x80020000 [104; 101; 108; 108; 111].
Proof.
  destruct (rfs_write_read_roundtrip 0x80001000 0 0x80010000 0x80020000 5 0 demo_inode
    (RfsDev ∅ {[50 := 7]}) demo_sb file_fs file_fs_on_disk) as (s1 & s2 & H1 & H2 & H3);
    [apply demo_writable; lia|reflexivity|].
  exists s1, s2. split; [exact H1|]. split; [exact H2|]. rewrite H3. reflexivity.
Defined.
