(* ===== verification/Hostfs.v ===== *)
(** * Files of the host (spike_interface/spike_file.c, kernel/hostfs.c)

    The table of open host files with its reference counts, and the file system
    that maps paths to them.  The host behind [frontend_syscall] is a parameter
    ([Host]): a call may read and write memory and answers with an integer. *)

From S2P Require Import Prelude Mem Pmm StringLib HashTable Vmm Kernel Fs Rfs.
From stdpp Require Import base gmap list fin_maps.
From Stdlib Require Import ZArith Lia Bool.

Set Default Goal Selector "!".
Open Scope Z_scope.

(** ** The host *)

(** The requests the kernel sends; a path is passed by its contents. *)
Inductive host_call : Type :=
| HTIFSYS_openat (path : name) (flags mode : Z)
| HTIFSYS_close (fd : Z)
| HTIFSYS_read (fd buf size : Z)
| HTIFSYS_pread (fd buf size off : Z)
| HTIFSYS_write (fd buf size : Z)
| HTIFSYS_lseek (fd ptr dir : Z)
| HTIFSYS_mkdirat (path : name) (mode : Z)
| HTIFSYS_getdents (fd dirp count : Z).

(** The fields of [struct stat] the kernel uses. *)
Record stat : Type := Stat {
  hst_ino : Z; hst_size : Z; hst_nlink : Z; hst_blocks : Z; hst_mode : Z
}.

Class Host : Type := {
  frontend_syscall : host_call -> M fs Z;
  frontend_fstat : Z -> M fs (Z * stat)
}.

Definition MAX_FDS : Z := 128.
Definition ENOMEM : Z := 12.
Definition INIT_FILE_REF : Z := 3.
Definition O_RDONLY : Z := 0.
Definition O_WRONLY : Z := 1.
Definition O_RDWR : Z := 2.
Definition O_CREAT : Z := 64.
Definition S_IFMT : Z := 0xF000.
Definition S_IFDIR : Z := 0x4000.
Definition S_IFREG : Z := 0x8000.

(** ** Open host files *)

(** A pointer to [spike_files[i]] is [i + 1]; [ERR_PTR(e)] is the negative [e]. *)
Definition fptr (i : Z) : Z := i + 1.

Definition get_spike (f : Z) : M fs spike_file :=
  if (0 <? f) && (f <=? MAX_FILES) then
    let* t := gets spike_files in
    ret (default (SpikeFile (-1) 0) (t !! (f - 1)))
  else fault.

Definition set_spike (f : Z) (x : spike_file) : M fs unit :=
  modify (fun s => set_spike_files (<[f - 1 := x]> (spike_files s)) s).

Section WithHost.
  Context `{Host}.

Definition spike_file_decref (f : Z) : M fs unit :=
  let* x := get_spike f in
  set_spike f (set_refcnt (u32 (refcnt x - 1)) x) ;;;
  if refcnt x =? 2 then
    set_spike f (set_refcnt 0 x) ;;;
    let* _ := frontend_syscall (HTIFSYS_close (kfd x)) in
    ret tt
  else ret tt.

Definition spike_file_incref (f : Z) : M fs unit :=
  let* x := get_spike f in
  set_spike f (set_refcnt (u32 (refcnt x + 1)) x) ;;;
  assert (0 <? refcnt x).

(** NULL is 0. *)
Definition spike_file_get_free : M fs Z :=
  let* t := gets spike_files in
  match head (filter (fun i => refcnt (default (SpikeFile (-1) 0) (t !! i)) = 0) (seqZ 0 MAX_FILES)) with
  | Some i =>
      let* x := get_spike (fptr i) in
      set_spike (fptr i) (set_refcnt INIT_FILE_REF x) ;;;
      ret (fptr i)
  | None => ret 0
  end.

Definition spike_file_dup (f : Z) : M fs Z :=
  let* t := gets spike_fds in
  match head (filter (fun i => t !! i = None) (seqZ 0 MAX_FDS)) with
  | Some i =>
      modify (fun s => set_spike_fds (<[i := f]> (spike_fds s)) s) ;;;
      spike_file_incref f ;;;
      ret i
  | None => ret (-1)
  end.

(** [spike_fds[f->kfd]]: an index outside the table is a wild access. *)
Definition spike_file_close (f : Z) : M fs Z :=
  if f =? 0 then ret (-1)
  else
    let* x := get_spike f in
    if (0 <=? kfd x) && (kfd x <? MAX_FDS) then
      let* t := gets spike_fds in
      let old := t !! kfd x in
      (if bool_decide (old = Some f) then
         modify (fun s => set_spike_fds (delete (kfd x) (spike_fds s)) s)
       else ret tt) ;;;
      spike_file_decref f ;;;
      if negb (bool_decide (old = Some f)) then ret (-1)
      else spike_file_decref f ;;; ret 0
    else fault.

Definition spike_file_open (fn : name) (flags mode : Z) : M fs Z :=
  let* f := spike_file_get_free in
  if f =? 0 then ret (- ENOMEM)
  else
    let* r := frontend_syscall (HTIFSYS_openat fn flags mode) in
    if 0 <=? r then
      let* x := get_spike f in
      set_spike f (set_kfd (s32 r) x) ;;;
      ret f
    else
      spike_file_decref f ;;;
      ret r.

Definition spike_file_read (f buf size : Z) : M fs Z :=
  let* x := get_spike f in frontend_syscall (HTIFSYS_read (kfd x) buf size).
Definition spike_file_pread (f buf size off : Z) : M fs Z :=
  let* x := get_spike f in frontend_syscall (HTIFSYS_pread (kfd x) buf size off).
Definition spike_file_write (f buf size : Z) : M fs Z :=
  let* x := get_spike f in frontend_syscall (HTIFSYS_write (kfd x) buf size).
Definition spike_file_lseek (f ptr dir : Z) : M fs Z :=
  let* x := get_spike f in frontend_syscall (HTIFSYS_lseek (kfd x) ptr dir).
Definition spike_file_stat (f : Z) : M fs stat :=
  let* x := get_spike f in
  let* (_, st) := frontend_fstat (kfd x) in
  ret st.

Definition spike_file_getdents (f dirp count : Z) : M fs Z :=
  let* x := get_spike f in frontend_syscall (HTIFSYS_getdents (kfd x) dirp (u32 count)).

(** In a sequential run the exchange of the count succeeds at once. *)
Definition spike_file_get (fd : Z) : M fs Z :=
  if (fd <? 0) || (MAX_FDS <=? fd) then ret 0
  else
    let* t := gets spike_fds in
    match t !! fd with
    | None => ret 0
    | Some f =>
        let* x := get_spike f in
        if refcnt x =? 0 then ret 0
        else set_spike f (set_refcnt (u32 (refcnt x + 1)) x) ;;; ret f
    end.

Definition spike_file_init : M fs unit :=
  loop 4 (fun i =>
    if i <? 3 then
      let* f := spike_file_get_free in
      let* x := get_spike f in
      set_spike f (set_kfd i x) ;;;
      let* _ := spike_file_dup f in
      ret (inl (i + 1))
    else ret (inr tt)) 0.

(** ** The host file system *)

Definition HOSTFS_TYPE : Z := 1.
Definition H_FILE : Z := FILE_I.
Definition H_DIR : Z := DIR_I.
(** "./hostfs_root" *)
Definition H_ROOT_DIR : name :=
  [46; 47; 104; 111; 115; 116; 102; 115; 95; 114; 111; 111; 116].

Definition register_hostfs : M fs Z :=
  let* _ := new_page in
  let* l := gets fs_list in
  match first_unused l 10 with
  | Some i => modify (fun s => set_fs_list (<[i := HOSTFS_TYPE]> (fs_list s)) s) ;;; ret 0
  | None => ret (-1)
  end.

Definition init_host_device (nm : name) : M fs Z :=
  let* l := gets fs_list in
  if bool_decide (Exists (fun i => l !! i = Some HOSTFS_TYPE) (seqZ 0 10)) then
    let* p := new_page in
    modify (fun s => set_devices (<[p := Device nm 0 HOSTFS_TYPE]> (devices s)) s) ;;;
    let* vl := gets vfs_dev_list in
    (if first_unused vl 10 is Some i then
       modify (fun s => set_vfs_dev_list (<[i := p]> (vfs_dev_list s)) s)
     else ret tt) ;;;
    ret p
  else panic.

(** The names from the root down to a dentry.  Each level adds at least one
    character to a buffer of [MAX_PATH_LEN], so [MAX_PATH_LEN] levels overrun it. *)
Fixpoint path_backtrack (fuel : nat) (p : Z) : M fs name :=
  match fuel with
  | O => fault
  | S fuel =>
      let* x := get_dentry p in
      if d_parent x =? 0 then ret []
      else
        let* path := path_backtrack fuel (d_parent x) in
        ret (path ++ [47] ++ d_name x)
  end.

Definition get_path_string (p : Z) : M fs name :=
  let* path := path_backtrack (Z.to_nat MAX_PATH_LEN) p in
  let path := H_ROOT_DIR ++ path in
  if Z.of_nat (length path) <? MAX_PATH_LEN then ret path else fault.

Definition hostfs_alloc_vinode (sb : Z) : M fs Z :=
  let* p := default_alloc_vinode sb in
  upd_vinode p (fun v => set_i_ops hostfs_i_ops (set_v_fs_info 0 (set_inum (-1) v))) ;;;
  ret p.

Definition hostfs_write_back_vinode (p : Z) : M fs Z := ret 0.

Definition hostfs_update_vinode (p : Z) : M fs Z :=
  let* v := get_vinode p in
  let f := v_fs_info v in
  if f <? 0 then upd_vinode p (set_v_type H_DIR) ;;; ret (-1)
  else
    let* st := spike_file_stat f in
    upd_vinode p (fun v => set_blocks (s32 (hst_blocks st)) (set_nlinks (s32 (hst_nlink st))
      (set_v_size (s32 (hst_size st)) (set_inum (s32 (hst_ino st)) v)))) ;;;
    if Z.land (hst_mode st) S_IFMT =? S_IFDIR then upd_vinode p (set_v_type H_DIR) ;;; ret 0
    else if Z.land (hst_mode st) S_IFMT =? S_IFREG then upd_vinode p (set_v_type H_FILE) ;;; ret 0
    else ret (-1).

(** The test [pf < 0] of a pointer is never true. *)
Definition hostfs_read (f r_buf len off : Z) : M fs (Z * Z) :=
  let* v := get_vinode f in
  let* n := spike_file_read (v_fs_info v) r_buf len in
  let* o := spike_file_lseek (v_fs_info v) 0 1 in
  ret (s32 n, s32 o).

Definition hostfs_write (f w_buf len off : Z) : M fs (Z * Z) :=
  let* v := get_vinode f in
  let* n := spike_file_write (v_fs_info v) w_buf len in
  let* o := spike_file_lseek (v_fs_info v) 0 1 in
  ret (s32 n, s32 o).

Definition hostfs_lookup (parent sub_dentry : Z) : M fs Z :=
  let* path := get_path_string sub_dentry in
  let* f := spike_file_open path O_RDONLY 0 in
  if f <? 0 then ret 0
  else
    let* f := spike_file_open path O_RDWR 0 in
    let* v := get_vinode parent in
    let* child := hostfs_alloc_vinode (v_sb v) in
    upd_vinode child (set_v_fs_info f) ;;;
    let* _ := hostfs_update_vinode child in
    upd_vinode child (set_ref 0) ;;;
    ret child.

Definition hostfs_create (parent sub_dentry : Z) : M fs Z :=
  let* path := get_path_string sub_dentry in
  let* f := spike_file_open path (Z.lor O_RDWR O_CREAT) 0x180 in
  if f <? 0 then ret 0
  else
    let* v := get_vinode parent in
    let* new := hostfs_alloc_vinode (v_sb v) in
    upd_vinode new (set_v_fs_info f) ;;;
    let* e := hostfs_update_vinode new in
    if negb (e =? 0) then ret 0
    else upd_vinode new (set_ref 0) ;;; ret new.

Definition hostfs_lseek (f new_offset whence off : Z) : M fs (Z * Z) :=
  let* v := get_vinode f in
  let* o := spike_file_lseek (v_fs_info v) new_offset whence in
  let o := s32 o in
  ret (if 0 <=? o then 0 else -1, o).

Definition hostfs_link (parent sub_dentry link_node : Z) : M fs Z := panic.
Definition hostfs_unlink (parent sub_dentry unlink_node : Z) : M fs Z := panic.

(** The dentries of the hash table, in the order of the scan. *)
Definition cached_dentries (t : hash_table dentry_key) : list Z :=
  HashTable.value <$> concat (chain t <$> seqZ 0 HASH_TABLE_SIZE).

(** [dir->name] has room for [MAX_FILE_NAME_LEN] bytes with the NUL. *)
Definition hostfs_readdir (dir_vinode off : Z) : M fs (option (name * Z) * Z) :=
  let* t := gets dentry_hash_table in
  let* ds := gets dentries in
  let* vs := gets vinodes in
  let* live := of_option (mapM (fun p => (fun d => (p, d)) <$> ds !! p) (cached_dentries t)) in
  match head (filter (fun x => dentry_inode (snd x) = dir_vinode) live) with
  | None => ret (None, off)
  | Some (target, _) =>
      if off <? 0 then ret (None, off)
      else match filter (fun x => d_parent (snd x) = target) live !! Z.to_nat off with
           | None => ret (None, off)
           | Some (_, d) =>
               let nm := take (Z.to_nat MAX_FILE_NAME_LEN - 1) (d_name d) in
               let n := if dentry_inode d =? 0 then -1
                        else if vs !! dentry_inode d is Some v then inum v else -1 in
               ret (Some (nm, n), s32 (off + 1))
           end
  end.

Definition hostfs_mkdir (parent sub_dentry : Z) : M fs Z :=
  let* path := get_path_string sub_dentry in
  let* r := frontend_syscall (HTIFSYS_mkdirat path 0x1ed) in
  if r <? 0 then ret 0
  else
    let* f := spike_file_open path O_RDONLY 0 in
    if f <? 0 then ret 0
    else
      let* v := get_vinode parent in
      let* new := hostfs_alloc_vinode (v_sb v) in
      upd_vinode new (set_v_fs_info f) ;;;
      let* _ := hostfs_update_vinode new in
      upd_vinode new (set_ref 0) ;;;
      ret new.

Definition hostfs_hook_open (f_inode f_dentry : Z) : M fs Z :=
  let* v := get_vinode f_inode in
  if negb (v_fs_info v =? 0) then ret 0
  else
    let* path := get_path_string f_dentry in
    let* f := spike_file_open path O_RDWR 0 in
    if f <? 0 then ret (-1)
    else upd_vinode f_inode (set_v_fs_info f) ;;; ret 0.

Definition hostfs_hook_close (f_inode : Z) : M fs Z :=
  let* v := get_vinode f_inode in
  let* _ := spike_file_close (v_fs_info v) in
  ret 0.

Definition hostfs_get_superblock (dev : Z) : M fs Z :=
  let* sb := new_page in
  let* m := gets fs_mem in
  modify (fun s => set_super_blocks (<[sb := SuperBlock (s32 (load32 m sb)) (s32 (load32 m (sb + 4)))
    (s32 (load32 m (sb + 8))) (s32 (load32 m (sb + 12))) 0 dev ∅]> (super_blocks s)) s) ;;;
  let* root_inode := hostfs_alloc_vinode sb in
  upd_vinode root_inode (set_v_type H_DIR) ;;;
  let* root_dentry := alloc_vfs_dentry [47] root_inode 0 in
  upd_sb sb (set_s_root root_dentry) ;;;
  ret sb.

End WithHost.

(** ** The reference counts *)

Definition slot (s : fs) (i : Z) : spike_file := default (SpikeFile (-1) 0) (spike_files s !! i).

Section Slots.
  Context `{Host}.

Definition free_slots (s : fs) : list Z :=
  filter (fun i => refcnt (slot s i) = 0) (seqZ 0 MAX_FILES).

Lemma get_spike_run i s : 0 <= i < MAX_FILES -> get_spike (fptr i) s = Ok (slot s i) s.
Proof.
  intros Hi. unfold get_spike, fptr.
  replace ((0 <? i + 1) && (i + 1 <=? MAX_FILES)) with true by lia.
  unfold bind, gets, ret, slot. by replace (i + 1 - 1) with i by lia.
Qed.

Definition slot_set (i : Z) (x : spike_file) (s : fs) : fs :=
  set_spike_files (<[i := x]> (spike_files s)) s.

Lemma set_spike_run i x s : set_spike (fptr i) x s = Ok tt (slot_set i x s).
Proof. unfold set_spike, modify, fptr. by replace (i + 1 - 1) with i by lia. Qed.

Lemma slot_set_eq i x s : slot (slot_set i x s) i = x.
Proof. unfold slot. simpl. by rewrite lookup_insert_eq. Qed.

Lemma slot_set_set i x y s : slot_set i y (slot_set i x s) = slot_set i y s.
Proof. unfold slot_set. simpl. by rewrite insert_insert_eq. Qed.

Lemma decref_run i s : 0 <= i < MAX_FILES -> refcnt (slot s i) = INIT_FILE_REF ->
  spike_file_decref (fptr i) s = Ok tt (slot_set i (set_refcnt 2 (slot s i)) s).
Proof.
  intros Hi Hr. unfold spike_file_decref, bind. rewrite get_spike_run, set_spike_run, Hr by done.
  done.
Qed.

Lemma get_free_run s : spike_file_get_free s =
  match free_slots s with
  | i :: _ => Ok (fptr i) (slot_set i (set_refcnt INIT_FILE_REF (slot s i)) s)
  | [] => Ok 0 s
  end.
Proof.
  unfold spike_file_get_free, bind at 1, gets. change (filter _ (seqZ 0 MAX_FILES)) with (free_slots s).
  destruct (free_slots s) as [|i l] eqn:E; [done|]. simpl.
  assert (i ∈ free_slots s) as Hi by (rewrite E; by left).
  apply list_elem_of_filter in Hi as [_ Hi%elem_of_seqZ].
  unfold bind. rewrite get_spike_run by (unfold MAX_FILES in *; lia). by rewrite set_spike_run.
Qed.

(** A slot of the table of host files that [spike_file_open] has taken is
    never free again.  When the host refuses the file, the slot keeps a reference
    count of 2; when the host opens it, [spike_file_close] reports -1, sends no
    close to the host and leaves a count of 2 as well, since nothing has put the
    file into [spike_fds].  With no free slot left every open fails with
    [ENOMEM]. *)
Theorem host_file_slot_leaks fn flags mode s :
  (forall s1, exists r s2, frontend_syscall (HTIFSYS_openat fn flags mode) s1 = Ok r s2 /\
     spike_files s2 = spike_files s1 /\ spike_fds s2 = spike_fds s1 /\ - 2 ^ 31 <= r < MAX_FDS) ->
  (free_slots s = [] -> spike_file_open fn flags mode s = Ok (- ENOMEM) s) /\
  (forall i l, free_slots s = i :: l -> exists r s', spike_file_open fn flags mode s = Ok r s' /\
     (r < 0 -> refcnt (slot s' i) = 2) /\
     (0 <= r -> r = fptr i /\
        (spike_fds s' !! kfd (slot s' i) <> Some r -> exists s'',
           spike_file_close r s' = Ok (-1) s'' /\ refcnt (slot s'' i) = 2 /\
           s'' = slot_set i (slot s'' i) s'))).
Proof.
  intros Hh. unfold spike_file_open. split.
  { intros E. unfold bind. by rewrite get_free_run, E. }
  intros i l E. unfold bind at 1. rewrite get_free_run, E.
  assert (0 <= i < MAX_FILES) as Hi.
  { assert (i ∈ free_slots s) as Hi by (rewrite E; by left).
    apply list_elem_of_filter in Hi as [_ Hi%elem_of_seqZ]. unfold MAX_FILES in *. lia. }
  rewrite (proj2 (Z.eqb_neq (fptr i) 0)) by (unfold fptr; lia).
  set (x := set_refcnt INIT_FILE_REF (slot s i)). set (s1 := slot_set i x s).
  destruct (Hh s1) as (r & s2 & Hr & Hf & Hd & Hrange). unfold bind at 1. rewrite Hr.
  assert (slot s2 i = x) as Hx by (unfold slot; rewrite Hf; apply slot_set_eq).
  destruct (Z.leb_spec 0 r).
  - unfold bind. rewrite get_spike_run, set_spike_run, Hx by done.
    set (y := set_kfd (s32 r) x). exists (fptr i), (slot_set i y s2).
    split; [done|]. split; [unfold fptr; lia|]. intros _. split; [done|].
    rewrite slot_set_eq. intros Hne. exists (slot_set i (set_refcnt 2 y) s2).
    assert (kfd y = r) as Ek by (unfold y; simpl; rewrite s32_small; unfold MAX_FDS in *; lia).
    split; [|split; [by rewrite slot_set_eq|by rewrite slot_set_eq, slot_set_set]].
    unfold spike_file_close. rewrite (proj2 (Z.eqb_neq (fptr i) 0)) by (unfold fptr; lia).
    unfold bind. rewrite get_spike_run, slot_set_eq, Ek by done. rewrite Ek in Hne.
    replace ((0 <=? r) && (r <? MAX_FDS)) with true by lia. unfold gets.
    rewrite bool_decide_false by done. unfold ret at 1.
    rewrite decref_run; [|done|by rewrite slot_set_eq]. by rewrite slot_set_eq, slot_set_set.
  - unfold bind. rewrite decref_run; [|done|by rewrite Hx].
    eexists r, _. split; [done|]. split; [by rewrite slot_set_eq|lia].
Qed.

End Slots.

(** A host on which every file exists as descriptor 7. *)
Definition demo_host : Host := {|
  frontend_syscall := fun _ => ret 7;
  frontend_fstat := fun _ => ret (0, Stat 1 0 1 0 S_IFREG) |}.

Definition demo_hostfs : fs :=
  Fs (Kernel (Vm (free_pages 4) 0) ∅ ∅ ∅ ∅ ∅ 0 ∅ 0 0 ∅ 0 0 0 0 0 ∅ ∅)
    ∅ ∅ ∅ ∅ ∅ ∅ ∅ ∅ ∅ ∅ ∅ ∅ ∅ ∅ ∅.

Lemma host_file_slot_leaks_witness : exists s' s'',
  @spike_file_open demo_host [97] O_RDONLY 0 demo_hostfs = Ok (fptr 0) s' /\
  @spike_file_close demo_host (fptr 0) s' = Ok (-1) s'' /\ refcnt (slot s'' 0) = 2.
Proof.
  destruct (@host_file_slot_leaks demo_host [97] O_RDONLY 0 demo_hostfs) as [_ H].
  { intros s1. exists 7, s1. split; [reflexivity|]. unfold MAX_FDS. auto with lia. }
  destruct (H 0 (seqZ 1 127)) as (r & s' & H1 & _ & H2); [reflexivity|].
  assert (r = fptr 0) as -> by (vm_compute in H1; injection H1 as <- _; reflexivity).
  destruct H2 as [_ H2]; [vm_compute; congruence|].
  destruct H2 as (s'' & H2 & H3 & _); [vm_compute in H1; injection H1 as <-; vm_compute; congruence|].
  exists s', s''. split; [exact H1|]. split; [exact H2|exact H3].
Defined.
