(* ===== verification/Vfs.v ===== *)
(** * The virtual file system (kernel/vfs.c)

    Path lookup through the dentry cache, the operations on files and
    directories, and the reference counts that decide when dentries and inodes
    are dropped.  The table of operations of an inode ([struct vinode_ops]) is a
    record with one instance per file system. *)

From S2P Require Import Prelude Mem Pmm StringLib HashTable Vmm Kernel Fs Rfs Hostfs.
From stdpp Require Import base gmap list fin_maps.
From Stdlib Require Import ZArith Lia Bool.

Set Default Goal Selector "!".
Open Scope Z_scope.

Definition MOUNT_DEFAULT : Z := 0.
Definition MOUNT_AS_ROOT : Z := 1.
Definition MASK_FILEMODE : Z := 3.

(** [struct vinode_ops]; a hook that is not set is [None]. *)
Record vinode_ops : Type := VinodeOps {
  viop_read : Z -> Z -> Z -> Z -> M fs (Z * Z);
  viop_write : Z -> Z -> Z -> Z -> M fs (Z * Z);
  viop_create : Z -> Z -> M fs Z;
  viop_lseek : Z -> Z -> Z -> Z -> M fs (Z * Z);
  viop_disk_stat : Z -> M fs istat;
  viop_link : Z -> Z -> Z -> M fs Z;
  viop_unlink : Z -> Z -> Z -> M fs Z;
  viop_lookup : Z -> Z -> M fs Z;
  viop_readdir : Z -> Z -> M fs (option (name * Z) * Z);
  viop_mkdir : Z -> Z -> M fs Z;
  viop_write_back_vinode : Z -> M fs Z;
  viop_hook_open : option (Z -> Z -> M fs Z);
  viop_hook_close : option (Z -> Z -> M fs Z);
  viop_hook_opendir : option (Z -> Z -> M fs Z);
  viop_hook_closedir : option (Z -> Z -> M fs Z)
}.

(** The operations of rfs read the name of the dentry they are given. *)
Definition named {A} (f : name -> M fs A) (p : Z) : M fs A :=
  let* d := get_dentry p in f (d_name d).

Definition rfs_ops : vinode_ops := {|
  viop_read := rfs_read;
  viop_write := rfs_write;
  viop_create := fun p => named (rfs_create p);
  viop_lseek := rfs_lseek;
  viop_disk_stat := rfs_disk_stat;
  viop_link := fun p d l => named (fun nm => rfs_link p nm l) d;
  viop_unlink := fun p d u => named (fun nm => rfs_unlink p nm u) d;
  viop_lookup := fun p => named (rfs_lookup p);
  viop_readdir := rfs_readdir;
  viop_mkdir := fun p => named (rfs_mkdir p);
  viop_write_back_vinode := rfs_write_back_vinode;
  viop_hook_open := None;
  viop_hook_close := None;
  viop_hook_opendir := Some (fun p _ => rfs_hook_opendir p);
  viop_hook_closedir := Some (fun p _ => rfs_hook_closedir p)
|}.

Section WithHost.
  Context `{Host}.

(** [viop_disk_stat] is not in hostfs's table: a call through NULL. *)
Definition hostfs_ops : vinode_ops := {|
  viop_read := hostfs_read;
  viop_write := hostfs_write;
  viop_create := hostfs_create;
  viop_lseek := hostfs_lseek;
  viop_disk_stat := fun _ => fault;
  viop_link := hostfs_link;
  viop_unlink := hostfs_unlink;
  viop_lookup := hostfs_lookup;
  viop_readdir := hostfs_readdir;
  viop_mkdir := hostfs_mkdir;
  viop_write_back_vinode := hostfs_write_back_vinode;
  viop_hook_open := Some hostfs_hook_open;
  viop_hook_close := Some (fun p _ => hostfs_hook_close p);
  viop_hook_opendir := None;
  viop_hook_closedir := None
|}.

Definition ops_of (v : vinode) : vinode_ops :=
  match i_ops v with rfs_i_ops => rfs_ops | hostfs_i_ops => hostfs_ops end.

(** ** The caches *)

Definition hash_get_dentry (parent : Z) (nm : name) : M fs Z :=
  default_get dentryT (DentryKey parent nm).

Definition hash_put_dentry (p : Z) : M fs Z :=
  let* k := new_page in
  let* d := get_dentry p in
  let* r := default_put dentryT (DentryKey (d_parent d) (d_name d)) p in
  (if negb (r =? 0) then zoom fs_pmmL (free_page k) else ret tt) ;;;
  ret r.

Definition hash_erase_dentry (p : Z) : M fs Z :=
  let* d := get_dentry p in
  default_erase dentryT (DentryKey (d_parent d) (d_name d)).

Definition hash_get_vinode (sb n : Z) : M fs Z :=
  if n <? 0 then ret 0 else default_get vinodeT (VinodeKey n sb).

Definition hash_put_vinode (p : Z) : M fs Z :=
  let* v := get_vinode p in
  if inum v <? 0 then ret (-1)
  else
    let* k := new_page in
    let* r := default_put vinodeT (VinodeKey (inum v) (v_sb v)) p in
    (if negb (r =? 0) then zoom fs_pmmL (free_page k) else ret tt) ;;;
    ret r.

Definition hash_erase_vinode (p : Z) : M fs Z :=
  let* v := get_vinode p in
  if inum v <? 0 then ret (-1) else default_erase vinodeT (VinodeKey (inum v) (v_sb v)).

Definition vfs_init : M fs Z :=
  let* r := hash_table_init dentryT in
  if negb (r =? 0) then ret r
  else
    let* r := hash_table_init vinodeT in
    if negb (r =? 0) then ret r else ret 0.

(** ** Paths *)

(** A local [char path_copy[MAX_PATH_LEN]] filled by [strcpy]. *)
Definition path_copy (path : name) : M fs name :=
  if Z.of_nat (length path) <? MAX_PATH_LEN then ret path else fault.

(** The tokens [strtok(path_copy, "/")] returns one after the other. *)
Definition path_tokens (path : name) : list name := words [47] path.

Definition root_dentry : M fs Z := gets (fun s => vfs_root_dentry (fs_kernel s)).

(** [current[hartid]->pfiles], when there is one. *)
Definition current_pfiles (hartid : Z) : M fs (option Z) :=
  let* k := gets fs_kernel in
  match current k !! hartid with
  | None => ret None
  | Some c =>
      let* p := of_option (procs k !! c) in
      ret (if pfiles p =? 0 then None else Some (pfiles p))
  end.

Definition get_pfiles (p : Z) : M fs proc_file_management :=
  let* k := gets fs_kernel in of_option (file_tables k !! p).
Definition upd_pfiles (p : Z) (f : proc_file_management -> proc_file_management) : M fs unit :=
  let* t := get_pfiles p in
  modify (fun s => set_fs_kernel
    (set_file_tables (<[p := f t]> (file_tables (fs_kernel s))) (fs_kernel s)) s).

Definition is_absolute (path : name) : bool :=
  if head path is Some c then c =? 47 else false.

Definition get_path_start_dentry (hartid : Z) (path : name) : M fs Z :=
  assert (hartid <? NCPU) ;;;
  if is_absolute path then root_dentry
  else
    let* pf := current_pfiles hartid in
    match pf with
    | None => panic
    | Some p => let* t := get_pfiles p in ret (cwd t)
    end.

Definition get_base_name (path : name) : M fs name :=
  let* path := path_copy path in
  of_option (last (path_tokens path)).

(** One component of a path: the dentry of [token] in the directory [parent], 0
    when there is none. *)
Definition lookup_token (parent : Z) (token : name) : M fs Z :=
  let* this := hash_get_dentry parent token in
  if negb (this =? 0) then ret this
  else
    let* this := alloc_vfs_dentry token 0 parent in
    let* pd := get_dentry parent in
    let* pv := get_vinode (dentry_inode pd) in
    let* found := viop_lookup (ops_of pv) (dentry_inode pd) this in
    if found =? 0 then
      zoom fs_pmmL (free_page this) ;;;
      modify (fun s => set_dentries (delete this (dentries s)) s) ;;;
      ret 0
    else
      let* fv := get_vinode found in
      let* same := hash_get_vinode (v_sb fv) (inum fv) in
      (if negb (same =? 0) then
         upd_dentry this (set_dentry_inode same) ;;;
         upd_vinode same (fun v => set_ref (s32 (ref v + 1)) v) ;;;
         free_vinode_page found
       else
         upd_dentry this (set_dentry_inode found) ;;;
         upd_vinode found (fun v => set_ref (s32 (ref v + 1)) v) ;;;
         let* _ := hash_put_vinode found in
         ret tt) ;;;
      let* _ := hash_put_dentry this in
      ret this.

(** The dentry reached (0 if a component is missing), the new [*parent] and
    [miss_name]. *)
Fixpoint lookup_tokens (tokens : list name) (this parent : Z) : M fs (Z * Z * name) :=
  match tokens with
  | [] => ret (this, parent, [])
  | token :: tokens =>
      if bool_decide (token = [46]) then lookup_tokens tokens this parent
      else if bool_decide (token = [46; 46]) then
        let* d := get_dentry this in
        if negb (d_parent d =? 0) then
          let* up := get_dentry (d_parent d) in
          lookup_tokens tokens (d_parent d) (d_parent up)
        else lookup_tokens tokens this parent
      else
        let* next := lookup_token this token in
        if next =? 0 then ret (0, this, token)
        else lookup_tokens tokens next this
  end.

Definition lookup_final_dentry (path : name) (parent : Z) : M fs (Z * Z * name) :=
  let* path := path_copy path in
  let* root := root_dentry in
  let start := if is_absolute path then root else parent in
  let parent := if is_absolute path then root else parent in
  lookup_tokens (path_tokens path) start parent.

(** ** Mounting *)

Definition get_superblock (dev : device) (p : Z) : M fs Z :=
  if fs_type dev =? RFS_TYPE then rfs_get_superblock p
  else if fs_type dev =? HOSTFS_TYPE then hostfs_get_superblock p
  else fault.

(** The device called [nm]; when there is none, the scan leaves the last entry of
    the table. *)
Definition find_device (nm : name) : M fs Z :=
  let* l := gets vfs_dev_list in
  let* ds := gets devices in
  let called i :=
    if l !! i is Some p then if ds !! p is Some d then bool_decide (dev_name d = nm) else false
    else false in
  match head (filter (fun i => called i = true) (seqZ 0 10)) with
  | Some i => ret (default 0 (l !! i))
  | None => ret (default 0 (l !! 9))
  end.

Definition vfs_mount (nm : name) (mnt_type : Z) : M fs Z :=
  let* p := find_device nm in
  if p =? 0 then panic
  else
    let* ds := gets devices in
    let* dev := of_option (ds !! p) in
    let* sb := get_superblock dev p in
    let* b := get_sb sb in
    let* rd := get_dentry (s_root b) in
    let* _ := hash_put_vinode (dentry_inode rd) in
    let* sbs := gets vfs_sb_list in
    match first_unused sbs 10 with
    | None => panic
    | Some i =>
        modify (fun s => set_vfs_sb_list (<[i := sb]> (vfs_sb_list s)) s) ;;;
        if mnt_type =? MOUNT_AS_ROOT then
          modify (fun s => set_fs_kernel (set_vfs_root_dentry (s_root b) (fs_kernel s)) s) ;;;
          let* _ := hash_put_dentry (s_root b) in
          ret sb
        else if mnt_type =? MOUNT_DEFAULT then
          let* root := root_dentry in
          if root =? 0 then panic
          else
            upd_dentry (s_root b) (fun d => set_d_parent root (set_d_name (dev_name dev) d)) ;;;
            let* _ := hash_put_dentry (s_root b) in
            ret sb
        else panic
    end.

(** ** Files *)

(** [file->f_dentry->dentry_inode]. *)
Definition inode_of (fl : file) : M fs (Z * vinode) :=
  let* d := get_dentry (f_dentry fl) in
  let* v := get_vinode (dentry_inode d) in
  ret (dentry_inode d, v).

(** The page is [FD_OPENED]; its contents are in [files]. *)
Definition alloc_vfs_file (file_dentry readable writable : Z) : M fs Z :=
  let* p := new_page in
  upd_dentry file_dentry (fun d => set_d_ref (s32 (d_ref d + 1)) d) ;;;
  modify (fun s => set_files (<[p := File FD_OPENED readable writable 0 file_dentry]> (files s)) s) ;;;
  ret p.

Definition access_mode (flags : Z) : option (Z * Z) :=
  let m := Z.land flags MASK_FILEMODE in
  if m =? O_RDONLY then Some (1, 0)
  else if m =? O_WRONLY then Some (0, 1)
  else if m =? O_RDWR then Some (1, 1)
  else None.

(** Returns the file, 0 for NULL. *)
Definition vfs_open (hartid : Z) (path : name) (flags : Z) : M fs Z :=
  let* parent := get_path_start_dentry hartid path in
  let* (file_dentry, parent, miss_name) := lookup_final_dentry path parent in
  let* file_dentry :=
    if negb (file_dentry =? 0) then ret file_dentry
    else if Z.land flags O_CREAT =? 0 then ret 0
    else
      let* basename := get_base_name path in
      if negb (bool_decide (miss_name = basename)) then ret 0
      else
        let* fd := alloc_vfs_dentry basename 0 parent in
        let* pd := get_dentry parent in
        let* pv := get_vinode (dentry_inode pd) in
        let* new := viop_create (ops_of pv) (dentry_inode pd) fd in
        if new =? 0 then panic
        else
          upd_dentry fd (set_dentry_inode new) ;;;
          upd_vinode new (fun v => set_ref (s32 (ref v + 1)) v) ;;;
          let* _ := hash_put_dentry fd in
          let* _ := hash_put_vinode new in
          ret fd in
  if file_dentry =? 0 then ret 0
  else
    let* d := get_dentry file_dentry in
    let* v := get_vinode (dentry_inode d) in
    if negb (v_type v =? FILE_I) then ret 0
    else
      match access_mode flags with
      | None => panic
      | Some (readable, writable) =>
          let* fl := alloc_vfs_file file_dentry readable writable in
          (if viop_hook_open (ops_of v) is Some hook then
             let* _ := hook (dentry_inode d) file_dentry in ret tt
           else ret tt) ;;;
          ret fl
      end.

(** The result and the file with its new offset. *)
Definition vfs_read (fl : file) (buf count : Z) : M fs (Z * file) :=
  if readable fl =? 0 then ret (-1, fl)
  else
    let* (p, v) := inode_of fl in
    if negb (v_type v =? FILE_I) then ret (-1, fl)
    else
      let* (n, off) := viop_read (ops_of v) p buf (s64 count) (offset fl) in
      ret (n, set_offset off fl).

Definition vfs_write (fl : file) (buf count : Z) : M fs (Z * file) :=
  if writable fl =? 0 then ret (-1, fl)
  else
    let* (p, v) := inode_of fl in
    if negb (v_type v =? FILE_I) then ret (-1, fl)
    else
      let* (n, off) := viop_write (ops_of v) p buf (s64 count) (offset fl) in
      ret (n, set_offset off fl).

Definition vfs_lseek (fl : file) (off whence : Z) : M fs (Z * file) :=
  let* (p, v) := inode_of fl in
  if negb (v_type v =? FILE_I) then ret (-1, fl)
  else
    let* (e, off) := viop_lseek (ops_of v) p off whence (offset fl) in
    let fl := set_offset off fl in
    if negb (e =? 0) then ret (-1, fl) else ret (offset fl, fl).

Definition vfs_stat (fl : file) : M fs istat :=
  let* (_, v) := inode_of fl in
  ret (Istat (inum v) (v_size v) (v_type v) (nlinks v) (blocks v)).

Definition vfs_disk_stat (fl : file) : M fs istat :=
  let* (p, v) := inode_of fl in
  viop_disk_stat (ops_of v) p.

Definition vfs_close (fl : file) : M fs (Z * file) :=
  let* (p, v) := inode_of fl in
  if negb (v_type v =? FILE_I) then ret (-1, fl)
  else
    (if viop_hook_close (ops_of v) is Some hook then
       let* _ := hook p (f_dentry fl) in ret tt
     else ret tt) ;;;
    upd_dentry (f_dentry fl) (fun d => set_d_ref (s32 (d_ref d - 1)) d) ;;;
    let* d := get_dentry (f_dentry fl) in
    (if d_ref d =? 0 then
       let* _ := hash_erase_dentry (f_dentry fl) in
       let* _ := free_vfs_dentry (f_dentry fl) in
       upd_vinode p (fun v => set_ref (s32 (ref v - 1)) v) ;;;
       let* v := get_vinode p in
       if ref v =? 0 then
         let* e := viop_write_back_vinode (ops_of v) p in
         if negb (e =? 0) then panic
         else
           let* _ := hash_erase_vinode p in
           free_vinode_page p
       else ret tt
     else ret tt) ;;;
    ret (0, set_f_status FD_NONE fl).

(** ** Links *)

Definition vfs_link (hartid : Z) (oldpath newpath : name) : M fs Z :=
  let* parent := get_path_start_dentry hartid oldpath in
  let* (old, _, _) := lookup_final_dentry oldpath parent in
  if old =? 0 then ret (-1)
  else
    let* od := get_dentry old in
    let* ov := get_vinode (dentry_inode od) in
    if negb (v_type ov =? FILE_I) then ret (-1)
    else
      let* parent := get_path_start_dentry hartid newpath in
      let* (new, parent, miss_name) := lookup_final_dentry newpath parent in
      if negb (new =? 0) then ret (-1)
      else
        let* basename := get_base_name newpath in
        if negb (bool_decide (miss_name = basename)) then ret (-1)
        else
          let* nd := alloc_vfs_dentry basename (dentry_inode od) parent in
          let* pd := get_dentry parent in
          let* pv := get_vinode (dentry_inode pd) in
          let* e := viop_link (ops_of pv) (dentry_inode pd) nd (dentry_inode od) in
          if negb (e =? 0) then ret (-1)
          else
            let* _ := hash_put_dentry nd in
            ret 0.

Definition vfs_unlink (hartid : Z) (path : name) : M fs Z :=
  let* parent := get_path_start_dentry hartid path in
  let* (p, parent, _) := lookup_final_dentry path parent in
  if p =? 0 then ret (-1)
  else
    let* d := get_dentry p in
    let u := dentry_inode d in
    let* v := get_vinode u in
    if negb (v_type v =? FILE_I) then ret (-1)
    else if 0 <? d_ref d then ret (-1)
    else
      let* pd := get_dentry parent in
      let* pv := get_vinode (dentry_inode pd) in
      let* e := viop_unlink (ops_of pv) (dentry_inode pd) p u in
      if negb (e =? 0) then ret (-1)
      else
        let* _ := hash_erase_dentry p in
        let* _ := free_vfs_dentry p in
        upd_vinode u (fun v => set_ref (s32 (ref v - 1)) v) ;;;
        let* v := get_vinode u in
        (if nlinks v =? 0 then
           assert (ref v =? 0) ;;;
           let* _ := hash_erase_vinode u in
           free_vinode_page u
         else ret tt) ;;;
        ret 0.

(** ** Directories *)

Definition vfs_opendir (hartid : Z) (path : name) : M fs Z :=
  let* parent := get_path_start_dentry hartid path in
  let* (p, _, _) := lookup_final_dentry path parent in
  if p =? 0 then ret 0
  else
    let* d := get_dentry p in
    let* v := get_vinode (dentry_inode d) in
    if negb (v_type v =? DIR_I) then ret 0
    else
      let* fl := alloc_vfs_file p 1 0 in
      (if viop_hook_opendir (ops_of v) is Some hook then
         let* _ := hook (dentry_inode d) p in ret tt
       else ret tt) ;;;
      ret fl.

Definition vfs_readdir (fl : file) : M fs (option (name * Z) * file) :=
  let* (p, v) := inode_of fl in
  if negb (v_type v =? DIR_I) then ret (None, fl)
  else
    let* (r, off) := viop_readdir (ops_of v) p (offset fl) in
    ret (r, set_offset off fl).

Definition vfs_mkdir (hartid : Z) (path : name) : M fs Z :=
  let* parent := get_path_start_dentry hartid path in
  let* (p, parent, miss_name) := lookup_final_dentry path parent in
  if negb (p =? 0) then ret (-1)
  else
    let* basename := get_base_name path in
    if negb (bool_decide (miss_name = basename)) then ret (-1)
    else
      let* nd := alloc_vfs_dentry basename 0 parent in
      let* pd := get_dentry parent in
      let* pv := get_vinode (dentry_inode pd) in
      let* new := viop_mkdir (ops_of pv) (dentry_inode pd) nd in
      if new =? 0 then
        zoom fs_pmmL (free_page nd) ;;;
        modify (fun s => set_dentries (delete nd (dentries s)) s) ;;;
        ret (-1)
      else
        upd_dentry nd (set_dentry_inode new) ;;;
        upd_vinode new (fun v => set_ref (s32 (ref v + 1)) v) ;;;
        let* _ := hash_put_dentry nd in
        let* _ := hash_put_vinode new in
        ret 0.

Definition vfs_closedir (fl : file) : M fs (Z * file) :=
  let* (p, v) := inode_of fl in
  if negb (v_type v =? DIR_I) then ret (-1, fl)
  else
    upd_dentry (f_dentry fl) (fun d => set_d_ref (s32 (d_ref d - 1)) d) ;;;
    (if viop_hook_closedir (ops_of v) is Some hook then
       let* _ := hook p (f_dentry fl) in ret tt
     else ret tt) ;;;
    ret (0, set_f_status FD_NONE fl).

End WithHost.

(** ** Lookup in the cache *)

(** The dentry at the end of a path all of whose components are cached: "." stays,
    ".." goes to the parent, and stays at the root. *)
Fixpoint resolve (t : hash_table dentry_key) (ds : gmap Z dentry) (tokens : list name) (this : Z)
    : option Z :=
  match tokens with
  | [] => Some this
  | token :: tokens =>
      if bool_decide (token = [46]) then resolve t ds tokens this
      else if bool_decide (token = [46; 46]) then
        if ds !! this is Some d then
          if d_parent d =? 0 then resolve t ds tokens this
          else if ds !! d_parent d is Some _ then resolve t ds tokens (d_parent d) else None
        else None
      else
        let next := contents t (DentryKey this token) in
        if next =? 0 then None else resolve t ds tokens next
  end.

Section Lookup.
  Context `{Host}.

Lemma dentry_key_ok k : ok_key (K := dentry_key) k.
Proof. unfold ok_key. simpl. unfold dentry_hash_func. apply Z.mod_pos_bound. reflexivity. Qed.

Lemma get_dentry_run p d s : dentries s !! p = Some d -> get_dentry p s = Ok d s.
Proof. intros E. unfold get_dentry, bind, gets. by rewrite E. Qed.

Lemma lookup_tokens_cached s tokens : forall this parent p,
  resolve (dentry_hash_table s) (dentries s) tokens this = Some p ->
  exists up, lookup_tokens tokens this parent s = Ok (p, up, []) s.
Proof.
  induction tokens as [|token tokens IH]; intros this parent p; simpl.
  { intros [= ->]. by exists parent. }
  case_bool_decide; [apply IH|]. case_bool_decide.
  - destruct (dentries s !! this) as [d|] eqn:Ed; [|done].
    unfold bind. rewrite (get_dentry_run this d) by done.
    destruct (d_parent d =? 0); cbn [negb]; [apply IH|].
    destruct (dentries s !! d_parent d) as [u|] eqn:Eu; [|done].
    rewrite (get_dentry_run (d_parent d) u) by done. apply IH.
  - intros Hr. set (next := contents (dentry_hash_table s) (DentryKey this token)) in *.
    unfold bind, lookup_token, bind, hash_get_dentry.
    rewrite default_get_run by apply dentry_key_ok. cbn [lget dentryT]. fold next.
    destruct (next =? 0) eqn:E; [done|]. cbn [negb]. unfold ret at 1. rewrite E. by apply IH.
Qed.


End Lookup.

(** A root directory with a cached subdirectory "ab". *)
Definition demo_key : dentry_key := DentryKey 0x80001000 [97; 98].
Definition demo_dentries : gmap Z dentry :=
  {[0x80001000 := Dentry [47] 0 0x80003000 0; 0x80002000 := Dentry [97; 98] 0 0x80003000 0x80001000]}.
Definition demo_dir : vinode := Vinode 0 2 0 DIR_I 1 1 [12; 0; 0; 0; 0; 0; 0; 0; 0; 0] 0 0 rfs_i_ops.
Definition demo_procs : gmap Z process :=
  {[1 := Process 0 0 0 (HeapMan 0 0 0 0) 0 0 1 RUNNING None None 0 0x80000000]}.
Definition demo_vfs : fs :=
  Fs (Kernel (Vm (free_pages 4) 0) demo_procs {[0 := 1]} ∅ ∅ ∅ 0 ∅ 0 0 ∅ 0 0 0 0 0x80001000
        {[0x80000000 := ProcFiles 0x80001000 (repeat (File FD_NONE 0 0 0 0) 128) 0]} ∅)
    ∅ {[0x80003000 := demo_dir]} demo_dentries ∅ ∅ ∅ ∅ ∅ ∅ ∅
    {[dentry_hash_func demo_key := [HashNode 0x80004000 demo_key 0x80002000]]} ∅ ∅ ∅ ∅.

