(* ===== verification/ProcFile.v ===== *)
(** * Files of a process (kernel/proc_file.c)

    The table of open files of a process and the system-call side of the file
    operations; the working directory. *)

From S2P Require Import Prelude Mem Pmm StringLib HashTable Vmm Kernel Fs Rfs RfsDisk RfsFile Hostfs Vfs.
From stdpp Require Import base gmap list fin_maps.
From Stdlib Require Import ZArith Lia Bool.

Set Default Goal Selector "!".
Open Scope Z_scope.

(** [current[hartid]] and its file table, by the address of the table. *)
Definition my_pfiles (hartid : Z) : M fs Z :=
  assert (hartid <? NCPU) ;;;
  let* k := gets fs_kernel in
  assert (bool_decide (is_Some (current k !! hartid))) ;;;
  let* c := of_option (current k !! hartid) in
  let* p := of_option (procs k !! c) in
  if pfiles p =? 0 then fault else ret (pfiles p).

(** [&opened_files[i]]. *)
Definition get_entry (pf i : Z) : M fs file :=
  let* t := get_pfiles pf in
  if 0 <=? i then of_option (opened_files t !! Z.to_nat i) else fault.
Definition set_entry (pf i : Z) (fl : file) : M fs unit :=
  upd_pfiles pf (fun t => set_opened_files (<[Z.to_nat i := fl]> (opened_files t)) t).

(** The index of the entry the loop stops at. *)
Definition opened_index (fd : Z) : Z :=
  match head (filter (fun i => i = fd) (seqZ 0 MAX_FILES)) with
  | Some i => i
  | None => MAX_FILES - 1
  end.

(** The table, the index of the entry and its contents. *)
Definition get_opened_file (hartid fd : Z) : M fs (Z * Z * file) :=
  let* pf := my_pfiles hartid in
  let i := opened_index fd in
  let* fl := get_entry pf i in
  ret (pf, i, fl).

(** The first entry with status [FD_NONE], [MAX_FILES] when there is none ([pfile]
    is then left at the last entry). *)
Definition free_entry (t : proc_file_management) : Z :=
  match head (filter (fun i => f_status <$> opened_files t !! Z.to_nat i = Some FD_NONE)
               (seqZ 0 MAX_FILES)) with
  | Some i => i
  | None => MAX_FILES
  end.

Section WithHost.
  Context `{Host}.

(** [junk] as in [rfs_format_dev]. *)
Definition fs_init (junk : list Z) : M fs unit :=
  let* _ := vfs_init in
  let* e := register_hostfs in
  if e <? 0 then panic
  else
    let hostdev := [72; 79; 83; 84; 68; 69; 86] in
    let* _ := init_host_device hostdev in
    let* _ := vfs_mount hostdev MOUNT_AS_ROOT in
    let* e := register_rfs in
    if e <? 0 then panic
    else
      let ramdisk0 := [82; 65; 77; 68; 73; 83; 75; 48] in
      let* dev := init_rfs_device ramdisk0 in
      let* _ := rfs_format_dev junk dev in
      let* _ := vfs_mount ramdisk0 MOUNT_DEFAULT in
      ret tt.

(** The file that [vfs_open] or [vfs_opendir] made, copied into the table. *)
Definition install (pf fd fl : Z) : M fs unit :=
  let* t := gets files in
  let* x := of_option (t !! fl) in
  set_entry pf fd x ;;;
  upd_pfiles pf (fun t => set_nfiles (s32 (nfiles t + 1)) t).

Definition do_open (hartid : Z) (pathname : name) (flags : Z) : M fs Z :=
  let* pf := my_pfiles hartid in
  let* fl := vfs_open hartid pathname flags in
  if fl =? 0 then ret (-1)
  else
    let* t := get_pfiles pf in
    if MAX_FILES <=? nfiles t then panic
    else
      let fd := free_entry t in
      install pf (Z.min fd (MAX_FILES - 1)) fl ;;;
      ret fd.

(** [buffer] is the address of the local [char buffer[count + 1]]. *)
Definition do_read (hartid fd buf count buffer : Z) : M fs Z :=
  let* (pf, i, fl) := get_opened_file hartid fd in
  if readable fl =? 0 then panic
  else
    let* (len, fl) := vfs_read fl buffer count in
    set_entry pf i fl ;;;
    if in_dram buffer (count + 1) then
      modify (fun s => set_fs_mem (store8 (fs_mem s) (buffer + count) 0) s) ;;;
      let* m := gets fs_mem in
      let* l := of_option (string_at (Z.to_nat count + 1) m buffer) in
      if in_dram buf (Z.of_nat (length l) + 1) then
        modify (fun s => set_fs_mem (put_string (fs_mem s) buf l) s) ;;;
        ret (s32 len)
      else fault
    else fault.

Definition do_write (hartid fd buf count : Z) : M fs Z :=
  let* (pf, i, fl) := get_opened_file hartid fd in
  if writable fl =? 0 then panic
  else
    let* (len, fl) := vfs_write fl buf count in
    set_entry pf i fl ;;;
    ret (s32 len).

Definition do_lseek (hartid fd off whence : Z) : M fs Z :=
  let* (pf, i, fl) := get_opened_file hartid fd in
  let* (r, fl) := vfs_lseek fl off whence in
  set_entry pf i fl ;;;
  ret (s32 r).

Definition do_stat (hartid fd : Z) : M fs istat :=
  let* (_, _, fl) := get_opened_file hartid fd in vfs_stat fl.

Definition do_disk_stat (hartid fd : Z) : M fs istat :=
  let* (_, _, fl) := get_opened_file hartid fd in vfs_disk_stat fl.

Definition do_close (hartid fd : Z) : M fs Z :=
  let* (pf, i, fl) := get_opened_file hartid fd in
  let* (r, fl) := vfs_close fl in
  set_entry pf i fl ;;;
  ret r.

(** When no entry is free [pfile] is the last one, whose status is not
    [FD_NONE]. *)
Definition do_opendir (hartid : Z) (pathname : name) : M fs Z :=
  let* pf := my_pfiles hartid in
  let* fl := vfs_opendir hartid pathname in
  if fl =? 0 then ret (-1)
  else
    let* t := get_pfiles pf in
    let fd := free_entry t in
    if fd <? MAX_FILES then install pf fd fl ;;; ret fd else panic.

Definition do_readdir (hartid fd : Z) : M fs (option (name * Z)) :=
  let* (pf, i, fl) := get_opened_file hartid fd in
  let* (r, fl) := vfs_readdir fl in
  set_entry pf i fl ;;;
  ret r.

Definition do_mkdir (hartid : Z) (pathname : name) : M fs Z := vfs_mkdir hartid pathname.

Definition do_closedir (hartid fd : Z) : M fs Z :=
  let* (pf, i, fl) := get_opened_file hartid fd in
  let* (r, fl) := vfs_closedir fl in
  set_entry pf i fl ;;;
  ret r.

Definition do_link (hartid : Z) (oldpath newpath : name) : M fs Z := vfs_link hartid oldpath newpath.
Definition do_unlink (hartid : Z) (path : name) : M fs Z := vfs_unlink hartid path.

(** ** The working directory *)

(** The names from a dentry up to the root: [temp_path], which has
    [MAX_PATH_LEN] entries; [None] when the root is not reached. *)
Fixpoint names_up (fuel : nat) (root iter : Z) : M fs (option (list name)) :=
  if iter =? root then ret (Some [])
  else if iter =? 0 then ret None
  else match fuel with
       | O => fault
       | S fuel =>
           let* d := get_dentry iter in
           let* l := names_up fuel root (d_parent d) in
           ret (cons (d_name d) <$> l)
       end.

(** The path as the [strcat]s build it. *)
Definition join_path (l : list name) : name := concat (map (cons 47) (rev l)).

Definition write_path (path : Z) (nm : name) : M fs unit :=
  if in_dram path (Z.of_nat (length nm) + 1) then
    modify (fun s => set_fs_mem (put_string (fs_mem s) path nm) s)
  else fault.

Definition do_rcwd (hartid path : Z) : M fs Z :=
  let* pf := my_pfiles hartid in
  let* t := get_pfiles pf in
  let* root := root_dentry in
  if cwd t =? root then write_path path [47] ;;; ret 0
  else
    let* l := names_up (Z.to_nat MAX_PATH_LEN) root (cwd t) in
    match l with
    | None => ret (-1)
    | Some l => write_path path (join_path l) ;;; ret 0
    end.

Definition do_ccwd (hartid : Z) (path : name) : M fs Z :=
  let* pf := my_pfiles hartid in
  let* t := get_pfiles pf in
  let* (p, _, _) := lookup_final_dentry path (cwd t) in
  if p =? 0 then ret (-1)
  else
    let* d := get_dentry p in
    let* v := get_vinode (dentry_inode d) in
    if negb (v_type v =? DIR_I) then ret (-1)
    else upd_pfiles pf (set_cwd p) ;;; ret 0.

End WithHost.

(** ** File descriptors *)

(** A file descriptor that is not in the table is not rejected:
    [get_opened_file] gives the entry [fd] for 0 <= fd < 128 and the last entry
    for every other [fd]; it never panics on the descriptor. *)
Theorem get_opened_file_any_fd hartid fd c x t s :
  hartid < NCPU -> current (fs_kernel s) !! hartid = Some c -> procs (fs_kernel s) !! c = Some x ->
  pfiles x <> 0 -> file_tables (fs_kernel s) !! pfiles x = Some t ->
  length (opened_files t) = Z.to_nat MAX_FILES ->
  let i := if (0 <=? fd) && (fd <? MAX_FILES) then fd else MAX_FILES - 1 in
  exists fl, opened_files t !! Z.to_nat i = Some fl /\
    get_opened_file hartid fd s = Ok (pfiles x, i, fl) s.
Proof.
  intros Hh Hc Hx Hp Ht Hl i.
  assert (opened_index fd = i) as Ei.
  { unfold opened_index, i. destruct (head _) as [j|] eqn:E.
    - apply head_Some_elem_of, list_elem_of_filter in E as [-> Hj%elem_of_seqZ].
      by replace ((0 <=? fd) && (fd <? MAX_FILES)) with true by lia.
    - destruct ((0 <=? fd) && (fd <? MAX_FILES)) eqn:Ef; [|done]. exfalso.
      apply head_None in E.
      assert (fd ∈ filter (fun j => j = fd) (seqZ 0 MAX_FILES)) as Hin.
      { apply list_elem_of_filter. split; [done|]. apply elem_of_seqZ. lia. }
      rewrite E in Hin. by apply elem_of_nil in Hin. }
  assert (0 <= i < MAX_FILES) as Hi.
  { unfold i. destruct ((0 <=? fd) && (fd <? MAX_FILES)) eqn:Ef; unfold MAX_FILES in *; lia. }
  destruct (lookup_lt_is_Some_2 (opened_files t) (Z.to_nat i)) as [fl Hfl]; [lia|].
  exists fl. split; [done|]. unfold get_opened_file, my_pfiles, assert, bind, gets, get_entry, get_pfiles.
  rewrite (proj2 (Z.ltb_lt hartid NCPU)) by done. unfold ret. rewrite Hc.
  rewrite bool_decide_true by eauto. cbn [of_option]. unfold ret. rewrite Hx. cbn [of_option].
  unfold ret. rewrite (proj2 (Z.eqb_neq (pfiles x) 0)) by done. unfold bind, gets. rewrite Ei, Ht.
  cbn [of_option]. unfold ret. rewrite (proj2 (Z.leb_le 0 i)) by lia. by rewrite Hfl.
Qed.

Lemma get_opened_file_any_fd_witness : exists fl,
  get_opened_file 0 (-5) demo_vfs = Ok (0x80000000, 127, fl) demo_vfs.
Proof.
  destruct (get_opened_file_any_fd 0 (-5) 1
    (Process 0 0 0 (HeapMan 0 0 0 0) 0 0 1 RUNNING None None 0 0x80000000)
    (ProcFiles 0x80001000 (repeat (File FD_NONE 0 0 0 0) 128) 0) demo_vfs) as (fl & _ & H2);
    [reflexivity|reflexivity|reflexivity|discriminate|reflexivity|reflexivity|].
  exists fl. exact H2.
Defined.

(** ** Changing and printing the working directory *)

(** The cache and the dentries agree, and the root is the one without parent. *)
Record cache_ok (s : fs) : Prop := {
  co_entry : forall k p, contents (dentry_hash_table s) k = p -> p <> 0 ->
    exists d, dentries s !! p = Some d /\ d_parent d = dk_parent k /\ d_name d = dk_name k;
  co_root : exists d, dentries s !! vfs_root_dentry (fs_kernel s) = Some d /\ d_parent d = 0;
  co_root_ne : vfs_root_dentry (fs_kernel s) <> 0
}.

Definition plain (tokens : list name) : Prop :=
  Forall (fun t => t <> [46] /\ t <> [46; 46]) tokens.

Lemma words_from_length ds l : forall cur,
  (length (words_from ds cur l) <= length l + (if cur is [] then 0 else 1))%nat.
Proof.
  induction l as [|c l IH]; intros cur; simpl.
  - destruct cur; simpl; lia.
  - destruct (is_delim ds c).
    + specialize (IH []). destruct cur; simpl in *; lia.
    + specialize (IH (cur ++ [c])). destruct cur; simpl in *; lia.
Qed.

Section Cwd.
  Context `{Host}.

(** Walking down through cached names and up through parents are inverse. *)
Lemma names_up_resolve s root tokens : cache_ok s -> root = vfs_root_dentry (fs_kernel s) ->
  forall this l fuel p, plain tokens -> this <> 0 ->
  resolve (dentry_hash_table s) (dentries s) tokens this = Some p ->
  (forall fuel', (length l <= fuel')%nat -> names_up fuel' root this s = Ok (Some l) s) ->
  (length l + length tokens <= fuel)%nat ->
  names_up fuel root p s = Ok (Some (rev tokens ++ l)) s.
Proof.
  intros Hco Hroot. induction tokens as [|t tokens IH]; intros this l fuel p Hpl Hne Hr Hup Hf.
  { injection Hr as ->. apply Hup. simpl in Hf. lia. }
  apply Forall_cons in Hpl as [[H1 H2] Hpl]. simpl in Hr.
  rewrite bool_decide_false in Hr by done. rewrite bool_decide_false in Hr by done.
  set (next := contents (dentry_hash_table s) (DentryKey this t)) in *.
  destruct (Z.eqb_spec next 0) as [|Hn]; [done|].
  destruct (co_entry s Hco (DentryKey this t) next eq_refl Hn) as (d & Hd & Hpar & Hnm).
  destruct (co_root s Hco) as (dr & Hdr & Hdr0).
  simpl in Hpar, Hnm. simpl. rewrite <- app_assoc. simpl.
  apply (IH next (t :: l)); [done|done|done| |simpl in *; lia].
  intros [|fuel'] Hf'; simpl in Hf'; [lia|]. cbn [names_up].
  rewrite (proj2 (Z.eqb_neq next root)) by (intros ->; subst root; congruence).
  rewrite (proj2 (Z.eqb_neq next 0)) by done.
  unfold bind. rewrite (get_dentry_run next d) by done. rewrite Hpar, Hup by lia. by rewrite Hnm.
Qed.

Lemma my_pfiles_run hartid c x s : hartid < NCPU -> current (fs_kernel s) !! hartid = Some c ->
  procs (fs_kernel s) !! c = Some x -> pfiles x <> 0 -> my_pfiles hartid s = Ok (pfiles x) s.
Proof.
  intros Hh Hc Hx Hp. unfold my_pfiles, assert, bind, gets.
  rewrite (proj2 (Z.ltb_lt hartid NCPU)) by done. unfold ret. rewrite Hc.
  rewrite bool_decide_true by eauto. cbn [of_option]. unfold ret. rewrite Hx. cbn [of_option].
  unfold ret. by rewrite (proj2 (Z.eqb_neq (pfiles x) 0)).
Qed.

Lemma get_pfiles_run pf t s : file_tables (fs_kernel s) !! pf = Some t -> get_pfiles pf s = Ok t s.
Proof. intros E. unfold get_pfiles, bind, gets. by rewrite E. Qed.

(** The working directory is printed as it was set.  After [do_ccwd] to an
    absolute path of cached directories (without "." and ".."), [do_rcwd] writes
    the names of that path, each after a slash, and "/" for the root. *)
Theorem cwd_roundtrip hartid path pa c x t p d v s :
  hartid < NCPU -> current (fs_kernel s) !! hartid = Some c -> procs (fs_kernel s) !! c = Some x ->
  pfiles x <> 0 -> file_tables (fs_kernel s) !! pfiles x = Some t ->
  cache_ok s -> is_absolute path = true -> Z.of_nat (length path) < MAX_PATH_LEN ->
  plain (path_tokens path) ->
  resolve (dentry_hash_table s) (dentries s) (path_tokens path) (vfs_root_dentry (fs_kernel s))
    = Some p ->
  dentries s !! p = Some d -> vinodes s !! dentry_inode d = Some v -> v_type v = DIR_I ->
  p <> 0 ->
  let text := if path_tokens path is [] then [47] else concat (map (cons 47) (path_tokens path)) in
  in_dram pa (Z.of_nat (length text) + 1) = true ->
  exists s1 s2, do_ccwd hartid path s = Ok 0 s1 /\ do_rcwd hartid pa s1 = Ok 0 s2 /\
    fs_mem s2 = put_string (fs_mem s) pa text.
Proof.
  intros Hh Hc Hx Hp Ht Hco Habs Hlen Hpl Hr Hd Hv Hty Hp0 text Hin.
  set (s1 := set_fs_kernel (set_file_tables (<[pfiles x := set_cwd p t]> (file_tables (fs_kernel s)))
    (fs_kernel s)) s).
  assert (do_ccwd hartid path s = Ok 0 s1) as Hccwd.
  { unfold do_ccwd, bind at 1. rewrite (my_pfiles_run hartid c x) by done.
    unfold bind at 1. rewrite (get_pfiles_run _ t) by done.
    assert (exists up, lookup_final_dentry path (cwd t) s = Ok (p, up, []) s) as [up Hlk].
    { unfold lookup_final_dentry, bind, path_copy, root_dentry, gets.
      rewrite (proj2 (Z.ltb_lt _ _)) by done. unfold ret. rewrite Habs.
      by apply lookup_tokens_cached. }
    unfold bind at 1. rewrite Hlk. rewrite (proj2 (Z.eqb_neq p 0)) by done.
    unfold bind at 1. rewrite (get_dentry_run p d) by done. unfold bind at 1.
    rewrite (get_vinode_run _ v) by done. rewrite Hty. rewrite Z.eqb_refl. cbn [negb].
    unfold upd_pfiles, bind. by rewrite (get_pfiles_run _ t). }
  assert (cache_ok s1) as Hco1 by (destruct Hco; by constructor).
  assert (names_up (Z.to_nat MAX_PATH_LEN) (vfs_root_dentry (fs_kernel s)) p s1 =
    Ok (Some (rev (path_tokens path) ++ [])) s1) as Hup.
  { apply (names_up_resolve s1 _ (path_tokens path) Hco1 eq_refl (vfs_root_dentry (fs_kernel s)));
      [done|apply Hco|done| |].
    - intros [|f'] _; simpl; by rewrite Z.eqb_refl.
    - pose proof (words_from_length [47] path []) as Hw. unfold path_tokens, words. simpl in *. lia. }
  exists s1. unfold do_rcwd. unfold bind at 1. rewrite (my_pfiles_run hartid c x) by done.
  unfold bind at 1. rewrite (get_pfiles_run _ (set_cwd p t)) by (simpl; apply lookup_insert_eq).
  unfold bind at 1, root_dentry, gets.
  change (vfs_root_dentry (fs_kernel s1)) with (vfs_root_dentry (fs_kernel s)). cbn [cwd set_cwd].
  rewrite app_nil_r in Hup. unfold text in *. destruct (path_tokens path) as [|tk tks] eqn:Et.
  - injection Hr as <-. rewrite Z.eqb_refl. unfold bind, write_path. rewrite Hin.
    eexists. split_and!; done.
  - rewrite (proj2 (Z.eqb_neq p _)).
    2: { intros ->. simpl names_up in Hup. rewrite Z.eqb_refl in Hup.
         injection Hup as Hup. by apply (f_equal length) in Hup; rewrite length_app in Hup; simpl in Hup; lia. }
    unfold bind at 1. rewrite Hup. unfold join_path. rewrite rev_involutive.
    unfold bind, write_path. rewrite Hin. eexists. split_and!; done.
Qed.

Lemma demo_cache_ok : cache_ok demo_vfs.
Proof.
  constructor.
  - intros k p Hk Hp. assert (k = demo_key /\ p = 0x80002000) as [-> ->].
    { unfold contents, demo_vfs, chain in Hk. cbn [dentry_hash_table] in Hk.
      destruct (decide (hash_func k = dentry_hash_func demo_key)) as [E|E].
      - rewrite E, lookup_singleton_eq in Hk. simpl in Hk.
        destruct (dentry_hash_equal demo_key k) eqn:Ek; [|congruence].
        change (hash_equal demo_key k = true) in Ek. by apply hash_equal_spec in Ek as <-.
      - rewrite lookup_singleton_ne in Hk by done. simpl in Hk. congruence. }
    eexists. split_and!; reflexivity.
  - eexists. split; reflexivity.
  - discriminate.
Qed.

End Cwd.

Lemma cwd_roundtrip_witness : exists s1 s2,
  @do_ccwd demo_host 0 [47; 97; 98] demo_vfs = Ok 0 s1 /\ do_rcwd 0 0x80010000 s1 = Ok 0 s2 /\
  fs_mem s2 = put_string (fs_mem demo_vfs) 0x80010000 [47; 97; 98].
Proof.
  apply (@cwd_roundtrip demo_host 0 [47; 97; 98] 0x80010000 1
    (Process 0 0 0 (HeapMan 0 0 0 0) 0 0 1 RUNNING None None 0 0x80000000)
    (ProcFiles 0x80001000 (repeat (File FD_NONE 0 0 0 0) 128) 0) 0x80002000
    (Dentry [97; 98] 0 0x80003000 0x80001000) demo_dir demo_vfs);
    [reflexivity|reflexivity|reflexivity|discriminate|reflexivity|apply demo_cache_ok|reflexivity
    |reflexivity| |vm_compute; reflexivity|reflexivity|reflexivity|reflexivity|discriminate
    |reflexivity].
  repeat constructor; discriminate.
Defined.
