(* ===== verification/System.v ===== *)
(** * The system

    The state of the whole machine: file systems and kernel ([Fs]), the fields
    of the processes for debug information, the buffers for pipes of
    kernel/syscall.c, and the text written to the terminal.  Console output
    (spike_interface/spike_utils.c) is built with [vsnprintf]; what the kernel
    writes to [stderr] is appended to [console]. *)

From S2P Require Import Prelude Mem StringLib Literals Printf Kernel Fs.
From stdpp Require Import base gmap list fin_maps.
From Stdlib Require Import ZArith Lia Bool.

Set Default Goal Selector "!".
Open Scope Z_scope.

Definition IO_PIPELINE_BUF_SIZE : Z := 256.

(** ** The state *)

(** The fields [debugline], [dir], [file], [line] and [line_ind] of a process;
    they are zero in a process that has none. *)
Record line_info : Type := LineInfo {
  debugline : Z;
  li_dir : Z;
  li_file : Z;
  li_line : Z;
  li_line_ind : Z
}.
Definition no_lines : line_info := LineInfo 0 0 0 0 0.

(** [io_pipline_t]; the array [buf[2][IO_PIPELINE_BUF_SIZE]] by the offset from
    its start. *)
Record io_pipline_t : Type := IoPipline {
  stdin_close : Z;
  stdout_close : Z;
  pipe_buf : bytes;
  buf_len : Z;
  buf_pos : Z
}.
Definition empty_pipline : io_pipline_t := IoPipline 0 0 ∅ 0 0.

Definition set_stdin_close (x : Z) (s : io_pipline_t) : io_pipline_t :=
  IoPipline x (stdout_close s) (pipe_buf s) (buf_len s) (buf_pos s).
Definition set_stdout_close (x : Z) (s : io_pipline_t) : io_pipline_t :=
  IoPipline (stdin_close s) x (pipe_buf s) (buf_len s) (buf_pos s).
Definition set_pipe_buf (x : bytes) (s : io_pipline_t) : io_pipline_t :=
  IoPipline (stdin_close s) (stdout_close s) x (buf_len s) (buf_pos s).
Definition set_buf_len (x : Z) (s : io_pipline_t) : io_pipline_t :=
  IoPipline (stdin_close s) (stdout_close s) (pipe_buf s) x (buf_pos s).
Definition set_buf_pos (x : Z) (s : io_pipline_t) : io_pipline_t :=
  IoPipline (stdin_close s) (stdout_close s) (pipe_buf s) (buf_len s) x.

Record sys : Type := Sys {
  sys_fs : fs;
  line_infos : gmap Z line_info;
  console : list Z;
  pipline_buf : gmap Z io_pipline_t;
  pipline_num : gmap Z Z
}.

Definition set_sys_fs (x : fs) (s : sys) : sys :=
  Sys x (line_infos s) (console s) (pipline_buf s) (pipline_num s).
Definition set_line_infos (x : gmap Z line_info) (s : sys) : sys :=
  Sys (sys_fs s) x (console s) (pipline_buf s) (pipline_num s).
Definition set_console (x : list Z) (s : sys) : sys :=
  Sys (sys_fs s) (line_infos s) x (pipline_buf s) (pipline_num s).
Definition set_pipline_buf (x : gmap Z io_pipline_t) (s : sys) : sys :=
  Sys (sys_fs s) (line_infos s) (console s) x (pipline_num s).
Definition set_pipline_num (x : gmap Z Z) (s : sys) : sys :=
  Sys (sys_fs s) (line_infos s) (console s) (pipline_buf s) x.

Definition sys_kernel (s : sys) : kernel := fs_kernel (sys_fs s).
Definition sys_mem (s : sys) : bytes := fs_mem (sys_fs s).
Definition fsL : lens sys fs := Lens sys_fs set_sys_fs.
Definition fs_memL : lens fs bytes := Lens fs_mem set_fs_mem.
Definition fs_kernelL : lens fs kernel := Lens fs_kernel set_fs_kernel.
Definition kernelL : lens sys kernel :=
  Lens sys_kernel (fun k s => set_sys_fs (set_fs_kernel k (sys_fs s)) s).
Definition sys_pmmL : lens sys Pmm.pmm :=
  Lens (fun s => lget fs_pmmL (sys_fs s)) (fun p s => set_sys_fs (lset fs_pmmL p (sys_fs s)) s).

(** A static array is zero at the start. *)
Definition get_pipline (h : Z) : M sys io_pipline_t :=
  gets (fun s => default empty_pipline (pipline_buf s !! h)).
Definition upd_pipline (h : Z) (f : io_pipline_t -> io_pipline_t) : M sys unit :=
  modify (fun s => set_pipline_buf
    (<[h := f (default empty_pipline (pipline_buf s !! h))]> (pipline_buf s)) s).
Definition get_pipline_num (h : Z) : M sys Z := gets (fun s => default 0 (pipline_num s !! h)).

(** ** Console output *)

(** The bytes of a range. *)
Definition read_bytes (m : bytes) (a n : Z) : list Z :=
  (fun i => load8 m (a + Z.of_nat i)) <$> seq 0 (Z.to_nat n).

(** The local array [out] has 256 bytes; [res] is compared as a [size_t]. *)
Definition vprintk (s : list Z) (vl : list va_slot) : M sys unit :=
  let* (res, out) := of_option (vsnprintf 0 256 s vl ∅) in
  let n := if u64 res <? 256 then res else 256 in
  modify (fun t => set_console (console t ++ read_bytes out 0 n) t).

Definition sprint (s : list Z) (vl : list va_slot) : M sys unit := vprintk s vl.

(** The string a pointer argument of [%s] refers to; reading on past the memory
    is a wild access. *)
Definition string_arg (a : Z) : M sys (list Z) :=
  let* m := gets sys_mem in
  if in_dram a 1 then of_option (string_at (Z.to_nat (PHYS_TOP - a)) m a) else fault.

(** What is printed: the text when it fits in 255 bytes, and otherwise its first
    255 bytes and a NUL. *)
Definition printed (text : list Z) : list Z :=
  if Z.of_nat (length text) <? 256 then u8 <$> text else (u8 <$> take 255 text) ++ [0].

Lemma read_bytes_lookup m a n i : 0 <= n -> (i < Z.to_nat n)%nat ->
  read_bytes m a n !! i = Some (load8 m (a + Z.of_nat i)).
Proof.
  intros Hn Hi. unfold read_bytes. rewrite list_lookup_fmap, lookup_seq_lt by done. done.
Qed.

Lemma read_bytes_length m a n : length (read_bytes m a n) = Z.to_nat n.
Proof. unfold read_bytes. by rewrite length_fmap, length_seq. Qed.

Lemma read_bytes_at m l : forall a, bytes_at m a l -> read_bytes m a (Z.of_nat (length l)) = l.
Proof.
  unfold read_bytes. rewrite Nat2Z.id.
  induction l as [|b l IH]; intros a Hl; [done|]. destruct Hl as [Hb Hl].
  cbn [length seq]. rewrite fmap_cons, Z.add_0_r, Hb. f_equal.
  rewrite <- seq_shift. rewrite <- list_fmap_compose. rewrite <- (IH (a + 1)) at 2 by done.
  apply list_fmap_ext. intros i x _. simpl. f_equal. lia.
Qed.

Lemma vprintk_run s vl text t :
  render s false false vl = Some text -> Z.of_nat (length text) < 2 ^ 31 ->
  uses_c s false = false \/ Z.of_nat (length text) < 256 ->
  vprintk s vl t = Ok tt (set_console (console t ++ printed text) t).
Proof.
  intros Hr Hl Hc. destruct (vsnprintf_run 0 256 ∅ s vl text) as (m & Hv & Hm & H0 & _); [done|exact Hc|lia|].
  unfold vprintk, bind. rewrite Hv, s32_small by lia. simpl of_option. unfold ret, modify.
  rewrite u64_small by lia. do 3 f_equal. unfold printed.
  destruct (Z.ltb_spec (Z.of_nat (length text)) 256) as [Hlt|Hge].
  - apply list_eq. intros i. rewrite list_lookup_fmap. destruct (text !! i) as [c|] eqn:E.
    + pose proof (lookup_lt_Some _ _ _ E). rewrite read_bytes_lookup by lia. simpl. f_equal.
      apply Hm; [lia|done].
    + simpl. apply lookup_ge_None_2. rewrite read_bytes_length, Nat2Z.id. by apply lookup_ge_None_1.
  - apply list_eq. intros i. destruct (Nat.lt_ge_cases i 255) as [Hi|Hi].
    + rewrite read_bytes_lookup, lookup_app_l by (rewrite ?length_fmap, ?length_take; lia).
      rewrite list_lookup_fmap, lookup_take_lt by lia.
      destruct (lookup_lt_is_Some_2 text i) as [c E]; [lia|]. rewrite E. simpl. f_equal.
      apply Hm; [lia|done].
    + rewrite lookup_app_r by (rewrite length_fmap, length_take; lia).
      rewrite length_fmap, length_take, Nat.min_l by lia.
      destruct (decide (i = 255%nat)) as [->|].
      * rewrite read_bytes_lookup by lia. simpl. f_equal. rewrite Z.min_r in H0 by lia. by apply H0.
      * rewrite !lookup_ge_None_2; [done|simpl; lia|rewrite read_bytes_length; lia].
Qed.
