(* ===== verification/Elf.v ===== *)
(** * Loading programs (kernel/elf.c)

    The loader of ELF files, the symbol table for backtraces, and [exec].  The
    structures read from a file live in memory: [ctx_ehdr], and the address
    arguments of the functions below, are the addresses of the local variables
    they are read into. *)

From Stdlib Require Import String Ascii.
From S2P Require Import Prelude Mem Literals Pmm StringLib Printf Vmm Kernel Process Fs Hostfs Vfs Dwarf System.
From stdpp Require Import base gmap list fin_maps.
From Stdlib Require Import ZArith Lia Bool.

Set Default Goal Selector "!".
Open Scope Z_scope.

(** ** Constants and layout (kernel/elf.h) *)

Definition ELF_MAGIC : Z := 0x464C457F.
Definition ELF_PROG_LOAD : Z := 1.
Definition SEGMENT_READABLE : Z := 0x4.
Definition SEGMENT_EXECUTABLE : Z := 0x1.
Definition SEGMENT_WRITABLE : Z := 0x2.
Definition SHT_PROGBITS : Z := 1.
Definition SHT_SYMTAB : Z := 2.
Definition SHT_STRTAB : Z := 3.
Definition STT_FUNC : Z := 2.
Definition ELF_ST_TYPE (i : Z) : Z := Z.land i 0xf.
Definition MAX_SYMBOLS : Z := 1024.
Definition MAX_STRTAB_SIZE : Z := 8192.

Inductive elf_status : Type := EL_OK | EL_EIO | EL_ENOMEM | EL_NOTELF | EL_ERR.

#[export] Instance elf_status_eq_dec : EqDecision elf_status.
Proof. solve_decision. Defined.

(** Offsets in [elf_header]. *)
Definition EH_ENTRY : Z := 24.
Definition EH_PHOFF : Z := 32.
Definition EH_SHOFF : Z := 40.
Definition EH_PHNUM : Z := 56.
Definition EH_SHENTSIZE : Z := 58.
Definition EH_SHNUM : Z := 60.
Definition EH_SHSTRNDX : Z := 62.
Definition SIZEOF_ELF_HEADER : Z := 64.

(** Offsets in [elf_prog_header]. *)
Definition PH_TYPE : Z := 0.
Definition PH_FLAGS : Z := 4.
Definition PH_OFF : Z := 8.
Definition PH_VADDR : Z := 16.
Definition PH_FILESZ : Z := 32.
Definition PH_MEMSZ : Z := 40.
Definition SIZEOF_ELF_PROG_HEADER : Z := 56.

(** Offsets in [elf_sect_header] and [elf_sec_header]. *)
Definition SH_NAME : Z := 0.
Definition SH_TYPE : Z := 4.
Definition SH_OFFSET : Z := 24.
Definition SH_SIZE : Z := 32.
Definition SH_LINK : Z := 40.
Definition SIZEOF_ELF_SECT_HEADER : Z := 64.

(** Offsets in [elf_symbol_rec] and [symbol_table]. *)
Definition ST_NAME : Z := 0.
Definition ST_INFO : Z := 4.
Definition ST_VALUE : Z := 8.
Definition ST_SIZE : Z := 16.
Definition SIZEOF_ELF_SYMBOL_REC : Z := 24.
Definition TAB_SYMBOL_COUNT : Z := MAX_SYMBOLS * SIZEOF_ELF_SYMBOL_REC.
Definition TAB_STR_TABLE : Z := TAB_SYMBOL_COUNT + 4.
Definition TAB_STR_TABLE_SIZE : Z := TAB_STR_TABLE + MAX_STRTAB_SIZE.

(** [elf_ctx] with the [elf_info] it points to: the file, the process and the
    address of the header. *)
Record elf_ctx : Type := ElfCtx { info_f : Z; info_p : Z; ctx_ehdr : Z }.

(** The static arrays of kernel/elf.c, one element per hart. *)
Class ElfData : Type := {
  debug_line_buf : Z -> Z;
  g_symtab : Z -> Z
}.

(** ** Memory *)

Definition fload (n : nat) (a : Z) : M fs Z := fun s =>
  if in_dram a (Z.of_nat n) then Ok (load_le n (fs_mem s) a) s else Fault.
Definition fstore (n : nat) (a v : Z) : M fs unit := fun s =>
  if in_dram a (Z.of_nat n) then Ok tt (set_fs_mem (store_le n (fs_mem s) a v) s) else Fault.

Definition the_file (f : Z) : M fs file :=
  let* t := gets files in of_option (t !! f).
Definition put_file (f : Z) (x : file) : M fs unit :=
  modify (fun s => set_files (<[f := x]> (files s)) s).
Definition the_proc (p : Z) : M fs process := zoom fs_kernelL (get_proc p).

Section WithHost.
  Context `{Host}.

(** ** Reading the file *)

Definition elf_alloc_mb (ctx : elf_ctx) (elf_pa elf_va size : Z) : M fs Z :=
  assert (size <=? PGSIZE) ;;;
  let* pa := zoom fs_pmmL alloc_page in
  if pa =? 0 then panic
  else
    let* _ := zoom fs_pmmL (kmemset pa 0 PGSIZE) in
    let* p := the_proc (info_p ctx) in
    zoom fs_pmmL (user_vm_map (pagetable p) (ROUNDDOWN elf_va PGSIZE) PGSIZE pa
      (prot_to_type (Z.lor (Z.lor PROT_WRITE PROT_READ) PROT_EXEC) 1)) ;;;
    ret (pa + elf_va mod PGSIZE).

Definition elf_fpread (ctx : elf_ctx) (dest nb offset : Z) : M fs Z :=
  let* fl := the_file (info_f ctx) in
  let* (_, fl) := vfs_lseek fl (s64 offset) LSEEK_SET in
  put_file (info_f ctx) fl ;;;
  let* (n, fl) := vfs_read fl dest nb in
  put_file (info_f ctx) fl ;;;
  ret (u64 n).

Definition elf_init (ctx : elf_ctx) : M fs elf_status :=
  let* n := elf_fpread ctx (ctx_ehdr ctx) SIZEOF_ELF_HEADER 0 in
  if negb (n =? SIZEOF_ELF_HEADER) then ret EL_EIO
  else
    let* magic := fload 4 (ctx_ehdr ctx) in
    if negb (magic =? ELF_MAGIC) then ret EL_NOTELF else ret EL_OK.

(** ** Segments *)

(** New zeroed pages for the segment. *)
Definition map_round (pt prot seg_end va : Z) : M fs (Z + unit) :=
  if va <? seg_end then
    let* pa := zoom fs_pmmL alloc_page in
    if pa =? 0 then panic
    else
      let* _ := zoom fs_pmmL (kmemset pa 0 PGSIZE) in
      zoom fs_pmmL (user_vm_map pt va PGSIZE pa (prot_to_type prot 1)) ;;;
      ret (inl (u64 (va + PGSIZE)))
  else ret (inr tt).

Definition map_segment (pt prot seg_start seg_end : Z) : M fs unit :=
  loop (rounds seg_start seg_end) (map_round pt prot seg_end) seg_start.

(** The bytes of the file, a page at a time. *)
Definition load_round (ctx : elf_ctx) (pt : Z) (x : Z * Z * Z)
    : M fs (Z * Z * Z + option elf_status) :=
  let '(remaining, cur_va, cur_off) := x in
  if 0 <? remaining then
    let* dest := zoom fs_pmmL (user_va_to_pa pt cur_va) in
    if dest =? 0 then ret (inr (Some EL_ERR))
    else
      let page_left := PGSIZE - cur_va mod PGSIZE in
      let chunk := if remaining <? page_left then remaining else page_left in
      let* n := elf_fpread ctx dest chunk cur_off in
      if negb (n =? chunk) then ret (inr (Some EL_EIO))
      else ret (inl (remaining - chunk, u64 (cur_va + chunk), u64 (cur_off + chunk)))
  else ret (inr None).

Definition load_bytes (ctx : elf_ctx) (pt filesz vaddr off : Z) : M fs (option elf_status) :=
  loop (S (rounds 0 filesz)) (load_round ctx pt) (filesz, vaddr, off).

(** The first entry of [mapped_info] whose address is 0, one past the last when
    there is none. *)
Definition region_round (info j : Z) : M fs (Z + Z) :=
  if j <? PGSIZE / 16 then
    let* va := fload 8 (region_va info j) in
    if va =? 0 then ret (inr j) else ret (inl (j + 1))
  else ret (inr j).
Definition free_region (info : Z) : M fs Z := loop 257 (region_round info) 0.

Definition record_region (p vaddr npages flags : Z) : M fs unit :=
  let* x := the_proc p in
  let* j := free_region (mapped_info x) in
  fstore 8 (region_va (mapped_info x) j) vaddr ;;;
  fstore 4 (region_npages (mapped_info x) j) npages ;;;
  (if flags =? Z.lor SEGMENT_READABLE SEGMENT_EXECUTABLE then
     fstore 4 (region_type (mapped_info x) j) CODE_SEGMENT
   else if flags =? Z.lor SEGMENT_READABLE SEGMENT_WRITABLE then
     fstore 4 (region_type (mapped_info x) j) DATA_SEGMENT
   else panic) ;;;
  zoom fs_kernelL (upd_proc p (fun x => set_total_mapped_region (s32 (total_mapped_region x + 1)) x)).

Definition segment_prot (flags : Z) : Z :=
  let prot := if has flags SEGMENT_READABLE then PROT_READ else 0 in
  let prot := if has flags SEGMENT_WRITABLE then Z.lor prot PROT_WRITE else prot in
  if has flags SEGMENT_EXECUTABLE then Z.lor prot PROT_EXEC else prot.

(** One round of the loop over the program headers, [None] to go on; [ph] is the
    address of [ph_addr]. *)
Definition load_segment (ctx : elf_ctx) (ph off : Z) : M fs (option elf_status) :=
  let* n := elf_fpread ctx ph SIZEOF_ELF_PROG_HEADER (u64 off) in
  if negb (n =? SIZEOF_ELF_PROG_HEADER) then ret (Some EL_EIO)
  else
    let* type := fload 4 (ph + PH_TYPE) in
    if negb (type =? ELF_PROG_LOAD) then ret None
    else
      let* memsz := fload 8 (ph + PH_MEMSZ) in
      let* filesz := fload 8 (ph + PH_FILESZ) in
      let* vaddr := fload 8 (ph + PH_VADDR) in
      if memsz <? filesz then ret (Some EL_ERR)
      else if u64 (vaddr + memsz) <? vaddr then ret (Some EL_ERR)
      else
        let seg_start := ROUNDDOWN vaddr PGSIZE in
        let seg_end := ROUNDUP (u64 (vaddr + memsz)) PGSIZE in
        let* flags := fload 4 (ph + PH_FLAGS) in
        let* p := the_proc (info_p ctx) in
        map_segment (pagetable p) (segment_prot flags) seg_start seg_end ;;;
        let* cur_off := fload 8 (ph + PH_OFF) in
        let* e := load_bytes ctx (pagetable p) filesz vaddr cur_off in
        if e is Some e then ret (Some e)
        else
          record_region (info_p ctx) vaddr (u32 (u64 (seg_end - seg_start) / PGSIZE)) flags ;;;
          ret None.

Definition load_round_ph (ctx : elf_ctx) (ph : Z) (x : Z * Z) : M fs (Z * Z + elf_status) :=
  let '(i, off) := x in
  let* phnum := fload 2 (ctx_ehdr ctx + EH_PHNUM) in
  if i <? phnum then
    let* e := load_segment ctx ph off in
    match e with
    | Some e => ret (inr e)
    | None => ret (inl (i + 1, s32 (off + SIZEOF_ELF_PROG_HEADER)))
    end
  else ret (inr EL_OK).

Definition elf_load (ctx : elf_ctx) (ph : Z) : M fs elf_status :=
  let* phoff := fload 8 (ctx_ehdr ctx + EH_PHOFF) in
  loop (Z.to_nat 65536) (load_round_ph ctx ph) (0, s32 phoff).

(** ** Sections *)

(** The outcome of a search through the section headers: the loop ended with a
    read error, at a section, or after the last one. *)
Inductive found : Type := Broken | Here | Nowhere.

#[export] Instance found_eq_dec : EqDecision found.
Proof. solve_decision. Defined.

(** [off] is an [int]; [sh] is the address of the header that is read. *)
Definition section_round (ctx : elf_ctx) (sh : Z) (wanted : M fs bool) (x : Z * Z)
    : M fs (Z * Z + found) :=
  let '(i, off) := x in
  let* shnum := fload 2 (ctx_ehdr ctx + EH_SHNUM) in
  if i <? shnum then
    let* n := elf_fpread ctx sh SIZEOF_ELF_SECT_HEADER (u64 off) in
    if negb (n =? SIZEOF_ELF_SECT_HEADER) then ret (inr Broken)
    else
      let* b := wanted in
      if (b : bool) then ret (inr Here)
      else ret (inl (i + 1, s32 (off + SIZEOF_ELF_SECT_HEADER)))
  else ret (inr Nowhere).

Definition find_section (ctx : elf_ctx) (sh : Z) (wanted : M fs bool) : M fs found :=
  let* shoff := fload 8 (ctx_ehdr ctx + EH_SHOFF) in
  loop (Z.to_nat 65536) (section_round ctx sh wanted) (0, s32 shoff).

Context `{ElfData}.

(** The section is named .debug_line; [shstrtab] holds the names. *)
Definition is_debug_line (psect_header shstrtab : Z) : M fs bool :=
  let* type := fload 4 (psect_header + SH_TYPE) in
  if type =? SHT_PROGBITS then
    let* nm := fload 4 (psect_header + SH_NAME) in
    let* m := gets fs_mem in
    of_option (string_eq m PHYS_TOP (shstrtab + nm) (str ".debug_line"))
  else ret false.

(** The status, and [*pdebug_line] and [*plength] when it is [EL_OK]. *)
Definition load_debug_line_section_header (hartid : Z) (ctx : elf_ctx)
    (psect_header shstr_header : Z) : M fs (elf_status * Z * Z) :=
  let fail e := ret (e, 0, 0) in
  let buf := debug_line_buf hartid in
  fstore 8 (psect_header + SH_SIZE) 0 ;;;
  let* shoff := fload 8 (ctx_ehdr ctx + EH_SHOFF) in
  let* shstrndx := fload 2 (ctx_ehdr ctx + EH_SHSTRNDX) in
  let* n := elf_fpread ctx shstr_header SIZEOF_ELF_SECT_HEADER
    (u64 (shoff + shstrndx * SIZEOF_ELF_SECT_HEADER)) in
  if negb (n =? SIZEOF_ELF_SECT_HEADER) then fail EL_EIO
  else
    let* size := fload 8 (shstr_header + SH_SIZE) in
    let* offset := fload 8 (shstr_header + SH_OFFSET) in
    if MAX_DEBUG_LINE_SIZE <? size then fail EL_ENOMEM
    else
      let* n := elf_fpread ctx buf size offset in
      if negb (n =? size) then fail EL_EIO
      else
        let* r := find_section ctx psect_header (is_debug_line psect_header buf) in
        match r with
        | Broken => fail EL_EIO
        | Nowhere => fail EL_ERR
        | Here =>
            let* size := fload 8 (psect_header + SH_SIZE) in
            let* offset := fload 8 (psect_header + SH_OFFSET) in
            if MAX_DEBUG_LINE_SIZE <? size then fail EL_ENOMEM
            else
              let* n := elf_fpread ctx buf size offset in
              if negb (n =? size) then fail EL_EIO else ret (EL_OK, buf, size)
        end.

Definition load_debug_line_section (hartid : Z) (ctx : elf_ctx) (sect_header : Z)
    : M fs elf_status :=
  assert ((hartid <? NCPU) && (0 <=? hartid)) ;;;
  let* size := fload 8 (sect_header + SH_SIZE) in
  let* offset := fload 8 (sect_header + SH_OFFSET) in
  if MAX_DEBUG_LINE_SIZE <? size then ret EL_ENOMEM
  else
    let* n := elf_fpread ctx (debug_line_buf hartid) size offset in
    if negb (n =? size) then ret EL_EIO else ret EL_OK.

(** ** Symbols *)

Definition is_symtab (sh_symtab : Z) : M fs bool :=
  let* type := fload 4 (sh_symtab + SH_TYPE) in ret (type =? SHT_SYMTAB).

(** [sh_symtab] and [sh_strtab] are the addresses of the two local headers. *)
Definition elf_load_symbol_table (hartid : Z) (ctx : elf_ctx) (sh_symtab sh_strtab : Z)
    : M sys elf_status :=
  let tab := g_symtab hartid in
  assert (hartid <? NCPU) ;;;
  let* r := zoom fsL (find_section ctx sh_symtab (is_symtab sh_symtab)) in
  let* symtab_size := zoom fsL (fload 8 (sh_symtab + SH_SIZE)) in
  match r with
  | Broken => ret EL_EIO
  | _ =>
      if bool_decide (r = Nowhere) || (symtab_size =? 0) then
        sprint (str "No symbol table found in ELF." ++ [10]) [] ;;;
        ret EL_ERR
      else
        let* symtab_addr := zoom fsL (fload 8 (sh_symtab + SH_OFFSET)) in
        let num_symbols := u32 (symtab_size / SIZEOF_ELF_SYMBOL_REC) in
        if MAX_SYMBOLS <? num_symbols then
          sprint (str "Symbol table too large: %u symbols." ++ [10]) [VNum num_symbols] ;;;
          ret EL_ERR
        else
          let* n := zoom fsL (elf_fpread ctx tab symtab_size symtab_addr) in
          if negb (n =? symtab_size) then ret EL_EIO
          else
            zoom fsL (fstore 4 (tab + TAB_SYMBOL_COUNT) num_symbols) ;;;
            let* shoff := zoom fsL (fload 8 (ctx_ehdr ctx + EH_SHOFF)) in
            let* sh_link := zoom fsL (fload 4 (sh_symtab + SH_LINK)) in
            let* shentsize := zoom fsL (fload 2 (ctx_ehdr ctx + EH_SHENTSIZE)) in
            let sh_strtab_addr := u64 (shoff + u32 (sh_link * shentsize)) in
            let* n := zoom fsL (elf_fpread ctx sh_strtab SIZEOF_ELF_SECT_HEADER sh_strtab_addr) in
            if negb (n =? SIZEOF_ELF_SECT_HEADER) then ret EL_EIO
            else
              let* type := zoom fsL (fload 4 (sh_strtab + SH_TYPE)) in
              let* size := zoom fsL (fload 8 (sh_strtab + SH_SIZE)) in
              let* offset := zoom fsL (fload 8 (sh_strtab + SH_OFFSET)) in
              if negb (type =? SHT_STRTAB) then
                sprint (str "Invalid string table section." ++ [10]) [] ;;;
                ret EL_ERR
              else if MAX_STRTAB_SIZE <? size then
                sprint (str "String table too large: %lu bytes." ++ [10]) [VNum size] ;;;
                ret EL_ERR
              else
                let* n := zoom fsL (elf_fpread ctx (tab + TAB_STR_TABLE) size offset) in
                if negb (n =? size) then ret EL_EIO
                else
                  zoom fsL (fstore 4 (tab + TAB_STR_TABLE_SIZE) size) ;;;
                  ret EL_OK
  end.

(** The address of the name, 0 when there is none. *)
Definition symbol_round (tab addr i : Z) : M sys (Z + Z) :=
  let* count := zoom fsL (fload 4 (tab + TAB_SYMBOL_COUNT)) in
  if i <? count then
    let sym := tab + i * SIZEOF_ELF_SYMBOL_REC in
    let* info := zoom fsL (fload 1 (sym + ST_INFO)) in
    if negb (ELF_ST_TYPE info =? STT_FUNC) then ret (inl (i + 1))
    else
      let* st_name := zoom fsL (fload 4 (sym + ST_NAME)) in
      let* size := zoom fsL (fload 4 (tab + TAB_STR_TABLE_SIZE)) in
      if size <? st_name then
        sprint (str "Invalid symbol name offset: %u" ++ [10]) [VNum st_name] ;;;
        sprint (str "ELF inconsistency detected!" ++ [10]) [] ;;;
        ret (inr 0)
      else
        let* st_value := zoom fsL (fload 8 (sym + ST_VALUE)) in
        let* st_size := zoom fsL (fload 8 (sym + ST_SIZE)) in
        if (st_value <=? addr) && (addr <? u64 (st_value + st_size)) then
          ret (inr (tab + TAB_STR_TABLE + st_name))
        else ret (inl (i + 1))
  else ret (inr 0).

Definition elf_find_symbol_by_addr (hartid addr : Z) : M sys Z :=
  loop (Z.to_nat (MAX_SYMBOLS + 1)) (symbol_round (g_symtab hartid) addr) 0.

(** ** Programs *)

(** The addresses of the local variables of the loader. *)
Record elf_locals : Type := ElfLocals {
  l_ehdr : Z;
  l_ph_addr : Z;
  l_sh_symtab : Z;
  l_sh_strtab : Z;
  l_debug_line_sect_header : Z;
  l_shstr_header : Z
}.

Definition IS_ERR_VALUE (x : Z) : bool := 2 ^ 64 - 4096 <=? u64 x.

Definition report_symtab (e : elf_status) : M sys unit :=
  match e with
  | EL_OK => ret tt
  | EL_EIO => sprint (str "I/O error when loading symbol table from ELF." ++ [10]) []
  | EL_ERR => sprint (str "Error when loading symbol table from ELF." ++ [10]) []
  | _ => sprint (str "Unknown error when loading symbol table from ELF." ++ [10]) []
  end.

Definition load_bincode_from_host_elf (L : elf_locals) (hartid p : Z) (filename : name)
    : M sys unit :=
  let* f := zoom fsL (vfs_open hartid filename O_RDONLY) in
  if IS_ERR_VALUE f then panic
  else
    let ctx := ElfCtx f p (l_ehdr L) in
    let* e := zoom fsL (elf_init ctx) in
    if negb (bool_decide (e = EL_OK)) then panic
    else
      let* e := zoom fsL (elf_load ctx (l_ph_addr L)) in
      if negb (bool_decide (e = EL_OK)) then panic
      else
        let* e := elf_load_symbol_table hartid ctx (l_sh_symtab L) (l_sh_strtab L) in
        report_symtab e ;;;
        let* (e, debug_line, length) := zoom fsL (load_debug_line_section_header hartid ctx
          (l_debug_line_sect_header L) (l_shstr_header L)) in
        (if bool_decide (e = EL_OK) then
           let* (t, line_ind) := zoom fsL (zoom fs_memL
             (make_addr_line (debug_line_buf hartid) debug_line length)) in
           modify (fun s => set_line_infos (<[p := LineInfo debug_line (t_dir t) (t_file t)
             (t_line t) line_ind]> (line_infos s)) s)
         else sprint (str "Program do not support debug line!" ++ [10]) []) ;;;
        let* entry := zoom fsL (fload 8 (l_ehdr L + EH_ENTRY)) in
        let* x := zoom fsL (the_proc p) in
        zoom fsL (fstore 8 (trapframe x + TF_EPC) entry) ;;;
        let* fl := zoom fsL (the_file f) in
        let* (_, fl) := zoom fsL (vfs_close fl) in
        zoom fsL (put_file f fl).

(** [strcpy] into a local array of [MAX_PATH_LEN] bytes; a longer string
    overwrites the stack. *)
Definition copy_path (a : Z) : M sys name :=
  if a =? 0 then ret []
  else if in_dram a 1 then
    let* m := gets sys_mem in
    of_option (string_at (Z.to_nat (Z.min MAX_PATH_LEN (PHYS_TOP - a))) m a)
  else fault.

(** One region of the old program; [npages * PGSIZE] has 32 bits. *)
Definition exec_unmap (hartid i : Z) : M kernel unit :=
  let* c := cur hartid in
  let* p := get_proc c in
  let info := mapped_info p in
  let* type := kread32 (region_type info i) in
  if existsb (Z.eqb type) [CODE_SEGMENT; DATA_SEGMENT; STACK_SEGMENT; HEAP_SEGMENT] then
    let* npages := kread32 (region_npages info i) in
    if 0 <? npages then
      let* va := kread64 (region_va info i) in
      zoom pmmL (user_vm_unmap (pagetable p) (ROUNDDOWN va PGSIZE) (u32 (npages * PGSIZE))
        (negb (type =? CODE_SEGMENT))) ;;;
      kwrite32 (region_npages info i) 0 ;;;
      kwrite64 (region_va info i) 0 ;;;
      kwrite32 (region_type info i) 0
    else ret tt
  else ret tt.

Definition exec_unmap_all (hartid : Z) : M kernel unit :=
  let* c := cur hartid in
  let* p := get_proc c in
  loop (S (Z.to_nat (total_mapped_region p))) (fun i =>
    let* c := cur hartid in
    let* p := get_proc c in
    if i <? total_mapped_region p then
      exec_unmap hartid i ;;; ret (inl (i + 1))
    else ret (inr tt)) 0.

(** A fresh heap, one page of stack, and the four regions every process has. *)
Definition exec_reset (hartid : Z) : M kernel unit :=
  let* c := cur hartid in
  upd_proc c (set_user_heap (HeapMan USER_FREE_ADDRESS_START USER_FREE_ADDRESS_START 0 0)) ;;;
  let* p := get_proc c in
  let* new_stack_page := zoom pmmL alloc_page in
  zoom pmmL (user_vm_map (pagetable p) (USER_STACK_TOP - PGSIZE) PGSIZE new_stack_page
    (prot_to_type (Z.lor PROT_READ PROT_WRITE) 1)) ;;;
  set_region (mapped_info p) STACK_SEGMENT (USER_STACK_TOP - PGSIZE) 1 ;;;
  set_region (mapped_info p) HEAP_SEGMENT USER_FREE_ADDRESS_START 0 ;;;
  upd_proc c (set_total_mapped_region 4).

Definition TF_A1 : Z := TF_A0 + 8.

(** The argument on the stack of the new program. *)
Definition exec_args (hartid : Z) (k_para : name) : M sys unit :=
  let* c := zoom kernelL (cur hartid) in
  let* p := zoom kernelL (get_proc c) in
  let reg o v := zoom fsL (fstore 8 (trapframe p + o) v) in
  if 0 <? Z.of_nat (length k_para) then
    let sp := USER_STACK_TOP in
    let para_len := Z.of_nat (length k_para) + 1 in
    let arg_string_addr := sp - Z.land (para_len + 7) (Z.lnot 0x7) in
    let argv_array_addr := Z.land (arg_string_addr - 16) (Z.lnot 0xF) in
    if (USER_STACK_TOP - PGSIZE <? arg_string_addr) && (arg_string_addr <? USER_STACK_TOP) &&
       (USER_STACK_TOP - PGSIZE <? argv_array_addr) && (argv_array_addr <? USER_STACK_TOP) then
      let* arg_str_pa := zoom sys_pmmL (user_va_to_pa (pagetable p) arg_string_addr) in
      let* argv_pa := zoom sys_pmmL (user_va_to_pa (pagetable p) argv_array_addr) in
      if negb (arg_str_pa =? 0) && negb (argv_pa =? 0) then
        (if in_dram arg_str_pa para_len then
           modify (fun s => set_sys_fs (set_fs_mem
             (put_string (sys_mem s) arg_str_pa k_para) (sys_fs s)) s)
         else fault) ;;;
        zoom fsL (fstore 8 argv_pa arg_string_addr) ;;;
        zoom fsL (fstore 8 (argv_pa + 8) 0) ;;;
        reg TF_SP argv_array_addr ;;; reg TF_A0 1 ;;; reg TF_A1 argv_array_addr
      else ret tt
    else ret tt
  else reg TF_SP USER_STACK_TOP ;;; reg TF_A0 0 ;;; reg TF_A1 0.

Definition do_exec (L : elf_locals) (hartid command para : Z) : M sys Z :=
  let* k_command := copy_path command in
  let* k_para := copy_path para in
  zoom kernelL (exec_unmap_all hartid) ;;;
  zoom kernelL (exec_reset hartid) ;;;
  let* c := zoom kernelL (cur hartid) in
  load_bincode_from_host_elf L hartid c k_command ;;;
  exec_args hartid k_para ;;;
  ret 0.

End WithHost.
