(* ===== verification/Loader.v ===== *)
(** * Correctness of the ELF loader (kernel/elf.c)

    [ReadsFile] states what [elf_load] needs of the file it reads: [elf_fpread]
    copies the bytes of the file.  Against that interface the loader is shown to
    build the image the program headers describe.  The instance at the end is a
    file of the host file system, over a host that keeps the position of each
    descriptor. *)

From S2P Require Import Prelude Mem Pmm StringLib HashTable Vmm Pages Kernel Fs Rfs Hostfs Vfs System Elf.
From stdpp Require Import base gmap list fin_maps.
From Stdlib Require Import ZArith Lia Bool.

Set Default Goal Selector "!".
Open Scope Z_scope.

#[local] Opaque fill.

Abbreviation pm := (lget fs_pmmL) (only parsing).

(** [nb] bytes of [src] from [off] on are copied to [dest]. *)
Definition copied (src : bytes) (off dest nb : Z) (m m' : bytes) : Prop :=
  forall x, load8 m' x =
    if (dest <=? x) && (x <? dest + nb) then load8 src (off + (x - dest)) else load8 m x.

Class ReadsFile `{Host} (ctx : elf_ctx) (file : bytes) (size : Z) (ready : fs -> Prop) : Prop := {
  rf_read : forall s dest nb off, ready s -> 0 <= off -> 0 <= nb -> off + nb <= size ->
    in_dram dest nb = true ->
    exists s' m', elf_fpread ctx dest nb off s = Ok nb s' /\ ready s' /\
      fs_kernel s' = fs_kernel (set_fs_mem m' s) /\ copied file off dest nb (fs_mem s) m';
  rf_kernel : forall s k, ready s -> ready (set_fs_kernel k s);
  rf_size : size < 2 ^ 31
}.

(** ** Values read from the file *)

Lemma copied_field src off dest nb m m' n d : copied src off dest nb m m' -> 0 <= d ->
  d + Z.of_nat n <= nb -> load_le n m' (dest + d) = load_le n src (off + d).
Proof.
  intros Hc Hd Hn. apply load_le_shift. intros i Hi. rewrite Hc.
  replace (_ && _) with true by lia. f_equal. lia.
Qed.

(** ** Program headers *)

Record segment : Type := Segment {
  sg_flags : Z; sg_off : Z; sg_vaddr : Z; sg_filesz : Z; sg_memsz : Z
}.

Definition segment_at (file : bytes) (off : Z) : segment :=
  Segment (load_le 4 file (off + PH_FLAGS)) (load_le 8 file (off + PH_OFF))
    (load_le 8 file (off + PH_VADDR)) (load_le 8 file (off + PH_FILESZ))
    (load_le 8 file (off + PH_MEMSZ)).

(** The segments of [n] program headers from [off] on that are loaded. *)
Fixpoint segments (file : bytes) (off : Z) (n : nat) : list segment :=
  match n with
  | O => []
  | S n =>
      let rest := segments file (off + SIZEOF_ELF_PROG_HEADER) n in
      if load_le 4 file (off + PH_TYPE) =? ELF_PROG_LOAD then segment_at file off :: rest else rest
  end.

(** First page and number of pages. *)
Definition sg_start (g : segment) : Z := ROUNDDOWN (sg_vaddr g) PGSIZE.
Definition sg_npages (g : segment) : nat :=
  Z.to_nat ((sg_vaddr g + sg_memsz g - 1) / PGSIZE - sg_vaddr g / PGSIZE + 1).

(** The entry bits of its pages. *)
Definition sg_pte (g : segment) : Z := Z.lor (prot_to_type (segment_prot (sg_flags g)) 1) PTE_V.

(** The byte at [va]: from the file, or zero. *)
Definition sg_byte (file : bytes) (g : segment) (va : Z) : Z :=
  if (sg_vaddr g <=? va) && (va <? sg_vaddr g + sg_filesz g)
  then load8 file (sg_off g + (va - sg_vaddr g)) else 0.

(** Free pages that are enough for the segment: its own and those of new tables. *)
Definition sg_need (g : segment) : Z :=
  Z.of_nat (sg_npages g) + 2 * crossings (sg_start g) (Z.of_nat (sg_npages g)) + 2.

(** Text or data, in the file and in the user's half of the address space. *)
Record segment_ok (size : Z) (g : segment) : Prop := {
  so_flags : sg_flags g = 5 \/ sg_flags g = 6;
  so_vaddr : 0 < sg_vaddr g;
  so_high : sg_vaddr g + sg_memsz g <= MAXVA - PGSIZE;
  so_sizes : 0 <= sg_filesz g <= sg_memsz g;
  so_mem : 0 < sg_memsz g;
  so_off : 0 <= sg_off g;
  so_file : sg_off g + sg_filesz g <= size
}.

Lemma sg_perm g size : segment_ok size g ->
  0 <= prot_to_type (segment_prot (sg_flags g)) 1 < 1024 /\
  has (sg_pte g) (Z.lor PTE_R PTE_W) = true /\ 0 <= sg_pte g < 1024.
Proof. intros [[E|E] _ _ _ _ _ _]; unfold sg_pte; rewrite E; vm_compute; split_and!; congruence. Qed.

Lemma sg_range g size : segment_ok size g ->
  sg_start g mod PGSIZE = 0 /\ 0 <= sg_start g <= sg_vaddr g /\ sg_start g / PGSIZE = sg_vaddr g / PGSIZE /\
  ROUNDUP (sg_vaddr g + sg_memsz g) PGSIZE = sg_start g + Z.of_nat (sg_npages g) * PGSIZE /\
  sg_start g + Z.of_nat (sg_npages g) * PGSIZE <= MAXVA.
Proof.
  intros [_ Hv Hh _ Hm _ _]. pose proof MAXVA_eq as Em. rewrite Em in *.
  rewrite ROUNDUP_eq by (layout; lia).
  unfold sg_start, sg_npages, ROUNDDOWN. rewrite Z2Nat.id by (layout; dlia).
  set (v := sg_vaddr g) in *. set (k := sg_memsz g) in *. clearbody v k. layout. split_and!; dlia.
Qed.

(** ** Pages of a segment *)

Section Map.
  Context (root prot seg_end : Z).
  Hypothesis Hperm : 0 <= prot_to_type prot 1 < 1024.

Lemma map_round_run T q fl p s va : pmm_wf (q :: fl) p -> vspace root T p ->
  0 <= va -> va mod PGSIZE = 0 -> va < seg_end -> va + PGSIZE <= MAXVA ->
  Z.odd (leaf T (mem p) va) = false ->
  (if T !! walk_path va is Some _ then 0 else 2) <= Z.of_nat (length fl) ->
  exists T' fl' p', map_round root prot seg_end va (lset fs_pmmL p s) =
      Ok (inl (va + PGSIZE)) (lset fs_pmmL p' s) /\
    grown root (Z.lor (prot_to_type prot 1) PTE_V) va 1 (fun _ => q) T (q :: fl) p T' fl' p' /\
    is_Some (T' !! walk_path va) /\
    Z.of_nat (length fl) <= Z.of_nat (length fl') + (if T !! walk_path va is Some _ then 0 else 2).
Proof using Hperm.
  intros W V Hva Hal Hend Hmax Hodd Hfl.
  destruct (grow_page root T q fl p W V va _ Hperm Hva Hal Hmax Hodd Hfl) as (T' & fl' & p' & E & G & Hs & Hl).
  exists T', fl', p'. split; [|done]. destruct (zeroed_run fl p q W) as [E1 E2].
  destruct (new_page_facts root T q fl p W V) as (Hq & _).
  pose proof (managed_range p (wf_bounds _ _ W) q Hq) as (? & _).
  unfold map_round. rewrite (proj2 (Z.ltb_lt va seg_end)) by done.
  unfold bind at 1, zoom at 1. change (lget fs_pmmL (lset fs_pmmL p s)) with p. rewrite E1.
  rewrite (proj2 (Z.eqb_neq q 0)) by (layout; lia).
  unfold bind at 1, zoom at 1. change (lget fs_pmmL (lset fs_pmmL (page_taken q p) (lset fs_pmmL p s))) with (page_taken q p).
  rewrite E2. unfold bind at 1, zoom at 1.
  match goal with |- context [user_vm_map root va PGSIZE q _ ?x] => change x with (zeroed q p) end.
  rewrite E. unfold ret. rewrite u64_small; [done|]. rewrite MAXVA_eq in Hmax. layout. lia.
Qed.

Lemma segment_map_loop n : forall fuel T fl p s va, (n < fuel)%nat -> pmm_wf fl p -> vspace root T p ->
  0 <= va -> va mod PGSIZE = 0 -> seg_end = va + Z.of_nat n * PGSIZE -> seg_end <= MAXVA ->
  (forall k, 0 <= k < Z.of_nat n -> Z.odd (leaf T (mem p) (va + k * PGSIZE)) = false) ->
  Z.of_nat n + loop_tables T va n <= Z.of_nat (length fl) ->
  exists fr T' fl' p', loop fuel (map_round root prot seg_end) va (lset fs_pmmL p s) =
      Ok tt (lset fs_pmmL p' s) /\
    grown root (Z.lor (prot_to_type prot 1) PTE_V) va n fr T fl p T' fl' p' /\
    Z.of_nat (length fl) <= Z.of_nat (length fl') + (Z.of_nat n + loop_tables T va n).
Proof using Hperm.
  induction n as [|n IH]; intros [|fuel] T fl p s va Hf W V Hva Hal Hend Hmax Hodd Hfl; try lia; cbn [loop].
  - change (Z.of_nat 0) with 0 in Hend. exists (fun _ => 0), T, fl, p. unfold bind, map_round.
    rewrite (proj2 (Z.ltb_ge va seg_end)) by lia. split; [done|]. split; [by apply grown_none|simpl; lia].
  - rewrite Nat2Z.inj_succ in *. unfold Z.succ in *.
    pose proof (loop_tables_step T (<[walk_path va := 0]> T) va n) as Ht0. rewrite lookup_insert_eq in Ht0.
    specialize (Ht0 ltac:(by eexists)).
    pose proof (loop_tables_nonneg (<[walk_path va := 0]> T) (va + PGSIZE) n).
    pose proof (loop_tables_nonneg T va (S n)).
    destruct fl as [|q fl]; cbn [length] in *; [lia|].
    pose proof (Hodd 0 ltac:(lia)) as Ho. rewrite Z.mul_0_l, Z.add_0_r in Ho.
    destruct (map_round_run T q fl p s va) as (T1 & fl1 & p1 & E & G & Hs & Hl);
      [done|done|done|done|layout; lia|layout; lia|done|lia|].
    pose proof (loop_tables_step T T1 va n Hs) as Ht.
    destruct (IH fuel T1 fl1 p1 s (va + PGSIZE)) as (fr & T2 & fl2 & p2 & E2 & G2 & Hl2);
      [lia|apply G|apply G|layout; lia|layout; dlia|layout; lia|done| |lia|].
    { intros k Hk. rewrite (gr_leaf _ _ _ _ _ _ _ _ _ _ _ G) by (layout; lia).
      replace (va + PGSIZE + k * PGSIZE) with (va + (k + 1) * PGSIZE) by lia.
      rewrite in_range_one, bool_decide_false by (rewrite page_step; lia). apply Hodd. lia. }
    eexists _, T2, fl2, p2. split; [unfold bind at 1; rewrite E; exact E2|].
    split; [by eapply grown_step|lia].
Qed.

End Map.

(** ** Bytes of a segment *)

Lemma fs_pmm_id s : lset fs_pmmL (lget fs_pmmL s) s = s.
Proof. by destruct s as [[[] ?]]. Qed.

Definition sg_vpn (g : segment) (v : Z) : Prop := vpn_in (sg_start g) (sg_npages g) v.

Section Bytes.
  Context `{Host} (ctx : elf_ctx) (file : bytes) (size : Z) (ready : fs -> Prop).
  Context `{!ReadsFile ctx file size ready}.
  Context (root : Z) (T : gmap (list Z) Z) (fl : list Z) (p : pmm) (g : segment) (fr : Z -> Z).

(** The pages of the segment are mapped to frames of its own. *)
Record backed : Prop := {
  bk_wf : pmm_wf fl p;
  bk_vs : vspace root T p;
  bk_leaf : forall vb, sg_vpn g (vb / PGSIZE) -> leaf T (mem p) vb = pte (fr (vb / PGSIZE)) (sg_pte g);
  bk_managed : forall v, sg_vpn g v -> managed p (fr v);
  bk_free : forall v, sg_vpn g v -> fr v ∉ fl;
  bk_table : forall v, sg_vpn g v -> no_table T (fr v);
  bk_inj : forall v w, sg_vpn g v -> sg_vpn g w -> fr v = fr w -> v = w
}.

Hypothesis Hg : segment_ok size g.
Hypothesis Hbk : backed.

Definition frame_byte (vb : Z) : Z := fr (vb / PGSIZE) + vb mod PGSIZE.

(** The first [k] bytes of the file part are in place. *)
Record partly (k : Z) (m : bytes) : Prop := {
  pt_in : forall vb, sg_vpn g (vb / PGSIZE) -> load8 m (frame_byte vb) =
    if (sg_vaddr g <=? vb) && (vb <? sg_vaddr g + k) then load8 file (sg_off g + (vb - sg_vaddr g))
    else load8 (mem p) (frame_byte vb);
  pt_out : forall x, (forall v, sg_vpn g v -> page_of x <> fr v) -> load8 m x = load8 (mem p) x
}.

Lemma sg_vpn_in va : sg_vaddr g <= va < sg_vaddr g + sg_memsz g -> sg_vpn g (va / PGSIZE) /\ 0 <= va < MAXVA.
Proof using Hg.
  destruct (sg_range g size Hg) as (_ & _ & E & _). destruct Hg. intros Hva.
  unfold sg_vpn, vpn_in. rewrite E. unfold sg_npages. pose proof MAXVA_eq.
  rewrite Z2Nat.id by (layout; dlia). layout. split; [dlia|lia].
Qed.

Lemma frame_byte_page vb : sg_vpn g (vb / PGSIZE) -> page_of (frame_byte vb) = fr (vb / PGSIZE).
Proof using Hbk.
  intros Hv. destruct (managed_56 p _ (wf_bounds _ _ (bk_wf Hbk)) (bk_managed Hbk _ Hv)) as [_ Hal].
  unfold page_of, frame_byte. layout. dlia.
Qed.

Lemma partly_keeps k m : partly k m -> pmm_wf fl (set_mem m p) /\ vspace root T (set_mem m p) /\
  forall va, leaf T m va = leaf T (mem p) va.
Proof using Hbk.
  intros [_ Ho]. apply set_mem_keeps; [apply Hbk|apply Hbk|]. intros x _ Hx. apply Ho.
  intros v Hv E. rewrite E in Hx. destruct Hx as [Hx|[path Hx]]; [by apply (bk_free Hbk v) in Hx|].
  by apply (bk_table Hbk v) in Hx.
Qed.

(** One chunk, inside a page. *)
Lemma partly_step k n m m' : 0 <= k -> 0 < n -> k + n <= sg_filesz g ->
  (sg_vaddr g + k) mod PGSIZE + n <= PGSIZE -> partly k m ->
  copied file (sg_off g + k) (frame_byte (sg_vaddr g + k)) n m m' -> partly (k + n) m'.
Proof using Hg Hbk.
  intros Hk Hn Hkn Hpg [Hi Ho] Hc. set (va := sg_vaddr g + k) in *.
  destruct (sg_vpn_in va) as [Hv _]; [destruct Hg; lia|].
  assert (forall d, 0 <= d < n -> (va + d) / PGSIZE = va / PGSIZE /\ frame_byte va + d = frame_byte (va + d)) as Hd.
  { intros d Hd. assert ((va + d) / PGSIZE = va / PGSIZE) as E by (layout; dlia). split; [done|].
    unfold frame_byte. rewrite E. layout. dlia. }
  split.
  - intros vb Hvb. rewrite Hc.
    assert ((frame_byte va <=? frame_byte vb) && (frame_byte vb <? frame_byte va + n) =
      (va <=? vb) && (vb <? va + n)) as ->.
    { apply eq_true_iff_eq. rewrite !andb_true_iff, !Z.leb_le, !Z.ltb_lt. split.
      - intros Hr. destruct (Hd (frame_byte vb - frame_byte va) ltac:(lia)) as [E1 E2].
        assert (page_of (frame_byte vb) = fr (va / PGSIZE)) as E3.
        { replace (frame_byte vb) with (frame_byte va + (frame_byte vb - frame_byte va)) by lia.
          rewrite E2, frame_byte_page, E1; [done|by rewrite E1]. }
        rewrite frame_byte_page in E3 by done. apply (bk_inj Hbk) in E3; [|done|done].
        unfold frame_byte in Hr. rewrite E3 in Hr. layout. dlia.
      - intros Hr. destruct (Hd (vb - va) ltac:(lia)) as [_ E].
        replace (va + (vb - va)) with vb in E by lia. lia. }
    destruct ((va <=? vb) && (vb <? va + n)) eqn:E.
    + replace (_ && _) with true by (unfold va in *; lia). f_equal.
      destruct (Hd (vb - va) ltac:(lia)) as [_ E2]. replace (va + (vb - va)) with vb in E2 by lia.
      unfold va in *. lia.
    + rewrite Hi by done. unfold va in *.
      destruct ((sg_vaddr g <=? vb) && (vb <? sg_vaddr g + k)) eqn:E2,
        ((sg_vaddr g <=? vb) && (vb <? sg_vaddr g + (k + n))) eqn:E3; try done; lia.
  - intros x Hx. rewrite Hc. replace (_ && _) with false; [by apply Ho|]. symmetry.
    apply not_true_is_false. rewrite andb_true_iff, Z.leb_le, Z.ltb_lt. intros Hr.
    destruct (Hd (x - frame_byte va) ltac:(lia)) as [E1 E2]. apply (Hx _ Hv).
    replace x with (frame_byte va + (x - frame_byte va)) by lia.
    rewrite E2, frame_byte_page by (by rewrite E1). by rewrite E1.
Qed.

(** The state between two chunks. *)
Definition reading (K : kernel) (k : Z) (s : fs) : Prop :=
  ready s /\ exists m, fs_kernel s = lset pmmL (set_mem m p) K /\ partly k m.

Lemma load_round_run K k s : 0 <= k < sg_filesz g -> reading K k s ->
  let va := sg_vaddr g + k in
  let n := Z.min (sg_filesz g - k) (PGSIZE - va mod PGSIZE) in
  exists s', load_round ctx root (sg_filesz g - k, va, sg_off g + k) s =
      Ok (inl (sg_filesz g - (k + n), sg_vaddr g + (k + n), sg_off g + (k + n))) s' /\
    reading K (k + n) s'.
Proof using All.
  intros Hk (Hr & m & HK & Hp) va n. pose proof (rf_size) as Hsz.
  destruct (sg_vpn_in va) as [Hv Hva]; [destruct Hg; unfold va; lia|].
  pose proof (bk_managed Hbk _ Hv) as Hm. pose proof (wf_bounds _ _ (bk_wf Hbk)) as Hb.
  destruct (managed_range p Hb _ Hm) as (Hm1 & Hm2 & Hm3).
  destruct (partly_keeps k m Hp) as (W & V & L). destruct (sg_perm g size Hg) as (_ & Hrw & Hfl).
  assert (0 < n /\ va mod PGSIZE + n <= PGSIZE) as [Hn1 Hn2] by (unfold n; layout; dlia).
  assert (pm s = set_mem m p) as Es by (simpl; by rewrite HK).
  assert (user_va_to_pa root va (pm s) = Ok (frame_byte va) (pm s)) as Et.
  { rewrite Es. apply (translate_leaf root T _ _ _ (sg_pte g)); [by destruct Hb|done|done| |done|done| |done].
    - simpl mem. rewrite L. by apply Hbk.
    - apply has_lor_V. }
  assert (in_dram (frame_byte va) n = true) as Hdr.
  { unfold in_dram, frame_byte. layout. dlia. }
  destruct (rf_read s (frame_byte va) n (sg_off g + k)) as (s' & m' & Er & Hr' & HK' & Hc);
    [done|destruct Hg; lia|lia|destruct Hg; lia|done|].
  exists s'. split.
  - unfold load_round. rewrite (proj2 (Z.ltb_lt 0 _)) by lia. unfold bind at 1, zoom. rewrite Et, fs_pmm_id.
    rewrite (proj2 (Z.eqb_neq (frame_byte va) 0)) by (unfold frame_byte; layout; dlia). cbv zeta.
    assert ((if sg_filesz g - k <? PGSIZE - va mod PGSIZE then sg_filesz g - k else PGSIZE - va mod PGSIZE) = n)
      as -> by (unfold n; destruct (Z.ltb_spec (sg_filesz g - k) (PGSIZE - va mod PGSIZE)); lia).
    unfold bind at 1. rewrite Er, Z.eqb_refl. unfold ret. simpl negb. cbn match.
    pose proof MAXVA_eq. rewrite !u64_small by (destruct Hg; layout; dlia).
    replace (sg_filesz g - k - n) with (sg_filesz g - (k + n)) by lia.
    replace (va + n) with (sg_vaddr g + (k + n)) by (unfold va; lia).
    by replace (sg_off g + k + n) with (sg_off g + (k + n)) by lia.
  - split; [done|]. exists m'. split.
    + rewrite HK'. simpl. by rewrite HK.
    + apply partly_step with m; [lia|done|unfold n; lia|done|done|].
      unfold fs_mem in Hc. rewrite HK in Hc. exact Hc.
Qed.

Lemma load_loop K n : forall fuel k s, (n < fuel)%nat -> 0 <= k <= sg_filesz g -> reading K k s ->
  (k < sg_filesz g -> (sg_vaddr g + sg_filesz g - 1) / PGSIZE - (sg_vaddr g + k) / PGSIZE + 1 <= Z.of_nat n) ->
  exists s', loop fuel (load_round ctx root) (sg_filesz g - k, sg_vaddr g + k, sg_off g + k) s = Ok None s' /\
    reading K (sg_filesz g) s'.
Proof using All.
  induction n as [|n IH]; intros [|fuel] k s Hf Hk Hr Hn; try lia; cbn [loop];
    (destruct (Z.eq_dec k (sg_filesz g)) as [->|Hne]; [exists s; rewrite Z.sub_diag; done|]).
  - specialize (Hn ltac:(lia)). layout. dlia.
  - destruct (load_round_run K k s ltac:(lia) Hr) as (s1 & E & Hr1). unfold bind at 1. rewrite E.
    set (m := Z.min _ _) in *. specialize (Hn ltac:(lia)).
    apply IH; [lia|unfold m; layout; dlia|done|]. intros Hlt. unfold m in *. layout. dlia.
Qed.

Lemma load_bytes_run K s : reading K 0 s ->
  exists s', load_bytes ctx root (sg_filesz g) (sg_vaddr g) (sg_off g) s = Ok None s' /\
    reading K (sg_filesz g) s'.
Proof using All.
  intros Hr. pose proof Hg as [_ ? ? ? ? ? ?].
  destruct (load_loop K (rounds 0 (sg_filesz g)) (S (rounds 0 (sg_filesz g))) 0 s) as (s' & E & Hr'); [lia|lia|done| |].
  { intros _. unfold rounds. rewrite Z2Nat.id by (layout; dlia). layout. dlia. }
  exists s'. split; [|done]. unfold load_bytes. rewrite <- E. repeat f_equal; lia.
Qed.

End Bytes.

(** ** The table of regions *)

Definition sg_type (g : segment) : Z := if sg_flags g =? 5 then CODE_SEGMENT else DATA_SEGMENT.

(** Entry [j] describes [g]. *)
Definition region_is (m : bytes) (info j : Z) (g : segment) : Prop :=
  load64 m (region_va info j) = sg_vaddr g /\
  load32 m (region_npages info j) = Z.of_nat (sg_npages g) /\
  load32 m (region_type info j) = sg_type g.

Definition region_stored (m : bytes) (info j : Z) (g : segment) : bytes :=
  store32 (store32 (store64 m (region_va info j) (sg_vaddr g))
    (region_npages info j) (Z.of_nat (sg_npages g))) (region_type info j) (sg_type g).

Lemma region_stored_is m info j g size : segment_ok size g -> region_is (region_stored m info j g) info j g.
Proof.
  intros Hg. pose proof Hg as [_ ? ? ? ? ? ?]. pose proof MAXVA_eq.
  assert (0 <= Z.of_nat (sg_npages g) < 2 ^ 32).
  { unfold sg_npages. rewrite Z2Nat.id by (layout; dlia). layout. dlia. }
  unfold region_is, region_stored, region_va, region_npages, region_type. split_and!.
  - rewrite !load_store_le_ne by lia. rewrite load64_store64_eq. apply u64_small. layout. lia.
  - rewrite load_store_le_ne, load_store_le_eq by lia. change (256 ^ Z.of_nat 4) with (2 ^ 32). by apply Z.mod_small.
  - rewrite load_store_le_eq. unfold sg_type. by destruct (_ =? 5).
Qed.

Lemma region_stored_out m info j g x : x < info + 16 * j \/ info + 16 * j + 16 <= x ->
  load8 (region_stored m info j g) x = load8 m x.
Proof.
  intros Hx. unfold region_stored, region_va, region_npages, region_type.
  by rewrite !load8_store_le_ne by lia.
Qed.

Lemma fload_run n a s : in_dram a (Z.of_nat n) = true -> fload n a s = Ok (load_le n (fs_mem s) a) s.
Proof. intros E. unfold fload. by rewrite E. Qed.

Lemma fstore_run n a v s : in_dram a (Z.of_nat n) = true ->
  fstore n a v s = Ok tt (set_fs_mem (store_le n (fs_mem s) a v) s).
Proof. intros E. unfold fstore. by rewrite E. Qed.

Lemma fs_upd_proc_run p f x s : procs (fs_kernel s) !! p = Some x ->
  zoom fs_kernelL (upd_proc p f) s =
    Ok tt (set_fs_kernel (set_procs (<[p := f x]> (procs (fs_kernel s))) (fs_kernel s)) s).
Proof.
  intros Hx. unfold zoom, upd_proc, bind at 1, get_proc, bind, gets. cbn [lget fs_kernelL]. by rewrite Hx.
Qed.

Section Region.
  Context (info : Z).
  Hypothesis Hinfo : in_dram info PGSIZE = true.

Lemma entry_dram j d n : 0 <= j < 256 -> 0 <= d -> d + n <= 16 -> in_dram (info + 16 * j + d) n = true.
Proof using Hinfo. unfold in_dram in *. layout. lia. Qed.

Lemma region_loop s k n : forall fuel j, (n < fuel)%nat -> 0 <= j -> j + Z.of_nat n = k -> k < 256 ->
  (forall i, 0 <= i < k -> load64 (fs_mem s) (region_va info i) <> 0) ->
  load64 (fs_mem s) (region_va info k) = 0 ->
  loop fuel (region_round info) j s = Ok k s.
Proof using Hinfo.
  induction n as [|n IH]; intros [|fuel] j Hf Hj Hn Hk Hused Hfree; try lia; cbn [loop]; unfold bind, region_round;
    change (PGSIZE / 16) with 256; rewrite (proj2 (Z.ltb_lt j 256)) by lia; unfold bind;
    rewrite fload_run by (replace (region_va info j) with (info + 16 * j + 0) by (unfold region_va; lia);
      apply entry_dram; lia).
  - assert (j = k) as -> by lia. rewrite Hfree. done.
  - rewrite (proj2 (Z.eqb_neq _ 0)) by (apply Hused; lia). unfold ret. apply IH; try done; lia.
Qed.

Lemma record_region_run p x g size s k : segment_ok size g ->
  procs (fs_kernel s) !! p = Some x -> mapped_info x = info -> 0 <= k < 256 ->
  (forall i, 0 <= i < k -> load64 (fs_mem s) (region_va info i) <> 0) ->
  load64 (fs_mem s) (region_va info k) = 0 ->
  record_region p (sg_vaddr g) (Z.of_nat (sg_npages g)) (sg_flags g) s =
    Ok tt (set_fs_kernel
      (set_procs (<[p := set_total_mapped_region (s32 (total_mapped_region x + 1)) x]> (procs (fs_kernel s)))
        (fs_kernel (set_fs_mem (region_stored (fs_mem s) info k g) s))) s).
Proof using Hinfo.
  intros Hg Hx Hi Hk Hused Hfree.
  assert (in_dram (region_va info k) 8 = true /\ in_dram (region_npages info k) 4 = true /\
    in_dram (region_type info k) 4 = true) as (D1 & D2 & D3).
  { unfold region_npages, region_type. split_and!; [|by apply entry_dram..].
    replace (region_va info k) with (info + 16 * k + 0) by (unfold region_va; lia). by apply entry_dram. }
  assert (free_region info s = Ok k s) as Ef.
  { apply (region_loop s k (Z.to_nat k)); try done; lia. }
  unfold record_region. unfold bind at 1, the_proc, zoom at 1, get_proc, bind at 1, gets.
  cbn [lget fs_kernelL]. rewrite Hx. cbn [of_option ret lset fs_kernelL].
  replace (set_fs_kernel (fs_kernel s) s) with s by (by destruct s).
  rewrite Hi. unfold bind at 1. rewrite Ef. unfold bind at 1. rewrite fstore_run by done.
  unfold bind at 1. rewrite fstore_run by done. unfold bind at 1.
  change (Z.lor SEGMENT_READABLE SEGMENT_EXECUTABLE) with 5. change (Z.lor SEGMENT_READABLE SEGMENT_WRITABLE) with 6.
  destruct Hg as [[E|E] _ _ _ _ _ _]; rewrite E, ?(proj2 (Z.eqb_neq 6 5)), Z.eqb_refl by done; rewrite fstore_run by done;
    rewrite (fs_upd_proc_run p _ x) by exact Hx; unfold region_stored, sg_type; rewrite E; done.
Qed.

End Region.

(** ** Loading some segments *)

(** The page [v] of [g] is in memory: mapped to a new frame with the permissions
    of the segment, holding its bytes. *)
Definition page_loaded (file : bytes) (g : segment) (v : Z) (fl : list Z) (T : gmap (list Z) Z) (p : pmm) : Prop :=
  exists f, new_frame fl T p f /\
    (forall va, va / PGSIZE = v -> leaf T (mem p) va = pte f (sg_pte g)) /\
    (forall va, va / PGSIZE = v -> load8 (mem p) (f + va mod PGSIZE) = sg_byte file g va).

Definition needs (segs : list segment) : Z := foldr (fun g n => sg_need g + n) 0 segs.

Lemma needs_app l1 l2 : needs (l1 ++ l2) = needs l1 + needs l2.
Proof. induction l1 as [|g l IH]; [done|]. unfold needs in *. simpl. lia. Qed.

Section Loads.
  Context (file : bytes) (size root ph info : Z).

(** What the loader relies on: the page with the table of regions is in use, its
    first [k] entries are taken and the next [n] free; the local variable
    [ph_addr] lies outside the memory that is managed. *)
Record setting (T : gmap (list Z) Z) (fl : list Z) (p : pmm) (k n : Z) : Prop := {
  st_wf : pmm_wf fl p;
  st_vs : vspace root T p;
  st_info : owned p info;
  st_table : no_table T info;
  st_ph : in_dram ph SIZEOF_ELF_PROG_HEADER = true;
  st_local : forall x, ph <= x < ph + SIZEOF_ELF_PROG_HEADER -> ~ managed p (page_of x);
  st_room : 0 <= k /\ 0 <= n /\ k + n <= 256;
  st_used : forall i, 0 <= i < k -> load64 (mem p) (region_va info i) <> 0;
  st_unused : forall i, k <= i < k + n -> load64 (mem p) (region_va info i) = 0
}.

Record loads (segs : list segment) (k : Z) (T : gmap (list Z) Z) (fl : list Z) (p : pmm)
    (T' : gmap (list Z) Z) (fl' : list Z) (p' : pmm) : Prop := {
  ld_wf : pmm_wf fl' p';
  ld_vs : vspace root T' p';
  ld_free : exists used, fl = used ++ fl';
  ld_need : Z.of_nat (length fl) <= Z.of_nat (length fl') + needs segs;
  ld_new : forall q a, T' !! q = Some a -> T !! q = Some a \/ a ∈ fl;
  ld_leaf : forall va, 0 <= va < MAXVA -> (forall g, g ∈ segs -> ~ sg_vpn g (va / PGSIZE)) ->
    leaf T' (mem p') va = leaf T (mem p) va;
  ld_page : forall g v, g ∈ segs -> sg_vpn g v -> page_loaded file g v fl T' p';
  ld_region : forall i g, segs !! i = Some g -> region_is (mem p') info (k + Z.of_nat i) g;
  ld_mem : forall x, page_of x ∉ fl -> no_table T (page_of x) ->
    ~ (ph <= x < ph + SIZEOF_ELF_PROG_HEADER) ->
    ~ (info + 16 * k <= x < info + 16 * (k + Z.of_nat (length segs))) ->
    load8 (mem p') x = load8 (mem p) x;
  ld_managed : forall q, managed p' q <-> managed p q;
  ld_ref : forall q, managed p q -> q ∉ fl -> page_ref p' q = page_ref p q
}.

(** Pages that were in use before are left alone. *)
Lemma loads_owned segs k T fl p T' fl' p' q : pmm_wf fl p -> loads segs k T fl p T' fl' p' ->
  owned p q -> no_table T q -> owned p' q /\ no_table T' q.
Proof.
  intros W L Ho HT. pose proof (owned_not_free fl p q W Ho) as Hf. destruct Ho as [Hm Hr]. split.
  - split; [by apply (ld_managed _ _ _ _ _ _ _ _ L)|]. by rewrite (ld_ref _ _ _ _ _ _ _ _ L).
  - intros path [Hp|Hp]%(ld_new _ _ _ _ _ _ _ _ L); [by apply HT in Hp|done].
Qed.

(** The entries of the table, seen from a later state. *)
Lemma info_page j d : info mod PGSIZE = 0 -> 0 <= j < 256 -> 0 <= d < 16 -> page_of (info + 16 * j + d) = info.
Proof. intros. unfold page_of. layout. dlia. Qed.

Lemma loads_entry segs k T fl p T' fl' p' n j x : setting T fl p k n -> loads segs k T fl p T' fl' p' ->
  0 <= j < 256 -> j < k \/ k + Z.of_nat (length segs) <= j -> info + 16 * j <= x < info + 16 * j + 16 ->
  load8 (mem p') x = load8 (mem p) x.
Proof.
  intros S L Hj Hout Hx. destruct (managed_56 p info (wf_bounds _ _ (st_wf _ _ _ _ _ S)) (proj1 (st_info _ _ _ _ _ S))) as [_ Hal].
  assert (page_of x = info) as E.
  { replace x with (info + 16 * j + (x - (info + 16 * j))) by lia. apply info_page; [done|done|lia]. }
  apply (ld_mem _ _ _ _ _ _ _ _ L).
  - rewrite E. apply (owned_not_free _ p _ (st_wf _ _ _ _ _ S)). apply (st_info _ _ _ _ _ S).
  - rewrite E. apply (st_table _ _ _ _ _ S).
  - intros Hph. apply (st_local _ _ _ _ _ S x Hph). rewrite E. apply (st_info _ _ _ _ _ S).
  - lia.
Qed.

Lemma region_frame m m' j g : (forall x, info + 16 * j <= x < info + 16 * j + 16 -> load8 m' x = load8 m x) ->
  region_is m info j g -> region_is m' info j g.
Proof.
  unfold region_is, region_va, region_npages, region_type. intros Hx (<- & <- & <-).
  split_and!; apply load_le_ext; intros; apply Hx; lia.
Qed.

Lemma setting_loads segs k T fl p T' fl' p' n : setting T fl p k n -> loads segs k T fl p T' fl' p' ->
  Forall (segment_ok size) segs -> Z.of_nat (length segs) <= n ->
  setting T' fl' p' (k + Z.of_nat (length segs)) (n - Z.of_nat (length segs)).
Proof.
  intros S L Hok Hn. pose proof S as [W V I B H1 H2 H3 H4 H5].
  destruct (loads_owned _ _ _ _ _ _ _ _ info W L I B) as [I' B'].
  constructor; try done.
  - apply L.
  - apply L.
  - intros x Hx Hm. apply (H2 x Hx). by apply (ld_managed _ _ _ _ _ _ _ _ L).
  - lia.
  - intros i Hi. destruct (Z.lt_ge_cases i k) as [Hlt|Hge].
    + rewrite (load_le_ext 8 (mem p') (mem p)); [apply H4; lia|]. intros x Hx. unfold region_va in Hx.
      apply (loads_entry _ _ _ _ _ _ _ _ n i x S L); lia.
    + destruct (lookup_lt_is_Some_2 segs (Z.to_nat (i - k))) as [g Hg]; [lia|].
      destruct (ld_region _ _ _ _ _ _ _ _ L _ _ Hg) as [E _].
      replace (k + Z.of_nat (Z.to_nat (i - k))) with i in E by lia. rewrite E.
      apply (Forall_lookup_1 _ _ _ _ Hok) in Hg. destruct Hg. lia.
  - intros i Hi. rewrite (load_le_ext 8 (mem p') (mem p)); [apply H5; lia|]. intros x Hx. unfold region_va in Hx.
    apply (loads_entry _ _ _ _ _ _ _ _ n i x S L); lia.
Qed.

Lemma page_loaded_frame segs k T fl p T' fl' p' n g v fl0 : setting T fl p k n ->
  Z.of_nat (length segs) <= n -> loads segs k T fl p T' fl' p' -> info ∉ fl0 ->
  0 <= v * PGSIZE -> (v + 1) * PGSIZE <= MAXVA -> (forall h, h ∈ segs -> ~ sg_vpn h v) ->
  page_loaded file g v fl0 T p -> page_loaded file g v fl0 T' p'.
Proof.
  intros S Hn L Hinf Hv0 Hv1 Hout (f & [N1 N2 N3 N4] & Hl & Hb). pose proof S as [W _ I B _ Hph Hk _ _].
  assert (owned p f) as Ho by (split; [done|lia]).
  pose proof (owned_not_free fl p f W Ho) as Hf. destruct (loads_owned _ _ _ _ _ _ _ _ f W L Ho N2) as [[O1 _] O2].
  destruct (managed_56 p f (wf_bounds _ _ W) N3) as [_ Hal].
  destruct (managed_56 p info (wf_bounds _ _ W) (proj1 I)) as [_ Hali].
  assert (f <> info) as Hne by congruence.
  exists f. split; [constructor; [done|done|done|by rewrite (ld_ref _ _ _ _ _ _ _ _ L)]|]. split.
  - intros va Hva. rewrite (ld_leaf _ _ _ _ _ _ _ _ L); [by apply Hl|layout; dlia|by rewrite Hva].
  - intros va Hva. rewrite <- Hb by done. assert (page_of (f + va mod PGSIZE) = f) as E by (unfold page_of; layout; dlia).
    apply (ld_mem _ _ _ _ _ _ _ _ L); [by rewrite E|by rewrite E| |].
    + intros Hx. apply (Hph _ Hx). by rewrite E.
    + intros Hx. apply Hne. rewrite <- E. unfold page_of. layout. dlia.
Qed.

Lemma page_loaded_more g v fl fl' T p : (forall f, f ∈ fl -> f ∈ fl') ->
  page_loaded file g v fl T p -> page_loaded file g v fl' T p.
Proof. intros Hs (f & [N1 N2 N3 N4] & H). exists f. split; [|done]. constructor; auto. Qed.

Lemma sg_vpn_range g v : segment_ok size g -> sg_vpn g v -> 0 <= v * PGSIZE /\ (v + 1) * PGSIZE <= MAXVA.
Proof.
  intros Hg Hv. destruct (sg_range g size Hg) as (H1 & H2 & _ & _ & H3). unfold sg_vpn, vpn_in in Hv.
  layout. dlia.
Qed.

Lemma loads_trans segs1 segs2 k n T fl p T1 fl1 p1 T2 fl2 p2 : setting T fl p k n ->
  Z.of_nat (length segs1) + Z.of_nat (length segs2) <= n -> Forall (segment_ok size) segs1 ->
  (forall g h v, g ∈ segs1 -> h ∈ segs2 -> sg_vpn g v -> ~ sg_vpn h v) ->
  loads segs1 k T fl p T1 fl1 p1 -> loads segs2 (k + Z.of_nat (length segs1)) T1 fl1 p1 T2 fl2 p2 ->
  loads (segs1 ++ segs2) k T fl p T2 fl2 p2.
Proof.
  intros S Hn Hok Hap L1 L2.
  pose proof (setting_loads segs1 k T fl p T1 fl1 p1 n S L1 Hok ltac:(lia)) as S1.
  destruct (ld_free _ _ _ _ _ _ _ _ L1) as [u1 F1]. destruct (ld_free _ _ _ _ _ _ _ _ L2) as [u2 F2].
  pose proof (owned_not_free _ _ _ (st_wf _ _ _ _ _ S) (st_info _ _ _ _ _ S)) as Hinf.
  constructor.
  - apply L2.
  - apply L2.
  - exists (u1 ++ u2). by rewrite F1, F2, app_assoc.
  - pose proof (ld_need _ _ _ _ _ _ _ _ L1). pose proof (ld_need _ _ _ _ _ _ _ _ L2).
    rewrite needs_app. lia.
  - intros q a [Ha|Ha]%(ld_new _ _ _ _ _ _ _ _ L2); [by apply (ld_new _ _ _ _ _ _ _ _ L1)|set_solver].
  - intros va Hva Hout. rewrite (ld_leaf _ _ _ _ _ _ _ _ L2), (ld_leaf _ _ _ _ _ _ _ _ L1); try done; set_solver.
  - intros g v [Hg|Hg]%elem_of_app Hv.
    + assert (segment_ok size g) as Hgo by (by eapply Forall_forall in Hok).
      destruct (sg_vpn_range g v Hgo Hv). eapply (page_loaded_frame segs2 _ T1 fl1 p1); try done; [lia| |].
      * intros h Hh. by eapply Hap.
      * by apply (ld_page _ _ _ _ _ _ _ _ L1).
    + apply (page_loaded_more _ _ fl1); [set_solver|]. by apply (ld_page _ _ _ _ _ _ _ _ L2).
  - intros i g [Hi|[Hl Hi]]%lookup_app_Some.
    + pose proof (lookup_lt_Some _ _ _ Hi). destruct (st_room _ _ _ _ _ S).
      eapply region_frame; [|by apply (ld_region _ _ _ _ _ _ _ _ L1)]. intros x Hx.
      apply (loads_entry _ _ _ _ _ _ _ _ _ (k + Z.of_nat i) x S1 L2); lia.
    + replace (k + Z.of_nat i) with (k + Z.of_nat (length segs1) + Z.of_nat (i - length segs1)) by lia.
      by apply (ld_region _ _ _ _ _ _ _ _ L2).
  - intros x H1 H2 H3 H4. rewrite length_app in H4.
    rewrite (ld_mem _ _ _ _ _ _ _ _ L2), (ld_mem _ _ _ _ _ _ _ _ L1); try done; try lia; [set_solver|].
    intros q [Hq|Hq]%(ld_new _ _ _ _ _ _ _ _ L1); [by apply H2 in Hq|done].
  - intros q. by rewrite (ld_managed _ _ _ _ _ _ _ _ L2), (ld_managed _ _ _ _ _ _ _ _ L1).
  - intros q Hm Hq. rewrite (ld_ref _ _ _ _ _ _ _ _ L2), (ld_ref _ _ _ _ _ _ _ _ L1); try done.
    + by apply (ld_managed _ _ _ _ _ _ _ _ L1).
    + set_solver.
Qed.

(** ** One segment *)

Lemma header_keeps T fl p k n off m : setting T fl p k n ->
  copied file off ph SIZEOF_ELF_PROG_HEADER (mem p) m ->
  pmm_wf fl (set_mem m p) /\ vspace root T (set_mem m p) /\ forall va, leaf T m va = leaf T (mem p) va.
Proof.
  intros S Hc. apply set_mem_keeps; [apply S|apply S|]. intros x Hm _. rewrite Hc.
  destruct ((ph <=? x) && (x <? ph + SIZEOF_ELF_PROG_HEADER)) eqn:E; [|done].
  exfalso. apply (st_local _ _ _ _ _ S x); [lia|done].
Qed.

Lemma grown_backed g fr T fl p T' fl' p' : segment_ok size g ->
  grown root (sg_pte g) (sg_start g) (sg_npages g) fr T fl p T' fl' p' -> backed root T' fl' p' g fr.
Proof.
  intros Hg G. constructor.
  - apply G.
  - apply G.
  - intros vb Hv. destruct (sg_vpn_range g _ Hg Hv). rewrite (gr_leaf _ _ _ _ _ _ _ _ _ _ _ G) by (layout; dlia).
    by rewrite (proj2 (vpn_in_range _ _ _) Hv).
  - intros v Hv. apply (gr_frame _ _ _ _ _ _ _ _ _ _ _ G v Hv).
  - intros v Hv. eapply new_frame_apart; [apply G|by apply (gr_frame _ _ _ _ _ _ _ _ _ _ _ G)].
  - intros v Hv. apply (gr_frame _ _ _ _ _ _ _ _ _ _ _ G v Hv).
  - apply G.
Qed.

Section Segment.
  Context (T : gmap (list Z) Z) (fl : list Z) (p : pmm) (k n off : Z) (g : segment) (m1 : bytes).
  Context (fr : Z -> Z) (T2 : gmap (list Z) Z) (fl2 : list Z) (p2 : pmm) (m3 : bytes).
  Hypothesis S : setting T fl p k n.
  Hypothesis Hn : 0 < n.
  Hypothesis Hg : segment_ok size g.
  Hypothesis Hc : copied file off ph SIZEOF_ELF_PROG_HEADER (mem p) m1.
  Hypothesis G : grown root (sg_pte g) (sg_start g) (sg_npages g) fr T fl (set_mem m1 p) T2 fl2 p2.
  Hypothesis P : partly file p2 g fr (sg_filesz g) m3.

Let m4 := region_stored m3 info k g.

Lemma info_apart : (info ∉ fl) /\ (info ∉ fl2) /\ no_table T2 info /\ info mod PGSIZE = 0 /\
  forall v, sg_vpn g v -> fr v <> info.
Proof using All.
  pose proof (owned_not_free _ _ _ (st_wf _ _ _ _ _ S) (st_info _ _ _ _ _ S)) as Hi.
  destruct (gr_free _ _ _ _ _ _ _ _ _ _ _ G) as [u F]. split_and!.
  - done.
  - intros Hin. apply Hi. rewrite F. apply elem_of_app. by right.
  - intros path [Hp|Hp]%(gr_new _ _ _ _ _ _ _ _ _ _ _ G); [by apply (st_table _ _ _ _ _ S) in Hp|done].
  - apply (managed_56 p info (wf_bounds _ _ (st_wf _ _ _ _ _ S)) (proj1 (st_info _ _ _ _ _ S))).
  - intros v Hv E. destruct (gr_frame _ _ _ _ _ _ _ _ _ _ _ G v Hv) as [N _ _ _]. by rewrite E in N.
Qed.

Lemma m4_m3 x : page_of x <> info -> load8 m4 x = load8 m3 x.
Proof using All.
  intros Hx. apply region_stored_out. destruct info_apart as (_ & _ & _ & Hal & _).
  destruct (st_room _ _ _ _ _ S) as (? & ? & ?). unfold page_of in Hx. layout. dlia.
Qed.

Lemma m3_info x : page_of x = info -> load8 m3 x = load8 (mem p) x.
Proof using All.
  intros E. destruct info_apart as (I1 & _ & _ & _ & I4).
  rewrite (pt_out _ _ _ _ _ _ P) by (intros v Hv; rewrite E; by apply not_eq_sym, I4).
  rewrite (gr_mem _ _ _ _ _ _ _ _ _ _ _ G); [|by rewrite E|rewrite E; apply (st_table _ _ _ _ _ S)].
  simpl mem. rewrite Hc. destruct ((ph <=? x) && (x <? ph + SIZEOF_ELF_PROG_HEADER)) eqn:Ex; [|done]. exfalso.
  apply (st_local _ _ _ _ _ S x); [lia|]. rewrite E. apply (st_info _ _ _ _ _ S).
Qed.

(** The entries of the table of regions are still as they were. *)
Lemma m3_regions i : 0 <= i < 256 -> load64 m3 (region_va info i) = load64 (mem p) (region_va info i).
Proof using All.
  intros Hi. destruct info_apart as (_ & _ & _ & Hal & _). apply load_le_ext. unfold region_va. intros x Hx.
  apply m3_info. replace x with (info + 16 * i + (x - (info + 16 * i))) by lia. apply info_page; [done|done|lia].
Qed.

Lemma m4_keeps : pmm_wf fl2 (set_mem m4 p2) /\ vspace root T2 (set_mem m4 p2) /\
  forall va, leaf T2 m4 va = leaf T2 (mem p2) va.
Proof using All.
  destruct (partly_keeps file root T2 fl2 p2 g fr (grown_backed g fr _ _ _ _ _ _ Hg G) _ _ P) as (W & V & L).
  destruct info_apart as (_ & H2 & H3 & _).
  destruct (set_mem_keeps root T2 fl2 (set_mem m3 p2) m4 W V) as (W' & V' & L').
  - intros x _ Hx. apply m4_m3. intros E. rewrite E in Hx. destruct Hx as [|[path Hx]]; [done|by apply H3 in Hx].
  - split; [done|]. split; [done|]. intros va. by rewrite L', L.
Qed.

Lemma segment_loads : Z.of_nat (length fl) <= Z.of_nat (length fl2) + sg_need g ->
  loads [g] k T fl p T2 fl2 (set_mem m4 p2).
Proof using All.
  intros Hlen. destruct m4_keeps as (W4 & V4 & L4). destruct info_apart as (I1 & I2 & I3 & Hal & I4).
  destruct (header_keeps T fl p k n off m1 S Hc) as (_ & _ & L1).
  destruct (st_room _ _ _ _ _ S) as (? & ? & ?).
  pose proof (grown_backed g fr _ _ _ _ _ _ Hg G) as Hbk.
  constructor.
  - done.
  - done.
  - apply (gr_free _ _ _ _ _ _ _ _ _ _ _ G).
  - unfold needs. simpl. lia.
  - apply (gr_new _ _ _ _ _ _ _ _ _ _ _ G).
  - intros va Hva Hout. simpl mem. rewrite L4, (gr_leaf _ _ _ _ _ _ _ _ _ _ _ G) by done.
    destruct (in_range _ _ va) eqn:E; [|apply L1]. exfalso. apply (Hout g); [by left|]. by apply vpn_in_range.
  - intros h v ->%list_elem_of_singleton Hv. exists (fr v). split; [by destruct (gr_frame _ _ _ _ _ _ _ _ _ _ _ G v Hv)|].
    split; intros va Hva; rewrite <- Hva in Hv |- *.
    + simpl mem. rewrite L4. by apply (bk_leaf _ _ _ _ _ _ Hbk).
    + pose proof (frame_byte_page root T2 fl2 p2 g fr Hbk va Hv) as Ep. fold (frame_byte fr va). simpl mem.
      rewrite m4_m3 by (rewrite Ep; by apply I4). rewrite (pt_in _ _ _ _ _ _ P) by done.
      rewrite (gr_zero _ _ _ _ _ _ _ _ _ _ _ G _ _ Hv Ep). done.
  - intros [|i] h [= <-]. rewrite Z.add_0_r. by eapply region_stored_is.
  - intros x Hx1 Hx2 Hx3 Hx4. change (Z.of_nat (length [g])) with 1 in Hx4. simpl mem. unfold m4.
    rewrite region_stored_out by lia. rewrite (pt_out _ _ _ _ _ _ P).
    + rewrite (gr_mem _ _ _ _ _ _ _ _ _ _ _ G) by done. simpl mem. rewrite Hc.
      by replace (_ && _) with false by lia.
    + intros v Hv E. destruct (gr_frame _ _ _ _ _ _ _ _ _ _ _ G v Hv) as [N _ _ _]. by rewrite <- E in N.
  - apply (gr_managed _ _ _ _ _ _ _ _ _ _ _ G).
  - apply (gr_ref _ _ _ _ _ _ _ _ _ _ _ G).
Qed.

End Segment.

End Loads.

(** ** The loop over the program headers *)

(** [proc->total_mapped_region++] *)
Definition more_regions (x : process) : process :=
  set_total_mapped_region (s32 (total_mapped_region x + 1)) x.

Section Run.
  Context `{Host} (ctx : elf_ctx) (file : bytes) (size ph : Z) (ready : fs -> Prop).
  Context `{!ReadsFile ctx file size ready}.

Lemma read_header s off : ready s -> in_dram ph SIZEOF_ELF_PROG_HEADER = true ->
  0 <= off -> off + SIZEOF_ELF_PROG_HEADER <= size ->
  exists s' m, elf_fpread ctx ph SIZEOF_ELF_PROG_HEADER (u64 off) s = Ok SIZEOF_ELF_PROG_HEADER s' /\
    ready s' /\ fs_kernel s' = fs_kernel (set_fs_mem m s) /\
    copied file off ph SIZEOF_ELF_PROG_HEADER (fs_mem s) m.
Proof using All.
  intros Hr Hd H0 H1. pose proof rf_size as Hs. rewrite u64_small by (unfold SIZEOF_ELF_PROG_HEADER in *; lia).
  destruct (rf_read s ph SIZEOF_ELF_PROG_HEADER off Hr H0 ltac:(done) H1 Hd) as (s' & m & H2 & H3 & H4 & H5).
  by exists s', m.
Qed.

(** A field of the header in any state that has it at [ph]. *)
Lemma header_field s off n d : copied file off ph SIZEOF_ELF_PROG_HEADER (fs_mem s) (fs_mem s) ->
  in_dram ph SIZEOF_ELF_PROG_HEADER = true -> 0 <= d -> d + Z.of_nat n <= SIZEOF_ELF_PROG_HEADER ->
  fload n (ph + d) s = Ok (load_le n file (off + d)) s.
Proof.
  intros Hc Hd H0 H1. rewrite fload_run by (unfold in_dram in *; lia).
  by rewrite (copied_field file off ph SIZEOF_ELF_PROG_HEADER (fs_mem s) (fs_mem s)).
Qed.

Lemma copied_self src off dest nb m m' : copied src off dest nb m m' -> copied src off dest nb m' m'.
Proof. intros Hc x. destruct (_ && _) eqn:E; [|done]. by rewrite Hc, E. Qed.

Lemma sg_tables T g size' : segment_ok size' g ->
  Z.of_nat (sg_npages g) + loop_tables T (sg_start g) (sg_npages g) <= sg_need g.
Proof.
  intros Hg. unfold sg_need, loop_tables, tables_for. destruct (sg_npages g) as [|n] eqn:E.
  - exfalso. destruct Hg. unfold sg_npages in E. layout. revert E. dlia.
  - destruct (T !! _); lia.
Qed.

(** The pages of the segment, from the state with its header in [ph_addr]. *)
Lemma map_segment_run root T fl g s : segment_ok size g ->
  pmm_wf fl (pm s) -> vspace root T (pm s) ->
  (forall v, sg_vpn g v -> Z.odd (leaf T (fs_mem s) (v * PGSIZE)) = false) ->
  sg_need g <= Z.of_nat (length fl) ->
  exists fr T' fl' p', map_segment root (segment_prot (sg_flags g)) (sg_start g)
      (ROUNDUP (sg_vaddr g + sg_memsz g) PGSIZE) s = Ok tt (lset fs_pmmL p' s) /\
    grown root (sg_pte g) (sg_start g) (sg_npages g) fr T fl (pm s) T' fl' p' /\
    Z.of_nat (length fl) <= Z.of_nat (length fl') + sg_need g.
Proof using All.
  intros Hg W V Hodd Hfl. destruct (sg_range g size Hg) as (R1 & R2 & R3 & R4 & R5).
  destruct (sg_perm g size Hg) as (Hp & _ & _). pose proof (sg_tables T g size Hg) as Ht.
  destruct (segment_map_loop root (segment_prot (sg_flags g)) (ROUNDUP (sg_vaddr g + sg_memsz g) PGSIZE) Hp (sg_npages g)
    (rounds (sg_start g) (ROUNDUP (sg_vaddr g + sg_memsz g) PGSIZE)) T fl (pm s) s (sg_start g))
    as (fr & T' & fl' & p' & E & G & Hl); try done; try lia.
  - rewrite R4. unfold rounds. layout. dlia.
  - intros j Hj. replace (sg_start g + j * PGSIZE) with ((sg_start g / PGSIZE + j) * PGSIZE) by (layout; dlia).
    apply Hodd. unfold sg_vpn, vpn_in. lia.
  - rewrite fs_pmm_id in E. exists fr, T', fl', p'. split; [done|]. split; [done|lia].
Qed.

Lemma load_segment_exec off x s s1 s2 s3 s4 : let g := segment_at file off in
  in_dram ph SIZEOF_ELF_PROG_HEADER = true -> segment_ok size g ->
  load_le 4 file (off + PH_TYPE) = ELF_PROG_LOAD ->
  elf_fpread ctx ph SIZEOF_ELF_PROG_HEADER (u64 off) s = Ok SIZEOF_ELF_PROG_HEADER s1 ->
  copied file off ph SIZEOF_ELF_PROG_HEADER (fs_mem s1) (fs_mem s1) ->
  procs (fs_kernel s1) !! info_p ctx = Some x ->
  map_segment (pagetable x) (segment_prot (sg_flags g)) (sg_start g)
    (ROUNDUP (sg_vaddr g + sg_memsz g) PGSIZE) s1 = Ok tt s2 ->
  copied file off ph SIZEOF_ELF_PROG_HEADER (fs_mem s2) (fs_mem s2) ->
  load_bytes ctx (pagetable x) (sg_filesz g) (sg_vaddr g) (sg_off g) s2 = Ok None s3 ->
  record_region (info_p ctx) (sg_vaddr g) (Z.of_nat (sg_npages g)) (sg_flags g) s3 = Ok tt s4 ->
  load_segment ctx ph off s = Ok None s4.
Proof using All.
  intros g Hd Hg Hty E1 Hc1 Hx E2 Hc2 E3 E4. pose proof Hg as [_ ? ? ? ? ? ?]. pose proof MAXVA_eq.
  destruct (sg_range g size Hg) as (R1 & R2 & R3 & R4 & R5).
  unfold load_segment, bind at 1. rewrite E1, Z.eqb_refl. cbn [negb].
  unfold bind at 1. rewrite (header_field s1 off 4 PH_TYPE), Hty, Z.eqb_refl by done. cbn [negb].
  unfold bind at 1. rewrite (header_field s1 off 8 PH_MEMSZ) by done.
  unfold bind at 1. rewrite (header_field s1 off 8 PH_FILESZ) by done.
  unfold bind at 1. rewrite (header_field s1 off 8 PH_VADDR) by done.
  change (load64 file (off + PH_MEMSZ)) with (sg_memsz g). change (load64 file (off + PH_FILESZ)) with (sg_filesz g).
  change (load64 file (off + PH_VADDR)) with (sg_vaddr g).
  rewrite (proj2 (Z.ltb_ge (sg_memsz g) _)) by lia. rewrite u64_small by (layout; lia).
  rewrite (proj2 (Z.ltb_ge (sg_vaddr g + sg_memsz g) _)) by lia. cbv zeta.
  unfold bind at 1. rewrite (header_field s1 off 4 PH_FLAGS) by done.
  change (load32 file (off + PH_FLAGS)) with (sg_flags g).
  unfold bind at 1, the_proc, zoom at 1, get_proc, bind at 1, gets. cbn [lget fs_kernelL]. rewrite Hx.
  cbn [of_option ret lset fs_kernelL]. replace (set_fs_kernel (fs_kernel s1) s1) with s1 by (by destruct s1).
  unfold bind at 1. fold (sg_start g). rewrite E2.
  unfold bind at 1. rewrite (header_field s2 off 8 PH_OFF) by done.
  change (load64 file (off + PH_OFF)) with (sg_off g). unfold bind at 1. rewrite E3. unfold bind at 1.
  rewrite R4, u64_small by (layout; lia).
  replace ((sg_start g + Z.of_nat (sg_npages g) * PGSIZE - sg_start g) / PGSIZE) with (Z.of_nat (sg_npages g)) by (layout; dlia).
  unfold u32. rewrite Z.mod_small by (layout; lia). by rewrite E4.
Qed.

Lemma load_segment_run T fl s k n off x : let g := segment_at file off in
  ready s -> procs (fs_kernel s) !! info_p ctx = Some x ->
  setting (pagetable x) ph (mapped_info x) T fl (pm s) k n -> 0 < n ->
  0 <= off -> off + SIZEOF_ELF_PROG_HEADER <= size ->
  load_le 4 file (off + PH_TYPE) = ELF_PROG_LOAD -> segment_ok size g ->
  (forall v, sg_vpn g v -> Z.odd (leaf T (fs_mem s) (v * PGSIZE)) = false) ->
  sg_need g <= Z.of_nat (length fl) ->
  exists T' fl' s', load_segment ctx ph off s = Ok None s' /\ ready s' /\
    loads file (pagetable x) ph (mapped_info x) [g] k T fl (pm s) T' fl' (pm s') /\
    fs_kernel s' = set_procs (<[info_p ctx := more_regions x]> (procs (fs_kernel s)))
      (lset pmmL (pm s') (fs_kernel s)).
Proof using All.
  intros g Hr Hx S Hn H0 H1 Hty Hg Hodd Hfl. pose proof (st_ph _ _ _ _ _ _ _ _ S) as Hd.
  destruct (read_header s off Hr Hd H0 H1) as (s1 & m1 & E1 & Hr1 & K1 & Hc).
  assert (pm s1 = set_mem m1 (pm s)) as P1 by (simpl; by rewrite K1).
  assert (fs_mem s1 = m1) as M1 by (unfold fs_mem; by rewrite K1).
  destruct (header_keeps file (pagetable x) ph (mapped_info x) T fl (pm s) k n off m1 S Hc) as (W1 & V1 & L1).
  rewrite <- P1 in W1, V1.
  destruct (map_segment_run (pagetable x) T fl g s1 Hg W1 V1) as (fr & T2 & fl2 & p2 & E2 & G & Hl); [|done|].
  { intros v Hv. rewrite M1, L1. by apply Hodd. }
  set (s2 := lset fs_pmmL p2 s1) in *.
  pose proof (copied_self _ _ _ _ _ _ Hc) as Hc1. rewrite <- M1 in Hc1.
  assert (copied file off ph SIZEOF_ELF_PROG_HEADER (fs_mem s2) (fs_mem s2)) as Hc2.
  { intros y. destruct (_ && _) eqn:Ey; [|done]. 
    assert (~ managed (pm s1) (page_of y)) as Hnm.
    { rewrite P1. apply (st_local _ _ _ _ _ _ _ _ S y). lia. }
    change (fs_mem s2) with (mem p2). rewrite (gr_mem _ _ _ _ _ _ _ _ _ _ _ G).
    - specialize (Hc1 y). by rewrite Ey in Hc1.
    - intros Hin. apply Hnm. by apply (wf_free _ _ W1).
    - intros path Hp. apply Hnm. apply (vs_owned _ _ _ V1 _ _ Hp). }
  pose proof (grown_backed size (pagetable x) g fr _ _ _ _ _ _ Hg G) as Hbk.
  destruct (load_bytes_run ctx file size ready (pagetable x) T2 fl2 p2 g fr Hg Hbk (fs_kernel s2) s2)
    as (s3 & E3 & Hr3 & m3 & K3 & P3).
  { split; [by apply rf_kernel|]. exists (mem p2). split; [by destruct p2|]. split; [|done].
    intros vb _. by replace (_ && _) with false by lia. }
  pose proof (segment_loads file size (pagetable x) ph (mapped_info x) T fl (pm s) k n off g m1 fr T2 fl2 p2 m3 S Hn
    Hg Hc ltac:(by rewrite <- P1) P3 Hl) as HL.
  assert (procs (fs_kernel s3) !! info_p ctx = Some x) as Hx3.
  { rewrite K3. unfold s2. simpl. rewrite K1. exact Hx. }
  assert (fs_mem s3 = m3) as M3 by (unfold fs_mem; by rewrite K3).
  pose proof S as [_ _ I _ _ _ Hroom Hused Hunused].
  assert (in_dram (mapped_info x) PGSIZE = true) as Hdi.
  { destruct (managed_range (pm s) (wf_bounds _ _ (st_wf _ _ _ _ _ _ _ _ S)) _ (proj1 I)) as (? & ? & _).
    unfold in_dram. lia. }
  assert (forall i, 0 <= i < 256 -> load64 (fs_mem s3) (region_va (mapped_info x) i) =
    load64 (mem (pm s)) (region_va (mapped_info x) i)) as Hreg.
  { intros i Hi. rewrite M3. eapply m3_regions; try done. by rewrite <- P1. }
  pose proof (record_region_run (mapped_info x) Hdi (info_p ctx) x g size s3 k Hg Hx3 eq_refl ltac:(lia)
    ltac:(intros i Hi; rewrite Hreg by lia; by apply Hused)
    ltac:(rewrite Hreg by lia; apply Hunused; lia)) as E4.
  match type of E4 with _ = Ok tt ?t => set (s4 := t) in * end.
  set (m4 := region_stored m3 (mapped_info x) k g) in *.
  assert (pm s4 = set_mem m4 p2) as P4.
  { change (pm s4) with (set_mem (region_stored (fs_mem s3) (mapped_info x) k g) (k_pmm (fs_kernel s3))).
    by rewrite M3, K3. }
  exists T2, fl2, s4. split; [|split; [by apply rf_kernel|rewrite P4; split; [exact HL|]]].
  - eapply load_segment_exec; try done. rewrite K1. exact Hx.
  - change (fs_kernel s4) with (set_procs (<[info_p ctx := more_regions x]> (procs (fs_kernel s3)))
      (lset pmmL (set_mem (region_stored (fs_mem s3) (mapped_info x) k g) (k_pmm (fs_kernel s3))) (fs_kernel s3))).
    rewrite M3, K3. unfold s2. simpl. by rewrite K1.
Qed.

(** A header of another type is read and skipped. *)
Lemma skip_segment_run T fl s k n off x :
  ready s -> procs (fs_kernel s) !! info_p ctx = Some x ->
  setting (pagetable x) ph (mapped_info x) T fl (pm s) k n ->
  0 <= off -> off + SIZEOF_ELF_PROG_HEADER <= size -> load_le 4 file (off + PH_TYPE) <> ELF_PROG_LOAD ->
  exists s', load_segment ctx ph off s = Ok None s' /\ ready s' /\
    loads file (pagetable x) ph (mapped_info x) [] k T fl (pm s) T fl (pm s') /\
    fs_kernel s' = set_procs (<[info_p ctx := x]> (procs (fs_kernel s))) (lset pmmL (pm s') (fs_kernel s)).
Proof using All.
  intros Hr Hx S H0 H1 Hty. pose proof (st_ph _ _ _ _ _ _ _ _ S) as Hd.
  destruct (read_header s off Hr Hd H0 H1) as (s1 & m1 & E1 & Hr1 & K1 & Hc).
  assert (pm s1 = set_mem m1 (pm s)) as P1 by (simpl; by rewrite K1).
  assert (fs_mem s1 = m1) as M1 by (unfold fs_mem; by rewrite K1).
  destruct (header_keeps file (pagetable x) ph (mapped_info x) T fl (pm s) k n off m1 S Hc) as (W1 & V1 & L1).
  exists s1. split; [|split; [done|split]].
  - unfold load_segment, bind at 1. rewrite E1, Z.eqb_refl. cbn [negb]. unfold bind at 1.
    rewrite (header_field s1 off 4 PH_TYPE); [|rewrite M1; by eapply copied_self|done..].
    by rewrite (proj2 (Z.eqb_neq _ _)).
  - rewrite P1. constructor; try done.
    + by exists [].
    + unfold needs. simpl. lia.
    + auto.
    + set_solver.
    + intros y _ _ Hy _. simpl mem. rewrite Hc. by replace (_ && _) with false by lia.
  - rewrite P1, K1, insert_id by done. unfold set_fs_mem. simpl. by destruct (fs_kernel s).
Qed.

Definition segs_apart (segs : list segment) : Prop :=
  ForallOrdPairs (fun g h => forall v, sg_vpn g v -> ~ sg_vpn h v) segs.

(** The ELF header, outside the memory that is managed and apart from [ph_addr]. *)
Record header_at (p : pmm) : Prop := {
  ha_dram : in_dram (ctx_ehdr ctx) SIZEOF_ELF_HEADER = true;
  ha_local : forall x, ctx_ehdr ctx <= x < ctx_ehdr ctx + SIZEOF_ELF_HEADER -> ~ managed p (page_of x);
  ha_apart : ctx_ehdr ctx + SIZEOF_ELF_HEADER <= ph \/ ph + SIZEOF_ELF_PROG_HEADER <= ctx_ehdr ctx
}.

Lemma ehdr_field s n d : header_at (pm s) -> 0 <= d -> d + Z.of_nat n <= SIZEOF_ELF_HEADER ->
  fload n (ctx_ehdr ctx + d) s = Ok (load_le n (fs_mem s) (ctx_ehdr ctx + d)) s.
Proof. intros [Hd _ _] H0 H1. apply fload_run. unfold in_dram in *. lia. Qed.

Lemma header_kept root info segs k n T fl p T' fl' p' : setting root ph info T fl p k n ->
  Z.of_nat (length segs) <= n -> loads file root ph info segs k T fl p T' fl' p' -> header_at p ->
  header_at p' /\ load_le 2 (mem p') (ctx_ehdr ctx + EH_PHNUM) = load_le 2 (mem p) (ctx_ehdr ctx + EH_PHNUM).
Proof.
  intros S Hn L [H1 H2 H3]. split.
  - constructor; [done| |done]. intros x Hx Hm. apply (H2 x Hx). by apply (ld_managed _ _ _ _ _ _ _ _ _ _ _ _ L).
  - apply load_le_ext. intros x Hx. unfold EH_PHNUM in Hx. specialize (H2 x ltac:(unfold SIZEOF_ELF_HEADER; lia)).
    destruct (managed_56 p info (wf_bounds _ _ (st_wf _ _ _ _ _ _ _ _ S)) (proj1 (st_info _ _ _ _ _ _ _ _ S))) as [_ Hal].
    destruct (st_room _ _ _ _ _ _ _ _ S) as (? & ? & ?).
    apply (ld_mem _ _ _ _ _ _ _ _ _ _ _ _ L).
    + intros Hin. by apply H2, (wf_free _ _ (st_wf _ _ _ _ _ _ _ _ S)).
    + intros path Hp. apply H2, (vs_owned _ _ _ (st_vs _ _ _ _ _ _ _ _ S) _ _ Hp).
    + unfold SIZEOF_ELF_HEADER in *. lia.
    + intros Hi. apply H2. assert (page_of x = info) as -> by (unfold page_of; layout; dlia).
      apply (st_info _ _ _ _ _ _ _ _ S).
Qed.

(** The state of the loop with [n] headers from [off] on left. *)
Record pending (T : gmap (list Z) Z) (fl : list Z) (s : fs) (x : process) (k r off : Z) (n : nat) : Prop := {
  pn_ready : ready s;
  pn_proc : procs (fs_kernel s) !! info_p ctx = Some x;
  pn_setting : setting (pagetable x) ph (mapped_info x) T fl (pm s) k r;
  pn_header : header_at (pm s);
  pn_off : 0 <= off /\ off + SIZEOF_ELF_PROG_HEADER * Z.of_nat n <= size;
  pn_room : Z.of_nat (length (segments file off n)) <= r;
  pn_ok : Forall (segment_ok size) (segments file off n);
  pn_apart : segs_apart (segments file off n);
  pn_unmapped : forall g v, g ∈ segments file off n -> sg_vpn g v -> Z.odd (leaf T (fs_mem s) (v * PGSIZE)) = false;
  pn_need : needs (segments file off n) <= Z.of_nat (length fl)
}.

(** What a run of the loop over the segments [segs] gives. *)
Definition loaded (x : process) (k : Z) (segs : list segment) T fl (s : fs) T' fl' (s' : fs) : Prop :=
  ready s' /\ loads file (pagetable x) ph (mapped_info x) segs k T fl (pm s) T' fl' (pm s') /\
  fs_kernel s' = set_procs (<[info_p ctx := Nat.iter (length segs) more_regions x]> (procs (fs_kernel s)))
    (lset pmmL (pm s') (fs_kernel s)).

Lemma needs_nonneg segs : 0 <= needs segs.
Proof.
  induction segs as [|g segs IH]; [done|]. cbn [needs foldr]. fold (needs segs). unfold sg_need.
  destruct (sg_npages g) as [|n]; [|pose proof (crossings_nonneg (sg_start g) (Z.of_nat (S n)) ltac:(lia)); lia].
  unfold crossings. change (Z.of_nat 0) with 0. dlia.
Qed.

Lemma header_step T fl s x k r off n : pending T fl s x k r off (S n) ->
  exists now T1 fl1 s1,
    segments file off (S n) = now ++ segments file (off + SIZEOF_ELF_PROG_HEADER) n /\
    load_segment ctx ph off s = Ok None s1 /\ loaded x k now T fl s T1 fl1 s1.
Proof using All.
  intros [Hr Hx S Hh Ho Hroom Hok _ Hun Hneed].
  assert (off + SIZEOF_ELF_PROG_HEADER <= size) as Hoff by (unfold SIZEOF_ELF_PROG_HEADER in *; lia).
  cbn [segments] in *. destruct (Z.eqb_spec (load_le 4 file (off + PH_TYPE)) ELF_PROG_LOAD) as [Ht|Ht].
  - apply Forall_cons in Hok as [Hg Hok]. pose proof (needs_nonneg (segments file (off + SIZEOF_ELF_PROG_HEADER) n)).
    cbn [needs foldr length] in *. fold (needs (segments file (off + SIZEOF_ELF_PROG_HEADER) n)) in *.
    destruct (load_segment_run T fl s k r off x) as (T1 & fl1 & s1 & E & Hr1 & L & K); try done; try lia.
    { intros v Hv. apply (Hun (segment_at file off)); [by left|done]. }
    by exists [segment_at file off], T1, fl1, s1.
  - destruct (skip_segment_run T fl s k r off x) as (s1 & E & Hr1 & L & K); try done; try lia.
    by exists [], T, fl, s1.
Qed.

Lemma segs_apart_app l1 l2 : segs_apart (l1 ++ l2) ->
  segs_apart l2 /\ forall g h v, g ∈ l1 -> h ∈ l2 -> sg_vpn g v -> ~ sg_vpn h v.
Proof.
  unfold segs_apart. induction l1 as [|a l1 IH]; intros H'; [split; [done|set_solver]|].
  inversion H' as [|? ? Ha Hl]; subst. destruct (IH Hl) as [H1 H2]. split; [done|].
  intros g h v [->|Hg]%elem_of_cons Hh; [|by apply H2]. apply Forall_forall with (x := h) in Ha; [by apply Ha|set_solver].
Qed.

Lemma iter_add n m (x : process) :
  Nat.iter m more_regions (Nat.iter n more_regions x) = Nat.iter (n + m) more_regions x.
Proof. induction m as [|m IH]; [by rewrite Nat.add_0_r|]. rewrite Nat.add_succ_r. simpl. by rewrite IH. Qed.

Lemma iter_fields n x : pagetable (Nat.iter n more_regions x) = pagetable x /\
  mapped_info (Nat.iter n more_regions x) = mapped_info x.
Proof. induction n as [|n [IH1 IH2]]; [done|]. simpl. done. Qed.

Lemma pending_step now T fl s x k r off n T1 fl1 s1 : pending T fl s x k r off (S n) ->
  segments file off (S n) = now ++ segments file (off + SIZEOF_ELF_PROG_HEADER) n ->
  loaded x k now T fl s T1 fl1 s1 ->
  pending T1 fl1 s1 (Nat.iter (length now) more_regions x) (k + Z.of_nat (length now))
    (r - Z.of_nat (length now)) (off + SIZEOF_ELF_PROG_HEADER) n.
Proof using All.
  intros [Hr Hx S Hh Ho Hroom Hok Hap Hun Hneed] E (Hr1 & L & K). rewrite E in *.
  rewrite length_app in Hroom. apply Forall_app in Hok as [Hok1 Hok2]. apply segs_apart_app in Hap as [Hap Hcross].
  destruct (iter_fields (length now) x) as [E1 E2].
  destruct (header_kept (pagetable x) (mapped_info x) now k r T fl (pm s) T1 fl1 (pm s1) S ltac:(lia) L Hh) as [Hh1 _].
  constructor; rewrite ?E1, ?E2; try done.
  - rewrite K. simpl. apply lookup_insert_eq.
  - eapply setting_loads; [done|done|done|lia].
  - unfold SIZEOF_ELF_PROG_HEADER in *. lia.
  - lia.
  - intros g v Hg Hv. destruct (sg_vpn_range size g v) as [Hv0 Hv1]; [by eapply Forall_forall in Hok2|done|].
    change (fs_mem s1) with (mem (pm s1)). rewrite (ld_leaf _ _ _ _ _ _ _ _ _ _ _ _ L).
    + apply (Hun g v); [set_solver|done].
    + layout. lia.
    + intros h Hhn. replace (v * PGSIZE / PGSIZE) with v by (layout; dlia). intros Hhv. by apply (Hcross h g v).
  - pose proof (ld_need _ _ _ _ _ _ _ _ _ _ _ _ L) as Hl.
    rewrite needs_app in Hneed. lia.
Qed.

Lemma loaded_trans x k r now rest T fl s T1 fl1 s1 T2 fl2 s2 :
  setting (pagetable x) ph (mapped_info x) T fl (pm s) k r ->
  Z.of_nat (length now) + Z.of_nat (length rest) <= r -> Forall (segment_ok size) now ->
  (forall g h v, g ∈ now -> h ∈ rest -> sg_vpn g v -> ~ sg_vpn h v) ->
  loaded x k now T fl s T1 fl1 s1 ->
  loaded (Nat.iter (length now) more_regions x) (k + Z.of_nat (length now)) rest T1 fl1 s1 T2 fl2 s2 ->
  loaded x k (now ++ rest) T fl s T2 fl2 s2.
Proof.
  intros S Hr Hok Hc (R1 & L1 & K1) (R2 & L2 & K2). destruct (iter_fields (length now) x) as [E1 E2].
  rewrite E1, E2 in L2. split; [done|]. split; [by eapply loads_trans|].
  rewrite K2, K1, length_app, <- iter_add. simpl. by rewrite insert_insert_eq.
Qed.

Lemma headers_loop n : forall fuel i T fl s x k r off, (n < fuel)%nat -> pending T fl s x k r off n ->
  load_le 2 (fs_mem s) (ctx_ehdr ctx + EH_PHNUM) = i + Z.of_nat n ->
  exists T' fl' s', loop fuel (load_round_ph ctx ph) (i, off) s = Ok EL_OK s' /\
    loaded x k (segments file off n) T fl s T' fl' s'.
Proof using All.
  induction n as [|n IH]; intros [|fuel] i T fl s x k r off Hf Hp Hph; try lia; cbn [loop];
    unfold bind at 1, load_round_ph at 1; unfold bind at 1;
    rewrite (ehdr_field s 2 EH_PHNUM (pn_header _ _ _ _ _ _ _ _ Hp)), Hph by done.
  - change (Z.of_nat 0) with 0. rewrite (proj2 (Z.ltb_ge _ _)) by lia. exists T, fl, s. split; [done|].
    destruct Hp as [Hr Hx S _ _ _ _ _ _ _]. split; [done|]. split.
    + destruct S. constructor; try done; try (by exists []); try (by left); try set_solver. simpl. lia.
    + simpl. rewrite insert_id by done. by destruct (fs_kernel s) as [[] ?].
  - rewrite (proj2 (Z.ltb_lt _ _)) by lia.
    destruct (header_step T fl s x k r off n Hp) as (now & T1 & fl1 & s1 & Es & E & HL).
    pose proof (pending_step now T fl s x k r off n T1 fl1 s1 Hp Es HL) as Hp1.
    unfold bind at 1. rewrite E. unfold ret.
    rewrite s32_small by (pose proof rf_size; destruct (pn_off _ _ _ _ _ _ _ _ Hp); unfold SIZEOF_ELF_PROG_HEADER in *; lia).
    pose proof HL as (Hr1 & L & K). pose proof Hp as [_ _ S Hh _ Hroom Hok Hap _ _].
    rewrite Es in Hroom, Hok, Hap. rewrite length_app in Hroom. apply Forall_app in Hok as [Hok _]. apply segs_apart_app in Hap as [_ Hcross].
    destruct (header_kept (pagetable x) (mapped_info x) now k r T fl (pm s) T1 fl1 (pm s1) S ltac:(lia) L Hh) as [_ E2].
    destruct (IH fuel (i + 1) T1 fl1 s1 _ _ _ _ ltac:(lia) Hp1) as (T2 & fl2 & s2 & E3 & Hr2 & L2 & K2).
    { change (load_le 2 (mem (pm s1)) (ctx_ehdr ctx + EH_PHNUM) = i + 1 + Z.of_nat n). rewrite E2.
      change (load_le 2 (fs_mem s) (ctx_ehdr ctx + EH_PHNUM) = i + 1 + Z.of_nat n). lia. }
    exists T2, fl2, s2. split; [exact E3|]. rewrite Es. eapply (loaded_trans _ _ r); try done. lia.
Qed.

Lemma sg_pte_bits g : segment_ok size g -> has (sg_pte g) PTE_W = (sg_flags g =? 6) /\
  has (sg_pte g) PTE_X = (sg_flags g =? 5) /\ has (sg_pte g) PTE_U = true /\ has (sg_pte g) PTE_V = true.
Proof. intros [[E|E] _ _ _ _ _ _]; unfold sg_pte; rewrite E; vm_compute; done. Qed.

Lemma loads_translate root info segs k T fl p T' fl' p' g va : loads file root ph info segs k T fl p T' fl' p' ->
  segment_ok size g -> g ∈ segs -> sg_vaddr g <= va < sg_vaddr g + sg_memsz g ->
  exists pa, user_va_to_pa root va p' = Ok pa p' /\ load8 (mem p') pa = sg_byte file g va /\
    has (leaf T' (mem p') va) PTE_W = (sg_flags g =? 6) /\ has (leaf T' (mem p') va) PTE_X = (sg_flags g =? 5) /\
    has (leaf T' (mem p') va) PTE_U = true.
Proof.
  intros L Hg Hin Hva. destruct (sg_vpn_in size g Hg va Hva) as [Hv Hr].
  destruct (ld_page _ _ _ _ _ _ _ _ _ _ _ _ L g _ Hin Hv) as (f & [_ _ N3 _] & Hl & Hb).
  destruct (sg_perm g size Hg) as (_ & Hrw & Hf). destruct (sg_pte_bits g Hg) as (B1 & B2 & B3 & B4).
  exists (f + va mod PGSIZE). rewrite Hl by done. rewrite !has_pte by done. split_and!; try done; [|by apply Hb].
  apply (translate_leaf root T' p' va f (sg_pte g)); try done.
  - apply (wf_bounds fl'), L.
  - apply L.
  - by apply Hl.
Qed.

Lemma iter_total n x : 0 <= total_mapped_region x -> total_mapped_region x + Z.of_nat n < 2 ^ 31 ->
  total_mapped_region (Nat.iter n more_regions x) = total_mapped_region x + Z.of_nat n.
Proof.
  intros H0. induction n as [|n IH]; intros H1; [simpl; lia|]. rewrite Nat2Z.inj_succ in *.
  change (Nat.iter (S n) more_regions x) with (more_regions (Nat.iter n more_regions x)).
  unfold more_regions at 1. cbn [total_mapped_region set_total_mapped_region]. rewrite IH, s32_small by lia. lia.
Qed.

(** C8: the loader builds the image that the program headers describe.  For a
    file whose loadable segments are text or data, lie in the file and below the
    top of the user's addresses and share no page, and with enough free pages,
    [elf_load] returns [EL_OK]; afterwards every address of a segment is mapped
    for the user, writable exactly in data and executable exactly in text, and
    holds the byte of the file, or zero past the part that is in the file.  The
    segments are entered in the table of regions in their order, no other
    address is mapped or unmapped, and no page in use before is changed except
    the table itself. *)
Theorem elf_load_correct T fl s x k n :
  let phoff := load_le 8 (fs_mem s) (ctx_ehdr ctx + EH_PHOFF) in
  let segs := segments file phoff n in
  load_le 2 (fs_mem s) (ctx_ehdr ctx + EH_PHNUM) = Z.of_nat n ->
  pending T fl s x k (Z.of_nat (length segs)) phoff n ->
  0 <= total_mapped_region x -> total_mapped_region x + Z.of_nat (length segs) < 2 ^ 31 ->
  exists T' fl' s' x', elf_load ctx ph s = Ok EL_OK s' /\
    pmm_wf fl' (pm s') /\ vspace (pagetable x) T' (pm s') /\
    (forall g va, g ∈ segs -> sg_vaddr g <= va < sg_vaddr g + sg_memsz g ->
       exists pa, user_va_to_pa (pagetable x) va (pm s') = Ok pa (pm s') /\
         load8 (fs_mem s') pa = sg_byte file g va /\
         has (leaf T' (fs_mem s') va) PTE_W = (sg_flags g =? 6) /\
         has (leaf T' (fs_mem s') va) PTE_X = (sg_flags g =? 5) /\
         has (leaf T' (fs_mem s') va) PTE_U = true) /\
    (forall i g, segs !! i = Some g -> region_is (fs_mem s') (mapped_info x) (k + Z.of_nat i) g) /\
    procs (fs_kernel s') !! info_p ctx = Some x' /\
    total_mapped_region x' = total_mapped_region x + Z.of_nat (length segs) /\
    (forall va, 0 <= va < MAXVA -> (forall g, g ∈ segs -> ~ sg_vpn g (va / PGSIZE)) ->
       leaf T' (fs_mem s') va = leaf T (fs_mem s) va) /\
    (forall y, owned (pm s) (page_of y) -> no_table T (page_of y) -> page_of y <> mapped_info x ->
       load8 (fs_mem s') y = load8 (fs_mem s) y).
Proof using All.
  intros phoff segs Hn Hp Ht0 Ht1.
  assert (0 <= load_le 2 (fs_mem s) (ctx_ehdr ctx + EH_PHNUM) < 65536) as Hmax by apply (load_le_range 2).
  destruct (headers_loop n (Z.to_nat 65536) 0 T fl s x k (Z.of_nat (length segs)) phoff) as (T' & fl' & s' & E & Hr & L & K);
    [lia|done|lia|].
  destruct Hp as [_ Hx S Hh Ho _ Hok _ _ _].
  exists T', fl', s', (Nat.iter (length segs) more_regions x). split_and!.
  - unfold elf_load, bind. rewrite (ehdr_field s 8 EH_PHOFF Hh) by done. fold phoff.
    pose proof rf_size. rewrite s32_small by (unfold SIZEOF_ELF_PROG_HEADER in *; lia). exact E.
  - apply L.
  - apply L.
  - intros g va Hg Hva. eapply loads_translate; try done. by eapply Forall_forall in Hok.
  - apply (ld_region _ _ _ _ _ _ _ _ _ _ _ _ L).
  - rewrite K. simpl. apply lookup_insert_eq.
  - by apply iter_total.
  - apply (ld_leaf _ _ _ _ _ _ _ _ _ _ _ _ L).
  - intros y Hy HT Hi. apply (ld_mem _ _ _ _ _ _ _ _ _ _ _ _ L).
    + by apply (owned_not_free _ _ _ (st_wf _ _ _ _ _ _ _ _ S)).
    + done.
    + intros Hb. apply (st_local _ _ _ _ _ _ _ _ S y Hb), Hy.
    + intros Hb. apply Hi. destruct (st_room _ _ _ _ _ _ _ _ S) as (? & ? & ?).
      destruct (managed_56 _ _ (wf_bounds _ _ (st_wf _ _ _ _ _ _ _ _ S)) (proj1 (st_info _ _ _ _ _ _ _ _ S))) as [_ Hal].
      fold segs in Hb. unfold page_of. clear - Hb H0 H1 H2 Hal. layout. dlia.
Qed.

End Run.

(** ** A file of the host

    The documented behaviour of lseek and read on a descriptor of a regular
    file: the host keeps a position, reads from there and moves it on. *)

Class HostFile `{Host} (fd : Z) (file : bytes) (size : Z) : Prop := {
  hf_size : 0 <= size < 2 ^ 31;
  hf_seek : forall s off, 0 <= off ->
    frontend_syscall (HTIFSYS_lseek fd off LSEEK_SET) s = Ok off (set_host_pos (<[fd := off]> (host_pos s)) s);
  hf_tell : forall s pos, host_pos s !! fd = Some pos ->
    frontend_syscall (HTIFSYS_lseek fd 0 LSEEK_CUR) s = Ok pos s;
  hf_read : forall s buf n pos, host_pos s !! fd = Some pos -> 0 <= n ->
    let k := Z.max 0 (Z.min n (size - pos)) in
    exists m, frontend_syscall (HTIFSYS_read fd buf n) s =
        Ok k (set_host_pos (<[fd := pos + k]> (host_pos s)) (set_fs_mem m s)) /\
      copied file pos buf k (fs_mem s) m
}.

Section HostFile.
  Context `{Host} (ctx : elf_ctx) (fd : Z) (file : bytes) (size : Z).
  Context `{!HostFile fd file size}.

(** The dentry and the inode of the file lead to the descriptor [fd]. *)
Definition host_open (fl : Kernel.file) (s : fs) : Prop := exists d v i,
  dentries s !! f_dentry fl = Some d /\ vinodes s !! dentry_inode d = Some v /\ v_type v = FILE_I /\
  i_ops v = hostfs_i_ops /\ v_fs_info v = fptr i /\ 0 <= i < MAX_FILES /\ kfd (slot s i) = fd.

Lemma host_open_same fl fl' s s' : host_open fl s -> f_dentry fl' = f_dentry fl ->
  dentries s' = dentries s -> vinodes s' = vinodes s -> spike_files s' = spike_files s -> host_open fl' s'.
Proof.
  intros (d & v & i & H1 & H2 & H3 & H4 & H5 & H6 & H7) E1 E2 E3 E4. exists d, v, i. unfold slot in *.
  by rewrite E1, E2, E3, E4.
Qed.

Lemma vfs_lseek_host fl s off : host_open fl s -> 0 <= off < 2 ^ 31 ->
  vfs_lseek fl off LSEEK_SET s =
    Ok (off, set_offset off fl) (set_host_pos (<[fd := off]> (host_pos s)) s).
Proof using All.
  intros (d & v & i & H1 & H2 & H3 & H4 & H5 & H6 & H7) Hoff.
  unfold vfs_lseek, inode_of, get_dentry, get_vinode, bind at 1, bind at 1, bind at 1, gets. rewrite H1. simpl of_option.
  unfold ret at 1, bind at 1, bind at 1. rewrite H2. simpl of_option. unfold ret at 1 2. rewrite H3. cbn [FILE_I Z.eqb negb].
  unfold ops_of. rewrite H4. cbn [viop_lseek hostfs_ops].
  unfold hostfs_lseek, spike_file_lseek, get_vinode, bind, gets. rewrite H2. simpl of_option. unfold ret at 1.
  rewrite H5, get_spike_run, H7, hf_seek by (done || lia). unfold ret. rewrite s32_small by lia.
  by rewrite (proj2 (Z.leb_le 0 off)) by lia.
Qed.

Lemma vfs_read_host fl s dest nb pos : host_open fl s -> readable fl <> 0 -> host_pos s !! fd = Some pos ->
  0 <= nb < 2 ^ 31 -> 0 <= pos < 2 ^ 31 ->
  let k := Z.max 0 (Z.min nb (size - pos)) in
  exists m, vfs_read fl dest nb s = Ok (k, set_offset (pos + k) fl)
      (set_host_pos (<[fd := pos + k]> (host_pos s)) (set_fs_mem m s)) /\
    copied file pos dest k (fs_mem s) m.
Proof using All.
  intros (d & v & i & H1 & H2 & H3 & H4 & H5 & H6 & H7) Hr Hp Hn Hpos k. pose proof hf_size as Hsz.
  destruct (hf_read s dest nb pos Hp ltac:(lia)) as (m & Em & Hc). fold k in Em, Hc. exists m. split; [|done].
  unfold vfs_read. rewrite (proj2 (Z.eqb_neq _ 0)) by done.
  unfold inode_of, get_dentry, get_vinode, bind at 1, bind at 1, bind at 1, gets. rewrite H1. simpl of_option.
  unfold ret at 1, bind at 1, bind at 1. rewrite H2. simpl of_option. unfold ret at 1 2. rewrite H3. cbn [FILE_I Z.eqb negb].
  unfold ops_of. rewrite H4. cbn [viop_read hostfs_ops].
  unfold hostfs_read, spike_file_read, spike_file_lseek, get_vinode, bind, gets. rewrite H2. simpl of_option. unfold ret at 1.
  rewrite s64_small by lia. rewrite H5, get_spike_run, H7, Em by done.
  rewrite get_spike_run by done. unfold slot in *. simpl spike_files. rewrite H7.
  rewrite (hf_tell _ (pos + k)) by apply lookup_insert_eq. unfold ret.
  by rewrite !s32_small by (unfold k; lia).
Qed.

(** The open file of the context is the host's descriptor [fd]. *)
Definition opened (s : fs) : Prop := exists fl,
  files s !! info_f ctx = Some fl /\ readable fl <> 0 /\ host_open fl s.

Lemma elf_fpread_host s dest nb off : opened s -> 0 <= off < 2 ^ 31 -> 0 <= nb < 2 ^ 31 ->
  let k := Z.max 0 (Z.min nb (size - off)) in
  exists s' m, elf_fpread ctx dest nb off s = Ok k s' /\ opened s' /\
    fs_kernel s' = fs_kernel (set_fs_mem m s) /\ copied file off dest k (fs_mem s) m.
Proof using All.
  intros (fl & Hf & Hr & Ho) Hoff Hnb k.
  set (fl1 := set_offset off fl). set (s1 := set_host_pos (<[fd := off]> (host_pos s)) s).
  set (s2 := set_files (<[info_f ctx := fl1]> (files s1)) s1).
  assert (host_open fl1 s2) as Ho2 by (by eapply host_open_same).
  destruct (vfs_read_host fl1 s2 dest nb off Ho2) as (m & E & Hc); [done|apply lookup_insert_eq|done|done|].
  fold k in E, Hc. set (fl2 := set_offset (off + k) fl1) in *.
  set (s3 := set_host_pos _ (set_fs_mem m s2)) in *.
  exists (set_files (<[info_f ctx := fl2]> (files s3)) s3), m. split; [|split; [|done]].
  - unfold elf_fpread, the_file, bind, gets. rewrite Hf. simpl of_option. unfold ret at 1.
    rewrite s64_small, vfs_lseek_host by (done || lia). fold fl1 s1. unfold put_file, modify. fold s2.
    rewrite E. fold fl2 s3. unfold ret. rewrite u64_small; [done|]. unfold k. lia.
  - exists fl2. split; [simpl; apply lookup_insert_eq|]. split; [done|]. by eapply host_open_same.
Qed.

#[export] Instance host_file_reads : ReadsFile ctx file size opened.
Proof using All.
  constructor.
  - intros s dest nb off Ho H0 Hn Hs _. pose proof hf_size as Hsz.
    destruct (elf_fpread_host s dest nb off Ho) as (s' & m & E & H1 & H2 & H3); [lia|lia|].
    rewrite Z.max_r, Z.min_l in * by lia. by exists s', m.
  - intros s K (fl & H1 & H2 & H3). exists fl. split; [done|]. split; [done|]. by eapply host_open_same.
  - apply hf_size.
Qed.

End HostFile.

(** ** A host with one file, behind every descriptor *)

Fixpoint host_copy (n : nat) (src : bytes) (off : Z) (m : bytes) (dest : Z) : bytes :=
  match n with
  | O => m
  | S n => host_copy n src (off + 1) (store8 m dest (load8 src off)) (dest + 1)
  end.

Lemma host_copy_copied n src : forall off m dest, copied src off dest (Z.of_nat n) m (host_copy n src off m dest).
Proof.
  induction n as [|n IH]; intros off m dest x.
  { change (Z.of_nat 0) with 0. by replace (_ && _) with false by lia. }
  cbn [host_copy]. rewrite IH, load8_store8, Nat2Z.inj_succ. pose proof (load8_range src off).
  pose proof (Nat2Z.is_nonneg n) as Hn. revert Hn. generalize (Z.of_nat n) as z. intros z Hz.
  unfold Z.succ. case_decide as E.
  - subst x. replace ((dest + 1 <=? dest) && _) with false by lia. replace (_ && _) with true by lia.
    rewrite Z.sub_diag, Z.add_0_r. unfold u8. by apply Z.mod_small.
  - destruct ((dest + 1 <=? x) && (x <? dest + 1 + z)) eqn:E1,
      ((dest <=? x) && (x <? dest + (z + 1))) eqn:E2; try lia; f_equal; lia.
Qed.

Definition file_host (file : bytes) (size : Z) : Host := {|
  frontend_syscall c := fun s =>
    match c with
    | HTIFSYS_lseek fd off dir =>
        if dir =? LSEEK_SET then Ok off (set_host_pos (<[fd := off]> (host_pos s)) s)
        else Ok (default 0 (host_pos s !! fd)) s
    | HTIFSYS_read fd buf n =>
        let pos := default 0 (host_pos s !! fd) in
        let k := Z.max 0 (Z.min n (size - pos)) in
        Ok k (set_host_pos (<[fd := pos + k]> (host_pos s))
          (set_fs_mem (host_copy (Z.to_nat k) file pos (fs_mem s) buf) s))
    | _ => Ok (-1) s
    end;
  frontend_fstat _ := ret (0, Stat 1 size 1 0 S_IFREG) |}.

Lemma file_host_file file size fd : 0 <= size < 2 ^ 31 -> @HostFile (file_host file size) fd file size.
Proof.
  intros Hs. constructor; [done|done| |].
  - intros s pos E. simpl. by rewrite E.
  - intros s buf n pos E Hn. simpl. rewrite E. simpl. eexists. split; [done|].
    pose proof (host_copy_copied (Z.to_nat (Z.max 0 (Z.min n (size - pos)))) file pos (fs_mem s) buf) as Hc.
    by rewrite Z2Nat.id in Hc by lia.
Qed.

(** A file with one text segment of 3 bytes at 0x10000, for the witness. *)
Definition demo_file : bytes :=
  store8 (store8 (store8
    (store64 (store64 (store64 (store64 (store32 (store32 ∅ 64 1) 68 5) 72 0x100) 80 0x10000) 96 3) 104 8)
    0x100 11) 0x101 12) 0x102 13.

Definition demo_ctx : elf_ctx := ElfCtx 1 0 0x80100000.

(** The process has an empty page table and a page for its regions; the header is
    in memory the allocator does not have. *)
Definition demo_pmm : pmm :=
  let p := zeroed 0x80006000 empty_space in
  set_mem (store_le 2 (store64 (mem p) (0x80100000 + EH_PHOFF) 64) (0x80100000 + EH_PHNUM) 1) p.

Definition demo_loader : fs :=
  Fs (Kernel (Vm demo_pmm 0)
        {[0 := set_mapped_info 0x80006000 (set_pagetable 0x80007000 (blank_process 0))]}
        ∅ ∅ ∅ ∅ 0 ∅ 0 0 ∅ 0 0 0 0 0 ∅ ∅)
    ∅ {[2 := Vinode 0 1 0x108 FILE_I 1 1 [] (fptr 4) 0 hostfs_i_ops]} {[3 := Dentry [97] 1 2 0]} ∅ ∅
    {[1 := File FD_OPENED 1 0 0 3]} ∅ ∅ ∅ ∅ ∅ ∅ {[4 := SpikeFile 7 3]} ∅ ∅.

Lemma empty_space_head : pmm_wf (0x80006000 :: page_stack DRAM_BASE 6) empty_space.
Proof. apply empty_space_wf. Qed.

Lemma demo_managed q : managed demo_pmm q -> q < 0x80009000.
Proof. unfold managed. simpl. layout. lia. Qed.

Lemma demo_pmm_ok : pmm_wf (page_stack DRAM_BASE 6) demo_pmm /\
  vspace 0x80007000 {[[] := 0x80007000]} demo_pmm /\
  (forall va, leaf {[[] := 0x80007000]} (mem demo_pmm) va = 0) /\
  load64 (mem demo_pmm) 0x80006000 = 0.
Proof.
  pose proof (zeroed_keeps 0x80007000 {[[] := 0x80007000]} 0x80006000 _ _ empty_space_head empty_space_vs) as [V L].
  pose proof (zeroed_wf (page_stack DRAM_BASE 6) empty_space 0x80006000 empty_space_head) as W.
  destruct (set_mem_keeps 0x80007000 _ _ _ (mem demo_pmm) W V) as (W' & V' & L').
  { intros x Hm _. apply demo_managed in Hm. unfold page_of in Hm. unfold demo_pmm. simpl mem.
    rewrite !load8_store_le_ne by (unfold EH_PHOFF, EH_PHNUM; layout; lia || (left; dlia)). done. }
  split; [exact W'|]. split; [exact V'|]. split; [intros va; rewrite L', L; apply empty_space_leaf|].
  unfold demo_pmm. simpl mem. rewrite !load_store_le_ne by (unfold EH_PHOFF, EH_PHNUM; lia).
  unfold zeroed. simpl mem. apply load_le_fill_0; layout; lia.
Qed.

Lemma demo_segments : segments demo_file 64 1 = [Segment 5 0x100 0x10000 3 8].
Proof. vm_compute. done. Qed.

Lemma demo_segment_ok : segment_ok 0x108 (Segment 5 0x100 0x10000 3 8).
Proof. constructor; simpl; try (by left); rewrite ?MAXVA_eq; layout; lia. Qed.

Lemma demo_setting : setting 0x80007000 0x80200000 0x80006000 {[[] := 0x80007000]}
  (page_stack DRAM_BASE 6) demo_pmm 0 1.
Proof.
  destruct demo_pmm_ok as (W & V & L & R).
  assert (managed empty_space 0x80006000) as Hm by (apply (wf_free _ _ empty_space_head); by left).
  constructor; [exact W|exact V| | |reflexivity| |lia|lia|].
  - split; [exact Hm|]. change (page_ref demo_pmm 0x80006000) with (page_ref (zeroed 0x80006000 empty_space) 0x80006000).
    rewrite (zeroed_ref 0x80007000 {[[] := 0x80007000]} 0x80006000 _ _ empty_space_head empty_space_vs) by exact Hm.
    by rewrite decide_True.
  - intros path [_ E]%lookup_singleton_Some. congruence.
  - intros x Hx Hmx%demo_managed. unfold page_of, SIZEOF_ELF_PROG_HEADER in *. layout. dlia.
  - intros i Hi. assert (i = 0) as -> by lia. exact R.
Qed.

(** The two fields of the header. *)
Lemma demo_header : load_le 8 (fs_mem demo_loader) (ctx_ehdr demo_ctx + EH_PHOFF) = 64 /\
  load_le 2 (fs_mem demo_loader) (ctx_ehdr demo_ctx + EH_PHNUM) = Z.of_nat 1.
Proof.
  change (fs_mem demo_loader) with (mem demo_pmm). unfold demo_pmm. cbn [mem set_mem ctx_ehdr demo_ctx].
  split; [|by rewrite load_store_le_eq]. rewrite load_store_le_ne by (unfold EH_PHOFF, EH_PHNUM; lia).
  by rewrite load64_store64_eq.
Qed.

Lemma demo_pending : pending demo_ctx demo_file 0x108 0x80200000 (opened demo_ctx 7)
  {[[] := 0x80007000]} (page_stack DRAM_BASE 6) demo_loader
  (set_mapped_info 0x80006000 (set_pagetable 0x80007000 (blank_process 0))) 0 1 64 1.
Proof.
  destruct demo_pmm_ok as (W & V & L & R). constructor; rewrite ?demo_segments.
  - exists (File FD_OPENED 1 0 0 3). split; [reflexivity|]. split; [discriminate|].
    eexists _, _, 4. split_and!; reflexivity || (unfold MAX_FILES; lia).
  - reflexivity.
  - exact demo_setting.
  - constructor; [reflexivity| |left; unfold SIZEOF_ELF_HEADER; simpl; lia]. intros x Hx Hm%demo_managed. cbn [ctx_ehdr demo_ctx] in Hx.
    unfold page_of, SIZEOF_ELF_HEADER in *. layout. dlia.
  - unfold SIZEOF_ELF_PROG_HEADER. lia.
  - reflexivity.
  - constructor; [exact demo_segment_ok|constructor].
  - repeat constructor.
  - intros g v _ _. change (fs_mem demo_loader) with (mem demo_pmm). by rewrite L.
  - vm_compute. discriminate.
Qed.

Lemma elf_load_correct_witness : exists T s' pa pa',
  @elf_load (file_host demo_file 0x108) demo_ctx 0x80200000 demo_loader = Ok EL_OK s' /\
  user_va_to_pa 0x80007000 0x10001 (pm s') = Ok pa (pm s') /\ load8 (fs_mem s') pa = 12 /\
  user_va_to_pa 0x80007000 0x10005 (pm s') = Ok pa' (pm s') /\ load8 (fs_mem s') pa' = 0 /\
  has (leaf T (fs_mem s') 0x10001) PTE_W = false.
Proof.
  pose proof (file_host_file demo_file 0x108 7 ltac:(lia)) as Hh.
  pose proof (@host_file_reads (file_host demo_file 0x108) demo_ctx 7 demo_file 0x108 Hh) as Hrd.
  destruct demo_header as [E1 E2].
  pose proof (@elf_load_correct (file_host demo_file 0x108) demo_ctx demo_file 0x108 0x80200000
    (opened demo_ctx 7) Hrd {[[] := 0x80007000]} (page_stack DRAM_BASE 6) demo_loader
    (set_mapped_info 0x80006000 (set_pagetable 0x80007000 (blank_process 0))) 0 1) as H.
  cbv zeta in H. rewrite E1, demo_segments in H.
  destruct (H E2 demo_pending) as (T' & fl' & s' & x' & E & _ & _ & HB & _); [cbn; lia|cbn; lia|]. clear H.
  destruct (HB (Segment 5 0x100 0x10000 3 8) 0x10001) as (pa & H1 & H2 & H3 & _); [by left|simpl; lia|].
  destruct (HB (Segment 5 0x100 0x10000 3 8) 0x10005) as (pa' & H4 & H5 & _); [by left|simpl; lia|].
  exists T', s', pa, pa'. split_and!; [exact E|exact H1|exact H2|exact H4|exact H5|exact H3].
Defined.
