(* ===== verification/UserHeap.v ===== *)
(** * The system calls of the user heap (kernel/syscall.c)

    [sys_user_allocate_mem] and [sys_user_free_mem]: requests that fit a page are
    served from the free list, which grows by a page when no block fits; larger
    requests take consecutive pages at the top of the heap.  The end of a process
    gives its heap back. *)

From S2P Require Import Prelude Mem Pmm StringLib Vmm Kernel Process Heap Sched.
From stdpp Require Import base gmap list fin_maps.
From Stdlib Require Import ZArith Lia Bool.
From S2P Require Import Heap.

Set Default Goal Selector "!".
Open Scope Z_scope.

(** ** The running process *)

(** [assert(current[hartid])] *)
Definition assert_current (hartid : Z) : M kernel unit :=
  assert_hart hartid ;;;
  let* c := get_current hartid in
  assert (bool_decide (is_Some c)).

Definition cur_proc (hartid : Z) : M kernel process := let* c := cur hartid in get_proc c.
Definition upd_heap (hartid : Z) (f : process_heap_manager -> process_heap_manager) : M kernel unit :=
  let* c := cur hartid in upd_proc c (fun p => set_user_heap (f (user_heap p)) p).

(** The address in the heap that is mapped to [pa]; 0 when there is none. *)
Definition pa_to_user_va (hartid page_dir pa : Z) : M kernel Z :=
  assert_current hartid ;;;
  let* p := cur_proc hartid in
  loop (rounds USER_FREE_ADDRESS_START (heap_top (user_heap p))) (fun va =>
    if va <? heap_top (user_heap p) then
      let* map_pa := zoom pmmL (lookup_pa page_dir va) in
      if map_pa =? 0 then ret (inl (u64 (va + PGSIZE)))
      else if (map_pa <=? pa) && (pa <? u64 (map_pa + PGSIZE)) then ret (inr (u64 (va + u64 (pa - map_pa))))
      else ret (inl (u64 (va + PGSIZE)))
    else ret (inr 0)) USER_FREE_ADDRESS_START.

Section Fuel.
  Context (fuel : nat) (hartid : Z).

(** [mem_rib.alloc(n, &free_list, &alloc_list)] and [mem_rib.free(va, ...)]. *)
Definition rib_alloc (n : Z) : M kernel Z :=
  let* p := cur_proc hartid in
  let h := user_heap p in
  let* (va, fl, al) := first_fit_alloc fuel hartid n (free_list h) (alloc_list h) in
  upd_heap hartid (fun h => set_alloc_list al (set_free_list fl h)) ;;;
  ret va.

Definition rib_free (va : Z) : M kernel unit :=
  let* p := cur_proc hartid in
  let h := user_heap p in
  let* (_, fl, al) := first_fit_free fuel hartid va (free_list h) (alloc_list h) in
  upd_heap hartid (fun h => set_alloc_list al (set_free_list fl h)).

(** [insert_free_block(&free_list, block, PD_CMP_FUNC)] *)
Definition rib_insert (b : Z) : M kernel unit :=
  let* p := cur_proc hartid in
  let* fl := insert_free_block fuel hartid (free_list (user_heap p)) b pd_first_fit_cmp in
  upd_heap hartid (set_free_list fl).

(** A new page at the top of the heap and its address; [None] when no page is
    left. *)
Definition heap_grow : M kernel (option Z) :=
  let* pa := zoom pmmL alloc_page in
  if pa =? 0 then ret None
  else
    let* p := cur_proc hartid in
    let* np := kread32 (region_npages (mapped_info p) HEAP_SEGMENT) in
    kwrite32 (region_npages (mapped_info p) HEAP_SEGMENT) (u32 (np + 1)) ;;;
    let va := heap_top (user_heap p) in
    zoom pmmL (user_vm_map (pagetable p) va PGSIZE pa (prot_to_type (Z.lor PROT_WRITE PROT_READ) 1)) ;;;
    upd_heap hartid (fun h => set_heap_top (u64 (heap_top h + PGSIZE)) h) ;;;
    ret (Some va).

(** ** Requests within a page *)

Definition alloc_small (n : Z) : M kernel Z :=
  let* va := rib_alloc n in
  if negb (va =? 0) then ret (u64 (va + SIZEOF_PD))
  else
    let* g := heap_grow in
    match g with
    | None => ret 0
    | Some b =>
        set_flag hartid b 0 ;;;
        set_size hartid b (PGSIZE - SIZEOF_PD) ;;;
        set_next hartid b 0 ;;;
        rib_insert b ;;;
        let* va := rib_alloc n in
        if negb (va =? 0) then ret (u64 (va + SIZEOF_PD)) else ret 0
    end.

(** ** Larger requests *)

(** The free block with the highest address. *)
Definition highest_free : M kernel Z :=
  let* p := cur_proc hartid in
  loop fuel (fun '(highest, block) =>
    if block =? 0 then ret (inr highest)
    else
      let* n := get_next hartid block in
      ret (inl (if (highest =? 0) || (highest <? block) then block else highest, n)))
    (0, free_list (user_heap p)).

(** No page left: the block that was being made goes to the free list. *)
Definition alloc_fail (start_va i : Z) : M kernel Z :=
  set_flag hartid start_va 0 ;;;
  let* sz := get_size hartid start_va in
  set_size hartid start_va (u64 ((i - 1) * PGSIZE + sz)) ;;;
  rib_insert start_va ;;;
  ret 0.

(** The loop over the pages: [inl i] when it is done, [inr 0] when it failed. *)
Definition grow_pages (n start_va : Z) : M kernel (Z + Z) :=
  loop (S (rounds 0 n)) (fun i =>
    if i * PGSIZE <? n then
      let* g := heap_grow in
      match g with
      | None => let* r := alloc_fail start_va i in ret (inr (inr r))
      | Some _ => ret (inl (i + 1))
      end
    else ret (inr (inl i))) 0.

(** The block the request starts in and what is left of the request: a block at
    the top of the heap, or a new page; [None] when no page is left. *)
Definition alloc_start (n : Z) : M kernel (option (Z * Z)) :=
  let* highest := highest_free in
  let* sz := get_size hartid highest in
  let* p := cur_proc hartid in
  let at_top := negb (u64 (highest + sz + SIZEOF_PD) <? heap_top (user_heap p)) in
  if negb (highest =? 0) && at_top then
    let* fl := remove_from_pd_list fuel hartid (free_list (user_heap p)) highest in
    upd_heap hartid (set_free_list fl) ;;;
    let* sz := get_size hartid highest in
    ret (Some (highest, s32 (u64 (n - sz))))
  else
    let* g := heap_grow in
    match g with
    | None => ret None
    | Some va =>
        set_size hartid va (PGSIZE - SIZEOF_PD) ;;;
        ret (Some (va, s32 (u64 (n - (PGSIZE - SIZEOF_PD)))))
    end.

Definition alloc_large (original_n : Z) : M kernel Z :=
  let* va := rib_alloc original_n in
  if negb (va =? 0) then ret (u64 (va + SIZEOF_PD))
  else
    let* start := alloc_start original_n in
    match start with
    | None => ret 0
    | Some (start_va, n) =>
        let finish :=
          set_flag hartid start_va 1 ;;;
          set_size hartid start_va original_n ;;;
          let* p := cur_proc hartid in
          let* al := insert_alloc_block hartid (alloc_list (user_heap p)) start_va in
          upd_heap hartid (set_alloc_list al) ;;;
          ret (u64 (start_va + SIZEOF_PD)) in
        let* r := grow_pages n start_va in
        match r with
        | inr r => ret r
        | inl i =>
            if i * PGSIZE =? n then finish
            else
              let* g := heap_grow in
              match g with
              | None => alloc_fail start_va i
              | Some va =>
                  let free_va := u64 (va + n - i * PGSIZE) in
                  set_flag hartid free_va 0 ;;;
                  set_size hartid free_va (u64 (PGSIZE - (n - i * PGSIZE) - SIZEOF_PD)) ;;;
                  set_next hartid free_va 0 ;;;
                  rib_insert free_va ;;;
                  finish
              end
        end
    end.

(** [ROUNDUP(n, 8)] on an [int]; it overflows for the last seven values. *)
Definition sys_user_allocate_mem (n : Z) : M kernel Z :=
  assert_current hartid ;;;
  if n <=? 0 then ret 0
  else
    let n := ((n - 1) / 8 + 1) * 8 in
    if 2 ^ 31 <=? n then fault
    else if n + SIZEOF_PD <=? PGSIZE then alloc_small n
    else alloc_large n.

Definition sys_user_allocate_page : M kernel Z := sys_user_allocate_mem (PGSIZE - SIZEOF_PD).

Definition sys_user_free_mem (va : Z) : M kernel Z :=
  assert_current hartid ;;;
  rib_free (u64 (va - SIZEOF_PD)) ;;;
  ret 0.

Definition sys_user_free_page (va : Z) : M kernel Z :=
  let* _ := sys_user_free_mem va in ret 0.

(** ** The end of a process *)

(** Blocks that are still allocated. *)
Definition exit_free_blocks : M kernel unit :=
  loop fuel (fun _ =>
    let* p := cur_proc hartid in
    let a := alloc_list (user_heap p) in
    if negb (a =? 0) then rib_free a ;;; ret (inl tt) else ret (inr tt)) tt.

Definition exit_sort_merge : M kernel unit :=
  let* p := cur_proc hartid in
  let* fl := sort_free_list_ascend fuel hartid (free_list (user_heap p)) pd_first_fit_cmp in
  let* fl := merge_free_blocks fuel hartid fl pd_first_fit_cmp in
  upd_heap hartid (set_free_list fl).

(** The pages of the free blocks. *)
Definition exit_unmap_blocks : M kernel unit :=
  let* p := cur_proc hartid in
  loop fuel (fun item =>
    if negb (item =? 0) then
      let* next := get_next hartid item in
      let* sz := get_size hartid item in
      (if u64 (sz + SIZEOF_PD) <=? PGSIZE then
         zoom pmmL (user_vm_unmap (pagetable p) item PGSIZE true)
       else ret tt) ;;;
      upd_heap hartid (set_free_list next) ;;;
      ret (inl next)
    else ret (inr tt)) (free_list (user_heap p)).

(** The pages of the heap that are still mapped. *)
Definition exit_unmap_heap : M kernel unit :=
  let* p := cur_proc hartid in
  let h := user_heap p in
  loop (rounds (heap_bottom h) (heap_top h)) (fun va =>
    if va <? heap_top h then
      let* pte := zoom pmmL (page_walk (pagetable p) va false) in
      (if negb (pte =? 0) then
         let* e := kread64 pte in
         if has e PTE_V then zoom pmmL (user_vm_unmap (pagetable p) va PGSIZE true) else ret tt
       else ret tt) ;;;
      ret (inl (u64 (va + PGSIZE)))
    else ret (inr tt)) (heap_bottom h).

(** The first process of a block queue that waits for the one that ends, and
    the hart of that queue. *)
Definition exit_wake : M kernel (option (Z * Z)) :=
  let* c := get_current hartid in
  loop (Datatypes.S (Z.to_nat NCPU)) (fun h =>
    if h <? NCPU then
      let* head := gets (fun s => block_queue_head s !! h) in
      let* (tmp, head) := wake_from_block_queue head c in
      modify (fun s => set_block_queue_head (partial_alter (fun _ => head) h (block_queue_head s)) s) ;;;
      match tmp with
      | Some t => ret (inr (Some (t, h)))
      | None => ret (inl (h + 1))
      end
    else ret (inr None)) 0.

Section WithSymbols.
  Context `{Symbols}.

(** [sys_user_exit] after its message. *)
Definition user_exit : M kernel control :=
  let* tmp := exit_wake in
  let* c := cur hartid in
  let* _ := free_process c in
  exit_free_blocks ;;;
  exit_sort_merge ;;;
  exit_unmap_blocks ;;;
  exit_unmap_heap ;;;
  (match tmp with
   | None => ret tt
   | Some (t, h) =>
       upd_proc t (set_status READY) ;;;
       insert_to_specific_ready_queue t h
   end) ;;;
  schedule hartid.

End WithSymbols.
End Fuel.
