(* ===== verification/UserMalloc.v ===== *)
(** * Allocation for user programs: theorems (kernel/syscall.c)

    [sys_user_allocate_mem] and [sys_user_free_mem] on the heap of the running
    process: the first-fit lists of [HeapList] in the pages of the process, which
    grow by a page from the allocator of [Pmm], mapped by the tables of [Vmm].
    [user_heap_ok] is what holds between two calls. *)

From stdpp Require Import base gmap list fin_maps sorting.
From Stdlib Require Import ZArith Lia Bool.
From S2P Require Import Prelude Mem Pmm StringLib Vmm Pages Kernel Process Heap HeapList UserHeap.

Set Default Goal Selector "!".
Open Scope Z_scope.

(** ** Another view of the same descriptors *)

Lemma heap_at_change ok tr inv ok' tr' inv' s s' fh ah fl al :
  heap_at (ok := ok) (tr := tr) (inv := inv) s fh ah fl al -> inv' s' ->
  (forall a, ok a SIZEOF_PD -> ok' a SIZEOF_PD /\
    forall d, 0 <= d < SIZEOF_PD -> load8 (kmem_of s') (tr' a + d) = load8 (kmem_of s) (tr a + d)) ->
  heap_at (ok := ok') (tr := tr') (inv := inv') s' fh ah fl al.
Proof.
  intros (N & H & Hf & Ha & Hd) Hi Hc. exists N. split; [|done]. destruct H as [_ _ H3 H4 H5 _].
  split; [done|by rewrite with_mem_id| |done| |done].
  - intros a x Hx. by apply Hc, (H3 a x).
  - intros a sz nx Hx. destruct (H5 a sz nx Hx) as [<- <-]. destruct (Hc a (H3 _ _ Hx)) as [_ Hl].
    unfold PD_SIZE, PD_NEXT, SIZEOF_PD in *.
    split; apply load_le_shift; intros i Hr; rewrite <- !Z.add_assoc; apply Hl; lia.
Qed.

(** ** Operations on the lists leave the rest of memory alone *)

Section Kept.
  Context (hartid c root lo hi flags : Z) (T : tables) (fr : Z -> Z) (s0 : kernel).
  Hypothesis Hframes : heap_frames hartid lo hi flags T fr.

Definition in_heap (x : Z) : Prop := exists v, lo <= v < hi /\ page_of x = fr v.

Record kept_space (s : kernel) : Prop := {
  ks_space : heap_space hartid c root lo hi flags T fr s;
  ks_rest : s = with_mem (kmem_of s) s0;
  ks_mem : forall x, ~ in_heap x -> load8 (kmem_of s) x = load8 (kmem_of s0) x
}.

#[local] Instance kept_pages : HeapPages hartid (page_ok lo hi) (frame_addr fr) kept_space.
Proof using Hframes.
  destruct (heap_pages hartid c root lo hi flags T fr Hframes) as [H1 H2 H3 H4 H5 H6 H7 H8].
  constructor; try done.
  - intros s a n [Hs _ _]. by apply H7.
  - intros s a n k d v [Hs Hr Hm] Ho Hd Hk. split; [by apply (H8 s a n)| |].
    + rewrite kmem_of_with. rewrite Hr. done.
    + intros x Hx. rewrite kmem_of_with, load8_store_le_ne; [by apply Hm|].
      destruct (page_ok_page _ _ _ _ _ _ Hframes _ _ Ho) as (Hv & Hn & _).
      destruct (hf_frame _ _ _ _ _ _ Hframes _ Hv) as (F1 & _).
      assert (page_of x <> fr (a / PGSIZE)) as Hne by (intros E; apply Hx; by exists (a / PGSIZE)).
      unfold frame_addr. unfold page_of in Hne. layout. dlia.
Qed.

Lemma kept_refl : heap_space hartid c root lo hi flags T fr s0 -> kept_space s0.
Proof. intros H. split; [done|by rewrite with_mem_id|done]. Qed.

Lemma heap_at_kept fh ah fl al :
  heap_at (ok := page_ok lo hi) (tr := frame_addr fr) (inv := heap_space hartid c root lo hi flags T fr) s0 fh ah fl al ->
  heap_at (ok := page_ok lo hi) (tr := frame_addr fr) (inv := kept_space) s0 fh ah fl al.
Proof. intros H. eapply heap_at_change; [done| |done]. apply kept_refl. by destruct H as (N & [] & _). Qed.

End Kept.

(** ** A page for the heap

    The page that [alloc_page] hands out, while the count of heap pages, in the
    owned page [f], is updated. *)

Section Grow.
  Context (root : Z) (T : tables) (q : Z) (pool : list Z) (k : pmm) (a v f : Z).
  Hypothesis Hwf : pmm_wf (q :: pool) k.
  Hypothesis Hvs : vspace root T k.
  Hypothesis Hf : owned k f /\ no_table T f /\ f <= a /\ a + 4 <= f + PGSIZE.

Definition counted : pmm := set_mem (store32 (mem k) a v) (page_taken q k).

Lemma grow_facts : managed k q /\ (q ∉ pool) /\ no_table T q /\ f <> q /\ (f ∉ pool) /\ f mod PGSIZE = 0.
Proof using All.
  destruct (new_page_facts root T q pool k Hwf Hvs) as (H1 & _ & H3 & H4). destruct Hf as (Ho & _).
  pose proof (owned_not_free _ _ _ Hwf Ho) as [? ?]%not_elem_of_cons.
  destruct (managed_56 k f (wf_bounds _ _ Hwf) (proj1 Ho)). done.
Qed.

Lemma counted_mem x : page_of x <> f -> load8 (mem counted) x = load8 (mem k) x.
Proof using All.
  destruct Hf as (_ & _ & H1 & H2). destruct grow_facts as (_ & _ & _ & _ & _ & Hal). intros Hx. apply load8_store_le_ne.
  unfold page_of in Hx. layout. dlia.
Qed.

Lemma counted_owned p : owned k p -> owned counted p.
Proof using All.
  intros [Hm Hr]. split; [done|]. change (page_ref counted p) with (page_ref (page_taken q k) p).
  destruct grow_facts as (Hq & _). rewrite page_ref_taken; [|apply Hwf|done|done]. case_decide; lia.
Qed.

Lemma counted_ok : pmm_wf pool counted /\ vspace root T counted /\
  forall va, leaf T (mem counted) va = leaf T (mem k) va.
Proof using All.
  destruct grow_facts as (Hq & _ & HqT & Hfq & Hfp & Hal). destruct Hf as (Ho & HfT & H1 & H2).
  destruct (vspace_frame root T k (page_taken q k) Hvs) as [V1 L1]; [done| |].
  { intros path b Hb. apply counted_owned. by apply (vs_owned _ _ _ Hvs _ _ Hb). }
  apply (set_mem_keeps root T pool (page_taken q k)); [by apply (page_taken_wf (q :: pool))|done|].
  intros x _ Hx. apply counted_mem. intros E. rewrite E in Hx. destruct Hx as [Hx|[path Hx]]; [done|by apply HfT in Hx].
Qed.

Lemma counted_map va perm : 0 <= perm < 1024 -> 0 <= va -> va mod PGSIZE = 0 -> va + PGSIZE <= MAXVA ->
  Z.odd (leaf T (mem k) va) = false -> (2 <= length pool)%nat ->
  exists T' pool' k', user_vm_map root va PGSIZE q perm counted = Ok tt k' /\
    evolves root T pool counted (mapped (leaf T (mem k)) va q 1 (Z.lor perm PTE_V)) T' pool' k' /\
    (length pool <= length pool' + 2)%nat.
Proof using All.
  intros Hp Hva Hal Hmax Hodd Hl. destruct counted_ok as (W & V & L). destruct grow_facts as (Hq & _).
  pose proof (managed_range k (wf_bounds _ _ Hwf) q Hq) as (? & ? & _).
  assert (tables_for T va 1 <= 2) as Et.
  { unfold tables_for, crossings. replace (va / PGSIZE + 1 - 1) with (va / PGSIZE) by lia. destruct (T !! _); lia. }
  destruct (kern_vm_map_run root T pool counted va PGSIZE q perm 1)
    as (T' & pool' & k' & _ & Hr & Hx & Hlen); try done; try (layout; dlia); try lia.
  { intros j Hj. assert (j = 0) as -> by lia. by rewrite Z.mul_0_l, Z.add_0_r, L. }
  exists T', pool', k'. split; [done|]. split; [|lia].
  destruct Hx. split; try done. intros vb Hvb. rewrite ev_leaf by done. by apply mapped_ext.
Qed.

End Grow.

(** ** A new free block *)

Section NewBlock.
  Context {hartid : Z} {ok : Z -> Z -> Prop} {tr : Z -> Z} {inv : kernel -> Prop}.
  Context `{!HeapPages hartid ok tr inv}.

(** The descriptor of a block that is not in a list yet. *)
Lemma new_descriptor s fh ah fl al b sz : heap_at (ok := ok) (tr := tr) (inv := inv) s fh ah fl al ->
  heap_wf (ok := ok) ((b, sz) :: fl) al -> sz < 2 ^ 31 ->
  exists N s1, (forall A (k : M kernel A),
      (set_flag hartid b 0 ;;; set_size hartid b sz ;;; set_next hartid b 0 ;;; k) s = k s1) /\
    rep (ok := ok) (tr := tr) (inv := inv) s N s1 /\ lseg N fh fl 0 /\ lseg N ah al 0 /\ N !! b = Some (sz, 0) /\
    forall a, is_Some (N !! a) -> a ∈ (((b, sz) :: fl) ++ al).*1.
Proof using All.
  intros (N & R & Hf & Ha & Hd) [Hap Hok] Hsz. cbn [app] in Hap, Hok.
  apply apart_cons in Hap as (_ & Hb & Hup & Hdn). apply Forall_cons in Hok as [[H0 Ho] Hok]. cbn [fst snd] in *.
  assert (forall l : list (Z * Z), (forall a, a ∈ l.*1 -> a ∈ (fl ++ al).*1) -> b ∉ l.*1) as Hnb
    by (intros l Hl ?; by apply Hb, Hl).
  assert (forall a x, N !! a = Some x -> a + SIZEOF_PD <= b \/ b + SIZEOF_PD <= a) as Hsep.
  { intros a x Hx%Hd. apply list_elem_of_fmap in Hx as (y & -> & Hy).
    rewrite Forall_forall in Hok. destruct (Hok y Hy) as [Hy0 _].
    assert (y.1 <> b) as Hne by (intros <-; by apply Hb, list_elem_of_fmap_2).
    destruct (Z.lt_trichotomy y.1 b) as [Hl|[?|Hl]]; [|done|].
    - left. specialize (Hdn y Hy Hl). unfold extent in Hdn. lia.
    - right. specialize (Hup y Hy Hl). unfold extent in Hup. cbn [snd] in Hup. lia. }
  destruct (hp_part b _ 0 SIZEOF_PD Ho) as [Ho' _]; [lia|done|unfold extent; cbn; lia|]. rewrite Z.add_0_r in Ho'.
  destruct (rep_extend _ _ _ b R Ho' Hsep) as [[sz0 nx0] R0].
  destruct (set_flag_run _ _ _ b _ 0 R0 (lookup_insert_eq _ _ _)) as (s1 & E1 & R1).
  destruct (set_size_run _ _ _ b _ _ sz R1 (lookup_insert_eq _ _ _)) as (s2 & E2 & R2); [lia|].
  rewrite insert_insert_eq in R2.
  destruct (set_next_run _ _ _ b _ _ 0 R2 (lookup_insert_eq _ _ _)) as (s3 & E3 & R3); [lia|].
  rewrite insert_insert_eq in R3.
  exists (<[b := (sz, 0)]> N), s3. split_and!; try done.
  - intros A k. unfold bind. by rewrite E1, E2, E3.
  - apply lseg_insert; [|done]. apply Hnb. intros a. rewrite fmap_app. set_solver.
  - apply lseg_insert; [|done]. apply Hnb. intros a. rewrite fmap_app. set_solver.
  - apply lookup_insert_eq.
  - intros a [x Hx]. rewrite lookup_insert in Hx. case_decide as E; cbn [app fmap list_fmap].
    + subst. by left.
    + right. by apply (Hd a x).
Qed.

(** ... and its place in the free list. *)
Lemma insert_new_run fuel s N s1 fh ah fl al b sz :
  rep (ok := ok) (tr := tr) (inv := inv) s N s1 -> lseg N fh fl 0 -> lseg N ah al 0 -> N !! b = Some (sz, 0) ->
  (forall a, is_Some (N !! a) -> a ∈ (((b, sz) :: fl) ++ al).*1) ->
  heap_wf (ok := ok) ((b, sz) :: fl) al -> (length fl < fuel)%nat ->
  exists fh' s2, insert_free_block fuel hartid fh b pd_first_fit_cmp s1 = Ok fh' s2 /\
    heap_at (ok := ok) (tr := tr) (inv := inv) s2 fh' ah (insert_kept (b, sz) fl) al /\ data_kept (tr := tr) s s2 al.
Proof using All.
  intros R Hf Ha Hb Hd Hwf Hfuel. pose proof Hwf as [[Hnd _] Hok]. rewrite fmap_app in Hnd.
  apply NoDup_app in Hnd as (Hnd & Hdis & _). cbn [fmap list_fmap fst] in Hnd, Hdis.
  assert (0 <= sz) as H0 by (apply Forall_cons in Hok as [[? _] _]; done).
  pose proof (insert_free_wp fuel s N s1 b sz 0 fh fl (fun h' s' => exists N',
    rep (ok := ok) (tr := tr) (inv := inv) s N' s' /\ lseg N' h' (insert_kept (b, sz) fl) 0 /\ relinks (b :: fl.*1) N N')
    R Hb H0 Hf Hnd Hfuel (fun N' _ _ A B C => ex_intro _ N' (conj A (conj B C)))) as (fh' & s2 & E & N' & R' & Hf' & Hre)%wp_Ok.
  exists fh', s2. split; [done|].
  assert (lseg N' ah al 0) as Ha'.
  { eapply relinks_lseg; [done| |done]. intros a Hin Hin'. by apply (Hdis a). }
  split; [by eapply rep_heap_at|]. eapply frame_data; [done|exact Hwf|].
  intros a Hs%(proj2 Hre). apply Hd in Hs. rewrite fmap_app, elem_of_app in Hs. destruct Hs as [Hs|Hs]; [right|by left].
  apply list_elem_of_fmap in Hs as (y & -> & Hy). rewrite Forall_forall in Hok.
  destruct (Hok y ltac:(set_solver)) as [Hy0 _]. exists y, 0. unfold extent. split; [done|]. lia.
Qed.

End NewBlock.

Lemma page_ok_mono lo hi hi' a n : hi <= hi' -> page_ok lo hi a n -> page_ok lo hi' a n.
Proof. unfold page_ok. layout. lia. Qed.

(** ** Where a request fits *)

Definition fits (n : Z) (x : Z * Z) : bool := (x.2 =? n) || (n + SIZEOF_PD <=? x.2).

Lemma first_fit_fits n l : is_Some (first_fit n l) <-> existsb (fits n) l = true.
Proof.
  induction l as [|[a sz] l IH]; cbn [first_fit existsb]; [by split; [intros [? ?]|]|].
  unfold fits at 1. cbn [snd]. destruct (Z.eqb_spec sz n); [by split|]. cbn [orb].
  destruct (Z.ltb_spec sz (n + SIZEOF_PD)).
  - rewrite (proj2 (Z.leb_gt _ _)) by lia. cbn [orb]. rewrite <- IH. destruct (first_fit n l) as [[]|]; cbn.
    + split; eauto.
    + split; intros [? ?]; done.
  - rewrite (proj2 (Z.leb_le _ _)) by lia. split; eauto.
Qed.

Lemma insert_kept_perm x l : x.2 <> 0 -> insert_kept x l ≡ₚ x :: l.
Proof.
  intros Hx. unfold insert_kept. destruct l; [done|]. rewrite (proj2 (Z.eqb_neq _ _)) by done. apply insert_block_perm.
Qed.

Lemma fits_insert n x l : x.2 <> 0 -> existsb (fits n) (insert_kept x l) = fits n x || existsb (fits n) l.
Proof.
  intros Hx. change (fits n x || existsb (fits n) l) with (existsb (fits n) (x :: l)).
  apply eq_true_iff_eq. rewrite !existsb_exists. setoid_rewrite <- list_elem_of_In.
  by setoid_rewrite (insert_kept_perm x l Hx).
Qed.

Lemma free_block_length x l : (length (free_block x l) <= S (length l))%nat.
Proof.
  assert (forall k, length (sort_blocks k) <= length k)%nat as Hs by (intros k; apply (sort_blocks_length k [])).
  unfold free_block, merge_blocks.
  set (k := if x.2 =? 0 then l else insert_block x l).
  assert (length k <= S (length l))%nat as H1.
  { unfold k. destruct (_ =? _); [lia|]. by rewrite insert_block_perm. }
  pose proof (Hs k). pose proof (Hs (coalesce_all (sort_blocks k))).
  assert (length (coalesce_all (sort_blocks k)) <= length (sort_blocks k))%nat; [|lia].
  destruct (sort_blocks k) as [|[a sz] m]; [done|]. apply coalesce_length.
Qed.

(** The block of a new page is apart from the others. *)
Lemma new_page_wf lo hi fl al : lo <= hi -> heap_wf (ok := page_ok lo hi) fl al ->
  heap_wf (ok := page_ok lo (hi + 1)) ((hi * PGSIZE, PGSIZE - SIZEOF_PD) :: fl) al.
Proof.
  intros Hlo [Hap Hok]. rewrite Forall_forall in Hok.
  assert (forall y, y ∈ fl ++ al -> 0 < extent y /\ y.1 + extent y <= hi * PGSIZE) as Hy.
  { intros y Hin. by destruct (Hok y Hin) as [_ (? & _ & ? & _)]. }
  split; cbn [app].
  - apply apart_cons. cbn [fst]. split; [done|]. split_and!.
    + intros (y & E & Hin)%list_elem_of_fmap. specialize (Hy y Hin). lia.
    + intros y Hin Hl. specialize (Hy y Hin). lia.
    + intros y Hin _. by apply Hy.
  - apply Forall_cons. split.
    + split; [by vm_compute|]. unfold page_ok, extent, SIZEOF_PD. cbn [fst snd]. layout. dlia.
    + apply Forall_forall. intros y Hin. destruct (Hok y Hin). split; [done|]. apply (page_ok_mono _ hi); [lia|done].
Qed.

(** ** The heap of a process between two calls *)

Definition HEAP_LO : Z := USER_FREE_ADDRESS_START / PGSIZE.
Definition HEAP_FLAGS : Z := Z.lor (prot_to_type (Z.lor PROT_WRITE PROT_READ) 1) PTE_V.

(** Where the number of heap pages of a process is kept. *)
Definition heap_count (p : process) : Z := region_npages (mapped_info p) HEAP_SEGMENT.

Definition with_lists (fh ah : Z) (p : process) : process :=
  set_user_heap (set_alloc_list ah (set_free_list fh (user_heap p))) p.

Section Malloc.
  Context (hartid c lim : Z).

Abbreviation spaceof p hi T fr := (heap_space hartid c (pagetable p) HEAP_LO hi HEAP_FLAGS T fr).
Abbreviation heapat p hi T fr :=
  (heap_at (ok := page_ok HEAP_LO hi) (tr := frame_addr fr) (inv := spaceof p hi T fr)).

(** Process [c] runs on the hart.  Its heap is the pages from [HEAP_LO] to [hi],
    mapped to the frames [fr], with the free blocks [fl] and the allocated blocks
    [al]; nothing is mapped from there to [lim]; [pool] are the free pages. *)
Record user_heap_ok (p : process) (hi : Z) (T : tables) (fr : Z -> Z) (pool : list Z)
    (fl al : list (Z * Z)) (s : kernel) : Prop := {
  uh_proc : procs s !! c = Some p;
  uh_frames : heap_frames hartid HEAP_LO hi HEAP_FLAGS T fr;
  uh_top : heap_top (user_heap p) = hi * PGSIZE;
  uh_limit : HEAP_LO <= hi <= lim /\ lim * PGSIZE < 2 ^ 31;
  uh_at : heapat p hi T fr s (free_list (user_heap p)) (alloc_list (user_heap p)) fl al;
  uh_wf : heap_wf (ok := page_ok HEAP_LO hi) fl al;
  uh_pool : pmm_wf pool (k_pmm s);
  uh_owned : forall v, HEAP_LO <= v < hi -> owned (k_pmm s) (fr v);
  uh_above : forall a, hi * PGSIZE <= a < lim * PGSIZE -> Z.odd (leaf T (kmem_of s) a) = false;
  uh_info : exists f, owned (k_pmm s) f /\ no_table T f /\ f <= heap_count p /\ heap_count p + 4 <= f + PGSIZE /\
    forall v, HEAP_LO <= v < hi -> fr v <> f
}.

Lemma uh_space p hi T fr pool fl al s : user_heap_ok p hi T fr pool fl al s -> spaceof p hi T fr s.
Proof. intros H. by destruct (uh_at _ _ _ _ _ _ _ _ H) as (N & [] & _). Qed.

(** The data of the blocks [al] is the same in both states. *)
Definition data_same (fr : Z -> Z) (s : kernel) (fr' : Z -> Z) (s' : kernel) (al : list (Z * Z)) : Prop :=
  forall x i, x ∈ al -> SIZEOF_PD <= i < extent x ->
    load8 (kmem_of s') (frame_addr fr' x.1 + i) = load8 (kmem_of s) (frame_addr fr x.1 + i).

Lemma space_with_lists p hi T fr fh ah s : spaceof p hi T fr s -> procs s !! c = Some p ->
  spaceof p hi T fr (set_procs (<[c := with_lists fh ah p]> (procs s)) s).
Proof.
  intros [H1 H2 H3 H4 H5] Hp. split; try done. exists (with_lists fh ah p). split; [|done]. apply lookup_insert_eq.
Qed.

(** After an operation on the lists, with the new heads stored. *)
Lemma lists_changed p hi T fr pool fl al s s' fh ah fl' al' :
  user_heap_ok p hi T fr pool fl al s ->
  heap_at (ok := page_ok HEAP_LO hi) (tr := frame_addr fr)
    (inv := kept_space hartid c (pagetable p) HEAP_LO hi HEAP_FLAGS T fr s) s' fh ah fl' al' ->
  heap_wf (ok := page_ok HEAP_LO hi) fl' al' ->
  user_heap_ok (with_lists fh ah p) hi T fr pool fl' al' (set_procs (<[c := with_lists fh ah p]> (procs s')) s').
Proof.
  intros H Hat Hwf. pose proof Hat as (N & [[Hs Hr Hm] _ _ _ _ _] & _).
  destruct H as [Up Uf Ut Ul Ua Uw Upo Uo Uab Ui].
  assert (procs s' !! c = Some p) as Hp by (rewrite Hr; exact Up).
  set (s2 := set_procs _ s'). change (kmem_of s2) with (kmem_of s').
  assert (k_pmm s' = set_mem (kmem_of s') (k_pmm s)) as Ek by (rewrite Hr at 1; done).
  assert (forall va, leaf T (kmem_of s') va = leaf T (kmem_of s) va) as Hl.
  { destruct (vspace_frame (pagetable p) T (k_pmm s) (k_pmm s')) as [_ Hl]; [|intros path a x Ha Hx|intros path a Ha|done].
    - destruct Ua as (N0 & [[] _ _ _ _ _] & _). done.
    - apply Hm. intros (v & Hv & E). rewrite E in Hx. subst a. by apply (hf_tables _ _ _ _ _ _ Uf _ _ Hv) in Ha.
    - destruct Ua as (N0 & [[] _ _ _ _ _] & _). rewrite Ek. by apply (vs_owned _ _ _ hs_vspace _ _ Ha). }
  split; try done.
  - apply lookup_insert_eq.
  - eapply heap_at_change; [exact Hat|exact (space_with_lists p hi T fr fh ah s' Hs Hp)|done].
  - change (k_pmm s2) with (k_pmm s'). rewrite Ek. apply pmm_wf_frame; [done|]. intros q Hq.
    apply load_le_ext. intros x Hx. apply Hm. intros (v & Hv & E).
    destruct (proj1 (wf_free _ _ Upo q) Hq) as [Hmq _].
    destruct (managed_56 _ q (wf_bounds _ _ Upo) Hmq) as [_ Hal].
    assert (page_of x = q) as E2 by (unfold page_of; layout; dlia).
    rewrite E2 in E. subst q. by apply (owned_not_free pool (k_pmm s) (fr v) Upo (Uo v Hv)).
  - intros v Hv. change (k_pmm s2) with (k_pmm s'). rewrite Ek. by apply Uo.
  - intros a Ha. rewrite Hl. by apply Uab.
  - change (k_pmm s2) with (k_pmm s'). rewrite Ek. exact Ui.
Qed.

(** ** The lists through the process *)

Lemma cur_proc_run p s : current s !! hartid = Some c -> procs s !! c = Some p -> cur_proc hartid s = Ok p s.
Proof.
  intros Hc Hp. unfold cur_proc, cur, get_current, get_proc, gets, bind. rewrite Hc. cbn [of_option ret].
  unfold ret. by rewrite Hp.
Qed.

Lemma upd_heap_run f p s : current s !! hartid = Some c -> procs s !! c = Some p ->
  upd_heap hartid f s = Ok tt (set_procs (<[c := set_user_heap (f (user_heap p)) p]> (procs s)) s).
Proof.
  intros Hc Hp. unfold upd_heap, upd_proc, cur, get_current, get_proc, gets, modify, bind. rewrite Hc.
  cbn [of_option ret]. unfold ret. by rewrite Hp.
Qed.

(** The process and what runs are the same in a state that only differs in memory. *)
Lemma kept_current p hi T fr s s' : spaceof p hi T fr s -> procs s !! c = Some p ->
  kept_space hartid c (pagetable p) HEAP_LO hi HEAP_FLAGS T fr s s' ->
  current s' !! hartid = Some c /\ procs s' !! c = Some p.
Proof. intros [H1 _ _ _ _] Hp [_ Hr _]. rewrite Hr. by split. Qed.

Lemma rib_alloc_run fuel n p hi T fr pool fl al s : user_heap_ok p hi T fr pool fl al s ->
  0 < n < 2 ^ 31 -> (length fl < fuel)%nat ->
  match first_fit n fl with
  | None => rib_alloc fuel hartid n s = Ok 0 s
  | Some (fl', a) => exists fh s', rib_alloc fuel hartid n s = Ok a s' /\
      user_heap_ok (with_lists fh a p) hi T fr pool fl' ((a, n) :: al) s' /\ data_same fr s fr s' al
  end.
Proof.
  intros H Hn Hf. pose proof (uh_space _ _ _ _ _ _ _ _ H) as Hs. pose proof (uh_proc _ _ _ _ _ _ _ _ H) as Hp.
  pose proof (kept_pages hartid c (pagetable p) HEAP_LO hi HEAP_FLAGS T fr s (uh_frames _ _ _ _ _ _ _ _ H)) as HP.
  pose proof (heap_at_kept _ _ _ _ _ _ _ _ _ _ _ _ _ (uh_at _ _ _ _ _ _ _ _ H)) as Hat.
  unfold rib_alloc, bind. rewrite (cur_proc_run p) by (done || apply Hs).
  destruct (first_fit_alloc_run fuel n s _ _ _ _ Hn Hat (uh_wf _ _ _ _ _ _ _ _ H) Hf)
    as (r & fh & ah & s1 & E & HQ). rewrite E.
  destruct (first_fit n fl) as [[fl' a]|] eqn:Ef.
  - destruct HQ as (-> & -> & Hat' & Hd).
    assert (kept_space hartid c (pagetable p) HEAP_LO hi HEAP_FLAGS T fr s s1) as Hk by (by destruct Hat' as (N & [] & _)).
    destruct (kept_current p hi T fr s s1 Hs Hp Hk) as [Hc1 Hp1].
    rewrite (upd_heap_run _ p) by done. unfold ret. eexists fh, _. split; [done|]. split; [|exact Hd].
    eapply lists_changed; [done|done|]. eapply first_fit_wf; [lia|apply H|done].
  - destruct HQ as (-> & -> & -> & ->). rewrite (upd_heap_run _ p) by (done || apply Hs). unfold ret.
    f_equal. destruct s as [vm ps]. unfold set_procs. cbn in *. f_equal.
    rewrite insert_id; [done|]. rewrite Hp. f_equal. by destruct p as [? ? ? []].
Qed.

Lemma rib_free_run fuel a sz pre rest p hi T fr pool fl s :
  user_heap_ok p hi T fr pool fl (pre ++ (a, sz) :: rest) s ->
  (S (length fl) < fuel)%nat -> (length (pre ++ (a, sz) :: rest) < fuel)%nat ->
  exists fh ah s', rib_free fuel hartid a s = Ok tt s' /\
    user_heap_ok (with_lists fh ah p) hi T fr pool (free_block (a, sz) fl) (pre ++ rest) s' /\
    data_same fr s fr s' (pre ++ rest).
Proof.
  intros H Hf1 Hf2. pose proof (uh_space _ _ _ _ _ _ _ _ H) as Hs. pose proof (uh_proc _ _ _ _ _ _ _ _ H) as Hp.
  pose proof (kept_pages hartid c (pagetable p) HEAP_LO hi HEAP_FLAGS T fr s (uh_frames _ _ _ _ _ _ _ _ H)) as HP.
  pose proof (heap_at_kept _ _ _ _ _ _ _ _ _ _ _ _ _ (uh_at _ _ _ _ _ _ _ _ H)) as Hat.
  pose proof (uh_wf _ _ _ _ _ _ _ _ H) as Hwf.
  unfold rib_free, bind. rewrite (cur_proc_run p) by (done || apply Hs).
  destruct (first_fit_free_run fuel a sz pre rest s _ _ _ Hat Hwf Hf1) as (fh & ah & s1 & E & Hat' & Hd).
  { rewrite length_app in Hf2. simpl in Hf2. lia. }
  rewrite E.
  assert (kept_space hartid c (pagetable p) HEAP_LO hi HEAP_FLAGS T fr s s1) as Hk by (by destruct Hat' as (N & [] & _)).
  destruct (kept_current p hi T fr s s1 Hs Hp Hk) as [Hc1 Hp1].
  rewrite (upd_heap_run _ p) by done. eexists fh, ah, _. split; [done|]. split; [|exact Hd].
  eapply lists_changed; [done|done|]. by apply free_wf.
Qed.

(** ** One more page *)

Definition with_top (top : Z) (p : process) : process := set_user_heap (set_heap_top top (user_heap p)) p.
Definition with_frame (fr : Z -> Z) (hi q : Z) (v : Z) : Z := if v =? hi then q else fr v.

Lemma frame_addr_old fr hi q a n lo : page_ok lo hi a n -> frame_addr (with_frame fr hi q) a = frame_addr fr a.
Proof.
  intros (H1 & H2 & H3 & H4). unfold frame_addr, with_frame. rewrite (proj2 (Z.eqb_neq _ _)); [done|]. layout. dlia.
Qed.

Lemma heap_grow_full p hi T fr fl al s : user_heap_ok p hi T fr [] fl al s -> heap_grow hartid s = Ok None s.
Proof.
  intros H. pose proof (uh_pool _ _ _ _ _ _ _ _ H) as W. unfold heap_grow, bind, zoom. cbn [lget pmmL].
  rewrite alloc_page_empty; [|apply W|apply W|apply (wf_chain _ _ W)]. cbn [Z.eqb]. unfold ret. f_equal. by destruct s as [[]].
Qed.

(** What a new page does to the state: the tables and the free pages are those of
    [k']. *)
Definition grown_state (p : process) (hi : Z) (k' : pmm) (s : kernel) : kernel :=
  set_procs (<[c := with_top ((hi + 1) * PGSIZE) p]> (procs s)) (lset pmmL k' s).

Lemma count_read a s : in_dram a 4 = true -> kread32 a s = Ok (load32 (kmem_of s) a) s.
Proof. intros Hd. unfold kread32, zoom, read32. rewrite Hd. f_equal. by destruct s as [[]]. Qed.

Lemma count_write a v s : in_dram a 4 = true -> kwrite32 a v s = Ok tt (with_mem (store32 (kmem_of s) a v) s).
Proof. intros Hd. unfold kwrite32, zoom, write32. by rewrite Hd. Qed.

Lemma heap_grow_step p hi T fr q pool fl al s : user_heap_ok p hi T fr (q :: pool) fl al s -> hi < lim ->
  (2 <= length pool)%nat ->
  exists v T' pool' k', heap_grow hartid s = Ok (Some (hi * PGSIZE)) (grown_state p hi k' s) /\
    evolves (pagetable p) T pool (counted q (k_pmm s) (heap_count p) v)
      (mapped (leaf T (kmem_of s)) (hi * PGSIZE) q 1 HEAP_FLAGS) T' pool' k' /\
    (length pool <= length pool' + 2)%nat.
Proof.
  intros H Hlim Hl. destruct H as [Up Uf Ut [Ul1 Ul2] Ua Uw W Uo Uab (f & If)].
  destruct Ua as (N & [[S1 _ S3 S4 _] _ _ _ _ _] & _).
  set (a := heap_count p) in *. set (v := u32 (load32 (mem (k_pmm s)) a + 1)).
  destruct If as (I1 & I2 & I3 & I4 & _). pose proof (conj I1 (conj I2 (conj I3 I4))) as If.
  destruct (counted_map (pagetable p) T q pool (k_pmm s) a v f W S4 If (hi * PGSIZE)
    (prot_to_type (Z.lor PROT_WRITE PROT_READ) 1)) as (T' & pool' & k' & Hrun & Hev & Hlen); try done.
  1-3: rewrite ?MAXVA_eq; unfold HEAP_LO in Ul1; layout; dlia.
  { apply Uab. layout. lia. }
  exists v, T', pool', k'. split; [|done].
  assert (managed (k_pmm s) q) as Hq by (by eapply (wf_head_managed _ _ W)).
  pose proof (managed_range _ (wf_bounds _ _ W) q Hq) as (Q1 & _).
  pose proof (managed_range _ (wf_bounds _ _ W) f (proj1 I1)) as (F1 & F2 & _).
  assert (in_dram a 4 = true) as Hd by (unfold in_dram; layout; lia).
  unfold heap_grow, bind at 1, zoom at 1. cbn [lget pmmL].
  rewrite (alloc_page_run (k_pmm s) (wf_bounds _ _ W) (wf_unlocked _ _ W) q (proj1 (wf_chain _ _ W)) Hq).
  rewrite (proj2 (Z.eqb_neq q 0)) by (layout; lia). set (s1 := lset pmmL _ s).
  unfold bind at 1. rewrite (cur_proc_run p s1) by done. fold (heap_count p). fold a.
  unfold bind at 1. rewrite count_read by done. unfold bind at 1. rewrite count_write by done.
  change (with_mem _ s1) with (lset pmmL (counted q (k_pmm s) a v) s).
  unfold bind at 1, zoom at 1. change (lget pmmL (lset pmmL ?k s)) with k. rewrite Ut, Hrun.
  change (lset pmmL k' (lset pmmL _ s)) with (lset pmmL k' s).
  unfold bind at 1. rewrite (upd_heap_run _ p) by done. unfold ret. rewrite Ut.
  replace (u64 (hi * PGSIZE + PGSIZE)) with ((hi + 1) * PGSIZE); [done|].
  rewrite u64_small; unfold HEAP_LO in Ul1; layout; dlia.
Qed.

Section Grown.
  Context (p : process) (hi : Z) (T : tables) (fr : Z -> Z) (q : Z) (pool : list Z) (fl al : list (Z * Z)) (s : kernel).
  Context (v : Z) (T' : tables) (pool' : list Z) (k' : pmm).
  Hypothesis H : user_heap_ok p hi T fr (q :: pool) fl al s.
  Hypothesis Hlim : hi < lim.
  Hypothesis Hev : evolves (pagetable p) T pool (counted q (k_pmm s) (heap_count p) v)
    (mapped (leaf T (kmem_of s)) (hi * PGSIZE) q 1 HEAP_FLAGS) T' pool' k'.

Lemma old_frame_free w : HEAP_LO <= w < hi -> fr w ∉ q :: pool.
Proof using H. intros Hw. apply (owned_not_free _ (k_pmm s)); [apply H|]. by apply (uh_owned _ _ _ _ _ _ _ _ H). Qed.

(** Pages that the heap, the tables of the process or the count own are kept. *)
Lemma grown_owned f : owned (k_pmm s) f -> owned k' f.
Proof using H Hev.
  intros Ho. pose proof (uh_pool _ _ _ _ _ _ _ _ H) as W.
  pose proof (owned_not_free _ _ _ W Ho) as [Hq Hp]%not_elem_of_cons. destruct Ho as [Hm Hr].
  split; [by apply (ev_managed _ _ _ _ _ _ _ _ Hev)|]. rewrite (ev_ref _ _ _ _ _ _ _ _ Hev) by done.
  change (page_ref (counted _ _ _ _) f) with (page_ref (page_taken q (k_pmm s)) f).
  rewrite page_ref_taken; [by rewrite decide_False|apply W|by eapply (wf_head_managed _ _ W)|done].
Qed.

Lemma grown_no_table f : no_table T f -> f ∉ pool -> no_table T' f.
Proof using Hev. intros HT Hf path [?|?]%(ev_new _ _ _ _ _ _ _ _ Hev); [by eapply HT|done]. Qed.

Lemma grown_frames : heap_frames hartid HEAP_LO (hi + 1) HEAP_FLAGS T' (with_frame fr hi q).
Proof using All.
  pose proof H as [Up Uf Ut [Ul1 Ul2] Ua Uw W Uo Uab (f & I1 & I2 & I3 & I4 & I5)].
  destruct Ua as (N & [[_ _ _ V _] _ _ _ _ _] & _).
  destruct (new_page_facts _ T q pool (k_pmm s) W V) as (Hq & Hqal & Hqp & HqT).
  pose proof (managed_range _ (wf_bounds _ _ W) q Hq) as (Q1 & Q2 & _).
  destruct Uf as [F1 F2 F3 F4 F5 F6 F7 F8]. unfold with_frame. split; try done.
  - layout. lia.
  - intros w Hw. destruct (Z.eqb_spec w hi); [layout; lia|apply F6; lia].
  - intros w x Hw Hx. destruct (Z.eqb_spec w hi) as [->|], (Z.eqb_spec x hi) as [->|]; intros E; try done.
    + exfalso. apply (old_frame_free x ltac:(lia)). rewrite <- E. by left.
    + exfalso. apply (old_frame_free w ltac:(lia)). rewrite E. by left.
    + apply F7; [lia|lia|done].
  - intros path w Hw. destruct (Z.eqb_spec w hi); apply grown_no_table; try done.
    + intros path'. apply F8. lia.
    + pose proof (old_frame_free w ltac:(lia)) as [_ ?]%not_elem_of_cons. done.
Qed.

Lemma grown_mem x : (exists w, HEAP_LO <= w < hi /\ page_of x = fr w) -> load8 (mem k') x = load8 (kmem_of s) x.
Proof using All.
  intros (w & Hw & E). pose proof H as [Up Uf Ut Ul Ua Uw W Uo Uab (f & I1 & I2 & I3 & I4 & I5)].
  destruct Ua as (N & [[_ _ _ V _] _ _ _ _ _] & _). pose proof (old_frame_free w Hw) as [_ Hp]%not_elem_of_cons.
  rewrite (ev_mem _ _ _ _ _ _ _ _ Hev).
  - apply (counted_mem _ T q pool _ _ _ f W V); [done|]. rewrite E. by apply I5.
  - by rewrite E.
  - intros path. rewrite E. by apply (hf_tables _ _ _ _ _ _ Uf).
Qed.

(** The state after the page was added. *)
Abbreviation grown_s := (grown_state p hi k' s).
Abbreviation grown_p := (with_top ((hi + 1) * PGSIZE) p).

Lemma grown_space : spaceof grown_p (hi + 1) T' (with_frame fr hi q) grown_s.
Proof using All.
  pose proof (uh_space _ _ _ _ _ _ _ _ H) as [S1 S2 S3 S4 S5]. pose proof (uh_limit _ _ _ _ _ _ _ _ H) as [Hl1 Hl2].
  pose proof (ev_wf _ _ _ _ _ _ _ _ Hev) as W'. split; try done.
  - exists grown_p. split; [apply lookup_insert_eq|done].
  - apply W'.
  - apply Hev.
  - intros a Ha. change (kmem_of grown_s) with (mem k').
    rewrite (ev_leaf _ _ _ _ _ _ _ _ Hev) by (rewrite MAXVA_eq; unfold HEAP_LO in *; layout; dlia).
    unfold mapped, with_frame. rewrite Z.div_mul by (layout; lia). cbv zeta.
    destruct (Z.eqb_spec (a / PGSIZE) hi) as [->|Hne].
    + rewrite Z.sub_diag. simpl. by rewrite Z.add_0_r.
    + replace (_ && _) with false by lia. apply S5. lia.
Qed.

Lemma grown_at : heapat grown_p (hi + 1) T' (with_frame fr hi q) grown_s
  (free_list (user_heap p)) (alloc_list (user_heap p)) fl al.
Proof using All.
  eapply heap_at_change; [apply H|apply grown_space|]. intros a Ha.
  split; [apply (page_ok_mono _ hi); [lia|done]|]. intros d Hd. rewrite (frame_addr_old _ _ _ _ _ _ Ha).
  apply grown_mem. exists (a / PGSIZE).
  destruct (page_ok_page _ _ _ _ _ _ (uh_frames _ _ _ _ _ _ _ _ H) _ _ Ha) as (Hv & Hn & _).
  destruct (hf_frame _ _ _ _ _ _ (uh_frames _ _ _ _ _ _ _ _ H) _ Hv) as (F1 & _).
  split; [done|]. unfold page_of, frame_addr. layout. dlia.
Qed.

Lemma grown_ok : user_heap_ok grown_p (hi + 1) T' (with_frame fr hi q) pool' fl al grown_s.
Proof using All.
  pose proof H as [Up Uf Ut [Ul1 Ul2] Ua Uw W Uo Uab (f & I1 & I2 & I3 & I4 & I5)].
  pose proof (owned_not_free _ _ _ W I1) as [Hfq Hfp]%not_elem_of_cons.
  split; try done.
  - apply lookup_insert_eq.
  - apply grown_frames.
  - layout. lia.
  - apply grown_at.
  - split; [apply Uw|]. eapply Forall_impl; [apply Uw|]. intros x [? ?]. split; [done|]. by apply (page_ok_mono _ hi); [lia|].
  - apply Hev.
  - intros w Hw. unfold with_frame. destruct (Z.eqb_spec w hi).
    + assert (managed (k_pmm s) q) as Hq by (by eapply (wf_head_managed _ _ W)).
      pose proof (wf_nodup _ _ W) as [Hqp _]%NoDup_cons. split; [by apply (ev_managed _ _ _ _ _ _ _ _ Hev)|].
      change (k_pmm grown_s) with k'. rewrite (ev_ref _ _ _ _ _ _ _ _ Hev) by done.
      change (page_ref (counted _ _ _ _) q) with (page_ref (page_taken q (k_pmm s)) q).
      rewrite page_ref_taken, decide_True; [lia|done|apply W|done|done].
    + apply grown_owned, Uo. lia.
  - intros a Ha. change (kmem_of grown_s) with (mem k').
    rewrite (ev_leaf _ _ _ _ _ _ _ _ Hev) by (rewrite MAXVA_eq; unfold HEAP_LO in *; layout; dlia).
    unfold mapped. rewrite Z.div_mul by (layout; lia). cbv zeta.
    replace (_ && _) with false by (layout; dlia). apply Uab. layout. lia.
  - exists f. split_and!; try done.
    + by apply grown_owned.
    + by apply grown_no_table.
    + intros w Hw. unfold with_frame. destruct (Z.eqb_spec w hi); [done|]. apply I5. lia.
Qed.

Lemma grown_data : data_same fr s (with_frame fr hi q) grown_s al.
Proof using All.
  intros x i Hx Hi. pose proof (uh_frames _ _ _ _ _ _ _ _ H) as Uf.
  pose proof (uh_wf _ _ _ _ _ _ _ _ H) as [_ Hok]. rewrite Forall_forall in Hok.
  destruct (Hok x ltac:(set_solver)) as [H0 Ho]. rewrite (frame_addr_old _ _ _ _ _ _ Ho).
  destruct (page_ok_page _ _ _ _ _ _ Uf _ _ Ho) as (Hv & Hn & _). destruct (hf_frame _ _ _ _ _ _ Uf _ Hv) as (F1 & _).
  apply grown_mem. exists (x.1 / PGSIZE). split; [done|]. unfold page_of, frame_addr, SIZEOF_PD in *. layout. dlia.
Qed.

End Grown.

(** ** A page that becomes a free block *)

Lemma add_page_run fuel p hi T fr q pool fl al s : user_heap_ok p hi T fr (q :: pool) fl al s -> hi < lim ->
  (2 <= length pool)%nat -> (length fl < fuel)%nat ->
  exists p' T' fr' pool' s', (forall A (none k : M kernel A),
      (let* g := heap_grow hartid in
       match g with
       | None => none
       | Some b => set_flag hartid b 0 ;;; set_size hartid b (PGSIZE - SIZEOF_PD) ;;; set_next hartid b 0 ;;;
           rib_insert fuel hartid b ;;; k
       end) s = k s') /\
    user_heap_ok p' (hi + 1) T' fr' pool' (insert_kept (hi * PGSIZE, PGSIZE - SIZEOF_PD) fl) al s' /\
    data_same fr s fr' s' al /\ (length pool <= length pool' + 2)%nat.
Proof.
  intros H Hlim Hl Hf.
  destruct (heap_grow_step p hi T fr q pool fl al s H Hlim Hl) as (v & T' & pool' & k' & Eg & Hev & Hlen).
  pose proof (grown_ok p hi T fr q pool fl al s v T' pool' k' H Hlim Hev) as G.
  pose proof (grown_data p hi T fr q pool fl al s v T' pool' k' H Hlim Hev) as GD.
  set (s1 := grown_state p hi k' s) in *. set (p1 := with_top ((hi + 1) * PGSIZE) p) in *.
  set (fr' := with_frame fr hi q) in *. set (b := hi * PGSIZE) in *. set (sz := PGSIZE - SIZEOF_PD) in *.
  pose proof (uh_space _ _ _ _ _ _ _ _ G) as Hs. pose proof (uh_proc _ _ _ _ _ _ _ _ G) as Hp.
  pose proof (kept_pages hartid c (pagetable p1) HEAP_LO (hi + 1) HEAP_FLAGS T' fr' s1 (uh_frames _ _ _ _ _ _ _ _ G)) as HP.
  pose proof (heap_at_kept _ _ _ _ _ _ _ _ _ _ _ _ _ (uh_at _ _ _ _ _ _ _ _ G)) as Hat.
  pose proof (uh_limit _ _ _ _ _ _ _ _ H) as [[Hlo _] _].
  pose proof (new_page_wf _ _ _ _ Hlo (uh_wf _ _ _ _ _ _ _ _ H)) as Hwf.
  destruct (new_descriptor s1 _ _ _ _ b sz Hat Hwf) as (N & s2 & Er & R & Lf & La & Hb & Hd); [by vm_compute|].
  destruct (insert_new_run fuel s1 N s2 _ _ _ _ b sz R Lf La Hb Hd Hwf Hf) as (fh & s3 & Ei & Hat' & Hk).
  destruct (kept_current p1 (hi + 1) T' fr' s1 s2 Hs Hp (rep_inv _ _ _ R)) as [C2 P2].
  assert (kept_space hartid c (pagetable p1) HEAP_LO (hi + 1) HEAP_FLAGS T' fr' s1 s3) as K3 by (by destruct Hat' as (? & [] & _)).
  destruct (kept_current p1 (hi + 1) T' fr' s1 s3 Hs Hp K3) as [C3 P3].
  eexists (with_lists fh (alloc_list (user_heap p1)) p1), T', fr', pool', _. split; [|split; [|split]].
  - intros A none k. unfold bind at 1. rewrite Eg. cbv iota. fold sz b. rewrite Er.
    unfold bind at 1, rib_insert, bind at 1. rewrite (cur_proc_run p1) by done.
    unfold bind at 1. rewrite Ei. rewrite (upd_heap_run _ p1) by done. reflexivity.
  - apply (lists_changed p1 (hi + 1) T' fr' pool' fl al s1 s3); [done|exact Hat'|].
    unfold heap_wf. by rewrite (insert_kept_perm (b, sz) fl).
  - intros x i Hx Hi. rewrite <- (GD x i Hx Hi). by apply Hk.
  - done.
Qed.

(** ** The calls *)

Definition NEW_BLOCK : Z * Z := (0, PGSIZE - SIZEOF_PD).

Lemma block_pos p hi T fr pool fl al s x : user_heap_ok p hi T fr pool fl al s -> x ∈ fl ++ al ->
  0 < x.1 /\ x.1 + extent x < 2 ^ 31 /\ u64 (x.1 + SIZEOF_PD) = x.1 + SIZEOF_PD.
Proof.
  intros H Hx. pose proof (uh_frames _ _ _ _ _ _ _ _ H) as Uf.
  pose proof (uh_wf _ _ _ _ _ _ _ _ H) as [_ Hok]. rewrite Forall_forall in Hok. destruct (Hok x Hx) as [H0 Ho].
  pose proof (page_ok_page _ _ _ _ _ _ Uf _ _ Ho) as (_ & _ & ?). pose proof (hf_high _ _ _ _ _ _ Uf).
  destruct Ho as (_ & _ & ? & _). unfold extent, SIZEOF_PD in *. split_and!; [lia|lia|]. rewrite u64_small; lia.
Qed.

(** A block from the lists as they are. *)
Lemma rib_alloc_fits fuel n p hi T fr pool fl al s : user_heap_ok p hi T fr pool fl al s ->
  0 < n < 2 ^ 31 -> (length fl < fuel)%nat -> existsb (fits n) fl = true ->
  exists a p' fl' s', rib_alloc fuel hartid n s = Ok a s' /\ a <> 0 /\ u64 (a + SIZEOF_PD) = a + SIZEOF_PD /\
    user_heap_ok p' hi T fr pool fl' ((a, n) :: al) s' /\ data_same fr s fr s' al /\ (length fl' <= length fl)%nat.
Proof.
  intros H Hn Hf He. pose proof (rib_alloc_run fuel n p hi T fr pool fl al s H Hn Hf) as Hr.
  apply first_fit_fits in He as [[fl' a] E]. rewrite E in Hr. destruct Hr as (fh & s' & Er & H' & Hd).
  destruct (block_pos _ _ _ _ _ _ _ _ (a, n) H') as (Ha & _ & Eu); [set_solver|]. cbn [fst] in Ha, Eu.
  exists a, (with_lists fh a p), fl', s'. split_and!; try done; [lia|].
  apply first_fit_Some in E as (pre & sz & post & -> & _ & Hc).
  destruct Hc as [[_ ->]|[_ ->]]; rewrite !length_app; cbn [length]; lia.
Qed.

Lemma rib_alloc_none fuel n p hi T fr pool fl al s : user_heap_ok p hi T fr pool fl al s ->
  0 < n < 2 ^ 31 -> (length fl < fuel)%nat -> existsb (fits n) fl = false -> rib_alloc fuel hartid n s = Ok 0 s.
Proof.
  intros H Hn Hf He. pose proof (rib_alloc_run fuel n p hi T fr pool fl al s H Hn Hf) as Hr.
  destruct (first_fit n fl) as [[fl' a]|] eqn:E; [|done].
  assert (existsb (fits n) fl = true) by (apply first_fit_fits; by eexists). congruence.
Qed.

Definition small_result (n : Z) (fl al : list (Z * Z)) (r : Z) (al' : list (Z * Z)) : Prop :=
  if existsb (fits n) fl || fits n NEW_BLOCK then exists a, a <> 0 /\ r = a + SIZEOF_PD /\ al' = (a, n) :: al
  else r = 0 /\ al' = al.

Lemma alloc_small_run fuel n p hi T fr pool fl al s : user_heap_ok p hi T fr pool fl al s ->
  0 < n <= PGSIZE - SIZEOF_PD -> (S (length fl) < fuel)%nat -> hi < lim -> (3 <= length pool)%nat ->
  exists r p' hi' T' fr' pool' fl' al' s', alloc_small fuel hartid n s = Ok r s' /\
    user_heap_ok p' hi' T' fr' pool' fl' al' s' /\ data_same fr s fr' s' al /\ small_result n fl al r al' /\
    hi' <= hi + 1 /\ (length pool <= length pool' + 3)%nat /\ (length fl' <= S (length fl))%nat.
Proof.
  intros H Hn Hf Hlim Hl. assert (0 < n < 2 ^ 31) as Hn' by (unfold SIZEOF_PD in Hn; layout; lia).
  unfold alloc_small, small_result. destruct (existsb (fits n) fl) eqn:E.
  - destruct (rib_alloc_fits fuel n p hi T fr pool fl al s H Hn') as (a & p' & fl' & s' & Er & Ha & Eu & H' & Hd & Hfl);
      [lia|done|].
    unfold bind. rewrite Er, (proj2 (Z.eqb_neq a 0)) by done. cbn [negb]. unfold ret. rewrite Eu.
    eexists _, p', hi, T, fr, pool, fl', _, s'. split; [done|]. split_and!; try done; [by exists a|lia|lia|lia].
  - destruct pool as [|q pool]; [cbn in Hl; lia|]. cbn [length] in Hl.
    unfold bind at 1. rewrite (rib_alloc_none fuel n p hi T fr (q :: pool) fl al s) by (done || lia). cbn [Z.eqb negb orb].
    destruct (add_page_run fuel p hi T fr q pool fl al s H Hlim) as (p1 & T1 & fr1 & pool1 & s1 & Ek & H1 & Hd1 & Hl1);
      [lia|lia|].
    rewrite Ek. clear Ek.
    assert ((hi * PGSIZE, PGSIZE - SIZEOF_PD).2 <> 0) as Hnz by (by vm_compute).
    assert (length (insert_kept (hi * PGSIZE, PGSIZE - SIZEOF_PD) fl) = S (length fl)) as Hlen
      by (by rewrite (insert_kept_perm _ _ Hnz)).
    pose proof (fits_insert n (hi * PGSIZE, PGSIZE - SIZEOF_PD) fl Hnz) as Efi.
    rewrite E, orb_false_r in Efi. change (fits n (hi * PGSIZE, _)) with (fits n NEW_BLOCK) in Efi.
    destruct (fits n NEW_BLOCK).
    + destruct (rib_alloc_fits fuel n _ _ _ _ _ _ _ _ H1 Hn') as (a & p' & fl' & s' & Er & Ha & Eu & H' & Hd & Hfl);
        [lia|done|].
      unfold bind. rewrite Er, (proj2 (Z.eqb_neq a 0)) by done. cbn [negb]. unfold ret. rewrite Eu.
      eexists _, p', (hi + 1), T1, fr1, pool1, fl', _, s'. split; [done|].
      split_and!; try done; [|by exists a|cbn; lia|lia]. intros x i Hx Hi. rewrite (Hd x i Hx Hi). by apply Hd1.
    + unfold bind. rewrite (rib_alloc_none fuel n _ _ _ _ _ _ _ _ H1) by (done || lia). cbn [Z.eqb negb]. unfold ret.
      eexists _, p1, (hi + 1), T1, fr1, pool1, _, al, s1. split; [done|]. split_and!; try done; [cbn; lia|lia].
Qed.

(** [ROUNDUP(n, 8)] *)
Definition rounded (n : Z) : Z := ((n - 1) / 8 + 1) * 8.

Lemma assert_current_run p hi T fr pool fl al s : user_heap_ok p hi T fr pool fl al s -> assert_current hartid s = Ok tt s.
Proof.
  intros H. destruct (uh_space _ _ _ _ _ _ _ _ H) as [S1 _ _ _ _]. pose proof (hf_hart _ _ _ _ _ _ (uh_frames _ _ _ _ _ _ _ _ H)).
  unfold assert_current, assert_hart, get_current, gets, bind. rewrite (proj2 (Z.ltb_lt _ _)) by done. cbn. rewrite S1. done.
Qed.

Lemma user_malloc_run fuel n p hi T fr pool fl al s : user_heap_ok p hi T fr pool fl al s ->
  0 < n <= PGSIZE - SIZEOF_PD -> (S (length fl) < fuel)%nat -> hi < lim -> (3 <= length pool)%nat ->
  exists r p' hi' T' fr' pool' fl' al' s', sys_user_allocate_mem fuel hartid n s = Ok r s' /\
    user_heap_ok p' hi' T' fr' pool' fl' al' s' /\ data_same fr s fr' s' al /\ small_result (rounded n) fl al r al' /\
    hi' <= hi + 1 /\ (length pool <= length pool' + 3)%nat /\ (length fl' <= S (length fl))%nat.
Proof.
  intros H Hn Hf Hlim Hl. unfold sys_user_allocate_mem, bind. rewrite (assert_current_run _ _ _ _ _ _ _ _ H).
  rewrite (proj2 (Z.leb_gt n 0)) by lia. fold (rounded n).
  assert (0 < rounded n <= PGSIZE - SIZEOF_PD) as Hr by (unfold rounded, SIZEOF_PD in *; layout; dlia).
  rewrite (proj2 (Z.leb_gt (2 ^ 31) _)) by (unfold SIZEOF_PD in Hr; layout; lia).
  rewrite (proj2 (Z.leb_le _ _)) by lia. by apply (alloc_small_run fuel _ p hi T fr pool fl al s).
Qed.

Lemma free_run fuel a sz pre rest p hi T fr pool fl s :
  user_heap_ok p hi T fr pool fl (pre ++ (a, sz) :: rest) s ->
  (S (length fl) < fuel)%nat -> (length (pre ++ (a, sz) :: rest) < fuel)%nat ->
  exists p' fl' s', sys_user_free_mem fuel hartid (a + SIZEOF_PD) s = Ok 0 s' /\
    user_heap_ok p' hi T fr pool fl' (pre ++ rest) s' /\ data_same fr s fr s' (pre ++ rest) /\
    (length fl' <= S (length fl))%nat.
Proof.
  intros H Hf1 Hf2. destruct (rib_free_run fuel a sz pre rest p hi T fr pool fl s H Hf1 Hf2) as (fh & ah & s' & E & H' & Hd).
  destruct (block_pos _ _ _ _ _ _ _ _ (a, sz) H) as (Ha & Hb & _); [set_solver|]. cbn [fst] in Ha, Hb.
  exists (with_lists fh ah p), (free_block (a, sz) fl), s'. split_and!; try done.
  - unfold sys_user_free_mem, bind. rewrite (assert_current_run _ _ _ _ _ _ _ _ H).
    replace (a + SIZEOF_PD - SIZEOF_PD) with a by lia.
    rewrite u64_small; [by rewrite E|]. pose proof (uh_wf _ _ _ _ _ _ _ _ H) as [_ Hok].
    rewrite Forall_forall in Hok. destruct (Hok (a, sz) ltac:(set_solver)) as [H0 _]. unfold extent, SIZEOF_PD in *. cbn in *. lia.
  - apply free_block_length.
Qed.

(** ** Programs that use the heap

    A program allocates, and frees one of the blocks it has: [live] are their
    addresses, the last one first.  The results of the allocations are collected. *)

Inductive heap_call : Type := Malloc (n : Z) | Free (i : nat).

Fixpoint run_calls (fuel : nat) (cs : list heap_call) (live : list Z) : M kernel (list Z * list Z) :=
  match cs with
  | [] => ret (live, [])
  | Malloc n :: cs =>
      let* r := sys_user_allocate_mem fuel hartid n in
      let* (live, rs) := run_calls fuel cs (if r =? 0 then live else r :: live) in
      ret (live, r :: rs)
  | Free i :: cs =>
      match live !! i with
      | None => run_calls fuel cs live
      | Some a =>
          let* _ := sys_user_free_mem fuel hartid a in
          run_calls fuel cs (delete i live)
      end
  end.

Definition calls_ok (cs : list heap_call) : Prop :=
  Forall (fun x => match x with Malloc n => 0 < n <= PGSIZE - SIZEOF_PD | Free _ => True end) cs.
Definition sizes (cs : list heap_call) : list Z :=
  omap (fun x => match x with Malloc n => Some n | Free _ => None end) cs.

(** The addresses a program has of the blocks. *)
Definition data_of (al : list (Z * Z)) : list Z := (fun x => x.1 + SIZEOF_PD) <$> al.

Lemma data_of_lookup al i a : data_of al !! i = Some a ->
  exists pre b sz rest, al = pre ++ (b, sz) :: rest /\ length pre = i /\ a = b + SIZEOF_PD /\
    delete i (data_of al) = data_of (pre ++ rest).
Proof.
  unfold data_of. rewrite list_lookup_fmap. intros ([b sz] & E & ->)%fmap_Some.
  apply list_elem_of_split_length in E as (pre & rest & -> & ->).
  exists pre, b, sz, rest. split_and!; try done. by rewrite <- list_fmap_delete, delete_middle.
Qed.

Lemma data_same_trans fr1 s1 fr2 s2 fr3 s3 l l' : data_same fr1 s1 fr2 s2 l -> data_same fr2 s2 fr3 s3 l' ->
  l' ⊆ l -> data_same fr1 s1 fr3 s3 l'.
Proof. intros H1 H2 Hs x i Hx Hi. rewrite (H2 x i Hx Hi). apply H1; [by apply Hs|done]. Qed.

(** The heap after some calls: blocks that came since, and old ones that still have
    their data. *)
Definition heap_after (fr : Z -> Z) (s : kernel) (al : list (Z * Z)) (live : list Z) (s' : kernel) : Prop :=
  exists p' hi' T' fr' pool' fl' news olds, live = data_of (news ++ olds) /\
    user_heap_ok p' hi' T' fr' pool' fl' (news ++ olds) s' /\ olds `sublist_of` al /\ data_same fr s fr' s' olds.

(** A call in front. *)
Lemma heap_after_step fr s al fr1 s1 new al1 live s' : data_same fr s fr1 s1 al1 -> al1 `sublist_of` al ->
  heap_after fr1 s1 (new ++ al1) live s' -> heap_after fr s al live s'.
Proof.
  intros Hd Hs (p' & hi' & T' & fr' & pool' & fl' & news & olds & -> & H & Ho & Hd').
  apply sublist_app_r in Ho as (o1 & o2 & -> & Ho1 & Ho2).
  exists p', hi', T', fr', pool', fl', (news ++ o1), o2. rewrite <- app_assoc. split_and!; try done.
  - by etrans.
  - eapply data_same_trans; [exact Hd|intros x i Hx; apply Hd'; set_solver|].
    by apply sublist_subseteq.
Qed.

Lemma malloc_result n fl al r al' : 0 < n <= PGSIZE - SIZEOF_PD -> small_result (rounded n) fl al r al' ->
  Forall (fun x => 0 < x.1) al' ->
  exists new, al' = new ++ al /\ (length new <= 1)%nat /\
    (if r =? 0 then data_of al else r :: data_of al) = data_of al' /\ (r = 0 -> 4049 <= n <= 4064).
Proof.
  intros Hn Hr Hpos. unfold small_result in Hr. destruct (existsb _ fl || fits _ _) eqn:E.
  - destruct Hr as (a & _ & -> & ->). apply Forall_cons in Hpos as [Ha _]. cbn [fst] in Ha.
    rewrite (proj2 (Z.eqb_neq _ _)) by (unfold SIZEOF_PD; lia). exists [(a, rounded n)].
    split_and!; [done|done|done|unfold SIZEOF_PD; lia].
  - destruct Hr as [-> ->]. exists []. split_and!; [done|cbn; lia|done|]. intros _.
    apply orb_false_iff in E as [_ E]. unfold fits, NEW_BLOCK, SIZEOF_PD in *. cbn [snd] in E. unfold rounded in E.
    layout. apply orb_false_iff in E as [E1 E2]. dlia.
Qed.


(** Requests of 4049 to 4064 bytes are never served from a new page.  When no
    free block fits, the call takes a page of 4072 bytes for the heap and still
    returns NULL, since the block can neither be split nor taken as it is; the page
    stays behind as a free block that does not help the next request of this size,
    so that every attempt takes another page. *)
Theorem malloc_gap_fails fuel n p hi T fr q pool fl al s : user_heap_ok p hi T fr (q :: pool) fl al s ->
  4049 <= n <= 4064 -> existsb (fits (rounded n)) fl = false ->
  (S (length fl) < fuel)%nat -> hi < lim -> (2 <= length pool)%nat ->
  exists p' T' fr' pool' s', sys_user_allocate_mem fuel hartid n s = Ok 0 s' /\
    let fl' := insert_kept (hi * PGSIZE, 4072) fl in
    user_heap_ok p' (hi + 1) T' fr' pool' fl' al s' /\ existsb (fits (rounded n)) fl' = false.
Proof.
  intros H Hn Hno Hf Hlim Hl.
  assert (rounded n = 4056 \/ rounded n = 4064) as Hr by (unfold rounded; dlia).
  assert (0 < rounded n < 2 ^ 31) as Hr' by lia.
  destruct (add_page_run fuel p hi T fr q pool fl al s H Hlim) as (p1 & T1 & fr1 & pool1 & s1 & Ek & H1 & _); [lia|lia|].
  change (PGSIZE - SIZEOF_PD) with 4072 in *. pose proof (fits_insert (rounded n) (hi * PGSIZE, 4072) fl ltac:(done)) as Ef.
  rewrite Hno, orb_false_r in Ef. replace (fits (rounded n) (hi * PGSIZE, 4072)) with false in Ef
    by (destruct Hr as [-> | ->]; reflexivity).
  exists p1, T1, fr1, pool1, s1. split; [|by split].
  unfold sys_user_allocate_mem, bind at 1. rewrite (assert_current_run _ _ _ _ _ _ _ _ H).
  rewrite (proj2 (Z.leb_gt n 0)) by lia. fold (rounded n). rewrite (proj2 (Z.leb_gt (2 ^ 31) _)) by lia.
  rewrite (proj2 (Z.leb_le _ _)) by (unfold SIZEOF_PD; layout; lia).
  unfold alloc_small, bind at 1. rewrite (rib_alloc_none fuel _ p hi T fr (q :: pool) fl al s) by (done || lia).
  cbn [Z.eqb negb]. change (PGSIZE - SIZEOF_PD) with 4072. rewrite Ek.
  unfold bind. rewrite (rib_alloc_none fuel _ _ _ _ _ _ _ _ _ H1); [done|lia| |done].
  rewrite (insert_kept_perm (hi * PGSIZE, 4072) fl) by done. cbn. lia.
Qed.

End Malloc.

(** ** An empty heap, for the witness *)

Definition empty_heap_pmm : pmm := zeroed 0x80006000 empty_space.
Definition empty_heap_process : process :=
  set_mapped_info 0x80006000 (set_user_heap (HeapMan 0x400000 0x400000 0 0) (set_pagetable 0x80007000 (blank_process 0))).
Definition empty_heap : kernel :=
  Kernel (Vm empty_heap_pmm 0) {[0 := empty_heap_process]} {[0 := 0]} ∅ ∅ ∅ 0 ∅ 0 0 ∅ 0 0 0 0 0 ∅ ∅.

Lemma empty_heap_ok : user_heap_ok 0 0 1034 empty_heap_process 1024 {[[] := 0x80007000]} (fun _ => 0)
  (page_stack DRAM_BASE 6) [] [] empty_heap.
Proof.
  assert (HEAP_LO = 1024) as EL by reflexivity.
  assert (pmm_wf (0x80006000 :: page_stack DRAM_BASE 6) empty_space) as W0 by apply empty_space_wf.
  pose proof (zeroed_wf (page_stack DRAM_BASE 6) empty_space 0x80006000 W0) as W.
  destruct (zeroed_keeps 0x80007000 {[[] := 0x80007000]} 0x80006000 _ _ W0 empty_space_vs) as [V L].
  destruct (new_page_facts 0x80007000 {[[] := 0x80007000]} 0x80006000 _ _ W0 empty_space_vs) as (Hm & _ & _ & HT).
  assert (heap_space 0 0 0x80007000 1024 1024 HEAP_FLAGS {[[] := 0x80007000]} (fun _ => 0) empty_heap) as S.
  { split; [done|by exists empty_heap_process|apply W|done|]. intros a Ha. lia. }
  split; try done.
  - split; try done; intros; lia.
  - exists ∅. split; [|done]. by split.
  - split; [split; [constructor|by intros x y ?%elem_of_nil]|constructor].
  - intros v Hv. lia.
  - intros a _. change (kmem_of empty_heap) with (mem (zeroed 0x80006000 empty_space)). by rewrite L, empty_space_leaf.
  - exists 0x80006000. by split_and!.
Qed.


Lemma malloc_gap_fails_witness : exists s', sys_user_allocate_mem 10 0 4050 empty_heap = Ok 0 s'.
Proof.
  destruct (malloc_gap_fails 0 0 1034 10 4050 empty_heap_process 1024 {[[] := 0x80007000]} (fun _ => 0)
    0x80005000 (page_stack DRAM_BASE 5) [] [] empty_heap) as (p' & T' & fr' & pool' & s' & E & _).
  - exact empty_heap_ok.
  - lia.
  - reflexivity.
  - cbn. lia.
  - lia.
  - cbn. lia.
  - exists s'. exact E.
Defined.
