(* ===== verification/Syscall.v ===== *)
(** * System calls and traps (kernel/syscall.c, kernel/strap.c)

    Every system call, their dispatch, and the handler of traps from user mode.
    A call returns a value, or gives up the processor and ends in a [control].
    [fuel] bounds the walks along the lists of the heap; [locals] are the
    addresses of local variables that are read into. *)

From Stdlib Require Import String Ascii.
From S2P Require Import Prelude Mem Literals Pmm StringLib Printf Scanf Vmm Kernel Process Heap Sched Semaphore Trap Fs Rfs Hostfs Vfs ProcFile System Elf UserHeap.
From stdpp Require Import base gmap list fin_maps.
From Stdlib Require Import ZArith Lia Bool.

Set Default Goal Selector "!".
Open Scope Z_scope.

(** ** Numbers (kernel/syscall.h, errno.h) *)

Definition SYS_user_base : Z := 64.
Definition SYS_user_print : Z := SYS_user_base + 0.
Definition SYS_user_exit : Z := SYS_user_base + 1.
Definition SYS_user_allocate_page : Z := SYS_user_base + 2.
Definition SYS_user_free_page : Z := SYS_user_base + 3.
Definition SYS_user_fork : Z := SYS_user_base + 4.
Definition SYS_user_yield : Z := SYS_user_base + 5.
Definition SYS_user_sem_new : Z := SYS_user_base + 6.
Definition SYS_user_sem_P : Z := SYS_user_base + 7.
Definition SYS_user_sem_V : Z := SYS_user_base + 8.
Definition SYS_user_allocate_mem : Z := SYS_user_base + 9.
Definition SYS_user_free_mem : Z := SYS_user_base + 10.
Definition SYS_user_scanf : Z := SYS_user_base + 11.
Definition SYS_user_gets : Z := SYS_user_base + 12.
Definition SYS_user_open : Z := SYS_user_base + 17.
Definition SYS_user_read : Z := SYS_user_base + 18.
Definition SYS_user_write : Z := SYS_user_base + 19.
Definition SYS_user_lseek : Z := SYS_user_base + 20.
Definition SYS_user_stat : Z := SYS_user_base + 21.
Definition SYS_user_disk_stat : Z := SYS_user_base + 22.
Definition SYS_user_close : Z := SYS_user_base + 23.
Definition SYS_user_opendir : Z := SYS_user_base + 24.
Definition SYS_user_readdir : Z := SYS_user_base + 25.
Definition SYS_user_mkdir : Z := SYS_user_base + 26.
Definition SYS_user_closedir : Z := SYS_user_base + 27.
Definition SYS_user_link : Z := SYS_user_base + 28.
Definition SYS_user_unlink : Z := SYS_user_base + 29.
Definition SYS_user_rcwd : Z := SYS_user_base + 30.
Definition SYS_user_ccwd : Z := SYS_user_base + 31.
Definition SYS_user_wait : Z := SYS_user_base + 32.
Definition SYS_user_exec : Z := SYS_user_base + 33.
Definition SYS_user_printpa : Z := SYS_user_base + 34.
Definition SYS_user_print_backtrace : Z := SYS_user_base + 35.
Definition SYS_user_pipline_write : Z := SYS_user_base + 36.
Definition SYS_user_pipline_read : Z := SYS_user_base + 37.
Definition SYS_user_pipline_reset : Z := SYS_user_base + 38.
Definition SYS_user_fork_to : Z := SYS_user_base + 39.
Definition SYS_user_get_ncpu : Z := SYS_user_base + 40.

Definition ENXIO : Z := 6.
Definition EINVAL : Z := 22.

(** ** Pipes *)

Definition sys_user_pipline_write (hartid : Z) : M sys Z :=
  zoom kernelL (assert_current hartid) ;;;
  upd_pipline hartid (set_stdin_close 1) ;;;
  ret 0.

Definition sys_user_pipline_read (hartid : Z) : M sys Z :=
  zoom kernelL (assert_current hartid) ;;;
  upd_pipline hartid (set_stdout_close 1) ;;;
  modify (fun s => set_pipline_num
    (<[hartid := (default 0 (pipline_num s !! hartid) + 1) mod 2]> (pipline_num s)) s) ;;;
  ret 0.

(** [memset] clears the first half of the array. *)
Definition sys_user_pipline_reset (hartid : Z) : M sys Z :=
  zoom kernelL (assert_current hartid) ;;;
  upd_pipline hartid (fun p => IoPipline 0 0
    (fill (Z.to_nat IO_PIPELINE_BUF_SIZE) (pipe_buf p) 0 0) 0 0) ;;;
  ret 0.

(** ** Console *)

(** [user_va_to_pa(current[hartid]->pagetable, va)] *)
Definition user_pa (hartid va : Z) : M sys Z :=
  let* p := zoom kernelL (cur_proc hartid) in
  zoom sys_pmmL (user_va_to_pa (pagetable p) va).

(** The pipe: [n] bytes at most are appended to the buffer of the writer.  The
    length is an [int], and a negative number of bytes is out of every array. *)
Definition pipe_put (hartid pa n : Z) : M sys unit :=
  let* p := get_pipline hartid in
  let* num := get_pipline_num hartid in
  let total := s32 (buf_len p + n) in
  let total := if total <? IO_PIPELINE_BUF_SIZE then total else IO_PIPELINE_BUF_SIZE in
  let len := total - buf_len p in
  if (0 <=? len) && in_dram pa len then
    let* m := gets sys_mem in
    upd_pipline hartid (fun p => set_buf_len total (set_pipe_buf
      (blit (Z.to_nat len) m pa (pipe_buf p) (num * IO_PIPELINE_BUF_SIZE + buf_len p)) p))
  else fault.

Definition sys_user_print (hartid buf n : Z) : M sys Z :=
  zoom kernelL (assert_current hartid) ;;;
  let* pa := user_pa hartid buf in
  let* p := get_pipline hartid in
  if negb (stdin_close p =? 0) then pipe_put hartid pa n ;;; ret 0
  else
    let* l := string_arg pa in
    sprint (str "%s") [VStr l] ;;;
    ret 0.

(** A byte of the array [buf[2][...]]. *)
Definition pipe_get (p : io_pipline_t) (i : Z) : M sys Z :=
  if (0 <=? i) && (i <? 2 * IO_PIPELINE_BUF_SIZE) then ret (load8 (pipe_buf p) i) else fault.

Definition ends_token (c : Z) : bool := existsb (Z.eqb c) [0; 10; 32; 13; 9].

(** The length of the word at [start]; [limit] bytes are looked at. *)
Definition token_length (p : io_pipline_t) (start limit : Z) : M sys Z :=
  loop (S (Z.to_nat (2 * IO_PIPELINE_BUF_SIZE))) (fun len =>
    if len <? limit then
      let* c := pipe_get p (start + len) in
      if ends_token c then ret (inr len) else ret (inl (len + 1))
    else ret (inr len)) 0.

(** [strlen] in the array. *)
Definition pipe_strlen (p : io_pipline_t) (start : Z) : M sys Z :=
  loop (S (Z.to_nat (2 * IO_PIPELINE_BUF_SIZE))) (fun len =>
    let* c := pipe_get p (start + len) in
    if c =? 0 then ret (inr len) else ret (inl (len + 1))) 0.

Definition pipe_take (hartid pa : Z) : M sys Z :=
  let* p := get_pipline hartid in
  let* num := get_pipline_num hartid in
  let start := (num + 1) mod 2 * IO_PIPELINE_BUF_SIZE + buf_pos p in
  let* len := token_length p start (buf_len p - buf_pos p) in
  (if in_dram pa (len + 1) then
     modify (fun s => set_sys_fs (set_fs_mem
       (store8 (blit (Z.to_nat len) (pipe_buf p) start (sys_mem s) pa) (pa + len) 0) (sys_fs s)) s)
   else fault) ;;;
  let* n := pipe_strlen p start in
  let pos := s32 (buf_pos p + n + 1) in
  upd_pipline hartid (fun p =>
    if buf_len p <=? pos then IoPipline 0 0 (pipe_buf p) 0 0 else set_buf_pos pos p) ;;;
  ret 1.

Section WithHost.
  Context `{Host} `{ElfData} `{Symbols}.

(** [stdin] is the first entry of [spike_files]. *)
Definition stdin : Z := fptr 0.

(** [vscanfk]; [buf] is the address of its local array. *)
Definition sscanf (buf : Z) (s : list Z) (vl : list Z) : M sys Z :=
  let* _ := zoom fsL (spike_file_read stdin buf 256) in
  zoom fsL (zoom fs_memL (vsnscanf buf 256 s vl)).

(** [n - 1] is a [size_t]. *)
Definition getstring (buf n : Z) : M sys Z :=
  let* _ := zoom fsL (spike_file_read stdin buf (u64 (n - 1))) in
  let* i := loop (S (Z.to_nat (Z.min (u64 (n - 1)) (PHYS_TOP - buf)))) (fun i =>
    let* c := zoom fsL (fload 1 (buf + i)) in
    if negb (c =? 10) && negb (c =? 13) && (i <? u64 (n - 1)) then ret (inl (i + 1))
    else ret (inr i)) 0 in
  zoom fsL (fstore 1 (buf + i) 0) ;;;
  (if i + 1 <? n then zoom fsL (fstore 1 (buf + i + 1) 0) else ret tt) ;;;
  ret (s32 i).

Definition sys_user_scanf (hartid local buf : Z) : M sys Z :=
  zoom kernelL (assert_current hartid) ;;;
  let* pa := user_pa hartid buf in
  let* p := get_pipline hartid in
  if negb (stdout_close p =? 0) then pipe_take hartid pa
  else sscanf local (str "%s") [pa].

Definition sys_user_gets (hartid buf size : Z) : M sys Z :=
  zoom kernelL (assert_current hartid) ;;;
  let* pa := user_pa hartid buf in
  getstring pa size.

(** ** Processes *)

Definition sys_user_exit (fuel : nat) (hartid code : Z) : M sys control :=
  zoom kernelL (assert_hart hartid) ;;;
  sprint (str "hartid = %d: User exit with code:%d." ++ [10]) [VNum hartid; VNum code] ;;;
  zoom kernelL (user_exit fuel hartid).

Definition sys_user_fork (hartid : Z) : M kernel Z :=
  assert_current hartid ;;;
  let* c := cur hartid in do_fork hartid c.

Definition sys_user_fork_to (hartid target_hartid : Z) : M kernel Z :=
  assert_current hartid ;;;
  if (target_hartid <? 0) || (NCPU <=? target_hartid) then ret (-1)
  else let* c := cur hartid in do_fork_to_hart hartid c target_hartid.

Definition sys_user_get_ncpu : M sys Z := ret NCPU.

Definition sys_user_wait (hartid pid : Z) : M kernel (Z + control) := do_wait hartid pid.

Definition sys_user_exec (L : elf_locals) (hartid command para : Z) : M sys Z :=
  zoom kernelL (assert_current hartid) ;;;
  let* pfn1 := user_pa hartid command in
  let* pfn2 := user_pa hartid para in
  do_exec L hartid pfn1 pfn2.

Definition sys_user_printpa (hartid va : Z) : M sys Z :=
  zoom kernelL (assert_current hartid) ;;;
  let* pa := user_pa hartid va in
  sprint (str "hartid = %d: %lx" ++ [10]) [VNum hartid; VNum pa] ;;;
  ret 0.

(** ** Files *)

(** A path in user memory. *)
Definition path_arg (hartid va : Z) : M sys name :=
  zoom kernelL (assert_current hartid) ;;;
  let* pa := user_pa hartid va in
  string_arg pa.

Definition sys_user_open (hartid pathva flags : Z) : M sys Z :=
  let* path := path_arg hartid pathva in
  zoom fsL (do_open hartid path flags).

(** One round of the loops of read and write, with the operation on the part of
    the buffer that lies in one page.  [i] is an [int], compared as a [uint64]. *)
Definition rw_round (hartid bufva count : Z) (op : Z -> Z -> M fs Z) (i : Z) : M sys (Z + Z) :=
  if u64 i <? count then
    let addr := u64 (bufva + i) in
    let* p := zoom kernelL (cur_proc hartid) in
    let* pa := zoom sys_pmmL (lookup_pa (pagetable p) addr) in
    let off := addr - ROUNDDOWN addr PGSIZE in
    let left := u64 (count - i) in
    let len := if left <? PGSIZE - off then left else PGSIZE - off in
    let* r := zoom fsL (op (u64 (pa + off)) len) in
    let i := s32 (i + u64 r) in
    if u64 r <? len then ret (inr i) else ret (inl i)
  else ret (inr (s64 count)).

(** [local] is the address of the array [buffer] of [do_read]. *)
Definition sys_user_read (fuel : nat) (local hartid fd bufva count : Z) : M sys Z :=
  zoom kernelL (assert_current hartid) ;;;
  loop fuel (rw_round hartid bufva count (fun a len => do_read hartid fd a len local)) 0.

Definition sys_user_write (fuel : nat) (hartid fd bufva count : Z) : M sys Z :=
  zoom kernelL (assert_current hartid) ;;;
  loop fuel (rw_round hartid bufva count (fun a len => do_write hartid fd a len)) 0.

Definition sys_user_lseek (hartid fd offset whence : Z) : M sys Z :=
  zoom fsL (do_lseek hartid fd offset whence).

(** [*istat = x], five [int]s. *)
Definition put_istat (a : Z) (x : istat) : M fs unit :=
  fstore 4 a (st_inum x) ;;; fstore 4 (a + 4) (st_size x) ;;; fstore 4 (a + 8) (st_type x) ;;;
  fstore 4 (a + 12) (st_nlinks x) ;;; fstore 4 (a + 16) (st_blocks x).

Definition sys_user_stat (hartid fd va : Z) : M sys Z :=
  zoom kernelL (assert_current hartid) ;;;
  let* pistat := user_pa hartid va in
  let* x := zoom fsL (do_stat hartid fd) in
  zoom fsL (put_istat pistat x) ;;;
  ret 0.

Definition sys_user_disk_stat (hartid fd va : Z) : M sys Z :=
  zoom kernelL (assert_current hartid) ;;;
  let* pistat := user_pa hartid va in
  let* x := zoom fsL (do_disk_stat hartid fd) in
  zoom fsL (put_istat pistat x) ;;;
  ret 0.

Definition sys_user_close (hartid fd : Z) : M sys Z := zoom fsL (do_close hartid fd).

Definition sys_user_opendir (hartid pathva : Z) : M sys Z :=
  let* path := path_arg hartid pathva in
  zoom fsL (do_opendir hartid path).

(** [struct dir]: the name, and the inode number behind it. *)
Definition sys_user_readdir (hartid fd vdir : Z) : M sys Z :=
  zoom kernelL (assert_current hartid) ;;;
  let* pdir := user_pa hartid vdir in
  let* r := zoom fsL (do_readdir hartid fd) in
  match r with
  | None => ret (-1)
  | Some (nm, inum) =>
      zoom fsL (write_path pdir nm) ;;;
      zoom fsL (fstore 4 (pdir + MAX_FILE_NAME_LEN) inum) ;;;
      ret 0
  end.

Definition sys_user_mkdir (hartid pathva : Z) : M sys Z :=
  let* path := path_arg hartid pathva in
  zoom fsL (do_mkdir hartid path).

Definition sys_user_closedir (hartid fd : Z) : M sys Z := zoom fsL (do_closedir hartid fd).

Definition sys_user_link (hartid vfn1 vfn2 : Z) : M sys Z :=
  let* fn1 := path_arg hartid vfn1 in
  let* fn2 := path_arg hartid vfn2 in
  zoom fsL (do_link hartid fn1 fn2).

Definition sys_user_unlink (hartid vfn : Z) : M sys Z :=
  let* fn := path_arg hartid vfn in
  zoom fsL (do_unlink hartid fn).

Definition sys_user_rcwd (hartid pathva : Z) : M sys Z :=
  zoom kernelL (assert_current hartid) ;;;
  let* pa := user_pa hartid pathva in
  zoom fsL (do_rcwd hartid pa).

Definition sys_user_ccwd (hartid pathva : Z) : M sys Z :=
  let* path := path_arg hartid pathva in
  zoom fsL (do_ccwd hartid path).

(** ** Backtraces *)

(** One frame: the depth that is left, the return address and the frame
    pointer. *)
Definition frame_round (hartid : Z) (x : Z * Z * Z) : M sys (Z * Z * Z + Z) :=
  let '(depth, cur_ra_va, cur_fp_va) := x in
  if 0 <? depth then
    let* _ := user_pa hartid cur_ra_va in
    let* func_name := elf_find_symbol_by_addr hartid cur_ra_va in
    if func_name =? 0 then
      sprint (str "  [0x%016lx]j <unknown>" ++ [10]) [VNum cur_ra_va] ;;;
      ret (inr ENXIO)
    else
      let* nm := string_arg func_name in
      sprint (str "%s" ++ [10]) [VStr nm] ;;;
      if bool_decide (nm = str "main") then ret (inr EINVAL)
      else
        let* cur_fp_pa := user_pa hartid cur_fp_va in
        let* fp := zoom fsL (fload 8 cur_fp_pa) in
        let cur_sb_va := u64 (fp - 8) in
        let* cur_sb_pa := user_pa hartid cur_sb_va in
        let* ra := zoom fsL (fload 8 cur_sb_pa) in
        ret (inl (depth - 1, ra, u64 (cur_sb_va - 8)))
  else ret (inr 0).

Definition sys_user_print_backtrace (hartid depth : Z) : M sys Z :=
  zoom kernelL (assert_current hartid) ;;;
  if depth <=? 0 then ret EINVAL
  else
    let* p := zoom kernelL (cur_proc hartid) in
    let* sp := zoom fsL (fload 8 (trapframe p + TF_SP)) in
    let cur_fp_va := u64 (sp + 32) in
    let cur_sb_va := u64 (cur_fp_va + 8) in
    let* cur_sb_pa := user_pa hartid cur_sb_va in
    let* ra := zoom fsL (fload 8 cur_sb_pa) in
    loop (S (Z.to_nat depth)) (frame_round hartid) (depth, ra, cur_fp_va).

(** ** Dispatch *)

Record sys_locals : Type := SysLocals {
  l_scanf_buf : Z;
  l_read_buffer : Z;
  l_elf : elf_locals
}.

(** A call that always returns, and one on the kernel state alone. *)
Definition returns (m : M sys Z) : M sys (Z + control) := let* r := m in ret (inl r).
Definition kcall (m : M kernel Z) : M sys (Z + control) := returns (zoom kernelL m).
Definition leaves (m : M sys control) : M sys (Z + control) := let* c := m in ret (inr c).

(** The arguments are [long]s; [int] parameters take their low 32 bits. *)
Definition do_syscall (L : sys_locals) (fuel : nat) (hartid a0 a1 a2 a3 : Z) : M sys (Z + control) :=
  if a0 =? SYS_user_print then returns (sys_user_print hartid a1 a2)
  else if a0 =? SYS_user_scanf then returns (sys_user_scanf hartid (l_scanf_buf L) a1)
  else if a0 =? SYS_user_exit then leaves (sys_user_exit fuel hartid a1)
  else if a0 =? SYS_user_allocate_page then kcall (sys_user_allocate_page fuel hartid)
  else if a0 =? SYS_user_free_page then kcall (sys_user_free_page fuel hartid a1)
  else if a0 =? SYS_user_allocate_mem then kcall (sys_user_allocate_mem fuel hartid (s32 a1))
  else if a0 =? SYS_user_free_mem then kcall (sys_user_free_mem fuel hartid a1)
  else if a0 =? SYS_user_fork then kcall (sys_user_fork hartid)
  else if a0 =? SYS_user_fork_to then kcall (sys_user_fork_to hartid (s32 a1))
  else if a0 =? SYS_user_get_ncpu then returns sys_user_get_ncpu
  else if a0 =? SYS_user_yield then leaves (zoom kernelL (sys_user_yield hartid))
  else if a0 =? SYS_user_open then returns (sys_user_open hartid a1 (s32 a2))
  else if a0 =? SYS_user_read then
    returns (sys_user_read fuel (l_read_buffer L) hartid (s32 a1) a2 a3)
  else if a0 =? SYS_user_write then returns (sys_user_write fuel hartid (s32 a1) a2 a3)
  else if a0 =? SYS_user_lseek then returns (sys_user_lseek hartid (s32 a1) (s32 a2) (s32 a3))
  else if a0 =? SYS_user_stat then returns (sys_user_stat hartid (s32 a1) a2)
  else if a0 =? SYS_user_disk_stat then returns (sys_user_disk_stat hartid (s32 a1) a2)
  else if a0 =? SYS_user_close then returns (sys_user_close hartid (s32 a1))
  else if a0 =? SYS_user_opendir then returns (sys_user_opendir hartid a1)
  else if a0 =? SYS_user_readdir then returns (sys_user_readdir hartid (s32 a1) a2)
  else if a0 =? SYS_user_mkdir then returns (sys_user_mkdir hartid a1)
  else if a0 =? SYS_user_closedir then returns (sys_user_closedir hartid (s32 a1))
  else if a0 =? SYS_user_link then returns (sys_user_link hartid a1 a2)
  else if a0 =? SYS_user_unlink then returns (sys_user_unlink hartid a1)
  else if a0 =? SYS_user_wait then zoom kernelL (sys_user_wait hartid (s64 a1))
  else if a0 =? SYS_user_exec then returns (sys_user_exec (l_elf L) hartid a1 a2)
  else if a0 =? SYS_user_rcwd then returns (sys_user_rcwd hartid a1)
  else if a0 =? SYS_user_ccwd then returns (sys_user_ccwd hartid a1)
  else if a0 =? SYS_user_printpa then returns (sys_user_printpa hartid a1)
  else if a0 =? SYS_user_sem_new then kcall (sys_user_sem_new (s32 a1))
  else if a0 =? SYS_user_sem_P then zoom kernelL (sys_user_sem_P hartid (s32 a1))
  else if a0 =? SYS_user_sem_V then kcall (sys_user_sem_V hartid (s32 a1))
  else if a0 =? SYS_user_print_backtrace then returns (sys_user_print_backtrace hartid (s32 a1))
  else if a0 =? SYS_user_gets then returns (sys_user_gets hartid a1 a2)
  else if a0 =? SYS_user_pipline_read then returns (sys_user_pipline_read hartid)
  else if a0 =? SYS_user_pipline_write then returns (sys_user_pipline_write hartid)
  else if a0 =? SYS_user_pipline_reset then returns (sys_user_pipline_reset hartid)
  else panic.

(** ** The map of a process, for debugging (vmm.c) *)

Definition segment_text (t : Z) : list Z :=
  if t =? CODE_SEGMENT then str "type: CODE SEGMENT"
  else if t =? DATA_SEGMENT then str "type: DATA SEGMENT"
  else if t =? STACK_SEGMENT then str "type: STACK SEGMENT"
  else if t =? CONTEXT_SEGMENT then str "type: TRAPFRAME SEGMENT"
  else if t =? SYSTEM_SEGMENT then str "type: USER KERNEL STACK SEGMENT"
  else [].

Definition print_proc_vmspace (proc : process) : M sys unit :=
  sprint (str "======" ++ [9] ++ str "below is the vm space of process%d" ++ [9] ++ str "========" ++ [10])
    [VNum (pid proc)] ;;;
  loop (S (Z.to_nat (total_mapped_region proc))) (fun i =>
    if i <? total_mapped_region proc then
      let* va := zoom kernelL (kread64 (region_va (mapped_info proc) i)) in
      let* np := zoom kernelL (kread32 (region_npages (mapped_info proc) i)) in
      sprint (str "-va:%lx, npage:%d, ") [VNum va; VNum np] ;;;
      let* t := zoom kernelL (kread32 (region_type (mapped_info proc) i)) in
      (match segment_text t with [] => ret tt | l => sprint l [] end) ;;;
      let* pa := zoom sys_pmmL (lookup_pa (pagetable proc) va) in
      sprint (str ", mapped to pa:%lx" ++ [10]) [VNum pa] ;;;
      ret (inl (i + 1))
    else ret (inr tt)) 0.

(** ** Traps *)

(** The trap frame [tf] is read before the call; the result of a call that does
    not return is not written. *)
Definition handle_syscall (L : sys_locals) (fuel : nat) (hartid tf : Z) : M sys (unit + control) :=
  let reg i := zoom fsL (fload 8 (tf + TF_A0 + 8 * i)) in
  let* epc := zoom fsL (fload 8 (tf + TF_EPC)) in
  zoom fsL (fstore 8 (tf + TF_EPC) (u64 (epc + 4))) ;;;
  let* a0 := reg 0 in
  let* a1 := reg 1 in
  let* a2 := reg 2 in
  let* a3 := reg 3 in
  let* r := do_syscall L fuel hartid a0 a1 a2 a3 in
  match r with
  | inl v => zoom fsL (fstore 8 (tf + TF_A0) (u64 v)) ;;; ret (inl tt)
  | inr c => ret (inr c)
  end.

Definition smode_trap_handler (L : sys_locals) (fuel : nat) (hartid : Z) : M sys control :=
  let* r := zoom kernelL (get_csr hartid) in
  if has (sstatus r) SSTATUS_SPP then panic
  else
    zoom kernelL (assert_current hartid) ;;;
    let* p := zoom kernelL (cur_proc hartid) in
    zoom fsL (fstore 8 (trapframe p + TF_EPC) (sepc r)) ;;;
    let cause := scause r in
    let* k :=
      if cause =? CAUSE_USER_ECALL then handle_syscall L fuel hartid (trapframe p)
      else if cause =? CAUSE_MTIMER_S_TRAP then
        zoom kernelL (handle_mtimer_trap hartid) ;;;
        zoom kernelL (rrsched hartid)
      else if (cause =? CAUSE_STORE_PAGE_FAULT) || (cause =? CAUSE_LOAD_PAGE_FAULT) then
        zoom kernelL (handle_user_page_fault hartid cause (sepc r) (stval r)) ;;;
        ret (inl tt)
      else panic in
    match k with
    | inr c => ret c
    | inl _ =>
        let* c := zoom kernelL (cur hartid) in
        let* e := zoom kernelL (switch_to hartid c) in
        ret (ToUser e)
    end.

End WithHost.
