(* ===== verification/Pipe.v ===== *)
(** * What a pipe of the shell carries (kernel/syscall.c)

    A hart has one [pipline_buf]: [sys_user_pipline_write] sends what is printed
    into it, [sys_user_pipline_read] lets the next [scanf] read from it.  The
    writer and the reader are two processes of one hart, so that between the two
    calls only the pipe of the hart is known to stay. *)
From S2P Require Import Prelude Mem Literals Pmm StringLib Vmm Kernel Process Heap Fs Rfs Hostfs Vfs ProcFile System Elf UserHeap Syscall.
From stdpp Require Import base gmap list fin_maps.
From Stdlib Require Import ZArith Lia Bool.
Open Scope Z_scope.

Section Pipe.
  Context `{Host}.
  Context (h : Z).

Definition pipe_of (s : sys) : io_pipline_t := default empty_pipline (pipline_buf s !! h).
Definition num_of (s : sys) : Z := default 0 (pipline_num s !! h).

(** The hart runs a process in which [va] is mapped to [pa]. *)
Definition caller (s : sys) (va pa : Z) : Prop :=
  assert_current h (sys_kernel s) = Ok tt (sys_kernel s) /\ user_pa h va s = Ok pa s.

Definition pipe_out (src n : Z) : M sys Z :=
  sys_user_pipline_write h ;;; sys_user_print h src n.
Definition pipe_in (local dst : Z) : M sys Z :=
  sys_user_pipline_read h ;;; sys_user_scanf h local dst.

(** A word, and what follows it. *)
Definition first_word (w r : list Z) : Prop :=
  Forall (fun c => ends_token c = false) w /\
  match r with [] => True | c :: _ => ends_token c = true end.

Lemma sys_kernel_lset (s : sys) : lset kernelL (lget kernelL s) s = s.
Proof using All. by destruct s as [[] ? ? ? ?]. Qed.

Lemma assert_current_zoom s : assert_current h (sys_kernel s) = Ok tt (sys_kernel s) ->
  zoom kernelL (assert_current h) s = Ok tt s.
Proof using All.
  intros E. unfold zoom. change (lget kernelL s) with (sys_kernel s). rewrite E.
  f_equal. apply sys_kernel_lset.
Qed.

(** The pipe is not a part of what address translation reads. *)
Lemma caller_frame s va pa pb pn : caller s va pa ->
  caller (Sys (sys_fs s) (line_infos s) (console s) pb pn) va pa.
Proof using All.
  intros [A U]. split; [exact A|]. revert U.
  unfold user_pa, bind, zoom. destruct s as [f li co pb0 pn0].
  cbn -[cur_proc user_va_to_pa fs_pmmL set_fs_kernel].
  change (sys_kernel _) with (fs_kernel f) at 1. change (sys_kernel _) with (fs_kernel f).
  destruct (cur_proc h (fs_kernel f)) as [p k| | |]; try done.
  cbn -[cur_proc user_va_to_pa fs_pmmL set_fs_kernel].
  destruct (user_va_to_pa _ _ _) as [a q| | |]; try done.
  intros E. injection E as -> E. f_equal. cbn in E |- *. by rewrite E.
Qed.

(** ** Reading the array *)

Lemma pipe_get_run p i s : 0 <= i < 2 * IO_PIPELINE_BUF_SIZE ->
  pipe_get p i s = Ok (load8 (pipe_buf p) i) s.
Proof using All.
  intros [A B]. unfold pipe_get. by rewrite (proj2 (Z.leb_le _ _) A), (proj2 (Z.ltb_lt _ _) B).
Qed.

Lemma token_loop p start s r : forall w len fuel,
  0 <= start + len -> start + len + Z.of_nat (length (w ++ r)) <= 2 * IO_PIPELINE_BUF_SIZE ->
  bytes_at (pipe_buf p) (start + len) (w ++ r) -> first_word w r -> (length w < fuel)%nat ->
  loop fuel (fun l =>
    if l <? len + Z.of_nat (length (w ++ r)) then
      let* c := pipe_get p (start + l) in
      if ends_token c then ret (inr l) else ret (inl (l + 1))
    else ret (inr l)) len s = Ok (len + Z.of_nat (length w)) s.
Proof using All.
  induction w as [|c w IH]; intros len fuel L R B [F G] N; (destruct fuel as [|fuel]; [simpl in N; lia|]);
    cbn [loop]; unfold bind at 1.
  - cbn [app length] in *. destruct r as [|c r]; cbn [length] in *.
    + rewrite (proj2 (Z.ltb_ge _ _)) by lia. unfold ret. f_equal. lia.
    + rewrite (proj2 (Z.ltb_lt _ _)) by lia. unfold bind. rewrite pipe_get_run by lia.
      destruct B as [-> _]. rewrite G. unfold ret. f_equal. lia.
  - cbn [app length] in *. rewrite (proj2 (Z.ltb_lt _ _)) by lia.
    unfold bind at 1. rewrite pipe_get_run by lia. destruct B as [-> B].
    rewrite (Forall_inv F). cbn [ret].
    replace (len + Z.of_nat (S (length (w ++ r)))) with (len + 1 + Z.of_nat (length (w ++ r))) by lia.
    rewrite (IH (len + 1) fuel); [f_equal; lia|lia|lia|by rewrite Z.add_assoc| |lia].
    split; [by apply (Forall_inv_tail F)|done].
Qed.

Lemma pipe_strlen_loop p start s : forall t len fuel,
  0 <= start + len -> start + len + Z.of_nat (length t) < 2 * IO_PIPELINE_BUF_SIZE ->
  bytes_at (pipe_buf p) (start + len) (t ++ [0]) -> Forall (fun c => c <> 0) t ->
  (length t < fuel)%nat ->
  loop fuel (fun l =>
    let* c := pipe_get p (start + l) in
    if c =? 0 then ret (inr l) else ret (inl (l + 1))) len s = Ok (len + Z.of_nat (length t)) s.
Proof using All.
  induction t as [|c t IH]; intros len fuel L R B F N; (destruct fuel as [|fuel]; [simpl in N; lia|]);
    cbn [loop]; unfold bind at 1 2; rewrite pipe_get_run by (cbn [length] in *; lia);
    destruct B as [-> B].
  - cbn [Z.eqb length]. unfold ret. f_equal. lia.
  - rewrite (proj2 (Z.eqb_neq _ _) (Forall_inv F)). cbn [ret length] in *.
    rewrite <- Z.add_assoc in B. rewrite (IH (len + 1) fuel); [|lia|lia|done|by apply (Forall_inv_tail F)|lia].
    f_equal. lia.
Qed.

Lemma token_length_run p start s w r :
  0 <= start -> start + Z.of_nat (length (w ++ r)) <= 2 * IO_PIPELINE_BUF_SIZE ->
  bytes_at (pipe_buf p) start (w ++ r) -> first_word w r ->
  token_length p start (Z.of_nat (length (w ++ r))) s = Ok (Z.of_nat (length w)) s.
Proof using All.
  intros L R B F. unfold token_length.
  rewrite (token_loop p start s r w 0); rewrite ?Z.add_0_r; try done.
  rewrite length_app in R. lia.
Qed.

Lemma pipe_strlen_run p start s t :
  0 <= start -> start + Z.of_nat (length t) < 2 * IO_PIPELINE_BUF_SIZE ->
  bytes_at (pipe_buf p) start (t ++ [0]) -> Forall (fun c => c <> 0) t ->
  pipe_strlen p start s = Ok (Z.of_nat (length t)) s.
Proof using All.
  intros L R B F. unfold pipe_strlen. rewrite (pipe_strlen_loop p start s t 0); rewrite ?Z.add_0_r; try done; lia.
Qed.

(** ** The two ends *)

Lemma bytes_at_lookup m t : forall a,
  bytes_at m a t <-> forall i c, t !! i = Some c -> load8 m (a + Z.of_nat i) = c.
Proof using All.
  induction t as [|x t IH]; intros a; cbn [bytes_at]; [done|]. rewrite IH. split.
  - intros [E F] [|i] c; cbn [lookup list_lookup]; [intros [= <-]; by rewrite Z.add_0_r|].
    intros G. rewrite <- (F i c G). f_equal. lia.
  - intros F. split; [rewrite <- (F 0%nat x eq_refl); f_equal; lia|].
    intros i c G. rewrite <- (F (S i) c G). f_equal. lia.
Qed.

Lemma bytes_at_blit t src so dst d : bytes_at src so t ->
  bytes_at (blit (length t) src so dst d) d t.
Proof using All.
  intros B. apply (bytes_at_lookup _ t). intros i c E.
  pose proof (lookup_lt_Some _ _ _ E). rewrite load8_blit, decide_True by lia.
  replace (so + (d + Z.of_nat i - d)) with (so + Z.of_nat i) by lia.
  by apply (bytes_at_lookup src t).
Qed.

Lemma bytes_at_store_nul m t a : bytes_at m a t ->
  bytes_at (store8 m (a + Z.of_nat (length t)) 0) a (t ++ [0]).
Proof using All.
  intros B. apply bytes_at_app. split.
  - apply bytes_at_lookup. intros i c E. pose proof (lookup_lt_Some _ _ _ E).
    rewrite load8_store8, decide_False by lia. by apply (bytes_at_lookup m t).
  - cbn [bytes_at]. by rewrite load8_store8, decide_True.
Qed.

(** The pipe after the writer has printed [t]. *)
Definition pipe_holds (p : io_pipline_t) (num : Z) (t : list Z) : Prop :=
  stdin_close p = 1 /\ buf_len p = Z.of_nat (length t) /\ buf_pos p = 0 /\
  bytes_at (pipe_buf p) (num * IO_PIPELINE_BUF_SIZE) (t ++ [0]).

Lemma pipe_out_run s src pa t :
  caller s src pa -> bytes_at (sys_mem s) pa t -> in_dram pa (Z.of_nat (length t)) = true ->
  Z.of_nat (length t) < IO_PIPELINE_BUF_SIZE ->
  buf_len (pipe_of s) = 0 -> buf_pos (pipe_of s) = 0 -> 
  load8 (pipe_buf (pipe_of s)) (num_of s * IO_PIPELINE_BUF_SIZE + Z.of_nat (length t)) = 0 ->
  exists s', pipe_out src (Z.of_nat (length t)) s = Ok 0 s' /\
    pipline_num s' = pipline_num s /\ pipe_holds (pipe_of s') (num_of s') t.
Proof using All.
  intros C B D N L P Z0. unfold pipe_out, sys_user_pipline_write, sys_user_print.
  unfold bind at 1 2. rewrite assert_current_zoom by apply C.
  unfold bind at 1, upd_pipline at 1, modify at 1.
  fold (pipe_of s). set (s1 := set_pipline_buf _ s).
  assert (C1 : caller s1 src pa) by (apply (caller_frame s _ _ _ _ C)).
  assert (P1 : pipe_of s1 = set_stdin_close 1 (pipe_of s)).
  { unfold pipe_of at 1, s1. cbn. by rewrite lookup_insert_eq. }
  cbn [ret]. unfold bind at 1. rewrite assert_current_zoom by apply C1.
  unfold bind at 1. rewrite (proj2 C1).
  unfold bind at 1, get_pipline at 1, gets at 1. fold (pipe_of s1). rewrite P1.
  cbn [stdin_close set_stdin_close negb Z.eqb].
  unfold pipe_put, bind, get_pipline, get_pipline_num, gets, upd_pipline, modify, ret.
  fold (pipe_of s1) (num_of s1). rewrite P1.
  cbn [buf_len set_stdin_close]. rewrite L, Z.add_0_l, s32_small by (unfold IO_PIPELINE_BUF_SIZE in N; lia).
  rewrite (proj2 (Z.ltb_lt _ _) N), Z.sub_0_r, (proj2 (Z.leb_le _ _)), D by lia. cbn [andb].
  eexists. split; [done|]. split; [done|].
  change (num_of _) with (num_of s). unfold pipe_of at 1. cbn [set_pipline_buf pipline_buf].
  rewrite lookup_insert_eq. change (num_of _) with (num_of s). fold (pipe_of s1). rewrite P1. cbn [default]. split; [done|]. split; [done|]. split; [exact P|].
  unfold id. cbn [pipe_buf set_buf_len set_pipe_buf buf_len set_stdin_close]. rewrite L, Z.add_0_r, Nat2Z.id.
  apply bytes_at_app. split; [by apply bytes_at_blit|].
  cbn [bytes_at]. split; [|done]. rewrite load8_blit, decide_False by lia. exact Z0.
Qed.

(** The reader gets the word and the pipe is closed, whatever follows the word. *)
Lemma pipe_in_run s dst pa w r local :
  caller s dst pa -> in_dram pa (Z.of_nat (length w) + 1) = true ->
  0 <= num_of s < 2 -> pipe_holds (pipe_of s) (num_of s) (w ++ r) ->
  first_word w r -> Forall (fun c => c <> 0) (w ++ r) ->
  Z.of_nat (length (w ++ r)) < IO_PIPELINE_BUF_SIZE ->
  exists s', pipe_in local dst s = Ok 1 s' /\ bytes_at (sys_mem s') pa (w ++ [0]) /\
    pipe_of s' = IoPipline 0 0 (pipe_buf (pipe_of s)) 0 0.
Proof using All.
  intros C D M (I & L & P & B) F NZ N. unfold pipe_in, sys_user_pipline_read, sys_user_scanf.
  unfold bind at 1 2. rewrite assert_current_zoom by apply C.
  unfold bind at 1, upd_pipline at 1, modify at 1. unfold bind at 1, modify at 1.
  fold (pipe_of s). change (default 0 _) with (num_of s).
  set (s1 := set_pipline_num _ _).
  assert (C1 : caller s1 dst pa) by (apply (caller_frame s _ _ _ _ C)).
  assert (P1 : pipe_of s1 = set_stdout_close 1 (pipe_of s)).
  { unfold pipe_of at 1, s1. cbn. by rewrite lookup_insert_eq. }
  assert (N1 : (num_of s1 + 1) mod 2 = num_of s).
  { unfold num_of at 1, s1. cbn [pipline_num set_pipline_num]. rewrite lookup_insert_eq.
    cbn [default]. unfold id. assert (num_of s = 0 \/ num_of s = 1) as [-> | ->] by lia; done. }
  cbn [ret]. unfold bind at 1. rewrite assert_current_zoom by apply C1.
  unfold bind at 1. rewrite (proj2 C1).
  unfold bind at 1, get_pipline at 1, gets at 1. fold (pipe_of s1). rewrite P1.
  cbn [stdout_close set_stdout_close negb Z.eqb].
  unfold pipe_take, bind, get_pipline, get_pipline_num, gets.
  fold (pipe_of s1) (num_of s1). rewrite P1, N1.
  cbn [buf_len buf_pos set_stdout_close]. rewrite L, P, Z.add_0_r, Z.sub_0_r.
  assert (0 <= num_of s * IO_PIPELINE_BUF_SIZE <= IO_PIPELINE_BUF_SIZE)
    by (unfold IO_PIPELINE_BUF_SIZE; lia).
  pose proof (proj1 (bytes_at_app _ _ _ _) B) as [BT _].
  rewrite (token_length_run _ _ _ w r) by (done || lia). rewrite D.
  unfold modify. rewrite (pipe_strlen_run _ _ _ (w ++ r)) by (done || lia).
  rewrite Z.add_0_l, s32_small by (unfold IO_PIPELINE_BUF_SIZE in *; lia).
  unfold upd_pipline, modify, ret. eexists. split; [done|]. split.
  - cbn [sys_mem sys_fs set_pipline_buf set_sys_fs fs_mem set_fs_mem]. rewrite Nat2Z.id.
    cbn [pipe_buf set_stdout_close]. apply bytes_at_store_nul, bytes_at_blit.
    exact (proj1 (proj1 (bytes_at_app _ _ _ _) BT)).
  - unfold pipe_of at 1. cbn [pipline_buf set_pipline_buf]. rewrite lookup_insert_eq.
    change (pipline_buf (set_sys_fs _ s1)) with (pipline_buf s1). fold (pipe_of s1).
    rewrite P1. unfold default, id. cbn [buf_len set_stdout_close]. rewrite L, (proj2 (Z.leb_le _ _)) by lia. done.
Qed.


End Pipe.

(** A process of hart 0 with one page, which holds the text [ab cd]. *)
Definition demo_pipe_mem : bytes :=
  put_string (store64 (store64 (store64 ∅ 0x80002000 (PA2PTE 0x80003000 + 1))
    0x80003000 (PA2PTE 0x80004000 + 1)) 0x80004000 (PA2PTE 0x80005000 + 0x17))
    0x80005000 [97; 98; 32; 99; 100].
Definition demo_pipe : sys :=
  Sys (Fs (Kernel (Vm (set_mem demo_pipe_mem (free_pages 4)) 0)
          {[1 := Process 0 0x80002000 0 (HeapMan 0 0 0 0) 0 0 1 RUNNING None None 0 0]}
          {[0 := 1]} ∅ ∅ ∅ 0 ∅ 0 0 ∅ 0 0 0 0 0 ∅ ∅)
        ∅ ∅ ∅ ∅ ∅ ∅ ∅ ∅ ∅ ∅ ∅ ∅ ∅ ∅ ∅) ∅ [] ∅ ∅.

