(* ===== verification/Machine.v ===== *)
(** * Machine mode (kernel/machine/mtrap.c, kernel/machine/minit.c)

    The handler of machine-mode traps, which reports the source line of a fault
    and passes the timer on to supervisor mode, and the set-up of the machine
    registers. *)

From Stdlib Require Import String Ascii.
From S2P Require Import Prelude Mem Literals StringLib Printf Vmm Kernel Process Trap Fs Hostfs Dwarf System Elf UserHeap.
From stdpp Require Import base gmap list fin_maps.
From Stdlib Require Import ZArith Lia Bool.

Set Default Goal Selector "!".
Open Scope Z_scope.

(** ** Constants (kernel/riscv.h, kernel/config.h) *)

Definition MSTATUS_MPP_MASK : Z := Z.shiftl 3 11.
Definition MSTATUS_MPP_S : Z := Z.shiftl 1 11.
Definition MSTATUS_MIE : Z := Z.shiftl 1 3.
Definition IRQ_S_SOFT : Z := 1.
Definition IRQ_S_TIMER : Z := 5.
Definition IRQ_S_EXT : Z := 9.
Definition MIP_SSIP : Z := Z.shiftl 1 IRQ_S_SOFT.
Definition MIP_STIP : Z := Z.shiftl 1 IRQ_S_TIMER.
Definition MIP_SEIP : Z := Z.shiftl 1 IRQ_S_EXT.
Definition CAUSE_MISALIGNED_FETCH : Z := 0x0.
Definition CAUSE_FETCH_ACCESS : Z := 0x1.
Definition CAUSE_ILLEGAL_INSTRUCTION : Z := 0x2.
Definition CAUSE_BREAKPOINT : Z := 0x3.
Definition CAUSE_MISALIGNED_LOAD : Z := 0x4.
Definition CAUSE_LOAD_ACCESS : Z := 0x5.
Definition CAUSE_MISALIGNED_STORE : Z := 0x6.
Definition CAUSE_STORE_ACCESS : Z := 0x7.
Definition CAUSE_FETCH_PAGE_FAULT : Z := 0xc.
Definition CAUSE_MTIMER : Z := 0x8000000000000007.
Definition SIE_SEIE : Z := Z.shiftl 1 9.
Definition SIE_STIE : Z := Z.shiftl 1 5.
Definition SIE_SSIE : Z := Z.shiftl 1 1.
Definition MIE_MTIE : Z := Z.shiftl 1 7.
Definition TIMER_INTERVAL : Z := 1000000.

(** ** The state *)

Record mcsr : Type := Mcsr {
  mcause : Z;
  mepc : Z;
  mtvec : Z;
  mscratch : Z;
  mstatus : Z;
  mie : Z;
  mideleg : Z;
  medeleg : Z;
  misa : Z;
  sie : Z
}.

Definition set_mepc (x : Z) (r : mcsr) : mcsr :=
  Mcsr (mcause r) x (mtvec r) (mscratch r) (mstatus r) (mie r) (mideleg r) (medeleg r) (misa r) (sie r).
Definition set_mtvec (x : Z) (r : mcsr) : mcsr :=
  Mcsr (mcause r) (mepc r) x (mscratch r) (mstatus r) (mie r) (mideleg r) (medeleg r) (misa r) (sie r).
Definition set_mscratch (x : Z) (r : mcsr) : mcsr :=
  Mcsr (mcause r) (mepc r) (mtvec r) x (mstatus r) (mie r) (mideleg r) (medeleg r) (misa r) (sie r).
Definition set_mstatus (x : Z) (r : mcsr) : mcsr :=
  Mcsr (mcause r) (mepc r) (mtvec r) (mscratch r) x (mie r) (mideleg r) (medeleg r) (misa r) (sie r).
Definition set_mie (x : Z) (r : mcsr) : mcsr :=
  Mcsr (mcause r) (mepc r) (mtvec r) (mscratch r) (mstatus r) x (mideleg r) (medeleg r) (misa r) (sie r).
Definition set_deleg (i e : Z) (r : mcsr) : mcsr :=
  Mcsr (mcause r) (mepc r) (mtvec r) (mscratch r) (mstatus r) (mie r) i e (misa r) (sie r).
Definition set_sie (x : Z) (r : mcsr) : mcsr :=
  Mcsr (mcause r) (mepc r) (mtvec r) (mscratch r) (mstatus r) (mie r) (mideleg r) (medeleg r) (misa r) x.

(** The timer of the CLINT: [mtime] and one [mtimecmp] per hart. *)
Record machine : Type := Machine {
  mach_sys : sys;
  mcsrs : gmap Z mcsr;
  mtime : Z;
  mtimecmp : gmap Z Z
}.

Definition set_mach_sys (x : sys) (s : machine) : machine :=
  Machine x (mcsrs s) (mtime s) (mtimecmp s).
Definition set_mcsrs (x : gmap Z mcsr) (s : machine) : machine :=
  Machine (mach_sys s) x (mtime s) (mtimecmp s).
Definition set_mtimecmp (x : gmap Z Z) (s : machine) : machine :=
  Machine (mach_sys s) (mcsrs s) (mtime s) x.

Definition sysL : lens machine sys := Lens mach_sys set_mach_sys.
Definition get_mcsr (h : Z) : M machine mcsr := let* t := gets mcsrs in of_option (t !! h).
Definition upd_mcsr (h : Z) (f : mcsr -> mcsr) : M machine unit :=
  let* r := get_mcsr h in modify (fun s => set_mcsrs (<[h := f r]> (mcsrs s)) s).

(** ** The source line of a fault *)

Section WithHost.
  Context `{Host}.

(** Lines before the one wanted; [buf] is the address of the local array. *)
Definition skip_round (f buf target_line : Z) (x : Z * Z) : M fs (Z * Z + Z * Z) :=
  let '(cur_line, off) := x in
  if cur_line <? target_line - 1 then
    let* n := spike_file_pread f buf 1 off in
    if negb (n =? 1) then ret (inr (cur_line, u64 (off + 1)))
    else
      let* c := fload 1 buf in
      ret (inl (if c =? 10 then cur_line + 1 else cur_line, u64 (off + 1)))
  else ret (inr (cur_line, off)).

Definition show_round (f buf off : Z) : M sys (Z + unit) :=
  let* n := zoom fsL (spike_file_pread f buf 1 off) in
  if negb (n =? 1) then ret (inr tt)
  else
    let* c := zoom fsL (fload 1 buf) in
    if (c =? 10) || (c =? 13) then ret (inr tt)
    else sprint (str "%c") [VNum c] ;;; ret (inl (u64 (off + 1))).

(** [fuel] bounds the number of bytes of the file. *)
Definition print_source_code_line (fuel : nat) (buf : Z) (path : name) (target_line : Z) : M sys unit :=
  let* f := zoom fsL (spike_file_open path O_RDONLY 0) in
  if IS_ERR_VALUE f then panic
  else
    let* (cur_line, off) := zoom fsL (loop fuel (skip_round f buf target_line) (0, 0)) in
    (if cur_line =? target_line - 1 then
       loop fuel (show_round f buf) off ;;;
       sprint [10] []
     else ret tt) ;;;
    let* _ := zoom fsL (spike_file_close f) in
    ret tt.

(** The row with the greatest address that is not above [epc], the first of
    them; -1 when there is none. *)
Definition nearest_round (line line_ind epc : Z) (x : Z * Z) : M fs (Z * Z + Z) :=
  let '(i, line_num) := x in
  let row k := fload 8 (line + SIZEOF_ADDR_LINE * k) in
  if i <? line_ind then
    let* a := row i in
    if a <=? epc then
      if line_num =? -1 then ret (inl (i + 1, i))
      else
        let* b := row line_num in
        ret (inl (i + 1, if b <? a then i else line_num))
    else ret (inl (i + 1, line_num))
  else ret (inr line_num).

Definition nearest_row (line line_ind epc : Z) : M fs Z :=
  loop (S (Z.to_nat line_ind)) (nearest_round line line_ind epc) (0, -1).

(** The message for row [line_num]. *)
Definition report_line (fuel : nat) (buf : Z) (li : line_info) (line_num : Z) : M sys unit :=
  let row := li_line li + SIZEOF_ADDR_LINE * line_num in
  let* file_idx := zoom fsL (fload 8 (row + 16)) in
  if 64 <=? file_idx then
    sprint (str "print_error_msg: file_idx %d out of bounds" ++ [10]) [VNum file_idx]
  else
    let* dir_idx := zoom fsL (fload 8 (li_file li + SIZEOF_CODE_FILE * file_idx)) in
    if 64 <=? dir_idx then
      sprint (str "print_error_msg: dir_idx %d out of bounds" ++ [10]) [VNum dir_idx]
    else
      let* dir_ptr := zoom fsL (fload 8 (li_dir li + 8 * dir_idx)) in
      let* file_ptr := zoom fsL (fload 8 (li_file li + SIZEOF_CODE_FILE * file_idx + 8)) in
      let* l := zoom fsL (fload 8 (row + 8)) in
      let source_line := s32 l in
      let* dir_path := string_arg dir_ptr in
      let* file_name := string_arg file_ptr in
      sprint (str "Runtime error at %s/%s:%d" ++ [10]) [VStr dir_path; VStr file_name; VNum source_line] ;;;
      print_source_code_line fuel buf (dir_path ++ [47] ++ file_name) source_line.

Definition print_error_msg (fuel : nat) (buf epc : Z) (li : line_info) : M sys unit :=
  if (debugline li =? 0) || (li_dir li =? 0) || (li_file li =? 0) then ret tt
  else
    let* line_num := zoom fsL (nearest_row (li_line li) (li_line_ind li) epc) in
    if line_num =? -1 then ret tt else report_line fuel buf li line_num.

(** ** Traps *)

(** [print_error_msg(current[hartid])] before the panic of the six handlers. *)
Definition report_fault (fuel : nat) (buf hartid : Z) : M machine unit :=
  assert (hartid <? NCPU) ;;;
  let* c := zoom sysL (zoom kernelL (cur hartid)) in
  let* li := gets (fun s => default no_lines (line_infos (mach_sys s) !! c)) in
  let* r := get_mcsr hartid in
  zoom sysL (print_error_msg fuel buf (mepc r) li).

Definition handle_instruction_access_fault (fuel : nat) (buf hartid : Z) : M machine unit :=
  report_fault fuel buf hartid ;;; panic.
Definition handle_load_access_fault (fuel : nat) (buf hartid : Z) : M machine unit :=
  report_fault fuel buf hartid ;;; panic.
Definition handle_store_access_fault (fuel : nat) (buf hartid : Z) : M machine unit :=
  report_fault fuel buf hartid ;;; panic.
Definition handle_illegal_instruction (fuel : nat) (buf hartid : Z) : M machine unit :=
  report_fault fuel buf hartid ;;; panic.
Definition handle_misaligned_load (fuel : nat) (buf hartid : Z) : M machine unit :=
  report_fault fuel buf hartid ;;; panic.
Definition handle_misaligned_store (fuel : nat) (buf hartid : Z) : M machine unit :=
  report_fault fuel buf hartid ;;; panic.

Definition handle_timer (cpuid : Z) : M machine unit :=
  let* t := gets mtimecmp in
  let* c := of_option (t !! cpuid) in
  modify (set_mtimecmp (<[cpuid := u64 (c + TIMER_INTERVAL)]> t)) ;;;
  zoom sysL (zoom kernelL (upd_csr cpuid (set_sip SIP_SSIP))).

Definition handle_mtrap (fuel : nat) (buf hartid : Z) : M machine unit :=
  let* r := get_mcsr hartid in
  let c := mcause r in
  if c =? CAUSE_MTIMER then handle_timer hartid
  else if c =? CAUSE_FETCH_ACCESS then handle_instruction_access_fault fuel buf hartid
  else if c =? CAUSE_LOAD_ACCESS then
    handle_load_access_fault fuel buf hartid ;;;
    handle_store_access_fault fuel buf hartid
  else if c =? CAUSE_STORE_ACCESS then handle_store_access_fault fuel buf hartid
  else if c =? CAUSE_ILLEGAL_INSTRUCTION then handle_illegal_instruction fuel buf hartid
  else if c =? CAUSE_MISALIGNED_LOAD then handle_misaligned_load fuel buf hartid
  else if c =? CAUSE_MISALIGNED_STORE then handle_misaligned_store fuel buf hartid
  else panic.

(** ** Set-up *)

(** [supports_extension('S')]: bit 18 of [misa]. *)
Definition supports_extension (ext : Z) (r : mcsr) : bool := has (misa r) (Z.shiftl 1 (ext - 65)).

Definition delegate_traps (hartid : Z) : M machine unit :=
  let* r := get_mcsr hartid in
  if negb (supports_extension 83 r) then
    zoom sysL (sprint (str "S mode is not supported." ++ [10]) [])
  else
    let interrupts := Z.lor (Z.lor MIP_SSIP MIP_STIP) MIP_SEIP in
    let exceptions := foldr Z.lor 0 (Z.shiftl 1 <$>
      [CAUSE_MISALIGNED_FETCH; CAUSE_FETCH_PAGE_FAULT; CAUSE_BREAKPOINT; CAUSE_LOAD_PAGE_FAULT;
       CAUSE_STORE_PAGE_FAULT; CAUSE_USER_ECALL]) in
    upd_mcsr hartid (set_deleg interrupts exceptions) ;;;
    let* r := get_mcsr hartid in
    assert (mideleg r =? interrupts) ;;;
    assert (medeleg r =? exceptions).

Definition timerinit (hartid : Z) : M machine unit :=
  modify (fun s => set_mtimecmp (<[hartid := u64 (mtime s + TIMER_INTERVAL)]> (mtimecmp s)) s) ;;;
  upd_mcsr hartid (fun r => set_mie (Z.lor (mie r) MIE_MTIE) r).

(** [m_start] after its barrier: [g_itrframe], [s_start] and [mtrapvec] are the
    addresses of these symbols. *)
Definition m_start_hart (g_itrframe s_start mtrapvec hartid : Z) : M machine unit :=
  upd_mcsr hartid (set_mscratch g_itrframe) ;;;
  upd_mcsr hartid (fun r =>
    set_mstatus (Z.lor (Z.land (mstatus r) (Z.lnot MSTATUS_MPP_MASK)) MSTATUS_MPP_S) r) ;;;
  upd_mcsr hartid (set_mepc s_start) ;;;
  upd_mcsr hartid (set_mtvec mtrapvec) ;;;
  upd_mcsr hartid (fun r => set_mstatus (Z.lor (mstatus r) MSTATUS_MIE) r) ;;;
  delegate_traps hartid ;;;
  upd_mcsr hartid (fun r => set_sie (Z.lor (Z.lor (Z.lor (sie r) SIE_SEIE) SIE_STIE) SIE_SSIE) r) ;;;
  timerinit hartid.

End WithHost.
