(* ===== verification/Boot.v ===== *)
(** * Start of the kernel (kernel/kernel.c)

    What each hart does in supervisor mode between the barriers: hart 0
    initialises the kernel, then every hart turns paging on, loads its program
    and puts it in its ready queue, and finally schedules. *)

From S2P Require Import Prelude Mem Pmm StringLib Vmm Kernel Process Sched Semaphore Fs Hostfs ProcFile System Elf UserHeap.
From stdpp Require Import base gmap list fin_maps.
From Stdlib Require Import ZArith Lia Bool.

Set Default Goal Selector "!".
Open Scope Z_scope.

(** [HTIFSYS_getmainvars]: the host writes the number of arguments and pointers
    to them to a buffer. *)
Class HostArgs : Type := { frontend_getmainvars : Z -> Z -> M fs Z }.

Definition MAX_CMDLINE_ARGS : Z := 64.

Definition enable_paging (hartid : Z) : M kernel unit :=
  let* t := gets (fun s => g_kernel_pagetable (k_vm s)) in
  upd_csr hartid (set_satp (MAKE_SATP t)).

(** The part of a path behind its last '/'. *)
Fixpoint get_executable_name (path : name) : name :=
  match path with
  | [] => []
  | c :: rest =>
      if bool_decide (47 ∈ rest) then get_executable_name rest
      else if c =? 47 then rest else path
  end.

Section WithHost.
  Context `{Host} `{HostArgs} `{ElfData} `{Symbols}.

(** [arg] is the address of the union: [buf[i]] and [argv[i]] are the same
    words. *)
Definition parse_args (arg : Z) : M fs Z :=
  let* r := frontend_getmainvars arg (8 * MAX_CMDLINE_ARGS) in
  assert (r =? 0) ;;;
  let* pk_argc := fload 8 arg in
  loop (S (Z.to_nat pk_argc)) (fun i =>
    if 1 + i <? pk_argc then
      let* a := fload 8 (arg + 8 * (2 + i)) in
      fstore 8 (arg + 8 * i) a ;;;
      ret (inl (i + 1))
    else ret (inr tt)) 0 ;;;
  ret (u64 (pk_argc - 1)).

(** The name of the program is computed and dropped: the comma operator compares
    the literal with NULL. *)
Definition load_user_program (L : elf_locals) (arg hartid : Z) : M sys Z :=
  assert (hartid <? NCPU) ;;;
  let* proc := zoom kernelL (alloc_process hartid) in
  let* argc := zoom fsL (parse_args arg) in
  if argc =? 0 then panic
  else if hartid <? argc then
    let* a := zoom fsL (fload 8 (arg + 8 * hartid)) in
    let* path := string_arg a in
    let _ := get_executable_name path in
    load_bincode_from_host_elf L hartid proc path ;;;
    ret proc
  else
    zoom kernelL (upd_proc proc (set_status ZOMBIE)) ;;;
    ret proc.

(** [s_start] up to the first barrier; [kernel_end] and [etext] are linker
    symbols, [junk] is as in [fs_init]. *)
Definition vmL : lens kernel vm := Lens k_vm set_k_vm.
Definition s_init (kernel_end etext : Z) (junk : list Z) (hartid : Z) : M sys unit :=
  assert (hartid <? NCPU) ;;;
  zoom kernelL (upd_csr hartid (set_satp 0)) ;;;
  if hartid =? 0 then
    zoom sys_pmmL (pmm_init kernel_end) ;;;
    zoom kernelL (zoom vmL (kern_vm_init etext)) ;;;
    zoom kernelL init_proc_pool ;;;
    zoom fsL (fs_init junk) ;;;
    zoom kernelL init_semaphore_pool
  else ret tt.

(** From the first to the second barrier. *)
Definition s_load (L : elf_locals) (arg hartid : Z) : M sys unit :=
  zoom kernelL (enable_paging hartid) ;;;
  let* user_proc := load_user_program L arg hartid in
  let* p := zoom kernelL (get_proc user_proc) in
  if bool_decide (status p = ZOMBIE) then
    let* _ := zoom kernelL (free_process user_proc) in ret tt
  else zoom kernelL (insert_to_ready_queue hartid user_proc).

(** After the second barrier. *)
Definition s_run (hartid : Z) : M sys control := zoom kernelL (schedule hartid).

End WithHost.
