(* ===== verification/DeviceTree.v ===== *)
(** * The device tree (spike_interface/dts_parse.c, spike_memory.c, spike_htif.c)

    [fdt_scan] walks over a flattened device tree and calls back on nodes and
    properties; [query_mem] and [query_htif] use it at boot to find the size of
    the memory and the host interface.  The scan is shown to visit the tree that
    the bytes encode, and [query_mem] to find the region the kernel runs in. *)

From Stdlib Require Import String Ascii.
From S2P Require Import Prelude Mem StringLib Literals.
From stdpp Require Import base gmap list fin_maps.
From Stdlib Require Import ZArith Lia Bool.

Set Default Goal Selector "!".
Open Scope Z_scope.

(** ** Constants *)

Definition FDT_MAGIC : Z := 0xd00dfeed.
Definition FDT_VERSION : Z := 17.
Definition FDT_BEGIN_NODE : Z := 1.
Definition FDT_END_NODE : Z := 2.
Definition FDT_PROP : Z := 3.
Definition FDT_NOP : Z := 4.
Definition FDT_END : Z := 9.

(** Offsets in [struct fdt_header]. *)
Definition FDT_OFF_STRUCT : Z := 8.
Definition FDT_OFF_STRINGS : Z := 12.
Definition FDT_LAST_COMP : Z := 24.

Definition bswap (x : Z) : Z :=
  let y := Z.lor (u32 (Z.shiftl (Z.land x 0x00FF00FF) 8)) (Z.shiftr (Z.land x 0xFF00FF00) 8) in
  Z.lor (u32 (Z.shiftl (Z.land y 0x0000FFFF) 16)) (Z.shiftr (Z.land y 0xFFFF0000) 16).

(** A word of the tree, big-endian. *)
Definition cell (m : bytes) (a : Z) : Z := bswap (load32 m a).

(** ** Scanning *)

(** [struct fdt_scan_node]; [parent] is the node as it is when the child is
    scanned, since a node changes no more after its first child is opened. *)
Inductive fdt_scan_node : Type := ScanNode {
  sn_parent : option fdt_scan_node;
  sn_name : Z;
  address_cells : Z;
  size_cells : Z
}.

Record fdt_scan_prop : Type := ScanProp {
  sp_node : option fdt_scan_node;
  sp_name : Z;
  sp_value : Z;
  sp_len : Z
}.

(** The memory with the tree, and what the callbacks keep. *)
Record scan_env (X : Type) : Type := ScanEnv { dt_mem : bytes; dt_extra : X }.
Arguments ScanEnv {X}.
Arguments dt_mem {X}.
Arguments dt_extra {X}.

Definition dt_memL {X} : lens (scan_env X) bytes :=
  Lens dt_mem (fun m s => ScanEnv m (dt_extra s)).

Record fdt_cb (X : Type) : Type := FdtCb {
  cb_open : option (fdt_scan_node -> M (scan_env X) unit);
  cb_prop : fdt_scan_prop -> M (scan_env X) unit;
  cb_done : option (fdt_scan_node -> M (scan_env X) unit);
  cb_close : option (fdt_scan_node -> M (scan_env X) Z)
}.
Arguments FdtCb {X}.
Arguments cb_open {X}.
Arguments cb_prop {X}.
Arguments cb_done {X}.
Arguments cb_close {X}.

Section Scan.
  Context {X : Type} (cb : fdt_cb X) (strings : Z).

Definition lex_at (a : Z) : M (scan_env X) Z := gets (fun s => cell (dt_mem s) a).
Definition name_is (a : Z) (l : list Z) : M (scan_env X) bool := gets (fun s => streq (dt_mem s) a l).

(** [if (!last && node && cb->done) cb->done(node, cb->extra);] *)
Definition call_done (last : bool) (node : option fdt_scan_node) : M (scan_env X) unit :=
  match node, cb_done cb with
  | Some n, Some f => if last then ret tt else f n
  | _, _ => ret tt
  end.

Definition call_open (child : fdt_scan_node) : M (scan_env X) unit :=
  match cb_open cb with Some f => f child | None => ret tt end.

(** The words of a deleted node become [FDT_NOP]. *)
Definition erase_round (lex_next lex : Z) : M (scan_env X) (Z + unit) :=
  if lex =? lex_next then ret (inr tt)
  else
    zoom dt_memL (modify (fun m => store32 m lex (bswap FDT_NOP))) ;;;
    ret (inl (lex + 4)).

Definition call_close (lex lex_next : Z) (child : fdt_scan_node) : M (scan_env X) unit :=
  match cb_close cb with
  | None => ret tt
  | Some f =>
      let* r := f child in
      if r =? -1 then loop (S (Z.to_nat (lex_next - lex))) (erase_round lex_next) lex else ret tt
  end.

(** A property of [node]: the node with its cell counts, and the next word. *)
Definition scan_prop (lex : Z) (node : option fdt_scan_node)
    : M (scan_env X) (Z * option fdt_scan_node) :=
  let* nameoff := lex_at (lex + 8) in
  let* len := lex_at (lex + 4) in
  let name := strings + nameoff in
  let* is_ac := name_is name (str "#address-cells") in
  let* is_sc := name_is name (str "#size-cells") in
  let* v := lex_at (lex + 12) in
  let node := if is_ac then
      (fun n => ScanNode (sn_parent n) (sn_name n) (s32 v) (size_cells n)) <$> node else node in
  let node := if is_sc then
      (fun n => ScanNode (sn_parent n) (sn_name n) (address_cells n) (s32 v)) <$> node else node in
  cb_prop cb (ScanProp node name (lex + 12) (s32 len)) ;;;
  ret (lex + 4 * (3 + Z.quot (s32 (s32 len + 3)) 4), node).

(** [fdt_scan_helper]: [child] is the local variable of that name, used for every
    child in turn; the node comes back as its properties have left it. *)
Fixpoint fdt_scan_helper (fuel : nat) (lex : Z) (node : option fdt_scan_node)
    (child : Z * Z) (last : bool) : M (scan_env X) (Z * option fdt_scan_node) :=
  match fuel with
  | O => diverge
  | S fuel =>
      let* tag := lex_at lex in
      if tag =? FDT_NOP then fdt_scan_helper fuel (lex + 4) node child last
      else if tag =? FDT_PROP then
        assert (negb last) ;;;
        let* (lex, node) := scan_prop lex node in
        fdt_scan_helper fuel lex node child last
      else if tag =? FDT_BEGIN_NODE then
        call_done last node ;;;
        let c := ScanNode node (lex + 4) (fst child) (snd child) in
        call_open c ;;;
        let* len := zoom dt_memL (strlen fuel (lex + 4)) in
        let* (lex_next, c') := fdt_scan_helper fuel (lex + 4 * (2 + len / 4)) (Some c) (2, 1) false in
        let c' := default c c' in
        call_close lex lex_next c' ;;;
        fdt_scan_helper fuel lex_next node (address_cells c', size_cells c') true
      else if tag =? FDT_END_NODE then call_done last node ;;; ret (lex + 4, node)
      else call_done last node ;;; ret (lex, node)
  end.

End Scan.

Definition fdt_scan {X} (fuel : nat) (cb : fdt_cb X) (fdt : Z) : M (scan_env X) unit :=
  let* magic := lex_at fdt in
  let* comp := lex_at (fdt + FDT_LAST_COMP) in
  if negb (magic =? FDT_MAGIC) || (FDT_VERSION <? comp) then ret tt
  else
    let* off_strings := lex_at (fdt + FDT_OFF_STRINGS) in
    let* off_struct := lex_at (fdt + FDT_OFF_STRUCT) in
    let* _ := fdt_scan_helper cb (fdt + off_strings) fuel (fdt + off_struct) None (2, 1) false in
    ret tt.

(** [fdt_get_address] and [fdt_get_size]: [cells] words make a number. *)
Fixpoint get_cells (m : bytes) (cells : nat) (value result : Z) : Z * Z :=
  match cells with
  | O => (value, result)
  | S n => get_cells m n (value + 4) (u64 (u64 (Z.shiftl result 32) + cell m value))
  end.
Definition fdt_get_address (m : bytes) (node : fdt_scan_node) (value : Z) : Z * Z :=
  get_cells m (Z.to_nat (address_cells node)) value 0.
Definition fdt_get_size (m : bytes) (node : fdt_scan_node) (value : Z) : Z * Z :=
  get_cells m (Z.to_nat (size_cells node)) value 0.

(** ** The size of the memory *)

(** [struct mem_scan] and [g_mem_size]. *)
Record mem_scan : Type := MemScan {
  ms_memory : Z;
  ms_reg_value : Z;
  ms_reg_len : Z;
  ms_mem_size : Z
}.

Definition get_scan {X} : M (scan_env X) X := gets dt_extra.
Definition put_scan {X} (x : X) : M (scan_env X) unit := modify (fun s => ScanEnv (dt_mem s) x).

Definition mem_open (node : fdt_scan_node) : M (scan_env mem_scan) unit :=
  let* x := get_scan in put_scan (MemScan 0 0 0 (ms_mem_size x)).

Definition mem_prop (p : fdt_scan_prop) : M (scan_env mem_scan) unit :=
  let* x := get_scan in
  let* is_type := name_is (sp_name p) (str "device_type") in
  let* is_memory := name_is (sp_value p) (str "memory") in
  if is_type && is_memory then put_scan (MemScan 1 (ms_reg_value x) (ms_reg_len x) (ms_mem_size x))
  else
    let* is_reg := name_is (sp_name p) (str "reg") in
    if is_reg : bool then put_scan (MemScan (ms_memory x) (sp_value p) (sp_len p) (ms_mem_size x)) else ret tt.

(** One region; [self] is the address of the function. *)
Definition region_step (self : Z) (node : fdt_scan_node) (stop value : Z)
    : M (scan_env mem_scan) (Z + Z) :=
  if 0 <? stop - value then
    match sn_parent node with
    | None => fault
    | Some par =>
        let* m := gets dt_mem in
        let '(value, base) := fdt_get_address m par value in
        let '(value, size) := fdt_get_size m par value in
        (if (base <=? self) && (self <=? u64 (base + size)) then
           let* x := get_scan in
           put_scan (MemScan (ms_memory x) (ms_reg_value x) (ms_reg_len x) size)
         else ret tt) ;;;
        ret (inl value)
    end
  else ret (inr value).

Definition mem_done (self : Z) (node : fdt_scan_node) : M (scan_env mem_scan) unit :=
  let* x := get_scan in
  let stop := ms_reg_value x + 4 * Z.quot (ms_reg_len x) 4 in
  if ms_memory x =? 0 then ret tt
  else
    assert (negb (ms_reg_value x =? 0) && (Z.rem (ms_reg_len x) 4 =? 0)) ;;;
    let* value := loop (S (Z.to_nat (ms_reg_len x))) (region_step self node stop) (ms_reg_value x) in
    assert (stop =? value).

(** The result is [g_mem_size]; [scan] is the local variable, not initialised. *)
Definition query_mem (fuel : nat) (self fdt : Z) (scan : mem_scan) (m : bytes) : outcome bytes Z :=
  let cb := FdtCb (Some mem_open) mem_prop (Some (mem_done self)) None in
  let scan := MemScan (ms_memory scan) (ms_reg_value scan) (ms_reg_len scan) 0 in
  match fdt_scan fuel cb fdt (ScanEnv m scan) with
  | Ok _ s => if 0 <? ms_mem_size (dt_extra s) then Ok (ms_mem_size (dt_extra s)) (dt_mem s) else Panic
  | Panic => Panic
  | Fault => Fault
  | Diverge => Diverge
  end.

(** ** The host interface *)

(** [struct htif_scan] and the variable [htif]. *)
Record htif_scan : Type := HtifScan { hs_compat : Z; hs_htif : Z }.

Definition htif_open (node : fdt_scan_node) : M (scan_env htif_scan) unit :=
  let* x := get_scan in put_scan (HtifScan 0 (hs_htif x)).

Definition htif_prop (p : fdt_scan_prop) : M (scan_env htif_scan) unit :=
  let* x := get_scan in
  let* is_comp := name_is (sp_name p) (str "compatible") in
  let* is_htif := name_is (sp_value p) (str "ucb,htif0") in
  if is_comp && is_htif then put_scan (HtifScan 1 (hs_htif x)) else ret tt.

Definition htif_done (node : fdt_scan_node) : M (scan_env htif_scan) unit :=
  let* x := get_scan in
  if hs_compat x =? 0 then ret tt else put_scan (HtifScan (hs_compat x) 1).

Definition query_htif (fuel : nat) (fdt : Z) (scan : htif_scan) (m : bytes) : outcome bytes Z :=
  let cb := FdtCb (Some htif_open) htif_prop (Some htif_done) None in
  match fdt_scan fuel cb fdt (ScanEnv m scan) with
  | Ok _ s => Ok (hs_htif (dt_extra s)) (dt_mem s)
  | Panic => Panic
  | Fault => Fault
  | Diverge => Diverge
  end.

(** ** Device trees and their encoding *)

(** A node has a name, properties (name and bytes) and children. *)
Inductive tree : Type :=
| Node (name : list Z) (props : list (list Z * list Z)) (kids : list tree).

(** Big-endian numbers. *)
Definition be (l : list Z) : Z := fold_left (fun acc b => acc * 256 + b) l 0.

(** Strings that the scan compares are terminated and the cell counts are one word. *)
Definition prop_ok (name value : list Z) : Prop :=
  ((name = str "#address-cells" \/ name = str "#size-cells") -> length value = 4%nat) /\
  ((name = str "device_type" \/ name = str "compatible") -> 0 ∈ value).

Section Encoding.
  Context (m : bytes) (strings : Z).

(** [body_at top a props kids b]: from [a] to [b] the words of the tree hold the
    properties and children of a node, or the whole tree when [top]. *)
Inductive body_at : bool -> Z -> list (list Z * list Z) -> list tree -> Z -> Prop :=
| body_nop top a ps ks b :
    cell m a = FDT_NOP -> body_at top (a + 4) ps ks b -> body_at top a ps ks b
| body_prop a name value ps ks b :
    cell m a = FDT_PROP -> cell m (a + 4) = Z.of_nat (length value) ->
    Z.of_nat (length value) < 2 ^ 31 - 4 -> 0 <= a ->
    cstr m (strings + cell m (a + 8)) name -> bytes_at m (a + 12) value ->
    prop_ok name value ->
    body_at false (a + 4 * (3 + (Z.of_nat (length value) + 3) / 4)) ps ks b ->
    body_at false a ((name, value) :: ps) ks b
| body_kid top a name ps ks c rest b :
    cell m a = FDT_BEGIN_NODE -> cstr m (a + 4) name ->
    body_at false (a + 4 * (2 + Z.of_nat (length name) / 4)) ps ks c ->
    body_at top c [] rest b ->
    body_at top a [] (Node name ps ks :: rest) b
| body_end a : cell m a = FDT_END_NODE -> body_at false a [] [] (a + 4)
| body_top a : cell m a = FDT_END -> body_at true a [] [] a.

End Encoding.

(** A device tree at [fdt], whose words take [size] bytes. *)
Definition tree_at (m : bytes) (fdt : Z) (t : tree) (size : Z) : Prop :=
  cell m fdt = FDT_MAGIC /\ cell m (fdt + FDT_LAST_COMP) <= FDT_VERSION /\
  let a := fdt + cell m (fdt + FDT_OFF_STRUCT) in
  body_at m (fdt + cell m (fdt + FDT_OFF_STRINGS)) true a [] [t] (a + size).

(** ** What a scan means *)

(** A visitor of the tree: on entering a node, on a property, and after the last
    property, with the cell counts of the parent. *)
Record visitor (Y : Type) : Type := Visitor {
  v_open : M Y unit;
  v_prop : list Z -> list Z -> M Y unit;
  v_done : option (Z * Z) -> M Y unit
}.
Arguments Visitor {Y}.
Arguments v_open {Y}.
Arguments v_prop {Y}.
Arguments v_done {Y}.

Definition cells_after (name value : list Z) (c : Z * Z) : Z * Z :=
  if decide (name = str "#address-cells") then (s32 (be value), snd c)
  else if decide (name = str "#size-cells") then (fst c, s32 (be value))
  else c.

Section Visit.
  Context {Y : Type} (v : visitor Y).

Fixpoint visit_props (cells : Z * Z) (ps : list (list Z * list Z)) : M Y (Z * Z) :=
  match ps with
  | [] => ret cells
  | (name, value) :: ps => v_prop v name value ;;; visit_props (cells_after name value cells) ps
  end.

(** A node is entered with the cell counts [start]: those of the sibling before it. *)
Fixpoint visit (par : option (Z * Z)) (start : Z * Z) (t : tree) : M Y (Z * Z) :=
  match t with
  | Node _ ps ks =>
      v_open v ;;;
      let* cells := visit_props start ps in
      v_done v par ;;;
      (fix visit_kids start ks :=
         match ks with
         | [] => ret tt
         | k :: ks => let* c := visit (Some cells) start k in visit_kids c ks
         end) (2, 1) ks ;;;
      ret cells
  end.

Fixpoint visit_kids (par : option (Z * Z)) (start : Z * Z) (ks : list tree) : M Y unit :=
  match ks with
  | [] => ret tt
  | k :: ks => let* c := visit par start k in visit_kids par c ks
  end.

Definition visit_body (node : option (option (Z * Z) * (Z * Z))) (start : Z * Z) (last : bool)
    (ps : list (list Z * list Z)) (ks : list tree) : M Y (option (Z * Z)) :=
  match node with
  | None => visit_kids None start ks ;;; ret None
  | Some (par, cells) =>
      let* cells := visit_props cells ps in
      (if last then ret tt else v_done v par) ;;;
      visit_kids (Some cells) start ks ;;;
      ret (Some cells)
  end.

End Visit.

(** ** Callbacks that implement a visitor *)

(** The same outcome, with related states and values and the memory as it was. *)
Definition sim {X Y A B} (m : bytes) (R : X -> Y -> Prop) (V : A -> B -> Prop)
    (o1 : outcome (scan_env X) A) (o2 : outcome Y B) : Prop :=
  match o1, o2 with
  | Ok a s, Ok b y => dt_mem s = m /\ R (dt_extra s) y /\ V a b
  | Panic, Panic | Fault, Fault | Diverge, Diverge => True
  | _, _ => False
  end.

Lemma sim_bind {X Y A B A' B'} m (R R' : X -> Y -> Prop) (V : A -> B -> Prop) (V' : A' -> B' -> Prop)
    (c : M (scan_env X) A) (d : M Y B) (k : A -> M (scan_env X) A') (k' : B -> M Y B') s y :
  sim m R V (c s) (d y) ->
  (forall a b x y', R x y' -> V a b -> sim m R' V' (k a (ScanEnv m x)) (k' b y')) ->
  sim m R' V' (bind c k s) (bind d k' y).
Proof.
  unfold sim at 1, bind. intros Hc Hk.
  destruct (c s) as [a s'| | |], (d y) as [b y'| | |]; try done.
  destruct Hc as (<- & HR & HV). destruct s' as [m x]. by apply Hk.
Qed.

Lemma sim_conseq {X Y A B} m (R R' : X -> Y -> Prop) (V V' : A -> B -> Prop) o1 o2 :
  (forall x y, R x y -> R' x y) -> (forall a b, V a b -> V' a b) ->
  sim m R V o1 o2 -> sim m R' V' o1 o2.
Proof. unfold sim. destruct o1, o2; naive_solver. Qed.

Definition ncells (n : fdt_scan_node) : Z * Z := (address_cells n, size_cells n).
Definition pcells (n : fdt_scan_node) : option (Z * Z) := ncells <$> sn_parent n.

(** [R0] relates the states before the first node is opened, [R] after. *)
Class Implements {X Y : Type} (m : bytes) (cb : fdt_cb X) (v : visitor Y)
    (R0 R : X -> Y -> Prop) : Prop := {
  imp_weaken : forall x y, R x y -> R0 x y;
  imp_close : cb_close cb = None;
  imp_open : exists f, cb_open cb = Some f /\
    forall n x y, R0 x y -> sim m R eq (f n (ScanEnv m x)) (v_open v y);
  imp_prop : forall p name value x y,
    R x y -> cstr m (sp_name p) name -> bytes_at m (sp_value p) value ->
    sp_len p = Z.of_nat (length value) -> 0 < sp_value p -> prop_ok name value ->
    sim m R eq (cb_prop cb p (ScanEnv m x)) (v_prop v name value y);
  imp_done : exists f, cb_done cb = Some f /\
    forall n x y, R x y -> sim m R eq (f n (ScanEnv m x)) (v_done v (pcells n) y)
}.

(** ** Words and names *)

Lemma be_app l b : be (l ++ [b]) = be l * 256 + b.
Proof. unfold be. by rewrite fold_left_app. Qed.

(** Decides an equation of bits at concrete positions. *)
Ltac vm_bits :=
  match goal with |- context [Z.of_nat ?k] =>
    let z := eval vm_compute in (Z.of_nat k) in change (Z.of_nat k) with z end;
  repeat first [rewrite Z.lor_spec | rewrite Z.land_spec
    | rewrite (Z.testbit_neg_r _ (_ - _)) by lia
    | rewrite Z.shiftl_spec by lia | rewrite Z.shiftr_spec by lia
    | rewrite Z.mod_pow2_bits_low by lia];
  repeat match goal with |- context [Z.testbit (Zpos ?c) ?e] =>
    let z := eval vm_compute in (Z.testbit (Zpos c) e) in change (Z.testbit (Zpos c) e) with z end;
  rewrite ?andb_false_r, ?andb_true_r, ?orb_false_r, ?orb_false_l; reflexivity.

Lemma bswap_testbit x i : 0 <= i < 32 ->
  Z.testbit (bswap x) i = Z.testbit x (8 * (3 - i / 8) + i mod 8).
Proof.
  intros Hi. unfold bswap, u32.
  assert (exists n, i = Z.of_nat n /\ (n < 32)%nat) as (n & -> & Hn) by (exists (Z.to_nat i); lia).
  do 32 (destruct n as [|n]; [vm_bits|]).
  lia.
Qed.

Lemma testbit_byte b y i : 0 <= b < 256 ->
  Z.testbit (b + 256 * y) i = if i <? 8 then Z.testbit b i else Z.testbit y (i - 8).
Proof.
  intros Hb. destruct (Z.ltb_spec i 8).
  - destruct (Z.ltb_spec i 0); [by rewrite !Z.testbit_neg_r by lia|].
    rewrite <- (Z.mod_pow2_bits_low (b + 256 * y) 8) by lia. f_equal. dlia.
  - replace y with ((b + 256 * y) / 2 ^ 8) at 2 by dlia.
    rewrite Z.div_pow2_bits by lia. f_equal. lia.
Qed.

Lemma bswap_range x : 0 <= x < 2 ^ 32 -> 0 <= bswap x < 2 ^ 32.
Proof.
  intros Hx. assert (0 <= bswap x) as H0.
  { unfold bswap, u32. rewrite !Z.lor_nonneg, !Z.shiftr_nonneg, !Z.land_nonneg.
    split; [apply Z.mod_pos_bound; lia|right; lia]. }
  cut (bswap x mod 2 ^ 32 = bswap x); [pose proof (Z.mod_pos_bound (bswap x) (2 ^ 32)); lia|].
  apply Z.bits_inj'. intros i Hi.
  destruct (Z.ltb_spec i 32); [by rewrite Z.mod_pow2_bits_low by lia|].
  rewrite Z.mod_pow2_bits_high by lia. symmetry. unfold bswap, u32.
  rewrite Z.lor_spec, Z.mod_pow2_bits_high, Z.shiftr_spec, Z.land_spec by lia.
  rewrite (Z.bits_above_log2 0xFFFF0000) by (change (Z.log2 0xFFFF0000) with 31; lia).
  by rewrite andb_false_r.
Qed.

Lemma bits_bounded_eq x y n : 0 <= n -> 0 <= x < 2 ^ n -> 0 <= y < 2 ^ n ->
  (forall i, 0 <= i < n -> Z.testbit x i = Z.testbit y i) -> x = y.
Proof.
  intros Hn Hx Hy H. apply Z.bits_inj'. intros i Hi.
  destruct (Z.ltb_spec i n); [apply H; lia|].
  by rewrite <- (Z.mod_small x (2 ^ n)), <- (Z.mod_small y (2 ^ n)), !Z.mod_pow2_bits_high by lia.
Qed.

(** [bswap] turns a little-endian word into the big-endian one. *)
Lemma bswap_bytes b0 b1 b2 b3 :
  0 <= b0 < 256 -> 0 <= b1 < 256 -> 0 <= b2 < 256 -> 0 <= b3 < 256 ->
  bswap (b0 + 256 * (b1 + 256 * (b2 + 256 * (b3 + 256 * 0)))) = be [b0; b1; b2; b3].
Proof.
  intros. apply (bits_bounded_eq _ _ 32); [lia|apply bswap_range; lia|cbn; lia|].
  intros i Hi. rewrite bswap_testbit by done.
  replace (be [b0; b1; b2; b3]) with (b3 + 256 * (b2 + 256 * (b1 + 256 * (b0 + 256 * 0)))) by (cbn; lia).
  assert (i / 8 = 0 \/ i / 8 = 1 \/ i / 8 = 2 \/ i / 8 = 3) as H8 by dlia.
  pose proof (Z.div_mod i 8 ltac:(lia)). pose proof (Z.mod_pos_bound i 8 ltac:(lia)).
  rewrite !testbit_byte by lia.
  destruct H8 as [E|[E|[E|E]]]; rewrite E;
    repeat match goal with |- context [?x <? 8] => destruct (Z.ltb_spec x 8) end;
    try lia; f_equal; lia.
Qed.

Lemma cell_be m a l : length l = 4%nat -> bytes_at m a l -> cell m a = be l.
Proof.
  intros Hl H. destruct l as [|b0 [|b1 [|b2 [|b3 [|]]]]]; try done.
  destruct H as (<- & <- & <- & <- & _). unfold cell, load32. cbn [load_le].
  rewrite <- bswap_bytes by apply load8_range. done.
Qed.

Lemma cell_range m a : 0 <= cell m a < 2 ^ 32.
Proof. apply bswap_range, (load_le_range 4). Qed.

Lemma name_is_run {X} m a name l (s : scan_env X) :
  dt_mem s = m -> Forall (fun c => c <> 0) l -> cstr m a name ->
  name_is a l s = Ok (bool_decide (name = l)) s.
Proof. intros <- ? ?. unfold name_is, gets. f_equal. by apply streq_cstr. Qed.

Lemma lit_no_zero : Forall (fun c => c <> 0) (str "#address-cells") /\
  Forall (fun c => c <> 0) (str "#size-cells") /\ Forall (fun c => c <> 0) (str "device_type") /\
  Forall (fun c => c <> 0) (str "memory") /\ Forall (fun c => c <> 0) (str "reg") /\
  Forall (fun c => c <> 0) (str "compatible") /\ Forall (fun c => c <> 0) (str "ucb,htif0").
Proof. vm_compute. repeat split; repeat constructor; done. Qed.

(** ** The scan visits the tree *)

Lemma body_at_le m st top a ps ks b : body_at m st top a ps ks b -> a <= b.
Proof. induction 1; dlia. Qed.

Lemma ret_bind {S A B} (a : A) (k : A -> M S B) s : bind (ret a) k s = k a s.
Proof. done. Qed.

Section Refinement.
  Context {X Y : Type} (m : bytes) (cb : fdt_cb X) (v : visitor Y) (R0 R : X -> Y -> Prop).
  Context `{Himp : !Implements m cb v R0 R} (strings : Z).

Definition rel (top : bool) : X -> Y -> Prop := if top then R0 else R.

Lemma lex_at_run {Z'} a (k : Z -> M (scan_env X) Z') x :
  (let* t := lex_at a in k t) (ScanEnv m x) = k (cell m a) (ScanEnv m x).
Proof. done. Qed.

Lemma visit_node par start name ps ks (y : Y) :
  visit v par start (Node name ps ks) y
  = (v_open v ;;; let* c := visit_body v (Some (par, start)) (2, 1) false ps ks in ret (default start c)) y.
Proof using.
  clear. cbn [visit visit_body]. unfold bind, ret.
  destruct (v_open v y) as [[] y1| | |]; [|done..].
  destruct (visit_props v start ps y1) as [c y2| | |]; [|done..].
  destruct (v_done v par y2) as [[] y3| | |]; [|done..].
  match goal with |- match ?l with _ => _ end = match match ?r with _ => _ end with _ => _ end =>
    assert (l = r) as -> end; [|by destruct (visit_kids _ _ _ _ _)].
  generalize (2, 1). revert y3. induction ks as [|k ks IH]; intros y3 st; cbn [visit_kids]; [done|].
  unfold bind. by destruct (visit v (Some c) st k y3).
Qed.

Lemma scan_prop_run a node name value x y :
  R x y -> cell m (a + 4) = Z.of_nat (length value) -> Z.of_nat (length value) < 2 ^ 31 - 4 ->
  0 <= a -> cstr m (strings + cell m (a + 8)) name -> bytes_at m (a + 12) value ->
  prop_ok name value ->
  sim m R (fun r _ => fst r = a + 4 * (3 + (Z.of_nat (length value) + 3) / 4) /\
                      sn_parent <$> snd r = Some (sn_parent node) /\
                      ncells <$> snd r = Some (cells_after name value (ncells node)))
    (scan_prop cb strings a (Some node) (ScanEnv m x)) (v_prop v name value y).
Proof using Himp.
  intros HR Hlen Hlt Ha Hn Hv Hok. unfold scan_prop. rewrite !lex_at_run.
  destruct lit_no_zero as (L1 & L2 & _).
  unfold bind at 1. rewrite (name_is_run m _ name) by done.
  unfold bind at 1. rewrite (name_is_run m _ name) by done. rewrite lex_at_run.
  rewrite Hlen, (s32_small (Z.of_nat _)), (s32_small (_ + 3)), Z.quot_div_nonneg by lia.
  set (node' := if bool_decide (name = str "#size-cells") then _ else _).
  assert (sn_parent <$> node' = Some (sn_parent node) /\
          ncells <$> node' = Some (cells_after name value (ncells node))) as [Hp Hc].
  { subst node'. unfold cells_after. do 2 case_bool_decide; subst; [done|..];
      try (rewrite (cell_be m _ value) by (done || apply Hok; auto));
      repeat case_decide; done. }
  clearbody node'.
  pose proof (imp_prop (ScanProp node' (strings + cell m (a + 8)) (a + 12) (Z.of_nat (length value)))
    name value x y HR Hn Hv eq_refl ltac:(cbn; lia) Hok) as H.
  unfold sim, bind in *. destruct (cb_prop _ _ _) as [? [m' x']| | |], (v_prop _ _ _ _); try done.
  cbn in *. naive_solver.
Qed.

Lemma visit_body_prop par cells start name value ps ks (y : Y) :
  visit_body v (Some (par, cells)) start false ((name, value) :: ps) ks y
  = (v_prop v name value ;;;
     visit_body v (Some (par, cells_after name value cells)) start false ps ks) y.
Proof using. clear. cbn. unfold bind. by destruct (v_prop v name value y). Qed.

Definition done_step (node : option (option (Z * Z) * (Z * Z))) (last : bool) : M Y unit :=
  match node with Some (par, _) => if last then ret tt else v_done v par | None => ret tt end.

Lemma visit_body_done node start last ks (y : Y) :
  visit_body v node start last [] ks y
  = (done_step node last ;;; visit_body v node start true [] ks) y.
Proof using. clear. by destruct node as [[]|], last. Qed.

Lemma visit_body_kid node start name ps ks rest (y : Y) :
  visit_body v node start true [] (Node name ps ks :: rest) y
  = (v_open v ;;;
     let* c := visit_body v (Some (snd <$> node, start)) (2, 1) false ps ks in
     visit_body v node (default start c) true [] rest) y.
Proof using.
  clear. assert (visit_body v node start true [] (Node name ps ks :: rest) y
    = (let* c := visit v (snd <$> node) start (Node name ps ks) in visit_body v node c true [] rest) y) as ->.
  { destruct node as [[par cells]|]; cbn [visit_body visit_kids visit_props fmap option_fmap option_map snd];
      unfold bind, ret; by destruct (visit v _ start _ y). }
  unfold bind at 1. rewrite visit_node. unfold bind, ret.
  destruct (v_open v y); [|done..]. by destruct (visit_body v _ _ _ _ _ _).
Qed.

Definition info (n : fdt_scan_node) : option (Z * Z) * (Z * Z) := (pcells n, ncells n).

Lemma call_done_run last node top x y :
  match node with Some _ => top = false | None => top = true end -> rel top x y ->
  sim m (rel top) eq (call_done cb last node (ScanEnv m x)) (done_step (info <$> node) last y).
Proof using Himp.
  intros Hn HR. destruct imp_done as (f & Hf & H). unfold call_done, done_step. rewrite Hf.
  destruct node as [n|]; cbn; [|done]. destruct last; [done|]. subst top. by apply H.
Qed.

Lemma call_open_run n x y : R0 x y -> sim m R eq (call_open cb n (ScanEnv m x)) (v_open v y).
Proof using Himp. intros HR. destruct imp_open as (f & Hf & H). unfold call_open. rewrite Hf. by apply H. Qed.

Lemma rel_R0 top x y : rel top x y -> R0 x y.
Proof using Himp. destruct top; [done|apply imp_weaken]. Qed.

Lemma R_rel top x y : R x y -> rel top x y.
Proof using Himp. destruct top; [apply imp_weaken|done]. Qed.

Lemma scan_body top a ps ks b : body_at m strings top a ps ks b ->
  forall fuel node child last x y,
  match node with Some _ => top = false | None => top = true end ->
  (last = true -> ps = []) -> rel top x y -> (Z.to_nat (b - a) < fuel)%nat ->
  sim m (rel top) (fun r c => fst r = b /\ ncells <$> snd r = c)
    (fdt_scan_helper cb strings fuel a node child last (ScanEnv m x))
    (visit_body v (info <$> node) child last ps ks y).
Proof using Himp.
  induction 1 as [top a ps ks b Ht Hb IH|a name value ps ks b Ht Hl Hlt Ha Hn Hv Hok Hb IH
    |top a name ps ks c rest b Ht Hn Hk IHk Hb IH|a Ht|a Ht];
    intros [|fuel] node child last x y Htop Hlast HR Hfuel; try lia;
    cbn [fdt_scan_helper]; rewrite lex_at_run, Ht; cbn [Z.eqb FDT_NOP FDT_PROP FDT_BEGIN_NODE FDT_END_NODE FDT_END Pos.eqb].
  - apply body_at_le in Hb. apply IH; [done..|lia].
  - apply body_at_le in Hb. destruct node as [n|]; [|done].
    destruct last; [by specialize (Hlast eq_refl)|]. cbn [negb assert]. rewrite ret_bind.
    rewrite (visit_body_prop (pcells n) (ncells n)).
    eapply sim_bind; [by eapply (scan_prop_run a n name value)|].
    intros [a' [n'|]] [] x' y' HR' (Ha' & Hp & Hc); [|done]. cbn in Ha', Hp, Hc. subst a'.
    injection Hp as Hp. injection Hc as Hc.
    specialize (IH fuel (Some n') child false x' y' eq_refl ltac:(done) HR' ltac:(dlia)).
    cbn in IH. unfold info, pcells in IH. rewrite Hp, Hc in IH. exact IH.
  - rewrite visit_body_done. eapply sim_bind; [by apply call_done_run|].
    intros [] [] x1 y1 HR1 _. rewrite visit_body_kid.
    pose proof (body_at_le _ _ _ _ _ _ _ Hk). pose proof (body_at_le _ _ _ _ _ _ _ Hb).
    eapply sim_bind; [by apply call_open_run, (rel_R0 top)|]. intros [] [] x2 y2 HR2 _.
    unfold bind at 1. unfold zoom. cbn [lget dt_memL dt_mem]. rewrite (strlen_run name) by (done || dlia).
    cbn [lset dt_memL dt_extra].
    set (kid := ScanNode node (a + 4) (fst child) (snd child)).
    replace (Some (snd <$> (info <$> node), child)) with (info <$> Some kid)
      by (destruct node, child; done).
    eapply sim_bind; [by apply (IHk fuel (Some kid)); [done..|dlia]|].
    intros [c' k'] cells x3 y3 HR3 [Hc' Hcells]; cbn in Hc', Hcells. subst c' cells.
    unfold call_close. rewrite imp_close. rewrite ret_bind.
    replace (default child (ncells <$> k')) with (address_cells (default kid k'), size_cells (default kid k'))
      by (destruct k', child; done).
    apply IH; [done..|by apply R_rel|dlia].
  - rewrite visit_body_done. eapply sim_bind; [by apply call_done_run|].
    intros [] [] x1 y1 HR1 _. destruct node; cbn; naive_solver.
  - rewrite visit_body_done. eapply sim_bind; [by apply call_done_run|].
    intros [] [] x1 y1 HR1 _. destruct node; cbn; naive_solver.
Qed.

End Refinement.

(** Scanning a device tree is visiting it: the callbacks are called on the nodes
    and properties of the tree in order, with enough fuel for its size. *)
Lemma fdt_scan_run {X Y} m (cb : fdt_cb X) (v : visitor Y) R0 R `{!Implements m cb v R0 R}
    fuel fdt t size x y :
  tree_at m fdt t size -> R0 x y -> (Z.to_nat size < fuel)%nat ->
  sim m R0 eq (fdt_scan fuel cb fdt (ScanEnv m x)) ((visit v None (2, 1) t ;;; ret tt) y).
Proof.
  intros (Hm & Hc & Ht) HR Hf. unfold fdt_scan. rewrite !lex_at_run, Hm, Z.eqb_refl.
  rewrite (proj2 (Z.ltb_ge _ _)) by done. cbn [negb orb]. rewrite !lex_at_run.
  pose proof (scan_body m cb v R0 R _ _ _ _ _ _ Ht fuel None (2, 1) false x y eq_refl
    ltac:(done) HR ltac:(lia)) as H.
  cbn [fmap option_fmap option_map visit_body visit_kids] in H. unfold sim, bind, ret in *.
  destruct (fdt_scan_helper _ _ _ _ _ _ _ _), (visit v None (2, 1) t y); naive_solver.
Qed.

(** ** The memory regions of a tree *)

(** What [mem_scan] stands for: whether the node is memory, its [reg], and the size found. *)
Record mem_view : Type := MemView {
  mv_memory : bool;
  mv_reg : option (list Z);
  mv_size : Z
}.

(** [base, size] pairs of [a] and [s] words each. *)
Fixpoint regions (fuel a s : nat) (v : list Z) : list (Z * Z) :=
  match fuel, v with
  | S fuel, _ :: _ =>
      (u64 (be (take (4 * a) v)), u64 (be (take (4 * s) (drop (4 * a) v))))
        :: regions fuel a s (drop (4 * (a + s)) v)
  | _, _ => []
  end.

(** The size of the last region that [self] lies in. *)
Definition size_in (self size : Z) (rs : list (Z * Z)) : Z :=
  fold_left (fun sz '(b, s) => if (b <=? self) && (self <=? u64 (b + s)) then s else sz) rs size.

Definition starts_with (l v : list Z) : bool := bool_decide (take (length l + 1) v = l ++ [0]).

Definition mem_done_view (self : Z) (par : option (Z * Z)) : M mem_view unit := fun y =>
  if negb (mv_memory y) then Ok tt y
  else
    match mv_reg y with
    | None => Panic
    | Some v =>
        if negb (Z.of_nat (length v) mod 4 =? 0) then Panic
        else
          match par, v with
          | _, [] => Ok tt y
          | None, _ => Fault
          | Some (ac, sc), _ =>
              let a := Z.to_nat ac in
              let s := Z.to_nat sc in
              if bool_decide (a + s = 0)%nat then Diverge
              else if Z.of_nat (length v) mod (4 * Z.of_nat (a + s)) =? 0 then
                Ok tt (MemView (mv_memory y) (mv_reg y) (size_in self (mv_size y) (regions (length v) a s v)))
              else Panic
          end
    end.

Definition mem_visitor (self : Z) : visitor mem_view := {|
  v_open := modify (fun y => MemView false None (mv_size y));
  v_prop name value := modify (fun y =>
    if bool_decide (name = str "device_type") && starts_with (str "memory") value
    then MemView true (mv_reg y) (mv_size y)
    else if bool_decide (name = str "reg") then MemView (mv_memory y) (Some value) (mv_size y) else y);
  v_done := mem_done_view self
|}.

Definition mem_rel0 (x : mem_scan) (y : mem_view) : Prop := ms_mem_size x = mv_size y.
Definition mem_rel (m : bytes) (x : mem_scan) (y : mem_view) : Prop :=
  ms_mem_size x = mv_size y /\ ms_memory x = (if mv_memory y then 1 else 0) /\
  match mv_reg y with
  | None => ms_reg_value x = 0 /\ ms_reg_len x = 0
  | Some v => 0 < ms_reg_value x /\ ms_reg_len x = Z.of_nat (length v) /\ bytes_at m (ms_reg_value x) v
  end.

Lemma be_acc l : forall acc, fold_left (fun acc b => acc * 256 + b) l acc = acc * 256 ^ Z.of_nat (length l) + be l.
Proof.
  induction l as [|b l IH]; intros acc; unfold be; cbn [fold_left length]; [lia|].
  rewrite IH, (IH (0 * 256 + b)). rewrite Nat2Z.inj_succ, Z.pow_succ_r by lia. lia.
Qed.

Lemma be_app_list l1 l2 : be (l1 ++ l2) = be l1 * 256 ^ Z.of_nat (length l2) + be l2.
Proof. unfold be at 1. rewrite fold_left_app, be_acc. done. Qed.

(** [fdt_get_address] and [fdt_get_size] read a big-endian number modulo 2^64. *)
Lemma get_cells_run m n : forall v p l,
  length v = (4 * n)%nat -> bytes_at m p v ->
  get_cells m n p (u64 (be l)) = (p + 4 * Z.of_nat n, u64 (be (l ++ v))).
Proof.
  induction n as [|n IH]; intros v p l Hl Hv.
  - destruct v; [|done]. cbn. rewrite app_nil_r. f_equal. lia.
  - rewrite <- (take_drop 4 v) in Hv |- *. apply bytes_at_app in Hv as [H4 Hv].
    rewrite length_take in Hv. replace (Z.of_nat (4 `min` length v)) with 4 in Hv by lia.
    cbn [get_cells]. rewrite (cell_be m p (take 4 v)) by (rewrite ?length_take; done || lia).
    rewrite app_assoc. replace (u64 (u64 (Z.shiftl (u64 (be l)) 32) + be (take 4 v)))
      with (u64 (be (l ++ take 4 v))).
    + rewrite (IH (drop 4 v)) by (rewrite ?length_drop; done || lia). f_equal. lia.
    + rewrite be_app_list, length_take, Z.shiftl_mul_pow2 by lia.
      replace (Z.of_nat (4 `min` length v)) with 4 by lia. change (256 ^ 4) with (2 ^ 32).
      unfold u64. rewrite <- (Z.add_mod_idemp_l (be l * _)), <- (Z.mul_mod_idemp_l (be l)) by lia. done.
Qed.

Lemma get_cells_next m n : forall p r, fst (get_cells m n p r) = p + 4 * Z.of_nat n.
Proof. induction n as [|n IH]; intros p r; cbn [get_cells]; [cbn; lia|]. rewrite IH. lia. Qed.

Lemma region_step_run self node pa m p stop x :
  sn_parent node = Some pa -> p < stop ->
  let a := Z.to_nat (address_cells pa) in let s := Z.to_nat (size_cells pa) in
  exists size', region_step self node stop p (ScanEnv m x)
    = Ok (inl (p + 4 * Z.of_nat (a + s)))
        (ScanEnv m (MemScan (ms_memory x) (ms_reg_value x) (ms_reg_len x) size')) /\
    forall v, bytes_at m p v -> (4 * (a + s) <= length v)%nat ->
      size' = size_in self (ms_mem_size x)
        [(u64 (be (take (4 * a) v)), u64 (be (take (4 * s) (drop (4 * a) v))))].
Proof.
  intros Hp Hlt a s. unfold region_step. rewrite (proj2 (Z.ltb_lt _ _)), Hp by lia.
  unfold bind at 1, gets. cbn [dt_mem]. unfold fdt_get_address, fdt_get_size. fold a s.
  destruct (get_cells m a p 0) as [p1 base] eqn:E1. destruct (get_cells m s p1 0) as [p2 size] eqn:E2.
  pose proof (get_cells_next m a p 0) as N1. pose proof (get_cells_next m s p1 0) as N2.
  rewrite E1 in N1. rewrite E2 in N2. cbn in N1, N2. subst p1 p2.
  exists (if (base <=? self) && (self <=? u64 (base + size)) then size else ms_mem_size x). split.
  - replace (p + 4 * Z.of_nat (a + s)) with (p + 4 * Z.of_nat a + 4 * Z.of_nat s) by lia.
    destruct (_ && _); [done|]. by destruct x.
  - intros v Hv Hl. rewrite <- (take_drop (4 * a) v) in Hv. apply bytes_at_app in Hv as [Ha Hs].
    rewrite <- (take_drop (4 * s) (drop (4 * a) v)) in Hs. apply bytes_at_app in Hs as [Hs _].
    rewrite length_take in Hs. replace (Z.of_nat ((4 * a) `min` length v)) with (4 * Z.of_nat a) in Hs by lia.
    pose proof (get_cells_run m a (take (4 * a) v) p [] ltac:(rewrite length_take; lia) Ha) as G1.
    pose proof (get_cells_run m s (take (4 * s) (drop (4 * a) v)) _ [] ltac:(rewrite length_take, length_drop; lia) Hs) as G2.
    change (u64 (be [])) with 0 in G1, G2. rewrite E1 in G1. rewrite E2 in G2.
    injection G1 as ->. injection G2 as ->. done.
Qed.

Lemma mod_0_ge x k : 0 < k -> 0 < x -> x mod k = 0 -> k <= x.
Proof. intros. apply Z.divide_pos_le; [lia|]. by apply Z.mod_divide; [lia|]. Qed.

Lemma mod_0_between p q k stop :
  0 < k -> stop <= q < stop + k -> (q - p) mod k = 0 -> (stop - p) mod k = 0 -> q = stop.
Proof.
  intros Hk Hq H1 H2. assert ((q - stop) mod k = 0) as H.
  { replace (q - stop) with ((q - p) - (stop - p)) by lia. by rewrite Zminus_mod, H1, H2. }
  rewrite Z.mod_small in H by lia. lia.
Qed.

Lemma regions_loop self node pa m stop :
  sn_parent node = Some pa ->
  let a := Z.to_nat (address_cells pa) in let s := Z.to_nat (size_cells pa) in
  let k := 4 * Z.of_nat (a + s) in
  0 < k -> forall fuel p x, (Z.to_nat (stop - p) < fuel)%nat -> p < stop + k ->
  exists q size', loop fuel (region_step self node stop) p (ScanEnv m x)
    = Ok q (ScanEnv m (MemScan (ms_memory x) (ms_reg_value x) (ms_reg_len x) size')) /\
    (stop <= q < stop + k /\ (q - p) mod k = 0) /\
    forall v n, bytes_at m p v -> Z.of_nat (length v) = stop - p -> Z.of_nat (length v) mod k = 0 ->
      (length v <= n)%nat -> size' = size_in self (ms_mem_size x) (regions n a s v).
Proof.
  intros Hp a s k Hk fuel. induction fuel as [|fuel IH]; intros p x Hf Hlt; [lia|]. cbn [loop].
  destruct (Z.lt_ge_cases p stop) as [Hps|Hps].
  - destruct (region_step_run self node pa m p stop x Hp Hps) as (sz & Hrun & Hsz).
    fold a s in Hrun, Hsz. fold k in Hrun. unfold bind. rewrite Hrun.
    destruct (IH (p + k) (MemScan (ms_memory x) (ms_reg_value x) (ms_reg_len x) sz))
      as (q & sz' & -> & [Hq Hm] & Hs); [lia|lia|].
    exists q, sz'. split_and!; [done|lia|lia| |].
    + replace (q - p) with (q - (p + k) + 1 * k) by lia. by rewrite Z.mod_add by lia.
    + intros v n Hv Hl Hmod Hn.
      assert (4 * (a + s) <= length v)%nat as Hge.
      { apply mod_0_ge in Hmod; lia. }
      destruct n as [|n]; [lia|]. destruct v as [|b v]; [cbn in Hl; lia|].
      cbn [regions]. rewrite (Hs (drop (4 * (a + s)) (b :: v)) n).
      * cbn [ms_mem_size]. rewrite (Hsz (b :: v)) by done. done.
      * rewrite <- (take_drop (4 * (a + s)) (b :: v)) in Hv. apply bytes_at_app in Hv as [_ Hv].
        rewrite length_take in Hv.
        replace (p + k) with (p + Z.of_nat ((4 * (a + s)) `min` length (b :: v))) by lia. done.
      * rewrite length_drop. lia.
      * rewrite length_drop. replace (Z.of_nat (length (b :: v) - 4 * (a + s)))
          with (Z.of_nat (length (b :: v)) + (-1) * k) by lia. by rewrite Z.mod_add by lia.
      * rewrite length_drop. lia.
  - unfold region_step at 1. rewrite (proj2 (Z.ltb_ge _ _)) by lia. cbn.
    exists p, (ms_mem_size x). destruct x. split; [done|]. split.
    + rewrite Z.sub_diag. split; [lia|done].
    + intros v n _ Hl. destruct v; [by destruct n|cbn in Hl; lia].
Qed.

Lemma region_stuck self node pa m stop :
  sn_parent node = Some pa -> (Z.to_nat (address_cells pa) + Z.to_nat (size_cells pa) = 0)%nat ->
  forall fuel p x, p < stop -> loop fuel (region_step self node stop) p (ScanEnv m x) = Diverge.
Proof.
  intros Hp H0 fuel. induction fuel as [|fuel IH]; intros p x Hlt; [done|]. cbn [loop].
  destruct (region_step_run self node pa m p stop x Hp Hlt) as (sz & Hrun & _).
  rewrite H0 in Hrun. unfold bind. rewrite Hrun. apply IH. lia.
Qed.

Lemma mem_done_run self m node x y : mem_rel m x y ->
  sim m (mem_rel m) eq (mem_done self node (ScanEnv m x)) (mem_done_view self (pcells node) y).
Proof.
  intros HR. pose proof HR as (Hsz & Hm & Hreg). unfold mem_done, mem_done_view, bind at 1, get_scan, gets.
  cbn [dt_extra]. rewrite Hm. destruct (mv_memory y) eqn:Emem; cbn [negb Z.eqb]; [|done].
  destruct (mv_reg y) as [v|] eqn:Ereg.
  2: { destruct Hreg as [-> ->]. done. }
  destruct Hreg as (Hpos & Hlen & Hv). rewrite (proj2 (Z.eqb_neq _ 0)) by lia.
  rewrite Hlen, Z.rem_mod_nonneg by lia. cbn [negb andb].
  destruct (Z.eqb_spec (Z.of_nat (length v) mod 4) 0) as [H4|]; [|done].
  cbn [negb assert]. rewrite ret_bind, Z.quot_div_nonneg by lia.
  replace (4 * (Z.of_nat (length v) / 4)) with (Z.of_nat (length v)) by dlia.
  rewrite Nat2Z.id. remember (ms_reg_value x + Z.of_nat (length v)) as stop eqn:Estop.
  destruct v as [|b v'] eqn:Ev.
  - destruct (pcells node) as [[]|]; cbn [length Z.of_nat loop]; unfold region_step, bind, ret;
      rewrite (proj2 (Z.ltb_ge _ _)) by (subst stop; cbn; lia);
      rewrite (proj2 (Z.eqb_eq _ _)) by (subst stop; cbn; lia); done.
  - rewrite <- Ev in *. assert (ms_reg_value x < stop) as Hlt by (subst stop v; cbn; lia).
    unfold pcells. destruct (sn_parent node) as [pa|] eqn:Epa; cbn [fmap option_fmap option_map].
    2: { subst v. cbn [loop]. unfold bind at 2, region_step. rewrite (proj2 (Z.ltb_lt _ _)), Epa by lia. done. }
    unfold ncells. rewrite Ev. rewrite <- Ev.
    case_bool_decide as H0; [unfold bind; by rewrite (region_stuck _ _ pa)|].
    destruct (regions_loop self node pa m stop Epa ltac:(lia) (S (length v)) (ms_reg_value x) x)
      as (q & sz & Hrun & [Hq Hmod] & Hs); [lia..|].
    unfold bind. rewrite Hrun. clear Hrun.
    set (k := 4 * Z.of_nat _) in *.
    destruct (Z.eqb_spec (Z.of_nat (length v) mod k) 0) as [Hk|Hk].
    + assert (q = stop) as -> by (apply (mod_0_between (ms_reg_value x) q k); [lia|lia|done|];
        replace (stop - _) with (Z.of_nat (length v)) by lia; done).
      rewrite Z.eqb_refl. cbn. split; [done|]. split; [|done].
      rewrite (Hs v (length v)) by (done || lia). rewrite Hsz. unfold mem_rel. cbn. split_and!; done.
    + rewrite (proj2 (Z.eqb_neq _ _)); [done|]. intros <-. apply Hk. rewrite <- Hmod. f_equal. lia.
Qed.

Lemma streq_starts l : forall m a v, Forall (fun c => c <> 0) l -> bytes_at m a v -> 0 ∈ v ->
  streq m a l = starts_with l v.
Proof.
  unfold starts_with. induction l as [|c l IH]; intros m a [|b v] Hl Hv Hin;
    try (exfalso; set_solver).
  - destruct Hv as [Hb _]. cbn [streq]. rewrite Hb. apply eq_iff_eq_true.
    rewrite Z.eqb_eq, bool_decide_eq_true. change (take (length [] + 1) (b :: v)) with [b].
    split; [by intros ->|by intros [= ->]].
  - destruct Hv as [Hb Hv]. cbn [streq]. rewrite Hb. inversion_clear Hl.
    destruct (Z.eqb_spec b c) as [->|]; cbn [andb].
    + rewrite (IH _ _ v) by (done || (by apply elem_of_cons in Hin as [?|?]; [congruence|])).
      apply bool_decide_ext. change (take (length (c :: l) + 1) (c :: v)) with (c :: take (length l + 1) v).
      cbn [app]. split; [by intros ->|by intros [= ->]].
    + rewrite bool_decide_false; [done|]. change (take (length (c :: l) + 1) (b :: v))
        with (b :: take (length l + 1) v). cbn [app]. congruence.
Qed.

#[export] Instance mem_implements self m :
  Implements m (FdtCb (Some mem_open) mem_prop (Some (mem_done self)) None) (mem_visitor self)
    mem_rel0 (mem_rel m).
Proof.
  destruct lit_no_zero as (_ & _ & L3 & L4 & L5 & _).
  split; cbn [cb_close cb_open cb_prop cb_done v_open v_prop v_done mem_visitor].
  - by intros x y [? _].
  - done.
  - eexists. split; [done|]. intros n x y HR. split; [done|]. split; [|done]. done.
  - intros p name value x y HR Hn Hv Hlen Hpos [_ Hok]. unfold mem_prop, get_scan, bind at 1, gets.
    cbn [dt_extra]. unfold bind at 1. rewrite (name_is_run m _ name) by done.
    unfold bind at 1, name_is, gets. cbn [dt_mem].
    destruct HR as (Hs & Hm & Hr). unfold modify.
    case_bool_decide as E1; cbn [andb].
    + rewrite (streq_starts _ _ _ value) by auto. destruct (starts_with _ _).
      * by repeat split.
      * subst name. unfold bind. rewrite (streq_cstr _ _ _ (str "device_type")) by done.
        by repeat split.
    + unfold bind. rewrite (streq_cstr _ _ _ name) by done. case_bool_decide; by repeat split.
  - eexists. split; [done|]. intros. by apply mem_done_run.
Qed.

Lemma query_mem_run fuel self fdt scan m t size :
  tree_at m fdt t size -> (Z.to_nat size < fuel)%nat ->
  query_mem fuel self fdt scan m
  = match visit (mem_visitor self) None (2, 1) t (MemView false None 0) with
    | Ok _ y => if 0 <? mv_size y then Ok (mv_size y) m else Panic
    | Panic => Panic
    | Fault => Fault
    | Diverge => Diverge
    end.
Proof.
  intros Ht Hf. unfold query_mem.
  set (x := MemScan _ _ _ 0).
  pose proof (fdt_scan_run m _ (mem_visitor self) _ _ fuel fdt t size x (MemView false None 0) Ht eq_refl Hf) as H.
  unfold sim, bind, ret in H. unfold mem_rel0 in H.
  destruct (fdt_scan _ _ _ _), (visit _ _ _ _ _); try done. destruct H as (-> & -> & _). done.
Qed.

(** The regions that the memory nodes of a tree describe, in order; none if a
    memory node has no [reg], or one that is not a whole number of regions. *)
Definition is_memory (ps : list (list Z * list Z)) : bool :=
  existsb (fun '(n, v) => bool_decide (n = str "device_type") && starts_with (str "memory") v) ps.

Definition reg_of (r : option (list Z)) (ps : list (list Z * list Z)) : option (list Z) :=
  fold_left (fun r '(n, v) => if bool_decide (n = str "reg") then Some v else r) ps r.

Definition cells_of (start : Z * Z) (ps : list (list Z * list Z)) : Z * Z :=
  fold_left (fun c '(n, v) => cells_after n v c) ps start.

Definition node_props (t : tree) : list (list Z * list Z) := match t with Node _ ps _ => ps end.

Definition node_regions (par : option (Z * Z)) (ps : list (list Z * list Z)) : option (list (Z * Z)) :=
  if negb (is_memory ps) then Some []
  else
    match reg_of None ps, par with
    | Some v, Some (ac, sc) =>
        let k := 4 * Z.of_nat (Z.to_nat ac + Z.to_nat sc) in
        if (0 <? k) && (Z.of_nat (length v) mod k =? 0)
        then Some (regions (length v) (Z.to_nat ac) (Z.to_nat sc) v) else None
    | _, _ => None
    end.

Fixpoint mem_regions (par : option (Z * Z)) (start : Z * Z) (t : tree) : option (list (Z * Z)) :=
  match t with
  | Node _ ps ks =>
      let cells := cells_of start ps in
      match node_regions par ps,
        (fix go start ks :=
           match ks with
           | [] => Some []
           | k :: ks =>
               match mem_regions (Some cells) start k, go (cells_of start (node_props k)) ks with
               | Some r, Some rs => Some (r ++ rs)
               | _, _ => None
               end
           end) (2, 1) ks with
      | Some r, Some rs => Some (r ++ rs)
      | _, _ => None
      end
  end.

Fixpoint kids_regions (par : option (Z * Z)) (start : Z * Z) (ks : list tree) : option (list (Z * Z)) :=
  match ks with
  | [] => Some []
  | k :: ks =>
      match mem_regions par start k, kids_regions par (cells_of start (node_props k)) ks with
      | Some r, Some rs => Some (r ++ rs)
      | _, _ => None
      end
  end.

Lemma mem_regions_node par start name ps ks :
  mem_regions par start (Node name ps ks)
  = match node_regions par ps, kids_regions (Some (cells_of start ps)) (2, 1) ks with
    | Some r, Some rs => Some (r ++ rs)
    | _, _ => None
    end.
Proof.
  cbn [mem_regions]. destruct (node_regions par ps); [|done].
  match goal with |- match ?l with _ => _ end = match ?r with _ => _ end => assert (l = r) as -> end; [|done].
  generalize (2, 1). induction ks as [|k ks IH]; intros st; cbn [kids_regions]; [done|]. by rewrite IH.
Qed.

Lemma tree_nested_ind (P : tree -> Prop) :
  (forall name ps ks, Forall P ks -> P (Node name ps ks)) -> forall t, P t.
Proof.
  intros H. fix IH 1. intros [name ps ks]. apply H.
  induction ks as [|k ks IHks]; constructor; [apply IH|apply IHks].
Qed.

Lemma size_in_app self sz r rs : size_in self sz (r ++ rs) = size_in self (size_in self sz r) rs.
Proof. apply fold_left_app. Qed.

Lemma visit_props_mem self ps : forall cells y,
  visit_props (mem_visitor self) cells ps y
  = Ok (cells_of cells ps) (MemView (mv_memory y || is_memory ps) (reg_of (mv_reg y) ps) (mv_size y)).
Proof.
  induction ps as [|[name value] ps IH]; intros cells y; cbn [visit_props].
  - unfold ret. rewrite orb_false_r. by destruct y.
  - unfold bind, v_prop, mem_visitor, modify. rewrite IH. unfold cells_of, is_memory, reg_of.
    cbn [existsb fold_left].
    destruct (bool_decide (name = str "device_type") && starts_with _ _) eqn:E; cbn [mv_memory mv_reg mv_size orb].
    + rewrite !orb_true_r. apply andb_true_iff in E as [E%bool_decide_eq_true _]. subst name.
      by rewrite bool_decide_false by done.
    + by destruct (bool_decide (name = str "reg")).
Qed.

Lemma mem_done_regions self par ps sz rs :
  node_regions par ps = Some rs ->
  exists y, mem_done_view self par (MemView (is_memory ps) (reg_of None ps) sz) = Ok tt y /\
    mv_size y = size_in self sz rs.
Proof.
  unfold node_regions, mem_done_view. cbn. destruct (is_memory ps); cbn [negb].
  2: { intros [= <-]. eauto. }
  destruct (reg_of None ps) as [v|]; [|done]. destruct par as [[ac sc]|]; [|done].
  set (k := 4 * Z.of_nat (Z.to_nat ac + Z.to_nat sc)).
  destruct (Z.ltb_spec 0 k) as [Hk|]; [|done]. destruct (Z.eqb_spec (Z.of_nat (length v) mod k) 0) as [Hm|]; [|done].
  intros [= <-]. assert (Z.of_nat (length v) mod 4 = 0) as ->.
  { apply Z.mod_divide in Hm as [c Hc]; [|lia]. apply Z.mod_divide; [lia|].
    exists (c * Z.of_nat (Z.to_nat ac + Z.to_nat sc)). lia. }
  cbn [Z.eqb negb]. destruct v as [|b v]; [eauto|]. rewrite bool_decide_false by lia.
  eauto.
Qed.

Lemma visit_mem_regions self t : forall par start y rs,
  mem_regions par start t = Some rs ->
  exists y', visit (mem_visitor self) par start t y = Ok (cells_of start (node_props t)) y' /\
    mv_size y' = size_in self (mv_size y) rs.
Proof.
  induction t as [name ps ks IH] using tree_nested_ind. intros par start y rs.
  rewrite mem_regions_node. destruct (node_regions par ps) as [r|] eqn:Er; [|done].
  destruct (kids_regions _ _ _) as [rk|] eqn:Ek; [|done]. intros [= <-].
  rewrite visit_node. unfold bind at 1. cbn [v_open mem_visitor modify visit_body].
  unfold bind. rewrite visit_props_mem. cbn [mv_memory mv_reg mv_size orb v_done mem_visitor].
  destruct (mem_done_regions self par ps (mv_size y) r Er) as (y1 & -> & Hy1).
  rewrite size_in_app, <- Hy1. clear Hy1 Er. cbn [node_props].
  assert (forall st y1 rk, kids_regions (Some (cells_of start ps)) st ks = Some rk ->
    exists y2, visit_kids (mem_visitor self) (Some (cells_of start ps)) st ks y1 = Ok tt y2 /\
      mv_size y2 = size_in self (mv_size y1) rk) as Hks.
  { clear Ek y1 rk. induction IH as [|k ks Hk _ IHks]; intros st y1 rk; cbn [kids_regions visit_kids].
    - intros [= <-]. eauto.
    - destruct (mem_regions _ st k) as [rk1|] eqn:E1; [|done].
      destruct (kids_regions _ _ ks) as [rk2|] eqn:E2; [|done]. intros [= <-].
      destruct (Hk _ _ y1 _ E1) as (y2 & Hv & Hs). destruct (IHks _ y2 _ E2) as (y3 & Hv' & Hs').
      exists y3. unfold bind. rewrite Hv. split; [done|]. by rewrite size_in_app, <- Hs. }
  destruct (Hks _ y1 _ Ek) as (y2 & -> & Hs). by exists y2.
Qed.

(** C18: the size of memory that the kernel uses is the one that the device tree gives
    for the region the kernel lies in: for a flattened tree in memory whose memory
    nodes are well formed, [query_mem] returns the size of the last region of
    the tree that holds the kernel's code, and panics when there is none. *)
Theorem query_mem_correct fuel self fdt scan m t size rs :
  tree_at m fdt t size -> mem_regions None (2, 1) t = Some rs -> (Z.to_nat size < fuel)%nat ->
  query_mem fuel self fdt scan m
  = if 0 <? size_in self 0 rs then Ok (size_in self 0 rs) m else Panic.
Proof.
  intros Ht Hr Hf. rewrite (query_mem_run _ _ _ _ _ t size) by done.
  destruct (visit_mem_regions self t None (2, 1) (MemView false None 0) rs Hr) as (y & -> & ->). done.
Qed.

(** ** Finding the host interface *)

Record htif_view : Type := HtifView { hv_compat : bool; hv_htif : Z }.

Definition is_htif (ps : list (list Z * list Z)) : bool :=
  existsb (fun '(n, v) => bool_decide (n = str "compatible") && starts_with (str "ucb,htif0") v) ps.

Definition htif_visitor : visitor htif_view := {|
  v_open := modify (fun y => HtifView false (hv_htif y));
  v_prop name value := modify (fun y =>
    if bool_decide (name = str "compatible") && starts_with (str "ucb,htif0") value
    then HtifView true (hv_htif y) else y);
  v_done _ := modify (fun y => if hv_compat y then HtifView true 1 else y)
|}.

Definition htif_rel0 (x : htif_scan) (y : htif_view) : Prop := hs_htif x = hv_htif y.
Definition htif_rel (x : htif_scan) (y : htif_view) : Prop :=
  hs_htif x = hv_htif y /\ hs_compat x = if hv_compat y then 1 else 0.

#[export] Instance htif_implements m :
  Implements m (FdtCb (Some htif_open) htif_prop (Some htif_done) None) htif_visitor htif_rel0 htif_rel.
Proof.
  destruct lit_no_zero as (_ & _ & _ & _ & _ & L6 & L7).
  split; cbn [cb_close cb_open cb_prop cb_done v_open v_prop v_done htif_visitor].
  - by intros x y [? _].
  - done.
  - eexists. split; [done|]. intros n x y HR. by repeat split.
  - intros p name value x y [HR Hc] Hn Hv Hlen Hpos [_ Hok]. unfold htif_prop, get_scan, bind at 1, gets.
    cbn [dt_extra]. unfold bind at 1. rewrite (name_is_run m _ name) by done.
    unfold bind, name_is, gets, modify. cbn [dt_mem].
    case_bool_decide as E1; cbn [andb]; [|by repeat split].
    rewrite (streq_starts _ _ _ value) by auto. destruct (starts_with _ _); by repeat split.
  - eexists. split; [done|]. intros n x y [HR Hc]. unfold htif_done, bind, get_scan, gets. cbn [dt_extra].
    rewrite Hc. unfold modify. destruct (hv_compat y) eqn:E; cbn [Z.eqb]; repeat split; cbn; try done. by rewrite E.
Qed.

Fixpoint has_htif (t : tree) : bool :=
  match t with Node _ ps ks => is_htif ps || existsb has_htif ks end.

Lemma visit_props_htif ps : forall cells y,
  visit_props htif_visitor cells ps y
  = Ok (cells_of cells ps) (HtifView (hv_compat y || is_htif ps) (hv_htif y)).
Proof.
  induction ps as [|[name value] ps IH]; intros cells y; cbn [visit_props].
  - unfold ret. rewrite orb_false_r. by destruct y.
  - unfold bind, v_prop, htif_visitor, modify. rewrite IH. unfold cells_of, is_htif.
    cbn [existsb fold_left].
    destruct (bool_decide (name = str "compatible") && starts_with _ _); cbn [hv_compat hv_htif orb]; [|done].
    by rewrite orb_true_r.
Qed.

Lemma visit_htif t : forall par start y, exists y',
  visit htif_visitor par start t y = Ok (cells_of start (node_props t)) y' /\
  hv_htif y' = if has_htif t then 1 else hv_htif y.
Proof.
  induction t as [name ps ks IH] using tree_nested_ind. intros par start y.
  rewrite visit_node. unfold bind at 1. cbn [v_open htif_visitor modify visit_body].
  unfold bind. rewrite visit_props_htif. cbn [hv_compat hv_htif orb v_done htif_visitor modify node_props has_htif].
  set (y1 := if is_htif ps then _ else _).
  replace (if is_htif ps || existsb has_htif ks then 1 else hv_htif y)
    with (if existsb has_htif ks then 1 else hv_htif y1)
    by (subst y1; destruct (is_htif ps), (existsb has_htif ks); done).
  clearbody y1.
  assert (forall st y1, exists y2,
    visit_kids htif_visitor (Some (cells_of start ps)) st ks y1 = Ok tt y2 /\
    hv_htif y2 = if existsb has_htif ks then 1 else hv_htif y1) as Hks.
  { clear y1. induction IH as [|k ks Hk _ IHks]; intros st y1; cbn [visit_kids existsb]; [eauto|].
    destruct (Hk (Some (cells_of start ps)) st y1) as (y2 & Hv & Hs). destruct (IHks (cells_of st (node_props k)) y2) as (y3 & Hv' & Hs').
    exists y3. unfold bind. rewrite Hv. split; [done|]. rewrite Hs', Hs. by destruct (has_htif k), (existsb has_htif ks). }
  destruct (Hks (2, 1) y1) as (y2 & -> & Hs). by exists y2.
Qed.

(** The host interface is found exactly when the device tree has a node that is
    compatible with it; the scan always returns. *)
Theorem query_htif_correct fuel fdt scan m t size :
  tree_at m fdt t size -> (Z.to_nat size < fuel)%nat ->
  query_htif fuel fdt scan m = Ok (if has_htif t then 1 else hs_htif scan) m.
Proof.
  intros Ht Hf. unfold query_htif.
  pose proof (fdt_scan_run m _ htif_visitor _ _ fuel fdt t size scan (HtifView false (hs_htif scan)) Ht eq_refl Hf) as H.
  destruct (visit_htif t None (2, 1) (HtifView false (hs_htif scan))) as (y & Hv & Hs).
  unfold sim, bind, ret in H. rewrite Hv in H. unfold htif_rel0 in H.
  destruct (fdt_scan _ _ _ _); try done. destruct H as (-> & -> & _). by rewrite Hs.
Qed.

(** A tree with one memory node: 128 MB at 0x80000000. *)
Definition demo_word (w : Z) : list Z := [w / 2 ^ 24 mod 256; w / 2 ^ 16 mod 256; w / 2 ^ 8 mod 256; w mod 256].
Definition demo_memory_tree : tree :=
  Node [] [(str "#address-cells", demo_word 2); (str "#size-cells", demo_word 2)]
    [Node (str "mem") [(str "device_type", str "memory" ++ [0]);
                       (str "reg", demo_word 0 ++ demo_word 0x80000000 ++ demo_word 0 ++ demo_word 0x8000000)] []].
Definition demo_blob : list Z :=
  foldr (fun w l => demo_word w ++ l) []
    [FDT_MAGIC; 0; 40; 164; 0; 17; 16; 0; 0; 0;
     FDT_BEGIN_NODE; 0; FDT_PROP; 4; 0; 2; FDT_PROP; 4; 15; 2;
     FDT_BEGIN_NODE; 0x6d656d00; FDT_PROP; 7; 27; 0x6d656d6f; 0x72790000;
     FDT_PROP; 16; 39; 0; 0x80000000; 0; 0x8000000; FDT_END_NODE; FDT_NOP; FDT_END_NODE; FDT_END]
  ++ repeat 0 12 ++ str "#address-cells" ++ [0] ++ str "#size-cells" ++ [0] ++ str "device_type" ++ [0]
  ++ str "reg" ++ [0].
Definition demo_dtb : bytes := list_to_map (zip (seqZ 0x1000 256) demo_blob).

(** Reads a concrete tree. *)
Ltac read_tree :=
  first
    [ eapply body_nop; [by vm_compute|]; read_tree
    | eapply body_prop;
        [by vm_compute|by vm_compute|by vm_compute|by vm_compute|vm_compute; repeat split; done
        |vm_compute; repeat split; done
        |split; intros [H|H]; first [by vm_compute in H | by vm_compute
          | eapply bool_decide_eq_true_1; by vm_compute]|]; read_tree
    | eapply body_kid; [by vm_compute|vm_compute; repeat split; done| |]; read_tree
    | match goal with
      | |- body_at _ _ false _ [] [] _ => apply body_end; by vm_compute
      | |- body_at _ _ true _ [] [] _ => apply body_top; by vm_compute
      end ].

Lemma demo_tree_at : tree_at demo_dtb 0x1000 demo_memory_tree 108.
Proof.
  split; [by vm_compute|]. split; [by vm_compute|]. cbv zeta.
  replace (cell demo_dtb (0x1000 + FDT_OFF_STRUCT)) with 40 by by vm_compute.
  replace (cell demo_dtb (0x1000 + FDT_OFF_STRINGS)) with 164 by by vm_compute.
  change (0x1000 + 40) with 0x1028. change (0x1000 + 164) with 0x10a4. change (0x1028 + 108) with 0x1094.
  read_tree.
Qed.

(** A kernel at 0x80002000 gets the 128 MB; one at 0x1000 panics. *)
Lemma query_mem_correct_witness :
  query_mem 200 0x80002000 0x1000 (MemScan 7 7 7 7) demo_dtb = Ok 0x8000000 demo_dtb /\
  query_mem 200 0x1000 0x1000 (MemScan 7 7 7 7) demo_dtb = Panic.
Proof.
  split.
  - rewrite (query_mem_correct 200 _ _ _ _ _ 108 [(0x80000000, 0x8000000)] demo_tree_at ltac:(by vm_compute) ltac:(lia)).
    by vm_compute.
  - rewrite (query_mem_correct 200 _ _ _ _ _ 108 [(0x80000000, 0x8000000)] demo_tree_at ltac:(by vm_compute) ltac:(lia)).
    by vm_compute.
Defined.
