(* ===== verification/Startup.v ===== *)
(** * From the device tree to the kernel's memory (kernel/machine/minit.c, kernel/kernel.c)

    What hart 0 does with memory before any other hart runs in supervisor mode:
    [init_dtb] finds the host interface and the size of memory in the device tree
    of the machine, [pmm_init] makes the free list of that memory, [kern_vm_init]
    takes the pages of the kernel's page table from it. *)

From S2P Require Import Prelude Mem Literals Pmm StringLib Vmm Kernel Fs Hostfs System Machine DeviceTree.
From stdpp Require Import base gmap list fin_maps.
From Stdlib Require Import ZArith Lia Bool.

Set Default Goal Selector "!".
Open Scope Z_scope.

(** A query of the device tree in memory. *)
Definition query {A} (q : bytes -> outcome bytes A) : M pmm A := fun s =>
  match q (mem s) with
  | Ok a m => Ok a (set_mem m s)
  | Panic => Panic
  | Fault => Fault
  | Diverge => Diverge
  end.

(** The result is the variable [htif]; [self] is the address of [mem_done], [hs]
    and [ms] are the local variables of the two queries. *)
Definition init_dtb (fuel : nat) (self dtb : Z) (hs : htif_scan) (ms : mem_scan) : M pmm Z :=
  let* htif := query (query_htif fuel dtb hs) in
  let* size := query (query_mem fuel self dtb ms) in
  modify (set_g_mem_size size) ;;;
  ret htif.

Section WithHost.
  Context `{Host}.

(** [m_start] up to its barrier; [htif] is the variable before. *)
Definition m_start_first (fuel : nat) (self dtb : Z) (hs : htif_scan) (ms : mem_scan) (htif hartid : Z)
  : M machine Z :=
  if hartid =? 0 then
    zoom sysL (zoom fsL spike_file_init) ;;;
    zoom sysL (zoom sys_pmmL (init_dtb fuel self dtb hs ms))
  else ret htif.

End WithHost.

(** The part of [m_start] and [s_start] of hart 0 that sets memory up. *)
Definition start_memory (fuel : nat) (self dtb : Z) (hs : htif_scan) (ms : mem_scan)
    (kernel_end etext : Z) : M vm Z :=
  let* htif := zoom vm_mem (init_dtb fuel self dtb hs ms) in
  zoom vm_mem (pmm_init kernel_end) ;;;
  kern_vm_init etext ;;;
  ret htif.

(** The memory the kernel uses of the region it lies in. *)
Definition usable (self : Z) (rs : list (Z * Z)) : Z := Z.min PKE_MAX_ALLOWABLE_RAM (size_in self 0 rs).

Lemma query_pure {A} (q : bytes -> outcome bytes A) s a : q (mem s) = Ok a (mem s) -> query q s = Ok a s.
Proof. intros E. unfold query. rewrite E. by destruct s. Qed.

Lemma init_dtb_run fuel self dtb hs ms s t size rs :
  tree_at (mem s) dtb t size -> mem_regions None (2, 1) t = Some rs -> (Z.to_nat size < fuel)%nat ->
  0 < size_in self 0 rs ->
  init_dtb fuel self dtb hs ms s =
    Ok (if has_htif t then 1 else hs_htif hs) (set_g_mem_size (size_in self 0 rs) s).
Proof.
  intros Ht Hr Hf Hp. unfold init_dtb, bind.
  rewrite (query_pure _ _ (if has_htif t then 1 else hs_htif hs)) by (by apply (query_htif_correct _ _ _ _ t size)).
  rewrite (query_pure _ _ (size_in self 0 rs)); [done|].
  rewrite (query_mem_run _ _ _ _ _ t size) by done.
  destruct (visit_mem_regions self t None (2, 1) (MemView false None 0) rs Hr) as (y & -> & ->).
  cbn [mv_size]. by rewrite (proj2 (Z.ltb_lt _ _) Hp).
Qed.


