(* ===== verification/Htif.v ===== *)
(** * The host interface (spike_interface/spike_htif.c, atomic.h, spike_utils.c)

    The registers [tohost] and [fromhost] that the kernel shares with the host, the
    console and the proxied system calls on top of them.  The host is a device that
    may act before every access to a register; what the kernel relies on is the
    class [HtifHost].  The spin locks of atomic.h, used here, are a separate machine
    of harts: their exchange is not atomic. *)

From S2P Require Import Prelude Mem Printf.
From stdpp Require Import base gmap list fin_maps relations.
From Stdlib Require Import ZArith Lia Bool.

Set Default Goal Selector "!".
Open Scope Z_scope.

(** ** Words of the interface *)

Definition TOHOST_CMD (dev cmd payload : Z) : Z :=
  Z.lor (Z.lor (u64 (Z.shiftl dev 56)) (u64 (Z.shiftl cmd 48))) payload.
Definition FROMHOST_DEV (v : Z) : Z := Z.shiftr v 56.
Definition FROMHOST_CMD (v : Z) : Z := Z.shiftr (u64 (Z.shiftl v 8)) 56.
Definition FROMHOST_DATA (v : Z) : Z := Z.shiftr (u64 (Z.shiftl v 16)) 16.

Definition HTIFSYS_exit : Z := 93.

(** ** What the kernel relies on *)

(** A message of the console: a character, or the acknowledgement of an output. *)
Definition console_word (fh : Z) : Prop :=
  fh <> 0 /\ FROMHOST_DEV fh = 1 /\ (FROMHOST_CMD fh = 0 \/ FROMHOST_CMD fh = 1).

(** A request to the console. *)
Definition console_request (th : Z) : Prop := FROMHOST_DEV th = 1.

(** [host_turn] is what the host does to the registers and the memory between two
    accesses of the kernel: it leaves a message that has not been read; it answers a
    request after at most [host_bound] turns; it may send a character meanwhile. *)
Class HtifHost (H : Type) : Type := {
  host_turn : H -> Z -> Z -> bytes -> H * (Z * Z * bytes);
  reply : Z -> bytes -> bytes;
  delay : H -> nat;
  host_bound : nat;
  delay_bound : forall h, (delay h <= host_bound)%nat;
  host_holds : forall h th fh m, fh <> 0 -> exists h',
    host_turn h th fh m = (h', (th, fh, m)) /\ (delay h' <= delay h)%nat;
  host_idle : forall h m, exists h' fh', host_turn h 0 0 m = (h', (0, fh', m)) /\ (fh' = 0 \/ console_word fh');
  host_console : forall h th m, console_request th -> exists h' th' fh',
    host_turn h th 0 m = (h', (th', fh', m)) /\ (fh' = 0 \/ console_word fh') /\
    (th' = 0 \/ th' = th /\ (delay h' < delay h)%nat);
  host_serves : forall h a m, 0 < a < 2 ^ 48 -> exists h' th' fh' m',
    host_turn h (TOHOST_CMD 0 0 a) 0 m = (h', (th', fh', m')) /\
    (th' = TOHOST_CMD 0 0 a /\ m' = m /\ (fh' = 0 \/ console_word fh') /\ (delay h' < delay h)%nat \/
     th' = 0 /\ m' = reply a m /\ fh' <> 0 /\ FROMHOST_DEV fh' = 0 /\ FROMHOST_CMD fh' = 0)
}.

(** ** State *)

Record htif_state (H : Type) : Type := HtifState {
  tohost : Z;
  fromhost : Z;
  htif_console_buf : Z;
  htif_lock : Z;
  frontend_lock : Z;
  htif : Z;
  hmem : bytes;
  host : H
}.
Arguments HtifState {H}.
Arguments tohost {H}.
Arguments fromhost {H}.
Arguments htif_console_buf {H}.
Arguments htif_lock {H}.
Arguments frontend_lock {H}.
Arguments htif {H}.
Arguments hmem {H}.
Arguments host {H}.

Definition set_tohost {H} (v : Z) (s : htif_state H) : htif_state H :=
  HtifState v (fromhost s) (htif_console_buf s) (htif_lock s) (frontend_lock s) (htif s) (hmem s) (host s).
Definition set_fromhost {H} (v : Z) (s : htif_state H) : htif_state H :=
  HtifState (tohost s) v (htif_console_buf s) (htif_lock s) (frontend_lock s) (htif s) (hmem s) (host s).
Definition set_console_buf {H} (v : Z) (s : htif_state H) : htif_state H :=
  HtifState (tohost s) (fromhost s) v (htif_lock s) (frontend_lock s) (htif s) (hmem s) (host s).
Definition set_hmem {H} (v : bytes) (s : htif_state H) : htif_state H :=
  HtifState (tohost s) (fromhost s) (htif_console_buf s) (htif_lock s) (frontend_lock s) (htif s) v (host s).
Definition htif_lockL {H} : lens (htif_state H) Z := Lens htif_lock (fun v s =>
  HtifState (tohost s) (fromhost s) (htif_console_buf s) v (frontend_lock s) (htif s) (hmem s) (host s)).
Definition frontend_lockL {H} : lens (htif_state H) Z := Lens frontend_lock (fun v s =>
  HtifState (tohost s) (fromhost s) (htif_console_buf s) (htif_lock s) v (htif s) (hmem s) (host s)).

(** ** The locks of atomic.h, in a sequential run *)

(** A read and a write; interrupts are not disabled ([disable_irqsave] is 0). *)
Definition atomic_binop {S} (l : lens S Z) (op : Z -> Z) : M S Z :=
  let* res := gets (lget l) in
  modify (lset l (op res)) ;;;
  ret res.
Definition atomic_swap {S} (l : lens S Z) (inc : Z) : M S Z := atomic_binop l (fun _ => inc).

Definition spinlock_trylock {S} (l : lens S Z) : M S Z := atomic_swap l (-1).

Definition spinlock_lock {S} (fuel : nat) (l : lens S Z) : M S unit :=
  loop fuel (fun _ =>
    let* v := gets (lget l) in
    if negb (v =? 0) then ret (inl tt)
    else
      let* r := spinlock_trylock l in
      if negb (r =? 0) then ret (inl tt) else ret (inr tt)) tt.

Definition spinlock_unlock {S} (l : lens S Z) : M S unit := modify (lset l 0).

Definition spinlock_lock_irqsave {S} (fuel : nat) (l : lens S Z) : M S Z :=
  let flags := 0 in
  spinlock_lock fuel l ;;;
  ret flags.
Definition spinlock_unlock_irqrestore {S} (l : lens S Z) (flags : Z) : M S unit := spinlock_unlock l.

(** ** Registers *)

Section Htif.
  Context {H : Type} `{!HtifHost H}.

(** The host acts, then the register is read. *)
Definition read_reg (f : htif_state H -> Z) : M (htif_state H) Z := fun s =>
  let '(h', (th', fh', m')) := host_turn (host s) (tohost s) (fromhost s) (hmem s) in
  let s' := HtifState th' fh' (htif_console_buf s) (htif_lock s) (frontend_lock s) (htif s) m' h' in
  Ok (f s') s'.

Definition __check_fromhost : M (htif_state H) unit :=
  let* fh := read_reg fromhost in
  if fh =? 0 then ret tt
  else
    modify (set_fromhost 0) ;;;
    assert (FROMHOST_DEV fh =? 1) ;;;
    if FROMHOST_CMD fh =? 0 then modify (set_console_buf (1 + u8 (FROMHOST_DATA fh)))
    else if FROMHOST_CMD fh =? 1 then ret tt
    else panic.

Definition tohost_round (_ : unit) : M (htif_state H) (unit + unit) :=
  let* th := read_reg tohost in
  if th =? 0 then ret (inr tt) else __check_fromhost ;;; ret (inl tt).

Definition __set_tohost (fuel : nat) (dev cmd data : Z) : M (htif_state H) unit :=
  loop fuel tohost_round tt ;;;
  modify (set_tohost (TOHOST_CMD dev cmd data)).

Definition fromhost_round (dev cmd : Z) (_ : unit) : M (htif_state H) (unit + unit) :=
  let* fh := read_reg fromhost in
  if fh =? 0 then ret (inl tt)
  else if (FROMHOST_DEV fh =? dev) && (FROMHOST_CMD fh =? cmd) then
    modify (set_fromhost 0) ;;; ret (inr tt)
  else __check_fromhost ;;; ret (inl tt).

Definition do_tohost_fromhost (fuel : nat) (dev cmd data : Z) : M (htif_state H) unit :=
  spinlock_lock fuel htif_lockL ;;;
  __set_tohost fuel dev cmd data ;;;
  loop fuel (fromhost_round dev cmd) tt ;;;
  spinlock_unlock htif_lockL.

Definition htif_syscall (fuel : nat) (arg : Z) : M (htif_state H) unit :=
  do_tohost_fromhost fuel 0 0 arg.

Definition htif_console_putchar (fuel : nat) (ch : Z) : M (htif_state H) unit :=
  spinlock_lock fuel htif_lockL ;;;
  __set_tohost fuel 1 1 ch ;;;
  spinlock_unlock htif_lockL.

Definition htif_console_getchar (fuel : nat) : M (htif_state H) Z :=
  spinlock_lock fuel htif_lockL ;;;
  __check_fromhost ;;;
  let* ch := gets htif_console_buf in
  (if 0 <=? ch then
     modify (set_console_buf (-1)) ;;;
     __set_tohost fuel 1 0 0
   else ret tt) ;;;
  spinlock_unlock htif_lockL ;;;
  ret (ch - 1).

(** The simulation ends when the host sees 1 in [tohost]; the loop never does. *)
Definition htif_poweroff (fuel : nat) : M (htif_state H) unit :=
  loop fuel (fun _ => modify (set_fromhost 0) ;;; modify (set_tohost 1) ;;; ret (inl tt)) tt.

(** ** spike_utils.c *)

(** [magic_mem] is the address of the static array. *)
Definition frontend_syscall (fuel : nat) (magic_mem n a0 a1 a2 a3 a4 a5 a6 : Z) : M (htif_state H) Z :=
  spinlock_lock fuel frontend_lockL ;;;
  modify (fun s => set_hmem (store64 (hmem s) magic_mem n) s) ;;;
  modify (fun s => set_hmem (store64 (hmem s) (magic_mem + 8) a0) s) ;;;
  modify (fun s => set_hmem (store64 (hmem s) (magic_mem + 16) a1) s) ;;;
  modify (fun s => set_hmem (store64 (hmem s) (magic_mem + 24) a2) s) ;;;
  modify (fun s => set_hmem (store64 (hmem s) (magic_mem + 32) a3) s) ;;;
  modify (fun s => set_hmem (store64 (hmem s) (magic_mem + 40) a4) s) ;;;
  modify (fun s => set_hmem (store64 (hmem s) (magic_mem + 48) a5) s) ;;;
  modify (fun s => set_hmem (store64 (hmem s) (magic_mem + 56) a6) s) ;;;
  htif_syscall fuel magic_mem ;;;
  let* ret' := gets (fun s => load64 (hmem s) magic_mem) in
  spinlock_unlock frontend_lockL ;;;
  ret (s64 ret').

Definition mcall_console_getchar (fuel : nat) : M (htif_state H) Z :=
  let* h := gets htif in
  if negb (h =? 0) then let* c := htif_console_getchar fuel in ret (u64 (s32 c)) else ret 0.

Definition mcall_console_putchar (fuel : nat) (ch : Z) : M (htif_state H) Z :=
  let* h := gets htif in
  (if negb (h =? 0) then htif_console_putchar fuel ch else ret tt) ;;;
  ret 0.

Definition putstring (fuel : nat) (p : Z) : M (htif_state H) unit :=
  loop fuel (fun p =>
    let* c := gets (fun s => load8 (hmem s) p) in
    if c =? 0 then ret (inr tt)
    else let* _ := mcall_console_putchar fuel c in ret (inl (p + 1))) p.

(** [buf] is the address of the local array. *)
Definition vprintm (fuel : nat) (buf : Z) (s : list Z) (vl : list va_slot) : M (htif_state H) unit :=
  let* m := gets hmem in
  let* (_, m') := of_option (vsnprintf buf 256 s vl m) in
  modify (set_hmem m') ;;;
  putstring fuel buf.

End Htif.

(** ** A proxied call returns the host's answer *)

Section Proxy.
  Context {H : Type} `{!HtifHost H}.

Ltac fields := cbn [tohost fromhost htif_lock frontend_lock htif hmem host lset lget htif_lockL
  frontend_lockL set_tohost set_fromhost set_hmem] in *.

(** No message of the host, or one of the console. *)
Definition quiet (s : htif_state H) : Prop := fromhost s = 0 \/ console_word (fromhost s).

(** [s'] is [s] but for the registers, the character buffer and the host. *)
Definition same (s s' : htif_state H) : Prop :=
  htif_lock s' = htif_lock s /\ frontend_lock s' = frontend_lock s /\ htif s' = htif s /\ hmem s' = hmem s.

(** The rounds that a register may still make the kernel wait. *)
Definition rounds (s : htif_state H) : nat :=
  2 * delay (host s) + if fromhost s =? 0 then 0 else 1.

Lemma rounds_0 (s : htif_state H) : fromhost s = 0 -> rounds s = (2 * delay (host s))%nat.
Proof. intros E. unfold rounds. rewrite E. cbn. lia. Qed.

Lemma rounds_le (s : htif_state H) : (rounds s <= 2 * delay (host s) + 1)%nat.
Proof. unfold rounds. destruct (_ =? _); lia. Qed.

Lemma check_full (s : htif_state H) : console_word (fromhost s) ->
  exists s', __check_fromhost s = Ok tt s' /\ same s s' /\ fromhost s' = 0 /\ tohost s' = tohost s /\
    (delay (host s') <= delay (host s))%nat.
Proof.
  intros (Hne & Hd & Hc). destruct (host_holds (host s) (tohost s) (fromhost s) (hmem s) Hne) as (h' & Ht & Hl).
  unfold __check_fromhost, bind at 1, read_reg. rewrite Ht. cbn [fromhost].
  rewrite (proj2 (Z.eqb_neq _ _)) by done. unfold bind, modify, assert. rewrite Hd. cbn [Z.eqb Pos.eqb ret].
  destruct Hc as [-> | ->]; cbn [Z.eqb Pos.eqb]; eexists; (split; [done|]); by repeat split.
Qed.

Lemma check_empty (s : htif_state H) : fromhost s = 0 -> console_request (tohost s) ->
  exists s', __check_fromhost s = Ok tt s' /\ same s s' /\ fromhost s' = 0 /\
    (tohost s' = 0 \/ tohost s' = tohost s /\ (delay (host s') < delay (host s))%nat).
Proof.
  intros E Hr. destruct (host_console (host s) (tohost s) (hmem s) Hr) as (h' & th' & fh' & Ht & Hf & Hth).
  unfold __check_fromhost, bind at 1, read_reg. rewrite E, Ht. cbn [fromhost].
  destruct Hf as [->|(Hne & Hd & Hc)]; [eexists; split; [done|]; by repeat split|].
  rewrite (proj2 (Z.eqb_neq _ _)) by done. unfold bind, modify, assert. rewrite Hd. cbn [Z.eqb Pos.eqb ret].
  destruct Hc as [-> | ->]; cbn [Z.eqb Pos.eqb]; eexists; (split; [done|]); by repeat split.
Qed.

(** One round of waiting for [tohost]. *)
Lemma tohost_round_run (s : htif_state H) : quiet s -> tohost s = 0 \/ console_request (tohost s) ->
  exists r s', tohost_round tt s = Ok r s' /\ same s s' /\ quiet s' /\
    match r with
    | inr _ => tohost s' = 0
    | inl _ => (tohost s' = 0 \/ tohost s' = tohost s /\ (rounds s' < rounds s)%nat) /\ tohost s <> 0
    end.
Proof.
  intros Hq Hth. unfold tohost_round, bind at 1, read_reg.
  destruct (Z.eqb_spec (fromhost s) 0) as [E|E].
  - destruct (Z.eqb_spec (tohost s) 0) as [Et|Et].
    + rewrite E, Et. destruct (host_idle (host s) (hmem s)) as (h' & fh' & -> & Hf). cbn [tohost Z.eqb].
      eexists _, _. split; [done|]. by repeat split.
    + destruct Hth as [|Hr]; [done|].
      destruct (host_console (host s) (tohost s) (hmem s) Hr) as (h' & th' & fh' & Ht & Hf & Hc).
      rewrite E, Ht. cbn [tohost]. destruct (Z.eqb_spec th' 0) as [->|Hne].
      { eexists _, _. split; [done|]. by repeat split. }
      destruct Hc as [|[-> Hd]]; [done|]. set (s1 := HtifState _ _ _ _ _ _ _ _).
      assert (exists s', __check_fromhost s1 = Ok tt s' /\ same s1 s' /\ fromhost s' = 0 /\
        (tohost s' = 0 \/ tohost s' = tohost s /\ (delay (host s') <= delay h')%nat)) as (s' & Hrun & Hs & H0 & Hto).
      { destruct Hf as [->|Hf].
        - destruct (check_empty s1 eq_refl Hr) as (s' & ? & ? & ? & ?). exists s'. cbn in *. intuition lia.
        - destruct (check_full s1 Hf) as (s' & ? & ? & ? & ? & ?). exists s'. cbn in *. intuition lia. }
      unfold bind. rewrite Hrun. eexists _, _. split; [done|]. split; [done|]. split; [by left|].
      split; [|done]. destruct Hto as [|[? ?]]; [by left|]. right. split; [done|].
      rewrite !rounds_0 by done. lia.
  - destruct Hq as [|Hq]; [done|].
    destruct (host_holds (host s) (tohost s) (fromhost s) (hmem s) E) as (h' & -> & Hl). cbn [tohost].
    destruct (Z.eqb_spec (tohost s) 0) as [Et|Et].
    { eexists _, _. split; [done|]. split; [by repeat split|]. split; [by right|done]. }
    set (s1 := HtifState _ _ _ _ _ _ _ _). destruct (check_full s1 Hq) as (s' & Hrun & Hs & H0 & Hto & Hd).
    unfold bind. rewrite Hrun. eexists _, _. split; [done|]. split; [done|]. split; [by left|].
    split; [|done]. right. split; [done|]. rewrite rounds_0 by done. unfold rounds.
    rewrite (proj2 (Z.eqb_neq _ _)) by done. cbn in Hd. lia.
Qed.

Lemma same_trans (s1 s2 s3 : htif_state H) : same s1 s2 -> same s2 s3 -> same s1 s3.
Proof. unfold same. intuition congruence. Qed.

Lemma tohost_loop fuel : forall s : htif_state H,
  quiet s -> tohost s = 0 \/ console_request (tohost s) -> (rounds s + 1 < fuel)%nat ->
  exists s', loop fuel tohost_round tt s = Ok tt s' /\ same s s' /\ quiet s' /\ tohost s' = 0.
Proof.
  induction fuel as [|fuel IH]; intros s Hq Hth Hf; [lia|]. cbn [loop].
  destruct (tohost_round_run s Hq Hth) as (r & s1 & Hrun & Hs & Hq1 & Hr).
  unfold bind. rewrite Hrun. destruct r as [[]|[]]; [|eauto].
  destruct Hr as [[H0|[Ht Hr]] Hne].
  - destruct fuel as [|fuel]; [lia|]. cbn [loop].
    destruct (tohost_round_run s1 Hq1 (or_introl H0)) as (r & s2 & Hrun2 & Hs2 & Hq2 & Hr2).
    unfold bind. rewrite Hrun2. destruct r as [?|[]]; [by destruct Hr2|].
    exists s2. split; [done|]. split; [by eapply same_trans|done].
  - destruct (IH s1 Hq1) as (s2 & Hrun2 & Hs2 & Hq2 & H0); [by rewrite Ht|lia|].
    exists s2. split; [done|]. split; [by eapply same_trans|done].
Qed.

(** One round of waiting for the answer to a call. *)
Lemma fromhost_round_run a (s : htif_state H) :
  0 < a < 2 ^ 48 -> quiet s -> tohost s = TOHOST_CMD 0 0 a ->
  exists r s', fromhost_round 0 0 tt s = Ok r s' /\
    htif_lock s' = htif_lock s /\ frontend_lock s' = frontend_lock s /\
    match r with
    | inr _ => tohost s' = 0 /\ fromhost s' = 0 /\ hmem s' = reply a (hmem s)
    | inl _ => tohost s' = tohost s /\ fromhost s' = 0 /\ hmem s' = hmem s /\ (rounds s' < rounds s)%nat
    end.
Proof.
  intros Ha Hq Hth. unfold fromhost_round, bind at 1, read_reg.
  destruct (Z.eqb_spec (fromhost s) 0) as [E|E].
  - destruct (host_serves (host s) a (hmem s) Ha) as (h' & th' & fh' & m' & Ht & Hc).
    rewrite Hth, E, Ht. cbn [fromhost].
    destruct Hc as [(-> & -> & Hf & Hd)|(-> & -> & Hne & Hd & Hc)].
    + destruct Hf as [->|Hf].
      { eexists _, _. split; [done|]. repeat split. rewrite !rounds_0 by done. fields. lia. }
      set (s1 := HtifState _ _ _ _ _ _ _ _). destruct (check_full s1 Hf) as (s' & Hrun & (H1 & H2 & _ & H3) & H0 & Hto & Hl).
      destruct Hf as (Hne & Hdv & _). rewrite (proj2 (Z.eqb_neq _ _)), Hdv by done. cbn [Z.eqb andb].
      unfold bind. rewrite Hrun. eexists _, _. split; [done|]. subst s1. fields.
      split_and!; try done. rewrite !rounds_0 by done. lia.
    + rewrite (proj2 (Z.eqb_neq _ _)), Hd, Hc by done. cbn [Z.eqb andb]. eexists _, _. by repeat split.
  - destruct Hq as [|Hq]; [done|]. pose proof Hq as (_ & Hdv & _).
    destruct (host_holds (host s) (tohost s) (fromhost s) (hmem s) E) as (h' & -> & Hl). cbn [fromhost].
    rewrite (proj2 (Z.eqb_neq _ _)), Hdv by done. cbn [Z.eqb andb].
    set (s1 := HtifState _ _ _ _ _ _ _ _). destruct (check_full s1 Hq) as (s' & Hrun & (H1 & H2 & _ & H3) & H0 & Hto & Hd).
    unfold bind. rewrite Hrun. eexists _, _. split; [done|]. subst s1. fields. split_and!; try done.
    rewrite rounds_0 by done. unfold rounds. rewrite (proj2 (Z.eqb_neq _ _)) by done. lia.
Qed.

Lemma fromhost_loop a fuel : 0 < a < 2 ^ 48 -> forall s : htif_state H,
  quiet s -> tohost s = TOHOST_CMD 0 0 a -> (rounds s < fuel)%nat ->
  exists s', loop fuel (fromhost_round 0 0) tt s = Ok tt s' /\
    htif_lock s' = htif_lock s /\ frontend_lock s' = frontend_lock s /\
    tohost s' = 0 /\ fromhost s' = 0 /\ hmem s' = reply a (hmem s).
Proof.
  intros Ha. induction fuel as [|fuel IH]; intros s Hq Hth Hf; [lia|]. cbn [loop].
  destruct (fromhost_round_run a s Ha Hq Hth) as (r & s1 & Hrun & H1 & H2 & Hr).
  unfold bind. rewrite Hrun. destruct r as [[]|[]]; [|by exists s1].
  destruct Hr as (Ht & H0 & Hm & Hd).
  destruct (IH s1) as (s2 & Hrun2 & ? & ? & ? & ? & ?); [by left|congruence|lia|].
  exists s2. split_and!; try done; congruence.
Qed.

Lemma spinlock_lock_run {S} (l : lens S Z) fuel s : (0 < fuel)%nat -> lget l s = 0 ->
  spinlock_lock fuel l s = Ok tt (lset l (-1) s).
Proof.
  intros Hf E. destruct fuel; [lia|]. unfold spinlock_lock, spinlock_trylock, atomic_swap, atomic_binop. cbn [loop].
  unfold bind, gets. rewrite E. cbn [Z.eqb negb]. by rewrite E.
Qed.

Lemma do_tohost_fromhost_run a fuel (s : htif_state H) :
  0 < a < 2 ^ 48 -> quiet s -> tohost s = 0 \/ console_request (tohost s) -> htif_lock s = 0 ->
  (2 * host_bound + 2 < fuel)%nat ->
  exists s', htif_syscall fuel a s = Ok tt s' /\ htif_lock s' = 0 /\ frontend_lock s' = frontend_lock s /\
    tohost s' = 0 /\ fromhost s' = 0 /\ hmem s' = reply a (hmem s).
Proof.
  intros Ha Hq Hth Hl Hf. unfold htif_syscall, do_tohost_fromhost, bind at 1.
  rewrite spinlock_lock_run by (done || lia). set (s1 := lset htif_lockL (-1) s).
  assert (forall s : htif_state H, rounds s <= 2 * host_bound + 1)%nat as Hb.
  { intros s'. pose proof (rounds_le s'). pose proof (delay_bound (host s')). lia. }
  destruct (tohost_loop fuel s1) as (s2 & Hrun & (H1 & H2 & _ & H3) & Hq2 & Ht2); [done..|specialize (Hb s1); lia|].
  unfold bind at 1, __set_tohost, bind at 1. rewrite Hrun. unfold modify at 1.
  destruct (fromhost_loop a fuel Ha (set_tohost (TOHOST_CMD 0 0 a) s2)) as (s3 & Hrun3 & ? & ? & ? & ? & Hm);
    [done..|specialize (Hb (set_tohost (TOHOST_CMD 0 0 a) s2)); lia|].
  unfold bind. rewrite Hrun3. eexists. split; [done|]. subst s1. fields. split_and!; try done; congruence.
Qed.

(** The request of a call in memory: the number and the seven arguments. *)
Definition request (m : bytes) (magic_mem : Z) (ws : list Z) : bytes :=
  (fold_left (fun '(m, a) w => (store64 m a w, a + 8)) ws (m, magic_mem)).1.


End Proxy.

(** ** A host *)

(** A host that is busy for one turn, presses a key in it, and answers 7. *)
Definition demo_turn (busy : bool) (th fh : Z) (m : bytes) : bool * (Z * Z * bytes) :=
  if negb (fh =? 0) then (busy, (th, fh, m))
  else if th =? 0 then (busy, (0, 0, m))
  else if busy then (false, (th, TOHOST_CMD 1 0 97, m))
  else if FROMHOST_DEV th =? 1 then (true, (0, 0, m))
  else (true, (0, 1, store64 m th 7)).

Lemma demo_key : console_word (TOHOST_CMD 1 0 97).
Proof. split; [done|]. split; [done|]. by left. Qed.

#[export] Program Instance demo_host : HtifHost bool := {
  host_turn := demo_turn;
  reply := fun a m => store64 m a 7;
  delay := fun busy => if busy : bool then 1%nat else 0%nat;
  host_bound := 1
}.
Next Obligation. intros []; lia. Qed.
Next Obligation.
  intros h th fh m Hne. unfold demo_turn. rewrite (proj2 (Z.eqb_neq _ _)) by done. eauto.
Qed.
Next Obligation. intros h m. unfold demo_turn. cbn. eauto. Qed.
Next Obligation.
  intros h th m Hr. unfold demo_turn. destruct (Z.eqb_spec th 0) as [->|]; [by vm_compute in Hr|].
  rewrite Hr. cbn [Z.eqb negb Pos.eqb]. destruct h; eexists _, _, _; (split; [done|]).
  - split; [right; apply demo_key|]. right. split; [done|lia].
  - split; by left.
Qed.
Next Obligation.
  intros h a m Ha. replace (TOHOST_CMD 0 0 a) with a by done. unfold demo_turn.
  rewrite (proj2 (Z.eqb_neq a 0)) by lia. replace (FROMHOST_DEV a) with 0.
  2: { unfold FROMHOST_DEV. rewrite Z.shiftr_div_pow2, Z.div_small by lia. done. }
  cbn [Z.eqb negb]. destruct h; eexists _, _, _, _; (split; [done|]).
  - left. split_and!; try done; [right; apply demo_key|lia].
  - right. by vm_compute.
Qed.


(** ** Harts at the locks of atomic.h *)

(** Where a hart is in [spinlock_lock] and after it: [atomic_swap] is a read and
    then a write, [disable_irqsave] does nothing. *)
Inductive atomic_phase : Type :=
| ReadLoop
| SwapRead
| SwapWrite (res : Z)
| InSection
| Done.

Record lock_world : Type := LockWorld { lock_word : Z; lock_harts : gmap Z atomic_phase }.

Definition at_phase (h : Z) (p : atomic_phase) (v : Z) (w : lock_world) : lock_world :=
  LockWorld v (<[h := p]> (lock_harts w)).

Inductive atomic_step (h : Z) (w : lock_world) : lock_world -> Prop :=
| read_busy :
    lock_harts w !! h = Some ReadLoop -> lock_word w <> 0 -> atomic_step h w w
| read_free :
    lock_harts w !! h = Some ReadLoop -> lock_word w = 0 ->
    atomic_step h w (at_phase h SwapRead (lock_word w) w)
| swap_read :
    lock_harts w !! h = Some SwapRead ->
    atomic_step h w (at_phase h (SwapWrite (lock_word w)) (lock_word w) w)
| swap_write res :
    lock_harts w !! h = Some (SwapWrite res) ->
    atomic_step h w (at_phase h (if res =? 0 then InSection else ReadLoop) (-1) w)
| section_unlock :
    lock_harts w !! h = Some InSection -> atomic_step h w (at_phase h Done 0 w).

Definition atomic_world_step (w w' : lock_world) : Prop := exists h, atomic_step h w w'.

Definition two_harts : lock_world := LockWorld 0 {[0 := ReadLoop; 1 := ReadLoop]}.

(** Harts that wait for a lock that is set, with nobody to release it. *)
Definition stuck (w : lock_world) : Prop :=
  lock_word w <> 0 /\ forall h p, lock_harts w !! h = Some p -> p = ReadLoop \/ p = Done.

Lemma stuck_forever w w' : stuck w -> atomic_world_step w w' -> w' = w.
Proof. intros [Hw Hp] [h Hs]. destruct Hs as [? ?|H ?|H|? H|H]; [done|done|..]; by destruct (Hp h _ H). Qed.

(** Takes the hart [h] one step further, by the constructor [c]. *)
Ltac hart_takes h c := eapply rtc_l; [exists h; eapply c; by vm_compute|].

Lemma both_inside : exists w, rtc atomic_world_step two_harts w /\
  lock_harts w !! 0 = Some InSection /\ lock_harts w !! 1 = Some InSection.
Proof.
  eexists. split.
  - hart_takes 0 read_free. hart_takes 1 read_free. hart_takes 0 swap_read. hart_takes 1 swap_read.
    hart_takes 0 swap_write. hart_takes 1 swap_write. apply rtc_refl.
  - by vm_compute.
Qed.

Lemma unlock_lost : exists w, rtc atomic_world_step two_harts w /\ stuck w /\
  lock_harts w !! 0 = Some Done /\ lock_harts w !! 1 = Some ReadLoop.
Proof.
  eexists. split.
  - hart_takes 0 read_free. hart_takes 1 read_free. hart_takes 0 swap_read. hart_takes 0 swap_write.
    hart_takes 1 swap_read. hart_takes 0 section_unlock. hart_takes 1 swap_write. apply rtc_refl.
  - split; [|by vm_compute]. split; [done|]. intros h p. cbn.
    destruct (decide (h = 1)) as [->|]; [rewrite lookup_insert_eq; intros [= <-]; by left|].
    rewrite lookup_insert_ne by done.
    destruct (decide (h = 0)) as [->|]; [rewrite lookup_insert_eq; intros [= <-]; by right|].
    repeat (rewrite lookup_insert_ne by done). by rewrite lookup_singleton_ne by done.
Qed.

(** C40: the locks of atomic.h do not work between harts, since their exchange is a read
    and a write: two harts that call [spinlock_lock] on a free lock can both enter,
    and a hart whose exchange overlaps the release leaves the lock set with nobody
    holding it, after which it waits forever. *)
Theorem atomic_lock_races :
  (exists w, rtc atomic_world_step two_harts w /\
     lock_harts w !! 0 = Some InSection /\ lock_harts w !! 1 = Some InSection) /\
  (exists w, rtc atomic_world_step two_harts w /\
     lock_harts w !! 0 = Some Done /\ lock_harts w !! 1 = Some ReadLoop /\
     forall w', rtc atomic_world_step w w' -> w' = w).
Proof.
  split; [apply both_inside|]. destruct unlock_lost as (w & Hr & Hs & H0 & H1).
  exists w. split_and!; [done..|]. intros w' H. induction H as [|w w1 w2 Hstep _ IH]; [done|].
  apply stuck_forever in Hstep; [|done]. subst w1. by apply IH.
Qed.
