(* ===== verification/UserLib.v ===== *)
(** * The user library (user/user_lib.c)

    User programs run on their own memory and reach the kernel through [ecall].
    They are written in a small monad of their own: a program ends with a value, or
    is gone after a call that does not return ([exit], or an [exec] that
    succeeded).  The kernel is a parameter: what an [ecall] does to the memory of
    the program and what it returns. *)

From S2P Require Import Prelude Mem StringLib Printf Scanf Fs System Syscall.
From stdpp Require Import base gmap list fin_maps.
From Stdlib Require Import ZArith Lia Bool.

Set Default Goal Selector "!".
Open Scope Z_scope.

(** ** User programs *)

(** The memory of the program, the kernel it talks to, and the data structures of
    the program. *)
Record ustate (K D : Type) : Type := UState { umem : bytes; ukern : K; udata : D }.
Arguments UState {K D}.
Arguments umem {K D}.
Arguments ukern {K D}.
Arguments udata {K D}.

Inductive uresult (K D A : Type) : Type :=
| UDone (a : A) (s : ustate K D)
| UGone (s : ustate K D)
| UFault
| UStuck.
Arguments UDone {K D A}.
Arguments UGone {K D A}.
Arguments UFault {K D A}.
Arguments UStuck {K D A}.

Definition U (K D A : Type) : Type := ustate K D -> uresult K D A.

Section Monad.
  Context {K D : Type}.

Definition uret {A} (a : A) : U K D A := fun s => UDone a s.
Definition ubind {A B} (m : U K D A) (k : A -> U K D B) : U K D B := fun s =>
  match m s with
  | UDone a s => k a s
  | UGone s => UGone s
  | UFault => UFault
  | UStuck => UStuck
  end.
Definition ufault {A} : U K D A := fun _ => UFault.

(** A function of util/ on the memory of the program. *)
Definition umemory {A} (m : M bytes A) : U K D A := fun s =>
  match m (umem s) with
  | Ok a m => UDone a (UState m (ukern s) (udata s))
  | Diverge => UStuck
  | _ => UFault
  end.

Fixpoint uloop {A B} (fuel : nat) (body : A -> U K D (A + B)) (a : A) : U K D B :=
  match fuel with
  | O => fun _ => UStuck
  | S fuel => ubind (body a) (fun r => match r with inl a => uloop fuel body a | inr b => uret b end)
  end.

End Monad.

Declare Scope user_scope.
Delimit Scope user_scope with user.
Notation "'do*' x := m 'in' k" := (ubind m (fun x => k))
  (at level 200, x pattern, right associativity) : user_scope.
Notation "m ;; k" := (ubind m (fun _ => k)) (at level 100, right associativity) : user_scope.
Open Scope user_scope.

(** What the instruction [ecall] does with the registers a0-a7: the value of a0
    when it returns, or nothing when the program does not go on. *)
Class UserKernel (K : Type) : Type := {
  ecall : Z -> list Z -> bytes -> K -> option Z * bytes * K
}.

Definition stdin_u : Z := -10.
Definition stdout_u : Z := -11.

Section UserLib.
  Context {K D : Type} `{!UserKernel K}.

(** The result is stored as a 32-bit [int] and returned as [uint64]. *)
Definition do_user_call (sysnum a1 a2 a3 a4 a5 a6 a7 : Z) : U K D Z := fun s =>
  match ecall sysnum [a1; a2; a3; a4; a5; a6; a7] (umem s) (ukern s) with
  | (Some a0, m, k) => UDone (u64 (s32 a0)) (UState m k (udata s))
  | (None, m, k) => UGone (UState m k (udata s))
  end.

(** A wrapper that returns [int]. *)
Definition int_call (sysnum a1 a2 a3 : Z) : U K D Z :=
  do* r := do_user_call sysnum a1 a2 a3 0 0 0 0 in uret (s32 r).
Definition void_call (sysnum a1 : Z) : U K D unit :=
  do* _ := do_user_call sysnum a1 0 0 0 0 0 0 in uret tt.

(** [out] is the address of the local array of 256 bytes. *)
Definition format_out (out : Z) (s : list Z) (vl : list va_slot) : U K D Z := fun st =>
  match vsnprintf out 256 s vl (umem st) with
  | Some (res, m) => UDone (if u64 res <? 256 then u64 res else 256) (UState m (ukern st) (udata st))
  | None => UFault
  end.

Definition printu (out : Z) (s : list Z) (vl : list va_slot) : U K D Z :=
  do* n := format_out out s vl in
  int_call SYS_user_print out n 0.

Definition write_u (fd buf count : Z) : U K D Z := int_call SYS_user_write (u64 fd) buf count.
Definition read_u (fd buf count : Z) : U K D Z := int_call SYS_user_read (u64 fd) buf count.

Definition fprintu (out fd : Z) (s : list Z) (vl : list va_slot) : U K D Z :=
  do* n := format_out out s vl in
  if fd =? stdout_u then int_call SYS_user_print out n 0
  else write_u fd out n.

Definition scanfu (buf : Z) (s : list Z) (vl : list Z) : U K D Z :=
  do* _ := do_user_call SYS_user_scanf buf 0 0 0 0 0 0 in
  umemory (vsnscanf buf 256 s vl).

Definition fscanf_u (buf fd : Z) (s : list Z) (vl : list Z) : U K D Z :=
  (if fd =? stdin_u then do* _ := do_user_call SYS_user_scanf buf 0 0 0 0 0 0 in uret tt
   else do* _ := read_u fd buf 256 in uret tt) ;;
  umemory (vsnscanf buf 256 s vl).

Definition getsu (s size : Z) : U K D Z := int_call SYS_user_gets s (u64 size) 0.
Definition exit (code : Z) : U K D Z := int_call SYS_user_exit (u64 code) 0 0.
Definition naive_malloc : U K D Z := do_user_call SYS_user_allocate_page 0 0 0 0 0 0 0.
Definition naive_free (va : Z) : U K D unit := void_call SYS_user_free_page va.
Definition fork : U K D Z := int_call SYS_user_fork 0 0 0.
Definition fork_to (target_hartid : Z) : U K D Z := int_call SYS_user_fork_to (u64 target_hartid) 0 0.
Definition get_ncpu : U K D Z := int_call SYS_user_get_ncpu 0 0 0.
Definition yield : U K D unit := void_call SYS_user_yield 0.
Definition open (pathname flags : Z) : U K D Z := int_call SYS_user_open pathname (u64 flags) 0.
Definition lseek_u (fd offset whence : Z) : U K D Z :=
  int_call SYS_user_lseek (u64 fd) (u64 offset) (u64 whence).
Definition stat_u (fd istat : Z) : U K D Z := int_call SYS_user_stat (u64 fd) istat 0.
Definition disk_stat_u (fd istat : Z) : U K D Z := int_call SYS_user_disk_stat (u64 fd) istat 0.
Definition opendir_u (dirname : Z) : U K D Z := int_call SYS_user_opendir dirname 0 0.
Definition readdir_u (fd dir : Z) : U K D Z := int_call SYS_user_readdir (u64 fd) dir 0.
Definition mkdir_u (pathname : Z) : U K D Z := int_call SYS_user_mkdir pathname 0 0.
Definition closedir_u (fd : Z) : U K D Z := int_call SYS_user_closedir (u64 fd) 0 0.
Definition link_u (fn1 fn2 : Z) : U K D Z := int_call SYS_user_link fn1 fn2 0.
Definition unlink_u (fn : Z) : U K D Z := int_call SYS_user_unlink fn 0 0.
Definition close (fd : Z) : U K D Z := int_call SYS_user_close (u64 fd) 0 0.
Definition wait (pid : Z) : U K D Z := int_call SYS_user_wait (u64 pid) 0 0.
Definition exec (command para : Z) : U K D Z := int_call SYS_user_exec command para 0.
Definition read_cwd (path : Z) : U K D Z := int_call SYS_user_rcwd path 0 0.
Definition change_cwd (path : Z) : U K D Z := int_call SYS_user_ccwd path 0 0.
Definition printpa (va : Z) : U K D unit := void_call SYS_user_printpa va.
Definition sem_new (initval : Z) : U K D Z := int_call SYS_user_sem_new (u64 initval) 0 0.
Definition sem_P (sem_id : Z) : U K D unit := void_call SYS_user_sem_P (u64 sem_id).
Definition sem_V (sem_id : Z) : U K D unit := void_call SYS_user_sem_V (u64 sem_id).
Definition better_malloc (n : Z) : U K D Z := do_user_call SYS_user_allocate_mem (u64 n) 0 0 0 0 0 0.
Definition better_free (va : Z) : U K D unit := void_call SYS_user_free_mem va.
Definition print_backtrace (depth : Z) : U K D Z := int_call SYS_user_print_backtrace (u64 depth) 0 0.
Definition pipline_write : U K D Z := int_call SYS_user_pipline_write 0 0 0.
Definition pipline_read : U K D Z := int_call SYS_user_pipline_read 0 0 0.
Definition pipline_reset : U K D Z := int_call SYS_user_pipline_reset 0 0 0.

(** Accesses of a program to its memory. *)
Definition uload (n : nat) (a : Z) : U K D Z := fun s => UDone (load_le n (umem s) a) s.
Definition ustore (n : nat) (a v : Z) : U K D unit := fun s => UDone tt (UState (store_le n (umem s) a v) (ukern s) (udata s)).

(** The string that a pointer argument of [%s] refers to. *)
Definition ustring (fuel : nat) (p : Z) : U K D (list Z) := fun s =>
  match string_at fuel (umem s) p with Some l => UDone l s | None => UStuck end.

End UserLib.
