(* ===== verification/Apps.v ===== *)
(** * User programs (user/app_*.c)

    The programs that run on the kernel, as programs of [UserLib].  Local arrays and
    string literals that are passed to the kernel are at addresses that the compiler
    and the linker choose: the former are arguments, the latter are [lit s] for the
    literal [s].  A global variable of a program is the data component of its state. *)

From Stdlib Require Import String Ascii.
From S2P Require Import Prelude Mem StringLib Literals Printf Scanf Fs Hostfs System Syscall UserLib.
From stdpp Require Import base gmap list fin_maps.
From Stdlib Require Import ZArith Lia Bool.

Set Default Goal Selector "!".
Open Scope Z_scope.
Open Scope user_scope.

Definition SEEK_SET : Z := 0.

(** The bytes of a literal that ends in a newline. *)
Definition line (s : string) : list Z := str s ++ [10].

Section Apps.
  Context {K : Type} `{!UserKernel K} (lit : string -> Z) (out : Z) (fuel : nat).

Section Data.
  Context {D : Type}.

Definition print (s : list Z) (vl : list va_slot) : U K D unit :=
  do* _ := printu out s vl in uret tt.
(** A [printu] whose only argument is the string at [p]. *)
Definition print_str (s : list Z) (p : Z) : U K D unit :=
  do* t := ustring fuel p in print s [VStr t].

Definition global : U K D D := fun s => UDone (udata s) s.
Definition set_global (x : D) : U K D unit := fun s => UDone tt (UState (umem s) (ukern s) x).

(** [for (int i = 0; i < n; i++)] without an early exit. *)
Definition ufor (n : Z) (body : Z -> U K D unit) : U K D unit :=
  uloop (S (Z.to_nat n)) (fun i => if i <? n then body i ;; uret (inl (i + 1)) else uret (inr tt)) 0.

(** A local array that is initialised with bytes. *)
Fixpoint uinit (a : Z) (l : list Z) : U K D unit :=
  match l with
  | [] => uret tt
  | c :: l => ustore 1 a c ;; uinit (a + 1) l
  end.

(** [exit(code); return code;] *)
Definition leave (code : Z) : U K D Z := do* _ := exit code in uret code.

(** ** Programs of a few calls *)

Definition main_app0 : U K D Z :=
  print (line ">>> app0 is expected to be executed by hart0") [] ;;
  leave 0.

Definition main_app1 : U K D Z :=
  print (line ">>> app1 is expected to be executed by hart1") [] ;;
  leave 0.

Definition main_print : U K D Z := print (str "/RAMDISK0") [] ;; leave 0.

Definition main_cat (buf argv : Z) : U K D Z :=
  do* filename := uload 8 argv in
  print ([10] ++ line "======== cat command ========") [] ;;
  print_str (line "cat: %s") filename ;;
  do* fd := open filename O_RDWR in
  print (line "file descriptor fd: %d") [VNum fd] ;;
  do* _ := read_u fd buf 512 in
  print_str (str "read content: " ++ [10] ++ line "%s") buf ;;
  do* _ := close fd in
  leave 0.

(** [text] is the local array [str]. *)
Definition main_echo (text argv : Z) : U K D Z :=
  uinit text (str "hello world" ++ [0]) ;;
  do* filename := uload 8 argv in
  print ([10] ++ line "======== echo command ========") [] ;;
  print_str (line "echo: %s") filename ;;
  do* fd := open filename (Z.lor O_RDWR O_CREAT) in
  print (line "file descriptor fd: %d") [VNum fd] ;;
  do* n := umemory (strlen fuel text) in
  do* _ := write_u fd text n in
  print_str (str "write content: " ++ [10] ++ line "%s") text ;;
  do* _ := close fd in
  leave 0.

Definition main_touch (argv : Z) : U K D Z :=
  do* filename := uload 8 argv in
  print ([10] ++ line "======== touch command ========") [] ;;
  print_str (line "touch: %s") filename ;;
  do* fd := open filename O_CREAT in
  print (line "file descriptor fd: %d") [VNum fd] ;;
  do* _ := close fd in
  leave 0.

Definition main_mkdir (argv : Z) : U K D Z :=
  do* new_dir := uload 8 argv in
  print ([10] ++ line "======== mkdir command ========") [] ;;
  do* _ := mkdir_u new_dir in
  print_str (line "mkdir: %s") new_dir ;;
  leave 0.

Definition main_exec : U K D Z :=
  print ([10] ++ line "======== exec /bin/app_ls in app_exec ========") [] ;;
  do* r := exec (lit "/bin/app_ls") (lit "/RAMDISK0") in
  (if r =? -1 then print (line "exec failed!") [] else uret tt) ;;
  leave 0.

(** The instruction [csrw] is illegal in user mode: the machine stops in
    [handle_illegal_instruction]. *)
Definition illegal_instruction : U K D unit := fun s => UGone s.

Definition main_errorline : U K D Z :=
  print (line "Going to hack the system by running privilege instructions.") [] ;;
  illegal_instruction ;;
  leave 0.

(** The calls f1 to f8 of app_print_backtrace. *)
Definition f8 : U K D unit := do* _ := print_backtrace 7 in uret tt.
Definition f7 : U K D unit := f8.
Definition f6 : U K D unit := f7.
Definition f5 : U K D unit := f6.
Definition f4 : U K D unit := f5.
Definition f3 : U K D unit := f4.
Definition f2 : U K D unit := f3.
Definition f1 : U K D unit := f2.

Definition main_print_backtrace : U K D Z :=
  print (line "back trace the user app in the following:") [] ;;
  f1 ;;
  leave 0.

(** ** Directories *)

(** [struct dir] has the number of the inode after a name of 32 bytes. *)
Definition DIR_INUM : Z := 32.

(** One entry of the directory; [dir] and [name] are the local variables. *)
Definition ls_entry (dir name : Z) : U K D unit :=
  let width := 20 in
  do* _ := umemory (memset name 32 (width + 1)) in
  ustore 1 (name + width) 0 ;;
  do* n := umemory (strlen fuel dir) in
  do* inum := uload 4 (dir + DIR_INUM) in
  if n <? width then
    do* _ := umemory (strcpy fuel name dir) in
    ustore 1 (name + n) 32 ;;
    do* t := ustring fuel name in
    print (line "%s %d") [VStr t; VNum inum]
  else
    do* t := ustring fuel dir in
    print (line "%s %d") [VStr t; VNum inum].

Definition list_dir (path dir name : Z) : U K D unit :=
  do* dir_fd := opendir_u path in
  print (line "---------- ls command -----------") [] ;;
  print_str (str "ls " ++ [34] ++ str "%s" ++ [34] ++ line ":") path ;;
  print (line "[name]               [inode_num]") [] ;;
  uloop fuel (fun _ =>
    do* r := readdir_u dir_fd dir in
    if r =? 0 then ls_entry dir name ;; uret (inl tt) else uret (inr tt)) tt ;;
  print (line "------------------------------") [] ;;
  do* _ := closedir_u dir_fd in
  uret tt.

Definition main_ls (dir name argv : Z) : U K D Z :=
  do* path := uload 8 argv in
  list_dir path dir name ;;
  leave 0.

(** [inbuf] is the array of 256 bytes in [scanfu]. *)
Definition main_scan (inbuf path dir name : Z) : U K D Z :=
  do* _ := scanfu inbuf (str "%s") [path] in
  list_dir path dir name ;;
  leave 0.

Definition pwd (path : Z) : U K D unit :=
  do* _ := read_cwd path in
  print_str (line "cwd:%s") path.

Definition cd (path : Z) : U K D unit :=
  do* r := change_cwd path in
  if negb (r =? 0) then print (line "cd failed") [] else uret tt.

(** [path] is the array of [pwd]; [buf] and [text] those of [main]. *)
Definition main_relativepath (path buf text : Z) : U K D Z :=
  uinit text (str "hello world" ++ [0]) ;;
  print ([10] ++ line "======== Test 1: change current directory  ========") [] ;;
  pwd path ;;
  cd (lit "./RAMDISK0") ;;
  print (line "change current directory to ./RAMDISK0") [] ;;
  pwd path ;;
  print ([10] ++ line "======== Test 2: write/read file by relative path  ========") [] ;;
  print (line "write: ./ramfile") [] ;;
  do* fd := open (lit "./ramfile") (Z.lor O_RDWR O_CREAT) in
  print (line "file descriptor fd: %d") [VNum fd] ;;
  do* n := umemory (strlen fuel text) in
  do* _ := write_u fd text n in
  print_str (str "write content: " ++ [10] ++ line "%s") text ;;
  do* _ := close fd in
  do* fd := open (lit "./ramfile") O_RDWR in
  print (line "read: ./ramfile") [] ;;
  do* _ := read_u fd buf 512 in
  print_str (str "read content: " ++ [10] ++ line "%s") buf ;;
  do* _ := close fd in
  print ([10] ++ line "======== Test 3: Go to parent directory  ========") [] ;;
  pwd path ;;
  cd (lit "..") ;;
  print (line "change current directory to ..") [] ;;
  pwd path ;;
  print (line "read: ./hostfile.txt") [] ;;
  do* fd := open (lit "./hostfile.txt") O_RDONLY in
  print (line "file descriptor fd: %d") [VNum fd] ;;
  do* _ := read_u fd buf 512 in
  print_str (str "read content: " ++ [10] ++ line "%s") buf ;;
  do* _ := close fd in
  print ([10] ++ str "All tests passed!" ++ [10; 10]) [] ;;
  leave 0.

(** ** The heap *)

Definition ALLOC_N : Z := 200.

(** The programs app_alloc0 and app_alloc1; [p] is the local array of pointers. *)
Definition alloc_pages (base p : Z) (got has : list Z) : U K D Z :=
  ufor ALLOC_N (fun i =>
    do* a := naive_malloc in
    ustore 8 (p + 8 * i) a ;;
    ustore 4 a (u32 (base + i)) ;;
    print got [VNum a]) ;;
  ufor ALLOC_N (fun i =>
    do* a := uload 8 (p + 8 * i) in
    do* v := uload 4 a in
    print has [VNum v] ;;
    naive_free a) ;;
  leave 0.

Definition main_alloc0 (p : Z) : U K D Z :=
  alloc_pages 0 p (line "=== user alloc 0 @ vaddr 0x%x") (line "=== user 0: %d").
Definition main_alloc1 (p : Z) : U K D Z :=
  alloc_pages 5 p (line ">>> user alloc 1 @ vaddr 0x%x") (line ">>> user 1: %d").

Definition main_singlepageheap (text : Z) : U K D Z :=
  uinit text (str "hello, world!!!" ++ [0; 0; 0; 0; 0]) ;;
  do* m := better_malloc 100 in
  do* p := better_malloc 50 in
  (if 512 <? u64 (p - m) then
     print (str "you need to manage the vm space precisely!") [] ;;
     do* _ := exit (-1) in uret tt
   else uret tt) ;;
  better_free m ;;
  do* _ := umemory (strcpy fuel p text) in
  print_str (line "%s") p ;;
  do* n := better_malloc 50 in
  (if negb (m =? n) then
     print (line "your malloc is not complete.") [] ;;
     do* _ := exit (-1) in uret tt
   else uret tt) ;;
  leave 0.

(** The assignment [*p = ...] has type [int], and its value is converted back. *)
Fixpoint sum_sequence (depth : nat) (n p : Z) : U K D Z :=
  match depth with
  | O => fun _ => UStuck
  | S depth =>
      if n =? 0 then uret 0
      else
        do* r := sum_sequence depth (u64 (n - 1)) (p + 4) in
        let v := u32 (u64 (r + n)) in
        ustore 4 p v ;;
        uret (u64 (s32 v))
  end.

Definition main_sum_sequence : U K D Z :=
  let n := 1024 in
  do* ans := naive_malloc in
  do* r := sum_sequence 1026 (n + 1) ans in
  print (line "Summation of an arithmetic sequence from 0 to %ld is: %ld ") [VNum n; VNum r] ;;
  leave 0.

(** ** Processes *)

Definition main_cow : U K D Z :=
  do* heap_data := naive_malloc in
  print (str "the physical address of parent process heap is: ") [] ;;
  printpa heap_data ;;
  do* pid := fork in
  (if pid =? 0 then
     print (str "the physical address of child process heap before copy on write is: ") [] ;;
     printpa heap_data ;;
     ustore 4 heap_data 0 ;;
     print (str "the physical address of child process heap after copy on write is: ") [] ;;
     printpa heap_data
   else uret tt) ;;
  do* _ := wait pid in
  leave 0.

(** The loop of one of the three processes of app_semaphore. *)
Definition turns (wait_for wake : Z) (text : list Z) (args : Z -> list va_slot) : U K D unit :=
  ufor 10 (fun i =>
    sem_P wait_for ;;
    print text (args i) ;;
    sem_V wake).

Definition main_semaphore : U K D Z :=
  do* main_sem := sem_new 1 in
  do* child0 := sem_new 0 in
  do* child1 := sem_new 0 in
  do* pid := fork in
  (if pid =? 0 then
     do* pid := fork in
     if pid =? 0 then turns child1 main_sem (line "Child%d print %d") (fun i => [VNum 1; VNum i])
     else turns child0 child1 (line "Child%d print %d") (fun i => [VNum 0; VNum i])
   else turns main_sem child0 (line "Parent print %d") (fun i => [VNum i])) ;;
  leave 0.

(** *** app_test_performance *)

Definition MAX_CHILDREN_TRY : Z := 29.
Definition IO_CHUNK_SIZE : Z := 256.
Definition IO_ROUNDS : Z := 1024.

(** The loop over the forks: the number of children, or the result of [main] in a
    child whose [exit] came back. *)
Definition fork_children (tries : Z) (child : Z -> U K D unit) : U K D (Z + Z) :=
  uloop (S (Z.to_nat tries)) (fun i =>
    if i <? tries then
      do* pid := fork in
      if pid <? 0 then uret (inr (inl i))
      else if pid =? 0 then
        child i ;;
        do* _ := exit 0 in
        uret (inr (inr 0))
      else uret (inl (i + 1))
    else uret (inr (inl i))) 0.

Definition test_max_processes : U K D Z :=
  do* r := fork_children MAX_CHILDREN_TRY
    (fun i => print (line "[proc] child process created, num=%d") [VNum (i + 1)]) in
  match r with
  | inr v => uret v
  | inl children =>
      ufor children (fun _ => do* _ := wait (-1) in uret tt) ;;
      print (line "[proc] max concurrent user processes (including parent): %d") [VNum (children + 1)] ;;
      print (line "[proc] max concurrent child processes: %d") [VNum children] ;;
      uret children
  end.

(** The pattern that is written, and the sum of its bytes. *)
Definition fill_pattern (wbuf : Z) : U K D Z :=
  uloop (S (Z.to_nat IO_CHUNK_SIZE)) (fun '(i, wsum) =>
    if i <? IO_CHUNK_SIZE then
      ustore 1 (wbuf + i) (65 + i mod 26) ;;
      do* c := uload 1 (wbuf + i) in
      uret (inl (i + 1, s32 (wsum + c)))
    else uret (inr wsum)) (0, 0).

(** [cur += (int)rbuf[j]] over the buffer. *)
Definition sum_bytes (rbuf : Z) : U K D Z :=
  uloop (S (Z.to_nat IO_CHUNK_SIZE)) (fun '(j, cur) =>
    if j <? IO_CHUNK_SIZE then
      do* c := uload 1 (rbuf + j) in
      uret (inl (j + 1, s32 (cur + c)))
    else uret (inr cur)) (0, 0).

(** The loop of writes: the number of bytes, or nothing after a failure. *)
Definition write_rounds (rounds fd wbuf : Z) (msg : list Z) : U K D (option Z) :=
  uloop (S (Z.to_nat rounds)) (fun '(i, total) =>
    if i <? rounds then
      do* n := write_u fd wbuf IO_CHUNK_SIZE in
      if negb (n =? IO_CHUNK_SIZE) then
        print msg [VNum i; VNum n] ;;
        do* _ := close fd in
        uret (inr None)
      else uret (inl (i + 1, s32 (total + n)))
    else uret (inr (Some total))) (0, 0).

(** The loop of reads: the number of bytes and the sum of the bytes. *)
Definition read_rounds (rounds fd rbuf : Z) (msg : list Z) : U K D (option (Z * Z)) :=
  uloop (S (Z.to_nat rounds)) (fun '(i, total, rsum) =>
    if i <? rounds then
      ufor IO_CHUNK_SIZE (fun j => ustore 1 (rbuf + j) 0) ;;
      do* n := read_u fd rbuf IO_CHUNK_SIZE in
      if negb (n =? IO_CHUNK_SIZE) then
        print msg [VNum i; VNum n] ;;
        do* _ := close fd in
        uret (inr None)
      else
        do* cur := sum_bytes rbuf in
        uret (inl (i + 1, s32 (total + n), s32 (rsum + cur)))
    else uret (inr (Some (total, rsum)))) (0, 0, 0).

(** An existing file, or a new one. *)
Definition open_or_create (path : Z) : U K D Z :=
  do* fd := open path O_RDWR in
  if fd <? 0 then open path (Z.lor O_CREAT O_RDWR) else uret fd.

Definition test_io_stress (wbuf rbuf : Z) : U K D Z :=
  do* wsum := fill_pattern wbuf in
  do* fd := open_or_create (lit "/io_bench.bin") in
  if fd <? 0 then print (line "[io] open failed, fd=%d") [VNum fd] ;; uret (-1)
  else
  do* r := lseek_u fd 0 SEEK_SET in
  if r <? 0 then
    print (line "[io] lseek(begin) failed") [] ;;
    do* _ := close fd in
    uret (-1)
  else
  do* w := write_rounds IO_ROUNDS fd wbuf (line "[io] write failed at round=%d, ret=%d") in
  match w with
  | None => uret (-1)
  | Some total_written =>
    do* r := lseek_u fd 0 SEEK_SET in
    if r <? 0 then
      print (line "[io] lseek failed") [] ;;
      do* _ := close fd in
      uret (-1)
    else
    do* x := read_rounds IO_ROUNDS fd rbuf (line "[io] read failed at round=%d, ret=%d") in
    match x with
    | None => uret (-1)
    | Some (total_read, rsum) =>
      do* _ := close fd in
      print (line "[io] write calls=%d, read calls=%d") [VNum IO_ROUNDS; VNum IO_ROUNDS] ;;
      print (line "[io] bytes written=%d, bytes read=%d") [VNum total_written; VNum total_read] ;;
      print (line "[io] checksum write=%d, checksum read=%d") [VNum (s32 (wsum * IO_ROUNDS)); VNum rsum] ;;
      if negb (rsum =? s32 (wsum * IO_ROUNDS)) then
        print (line "[io] checksum mismatch") [] ;;
        uret (-1)
      else
        print (line "[io] stress test finished") [] ;;
        uret 0
    end
  end.

Definition main_test_performance (wbuf rbuf : Z) : U K D Z :=
  print ([10] ++ line "======== performance test start ========") [] ;;
  do* p := test_max_processes in
  do* io := test_io_stress wbuf rbuf in
  if (p <? 0) || (io <? 0) then
    print (line "[result] test failed") [] ;;
    leave (-1)
  else
    print (line "[result] test finished successfully") [] ;;
    print (line "======== performance test end =========") [] ;;
    leave 0.

(** ** Benchmarks (test/bench_src/) *)

Definition TARGET_FORKS : Z := 10.
Definition TARGET_PROCS : Z := 20.
Definition PINGPONG_ITERS : Z := 5000.
Definition LATPROC_ITERS : Z := 20.
Definition BENCH_ROUNDS : Z := 8192.

Definition wait_children (created : Z) : U K D unit := ufor created (fun _ => do* _ := wait (-1) in uret tt).

Definition main_bench_fork : U K D Z :=
  do* r := fork_children TARGET_FORKS (fun _ => uret tt) in
  match r with
  | inr v => uret v
  | inl created =>
      wait_children created ;;
      print (line "fork_bench target=%d created=%d") [VNum TARGET_FORKS; VNum created] ;;
      if negb (created =? TARGET_FORKS) then leave (-1) else leave 0
  end.

Definition main_proc_stress : U K D Z :=
  do* r := fork_children TARGET_PROCS (fun _ => uret tt) in
  match r with
  | inr v => uret v
  | inl created =>
      wait_children created ;;
      print (line "target=%d created=%d") [VNum TARGET_PROCS; VNum created] ;;
      leave 0
  end.

Definition main_bench_io (wbuf rbuf : Z) : U K D Z :=
  do* wsum := fill_pattern wbuf in
  do* fd := open_or_create (lit "/io_bench.bin") in
  if fd <? 0 then print (line "io_bench open failed, fd=%d") [VNum fd] ;; leave (-1)
  else
  do* r := lseek_u fd 0 SEEK_SET in
  if r <? 0 then
    print (line "io_bench lseek(begin) failed") [] ;;
    do* _ := close fd in
    leave (-1)
  else
  do* w := write_rounds BENCH_ROUNDS fd wbuf (line "io_bench write failed at round=%d, ret=%d") in
  match w with
  | None => leave (-1)
  | Some write_bytes =>
    do* r := lseek_u fd 0 SEEK_SET in
    if r <? 0 then
      print (line "io_bench lseek(rewind) failed") [] ;;
      do* _ := close fd in
      leave (-1)
    else
    do* x := read_rounds BENCH_ROUNDS fd rbuf (line "io_bench read failed at round=%d, ret=%d") in
    match x with
    | None => leave (-1)
    | Some (read_bytes, rsum) =>
      do* _ := close fd in
      print (line "io_bench chunk=%d rounds=%d write_bytes=%d read_bytes=%d")
        [VNum IO_CHUNK_SIZE; VNum BENCH_ROUNDS; VNum write_bytes; VNum read_bytes] ;;
      print (line "io_bench checksum_w=%d checksum_r=%d") [VNum (s32 (wsum * BENCH_ROUNDS)); VNum rsum] ;;
      if negb (rsum =? s32 (wsum * BENCH_ROUNDS)) then
        print (line "io_bench checksum mismatch") [] ;;
        leave (-1)
      else leave 0
    end
  end.

(** The loop of one of the two processes. *)
Definition ping (sem_mine sem_other : Z) : U K D unit :=
  ufor PINGPONG_ITERS (fun _ => sem_P sem_mine ;; sem_V sem_other).

Definition main_bench_pingpong : U K D Z :=
  do* sem_parent := sem_new 1 in
  do* sem_child := sem_new 0 in
  if (sem_parent <? 0) || (sem_child <? 0) then
    print (line "pingpong sem init failed") [] ;;
    leave (-1)
  else
    do* pid := fork in
    if pid <? 0 then
      print (line "pingpong fork failed") [] ;;
      leave (-1)
    else if pid =? 0 then
      ping sem_child sem_parent ;;
      leave 0
    else
      ping sem_parent sem_child ;;
      do* _ := wait pid in
      print (line "pingpong iter=%d done") [VNum PINGPONG_ITERS] ;;
      leave 0.

Definition main_exec_target : U K D Z := leave 0.

(** The loop that forks and waits: the number of rounds, or the result of [main] in a
    child. *)
Definition fork_and_wait (child : U K D unit) : U K D (Z + Z) :=
  uloop (S (Z.to_nat LATPROC_ITERS)) (fun ok =>
    if ok <? LATPROC_ITERS then
      do* pid := fork in
      if pid <? 0 then uret (inr (inl ok))
      else if pid =? 0 then child ;; uret (inr (inr 0))
      else
        do* r := wait pid in
        if r <? 0 then uret (inr (inl ok)) else uret (inl (ok + 1))
    else uret (inr (inl ok))) 0.

Definition report_latency (msg : list Z) (r : Z + Z) : U K D Z :=
  match r with
  | inr v => uret v
  | inl ok =>
      print msg [VNum LATPROC_ITERS; VNum ok] ;;
      if negb (ok =? LATPROC_ITERS) then leave (-1) else leave 0
  end.

Definition main_lat_proc_fork : U K D Z :=
  do* r := fork_and_wait (do* _ := exit 0 in uret tt) in
  report_latency (line "lmbench_lat_proc_fork iters=%d ok=%d") r.

Definition main_lat_proc_exec : U K D Z :=
  do* r := fork_and_wait (
    do* r := exec (lit "/bin/app_lmbench_exec_target") (lit "") in
    if r <? 0 then do* _ := exit (-1) in uret tt else uret tt) in
  report_latency (line "lmbench_lat_proc_exec iters=%d ok=%d") r.

End Data.

(** ** Programs with a global variable *)

(** [flag] of app_wait. *)
Definition main_wait : U K Z Z :=
  set_global 0 ;;
  do* pid := fork in
  (if pid =? 0 then
     set_global 1 ;;
     do* pid := fork in
     if pid =? 0 then
       set_global 2 ;;
       do* flag := global in
       print (line "Grandchild process end, flag = %d.") [VNum flag]
     else
       do* _ := wait pid in
       do* flag := global in
       print (line "Child process end, flag = %d.") [VNum flag]
   else
     do* _ := wait (-1) in
     do* flag := global in
     print (line "Parent process end, flag = %d.") [VNum flag]) ;;
  leave 0.

(** *** app_shell: [strtok] keeps its position in a static variable *)

Definition ustrtok (s delim : Z) : U K Z Z := fun st =>
  match strtok fuel s delim (TokState (umem st) (udata st)) with
  | Ok a t => UDone a (UState (tk_mem t) (ukern st) (tok_current t))
  | Diverge => UStuck
  | _ => UFault
  end.

(** [strcmp(p, s) == 0] for a literal [s]. *)
Definition is_literal {D} (p : Z) (s : string) : U K D bool := fun st => UDone (streq (umem st) p (str s)) st.

(** A round of the loop; [first] is the text for the first call of [strtok]. *)
Definition shell_round (delim command para : Z) (first : Z) : U K Z (Z + unit) :=
  do* token := ustrtok first delim in
  do* _ := umemory (strcpy fuel command token) in
  do* token := ustrtok 0 delim in
  do* _ := umemory (strcpy fuel para token) in
  do* e1 := is_literal command "END" in
  do* e2 := is_literal para "END" in
  if e1 && e2 then uret (inr tt)
  else
    do* c := ustring fuel command in
    do* p := ustring fuel para in
    print (str "Next command: %s %s" ++ [10; 10]) [VStr c; VStr p] ;;
    print (str "==========Command Start============" ++ [10; 10]) [] ;;
    do* pid := fork in
    (if pid =? 0 then
       do* r := exec command para in
       if r =? -1 then print (line "exec failed!") [] else uret tt
     else
       do* _ := wait pid in
       print (str "==========Command End============" ++ [10; 10]) []) ;;
    uret (inl 0).

(** [buf] and [delim] are the local arrays. *)
Definition main_shell (buf delim : Z) : U K Z Z :=
  print ([10] ++ str "======== Shell Start ========" ++ [10; 10]) [] ;;
  uinit delim [32; 10; 0] ;;
  do* fd := open (lit "/shellrc") O_RDONLY in
  do* _ := read_u fd buf 1024 in
  do* _ := close fd in
  do* command := naive_malloc in
  do* para := naive_malloc in
  uloop fuel (shell_round delim command para) buf ;;
  leave 0.

(** *** app_zshell: [current_dir] is the global variable *)

Definition registered_apps : list string :=
  [ "app_print_backtrace"; "app_errorline"; "app_sum_sequence"; "app_singlepageheap"; "app_wait";
    "app_semaphore"; "app_cow"; "app_relativepath"; "app_exec"; "app_shell" ]%string.

Definition registered_app_paths : list string :=
  [ "/bin/app_print_backtrace"; "/bin/app_errorline"; "/bin/app_sum_sequence"; "/bin/app_singlepageheap";
    "/bin/app_wait"; "/bin/app_semaphore"; "/bin/app_cow"; "/bin/app_relativepath"; "/bin/app_exec";
    "/bin/app_shell" ]%string.

Definition zshell_init : U K Z unit :=
  do* d := naive_malloc in
  set_global d ;;
  do* _ := read_cwd d in
  uret tt.

(** The loop over the registered programs. *)
Fixpoint run_registered (option : Z) (l : list (string * string)) : U K Z unit :=
  match l with
  | [] => uret tt
  | (name, path) :: l =>
      do* b := is_literal option name in
      (if b : bool then
         do* pid := fork in
         if pid =? 0 then
           do* r := exec (lit path) (lit "") in
           if r =? -1 then print (line "exec failed!") [] else uret tt
         else do* _ := wait pid in uret tt
       else uret tt) ;;
      run_registered option l
  end.

Definition zshell_round (inbuf buf option : Z) (_ : unit) : U K Z (unit + unit) :=
  do* d := global in
  print_str (str "~%s $ ") d ;;
  do* _ := scanfu inbuf (str "%s") [option] in
  do* b := is_literal option "exit" in
  if b : bool then uret (inr tt)
  else
    do* b := is_literal option "pwd" in
    do* c := is_literal option "cd" in
    do* e := is_literal option "cat" in
    (if b : bool then print_str (line "%s") d
     else if c : bool then
       do* _ := scanfu inbuf (str "%s") [option] in
       do* r := change_cwd option in
       if negb (r =? 0) then print_str (line "cd: no such file or directory: %s") option
       else do* _ := read_cwd d in uret tt
     else if e : bool then
       do* _ := scanfu inbuf (str "%s") [option] in
       do* fd := open option O_RDWR in
       do* _ := read_u fd buf 512 in
       print_str (line "%s") buf ;;
       do* _ := close fd in
       uret tt
     else run_registered option (zip registered_apps registered_app_paths)) ;;
    uret (inl tt).

(** [inbuf] is the array of [scanfu], [buf] that of the command cat. *)
Definition main_zshell (inbuf buf : Z) : U K Z Z :=
  do* option := better_malloc 100 in
  zshell_init ;;
  uloop fuel (zshell_round inbuf buf option) tt ;;
  better_free option ;;
  leave 0.

End Apps.
