(* ===== verification/SemRing.v ===== *)
(** * Programs that synchronise with semaphores

    Processes that call P and V and print, as a machine of their own: what the
    semaphores of the kernel promise to programs.  A value below 0 counts the
    processes that wait, V wakes the one that has waited longest.  On this machine
    the three processes of user/app_semaphore.c take turns, whatever the order in
    which they run. *)

From Stdlib Require Import String Ascii.
From S2P Require Import Prelude Mem Literals Printf Kernel Syscall UserLib Apps.
From stdpp Require Import base gmap list fin_maps relations.
From Stdlib Require Import ZArith Lia Bool.

Set Default Goal Selector "!".
Open Scope Z_scope.

(** ** The machine *)

Inductive call : Type := CallP (sem : Z) | CallV (sem : Z) | Say (text : list Z).

Definition fset {A} (k : Z) (v : A) (f : Z -> A) : Z -> A := fun x => if decide (x = k) then v else f x.

Lemma fset_eq {A} k (v : A) f : fset k v f k = v.
Proof. unfold fset. by rewrite decide_True. Qed.
Lemma fset_ne {A} k x (v : A) f : x <> k -> fset k v f x = f x.
Proof. intros. unfold fset. by rewrite decide_False. Qed.

(** How far each process is, the value and the queue of each semaphore, and what was
    printed. *)
Record turns_state : Type := Turns {
  at_call : Z -> nat;
  sem_value : Z -> Z;
  sem_queue : Z -> list Z;
  said : list (list Z)
}.

Section Machine.
  Context (script : Z -> list call).

(** A process that waits at a semaphore does not run. *)
Definition awake (w : turns_state) (p : Z) : Prop := forall i, p ∉ sem_queue w i.

Definition next_call (w : turns_state) (p : Z) : option call := script p !! at_call w p.
Definition advance (w : turns_state) (p : Z) : Z -> nat := fset p (S (at_call w p)) (at_call w).

Inductive turn (p : Z) (w : turns_state) : turns_state -> Prop :=
| turn_say t : awake w p -> next_call w p = Some (Say t) ->
    turn p w (Turns (advance w p) (sem_value w) (sem_queue w) (said w ++ [t]))
| turn_P i : awake w p -> next_call w p = Some (CallP i) ->
    turn p w (Turns (advance w p) (fset i (sem_value w i - 1) (sem_value w))
      (if 0 <? sem_value w i then sem_queue w else fset i (sem_queue w i ++ [p]) (sem_queue w)) (said w))
| turn_V i : awake w p -> next_call w p = Some (CallV i) ->
    turn p w (Turns (advance w p) (fset i (sem_value w i + 1) (sem_value w))
      (fset i (tail (sem_queue w i)) (sem_queue w)) (said w)).

Definition some_turn (w w' : turns_state) : Prop := exists p, turn p w w'.

End Machine.

(** ** Three processes that take turns *)

Section Ring.
  Context (pid_of sem_of : Z -> Z) (text : Z -> Z -> list Z) (rounds : Z).
  Context (pid_inj : forall j j', 0 <= j < 3 -> 0 <= j' < 3 -> pid_of j = pid_of j' -> j = j').
  Context (sem_inj : forall j j', 0 <= j < 3 -> 0 <= j' < 3 -> sem_of j = sem_of j' -> j = j').
  Context (rounds_nonneg : 0 <= rounds).

(** Process [j] waits for its semaphore, prints, and wakes the next one. *)
Definition ring_round (j r : Z) : list call :=
  [ CallP (sem_of j); Say (text j r); CallV (sem_of ((j + 1) mod 3)) ].
Definition ring_script (j : Z) : list call := mjoin (ring_round j <$> seqZ 0 rounds).

Context (script : Z -> list call).
Context (scripts : forall j, 0 <= j < 3 -> script (pid_of j) = ring_script j).
Context (no_others : forall p, (forall j, 0 <= j < 3 -> p <> pid_of j) -> script p = []).

(** The lines in the order of the turns. *)
Definition ring_lines (k : Z) : list (list Z) := (fun t => text (t mod 3) (t / 3)) <$> seqZ 0 k.

Definition ring_start : turns_state :=
  Turns (fun _ => 0%nat) (fun i => if decide (i = sem_of 0) then 1 else 0) (fun _ => []) [].

(** The number of the first [k] turns that are those of process [j]. *)
Definition turns_of (k j : Z) : Z := (k + 2 - j) / 3.

(** A process whose turn it is not: before its next P, or waiting in it. *)
Definition off_turn (w : turns_state) (j r : Z) : Prop :=
  (sem_value w (sem_of j) = 0 /\ sem_queue w (sem_of j) = [] /\ Z.of_nat (at_call w (pid_of j)) = 3 * r) \/
  (sem_value w (sem_of j) = -1 /\ sem_queue w (sem_of j) = [pid_of j] /\
     Z.of_nat (at_call w (pid_of j)) = 3 * r + 1 /\ r < rounds).

(** The process whose turn it is: before P, before the line, or before V. *)
Inductive on_turn (w : turns_state) (k j r : Z) : Prop :=
| on_P : sem_value w (sem_of j) = 1 -> sem_queue w (sem_of j) = [] -> Z.of_nat (at_call w (pid_of j)) = 3 * r ->
    said w = ring_lines k -> on_turn w k j r
| on_say : sem_value w (sem_of j) = 0 -> sem_queue w (sem_of j) = [] -> Z.of_nat (at_call w (pid_of j)) = 3 * r + 1 ->
    r < rounds -> said w = ring_lines k -> on_turn w k j r
| on_V : sem_value w (sem_of j) = 0 -> sem_queue w (sem_of j) = [] -> Z.of_nat (at_call w (pid_of j)) = 3 * r + 2 ->
    r < rounds -> said w = ring_lines (k + 1) -> on_turn w k j r.

(** After [k] turns. *)
Record ring_inv (k : Z) (w : turns_state) : Prop := {
  ri_k : 0 <= k <= 3 * rounds;
  ri_on : on_turn w k (k mod 3) (turns_of k (k mod 3));
  ri_off : forall j, 0 <= j < 3 -> j <> k mod 3 -> off_turn w j (turns_of k j);
  ri_queues : forall i, (forall j, 0 <= j < 3 -> i <> sem_of j) -> sem_queue w i = []
}.

(** The call at a position of the script. *)
Lemma ring_call j n r d c : Z.of_nat n = 3 * r + Z.of_nat d -> (d < 3)%nat ->
  ring_script j !! n = Some c <-> r < rounds /\ ring_round j r !! d = Some c.
Proof.
  intros Hn Hd. replace n with (Z.to_nat r * 3 + d)%nat by lia. unfold ring_script.
  rewrite join_lookup_Some_same_length' by (done || (apply Forall_fmap, Forall_true; done)).
  rewrite list_lookup_fmap. split.
  - intros (l & Hl & Hc). destruct (seqZ 0 rounds !! Z.to_nat r) as [r'|] eqn:E; [|done].
    apply lookup_seqZ in E as [E Hr]. injection Hl as <-. replace r' with r in Hc by lia. split; [lia|done].
  - intros [Hr Hc]. exists (ring_round j r). rewrite (proj2 (lookup_seqZ 0 rounds _ r)) by lia. done.
Qed.

Lemma ring_lines_next k : 0 <= k -> ring_lines (k + 1) = ring_lines k ++ [text (k mod 3) (k / 3)].
Proof. intros. unfold ring_lines. rewrite seqZ_app by lia. rewrite fmap_app. cbn. by rewrite Z.add_0_l. Qed.

(** Processes other than the three do nothing. *)
Lemma turn_pid p w w' : turn script p w w' -> exists j, 0 <= j < 3 /\ p = pid_of j.
Proof.
  intros Ht. assert (next_call script w p <> None) as Hn by (by inversion Ht; simplify_eq/=; congruence).
  destruct (decide (p = pid_of 0)) as [->|]; [by exists 0|].
  destruct (decide (p = pid_of 1)) as [->|]; [by exists 1|].
  destruct (decide (p = pid_of 2)) as [->|]; [by exists 2|].
  unfold next_call in Hn. rewrite no_others in Hn; [done|].
  intros j Hj ->. assert (j = 0 \/ j = 1 \/ j = 2) by lia. naive_solver.
Qed.

(** What is said of a process depends on its own position and semaphore. *)
Lemma off_turn_frame w w' j r : off_turn w j r ->
  at_call w' (pid_of j) = at_call w (pid_of j) ->
  sem_value w' (sem_of j) = sem_value w (sem_of j) -> sem_queue w' (sem_of j) = sem_queue w (sem_of j) ->
  off_turn w' j r.
Proof. unfold off_turn. by intros H -> -> ->. Qed.

Lemma on_turn_frame w w' k j r : on_turn w k j r ->
  at_call w' (pid_of j) = at_call w (pid_of j) ->
  sem_value w' (sem_of j) = sem_value w (sem_of j) -> sem_queue w' (sem_of j) = sem_queue w (sem_of j) ->
  said w' = said w -> on_turn w' k j r.
Proof.
  intros H E1 E2 E3 E4. inversion H; [apply on_P|apply on_say|apply on_V]; congruence.
Qed.

Lemma fset_pid {A} j j' (v : A) f : 0 <= j < 3 -> 0 <= j' < 3 -> j <> j' -> fset (pid_of j) v f (pid_of j') = f (pid_of j').
Proof. intros H1 H2 Hne. apply fset_ne. intros E. by apply Hne, eq_sym, pid_inj. Qed.
Lemma fset_sem {A} j j' (v : A) f : 0 <= j < 3 -> 0 <= j' < 3 -> j <> j' -> fset (sem_of j) v f (sem_of j') = f (sem_of j').
Proof. intros H1 H2 Hne. apply fset_ne. intros E. by apply Hne, eq_sym, sem_inj. Qed.

(** A step of a process whose turn it is not: it starts to wait. *)
Lemma ring_off_step k w j w' : ring_inv k w -> 0 <= j < 3 -> j <> k mod 3 ->
  turn script (pid_of j) w w' -> ring_inv k w'.
Proof.
  intros [Hk Hon Hoff Hq] Hj Hne Ht. pose proof (Z.mod_pos_bound k 3 ltac:(lia)) as Hm.
  pose proof (Hoff j Hj Hne) as [(Hv & Hw & Ha)|(_ & Hw & _)].
  2:{ exfalso. assert (awake w (pid_of j)) as Haw by (by inversion Ht). apply (Haw (sem_of j)). rewrite Hw. set_solver. }
  assert (next_call script w (pid_of j) = Some (CallP (sem_of j)) /\ turns_of k j < rounds) as [Hc Hr].
  { destruct (next_call script w (pid_of j)) as [c|] eqn:E; [|by inversion Ht; congruence].
    unfold next_call in E. rewrite scripts in E by done.
    apply (ring_call j _ (turns_of k j) 0 c) in E as [Hr Hc]; [|lia|lia]. by injection Hc as <-. }
  inversion Ht as [t Haw E|i Haw E|i Haw E]; rewrite Hc in E; simplify_eq. rewrite Hv. cbn [Z.ltb Z.compare].
  split; [done| | |].
  - apply (on_turn_frame w); cbn; [done| | | |done]; first [by apply fset_pid|by apply fset_sem].
  - intros j' Hj' Hne'. destruct (decide (j' = j)) as [->|Hjj].
    + right. cbn. unfold advance. rewrite !fset_eq, Hw. split_and!; (done || lia).
    + apply (off_turn_frame w); cbn; [by apply Hoff| | |]; first [by apply fset_pid|by apply fset_sem].
  - intros i Hi. cbn. rewrite fset_ne by (by apply Hi). by apply Hq.
Qed.

Lemma turns_of_next k : 0 <= k ->
  turns_of k (k mod 3) = k / 3 /\ turns_of (k + 1) (k mod 3) = k / 3 + 1 /\
  (k mod 3 + 1) mod 3 = (k + 1) mod 3 /\ (k + 1) mod 3 <> k mod 3 /\
  forall j, 0 <= j < 3 -> j <> k mod 3 -> turns_of (k + 1) j = turns_of k j.
Proof. intros Hk. unfold turns_of. split_and!; dlia. Qed.

(** The call that a process is about to make. *)
Lemma ring_next w j r d c : 0 <= j < 3 -> Z.of_nat (at_call w (pid_of j)) = 3 * r + Z.of_nat d -> (d < 3)%nat ->
  next_call script w (pid_of j) = Some c <-> r < rounds /\ ring_round j r !! d = Some c.
Proof. intros Hj Ha Hd. unfold next_call. rewrite scripts by done. by apply ring_call. Qed.

Lemma turn_call p w w' : turn script p w w' -> exists c, next_call script w p = Some c.
Proof. inversion 1; eauto. Qed.

(** V passes the turn on. *)
Lemma ring_V_step k w : ring_inv k w ->
  let q := k mod 3 in let i := sem_of ((q + 1) mod 3) in
  sem_value w (sem_of q) = 0 -> sem_queue w (sem_of q) = [] -> turns_of k q < rounds ->
  Z.of_nat (at_call w (pid_of q)) = 3 * turns_of k q + 2 -> said w = ring_lines (k + 1) ->
  ring_inv (k + 1) (Turns (advance w (pid_of q)) (fset i (sem_value w i + 1) (sem_value w))
    (fset i (tail (sem_queue w i)) (sem_queue w)) (said w)).
Proof.
  intros [Hk Hon Hoff Hq] q i Hv Hw Hr Ha Hs. subst i.
  destruct (turns_of_next k ltac:(lia)) as (T1 & T2 & T3 & T4 & T5).
  pose proof (Z.mod_pos_bound k 3 ltac:(lia)) as Hm. pose proof (Z.mod_pos_bound (k + 1) 3 ltac:(lia)) as Hm'.
  fold q in T1, T2, T3, T4, T5, Hm. rewrite T3. set (q' := (k + 1) mod 3) in *. split.
  - dlia.
  - rewrite T5 by done. destruct (Hoff q' Hm' T4) as [(V & W & A)|(V & W & A & R)]; [apply on_P|apply on_say];
      cbn; rewrite ?fset_eq; unfold advance; rewrite ?fset_pid by done; rewrite ?V, ?W; try done.
  - intros j Hj Hne. destruct (decide (j = q)) as [->|Hjq].
    + left. cbn. unfold advance. rewrite fset_eq, !fset_sem by done. split_and!; [done|done|lia].
    + rewrite T5 by done. apply (off_turn_frame w); cbn; [by apply Hoff| | |];
        first [by apply fset_pid|by apply fset_sem].
  - intros i Hi. cbn. rewrite fset_ne by (by apply Hi). by apply Hq.
Qed.

(** A step of the process whose turn it is that leaves the other semaphores alone. *)
Lemma ring_on_frame k w v u l : ring_inv k w -> let q := k mod 3 in
  let w' := Turns (advance w (pid_of q)) v u l in
  (forall i, i <> sem_of q -> v i = sem_value w i /\ u i = sem_queue w i) ->
  on_turn w' k q (turns_of k q) -> ring_inv k w'.
Proof.
  intros [Hk Hon Hoff Hq] q w' Hf Hon'. pose proof (Z.mod_pos_bound k 3 ltac:(lia)) as Hm. fold q in Hm, Hoff.
  split; [done|done| |].
  - intros j Hj Hne. assert (sem_of j <> sem_of q) as Hs by (intros E; by apply Hne, sem_inj).
    destruct (Hf _ Hs). apply (off_turn_frame w); cbn; [by apply Hoff| |done|done]. by apply fset_pid.
  - intros i Hi. cbn. destruct (Hf i) as [_ ->]; [by apply Hi|]. by apply Hq.
Qed.

Lemma ring_on_step k w w' : ring_inv k w -> turn script (pid_of (k mod 3)) w w' ->
  ring_inv k w' \/ ring_inv (k + 1) w'.
Proof.
  intros Hi Ht. pose proof Hi as [Hk Hon _ _]. pose proof (Z.mod_pos_bound k 3 ltac:(lia)) as Hm.
  destruct (turns_of_next k ltac:(lia)) as (T1 & _). set (q := k mod 3) in *.
  destruct (turn_call _ _ _ Ht) as [c Hc]. pose proof (fun d => ring_next w q (turns_of k q) d c Hm) as Hn.
  destruct Hon as [V W A S|V W A R S|V W A R S].
  - apply (Hn 0%nat) in Hc as Hc'; [|lia|lia]. destruct Hc' as [Hr E]. injection E as <-.
    inversion Ht as [t Haw E|i Haw E|i Haw E]; rewrite Hc in E; simplify_eq. left. rewrite V. cbn [Z.ltb Z.compare].
    apply ring_on_frame; [done| |].
    + intros i Hne. by rewrite fset_ne.
    + apply on_say; cbn; fold q; unfold advance; rewrite ?fset_eq; (done || lia).
  - apply (Hn 1%nat) in Hc as Hc'; [|lia|lia]. destruct Hc' as [Hr E]. injection E as <-.
    inversion Ht as [t Haw E|i Haw E|i Haw E]; rewrite Hc in E; simplify_eq. left.
    apply ring_on_frame; [done|done|].
    apply on_V; cbn; fold q; unfold advance; rewrite ?fset_eq; try (done || lia).
    rewrite S, ring_lines_next by lia. fold q. by rewrite T1.
  - apply (Hn 2%nat) in Hc as Hc'; [|lia|lia]. destruct Hc' as [Hr E]. injection E as <-.
    inversion Ht as [t Haw E|i Haw E|i Haw E]; rewrite Hc in E; simplify_eq. right. by apply ring_V_step.
Qed.

Lemma ring_step k w w' : ring_inv k w -> some_turn script w w' -> ring_inv k w' \/ ring_inv (k + 1) w'.
Proof.
  intros Hi [p Ht]. destruct (turn_pid p w w' Ht) as (j & Hj & ->). destruct (decide (j = k mod 3)) as [->|].
  - by apply ring_on_step in Ht.
  - left. by apply (ring_off_step k w j).
Qed.

Lemma ring_start_inv : ring_inv 0 ring_start.
Proof.
  split; [lia| | |done].
  - apply on_P; cbn; [by rewrite decide_True|done|done|done].
  - intros j Hj Hne. cbn in Hne. left. cbn. rewrite decide_False; [|intros E; by apply Hne, sem_inj].
    split_and!; [done|done|]. unfold turns_of. dlia.
Qed.

(** ** Progress *)

Definition calls_made (w : turns_state) : Z :=
  Z.of_nat (at_call w (pid_of 0)) + Z.of_nat (at_call w (pid_of 1)) + Z.of_nat (at_call w (pid_of 2)).

Lemma step_calls w w' : some_turn script w w' -> calls_made w' = calls_made w + 1.
Proof.
  intros [p Ht]. destruct (turn_pid p w w' Ht) as (j & Hj & ->).
  assert (at_call w' = advance w (pid_of j)) as Ha by (by inversion Ht).
  assert (j = 0 \/ j = 1 \/ j = 2) as [-> | [-> | ->]] by lia; unfold calls_made; rewrite Ha; unfold advance;
    rewrite fset_eq, !fset_pid by lia; lia.
Qed.

(** The process whose turn it is can go on. *)
Lemma ring_progress k w : ring_inv k w -> k < 3 * rounds -> exists w', some_turn script w w'.
Proof.
  intros [Hk Hon Hoff Hq] Hlt. pose proof (Z.mod_pos_bound k 3 ltac:(lia)) as Hm.
  destruct (turns_of_next k ltac:(lia)) as (T1 & _). set (q := k mod 3) in *.
  assert (turns_of k q < rounds) as Hr by (rewrite T1; dlia).
  assert (awake w (pid_of q)) as Haw.
  { intros i Hin. destruct (decide (i = sem_of q)) as [->|Hi]; [destruct Hon as [_ W _|_ W _|_ W _]; rewrite W in Hin; set_solver|].
    destruct (Exists_dec (fun j => i = sem_of j) [0; 1; 2]) as [He|He].
    - apply Exists_exists in He as (j & Hj & ->). assert (0 <= j < 3) as Hj' by (set_solver by lia).
      assert (j <> q) as Hne by congruence.
      destruct (Hoff j Hj' Hne) as [(_ & W & _)|(_ & W & _)]; rewrite W in Hin; [set_solver|].
      apply list_elem_of_singleton in Hin. by apply pid_inj in Hin.
    - rewrite Hq in Hin; [set_solver|]. intros j Hj ->. apply He, Exists_exists. exists j. split; [|done].
      assert (j = 0 \/ j = 1 \/ j = 2) by lia. set_solver. }
  destruct Hon as [V W A S|V W A R S|V W A R S]; eexists; exists (pid_of q).
  - eapply turn_P; [done|]. apply (ring_next w q (turns_of k q) 0%nat); [done|lia|lia|by split].
  - eapply turn_say; [done|]. apply (ring_next w q (turns_of k q) 1%nat); [done|lia|lia|by split].
  - eapply turn_V; [done|]. apply (ring_next w q (turns_of k q) 2%nat); [done|lia|lia|by split].
Qed.

(** How many calls there can be after [k] turns. *)
Lemma ring_calls k w : ring_inv k w -> calls_made w <= 9 * rounds /\ (calls_made w = 9 * rounds -> k = 3 * rounds) /\
  (k = 3 * rounds -> calls_made w = 9 * rounds /\ said w = ring_lines k).
Proof.
  intros [Hk Hon Hoff Hq]. pose proof (fun H => Hoff 0 ltac:(lia) H) as H0.
  pose proof (fun H => Hoff 1 ltac:(lia) H) as H1. pose proof (fun H => Hoff 2 ltac:(lia) H) as H2. clear Hoff.
  unfold calls_made, off_turn, turns_of in *.
  assert (k mod 3 = 0 \/ k mod 3 = 1 \/ k mod 3 = 2) as [E|[E|E]] by dlia; rewrite E in *;
    [specialize (H1 ltac:(lia)); specialize (H2 ltac:(lia)); clear H0
    |specialize (H0 ltac:(lia)); specialize (H2 ltac:(lia)); clear H1
    |specialize (H0 ltac:(lia)); specialize (H1 ltac:(lia)); clear H2];
    destruct Hon as [_ _ A S|_ _ A R S|_ _ A R S]; split_and!; try (intros ->; split; [|done]); dlia.
Qed.

Lemma ring_run n w : nsteps (some_turn script) n ring_start w ->
  calls_made w = Z.of_nat n /\ exists k, ring_inv k w.
Proof.
  revert w. induction n as [|n IH]; intros w Hn.
  - inversion Hn; subst. split; [done|]. exists 0. apply ring_start_inv.
  - apply nsteps_inv_r in Hn as (w1 & Hn & Hs). destruct (IH w1 Hn) as [Hc [k Hi]]. split.
    + rewrite (step_calls w1 w Hs). lia.
    + destruct (ring_step k w1 w Hi Hs); eauto.
Qed.

(** Whatever the order in which they run: the lines come in turn, no process waits for
    ever, and all lines are printed after [9 * rounds] calls. *)
Lemma ring_in_order n w : nsteps (some_turn script) n ring_start w ->
  (exists k, 0 <= k <= 3 * rounds /\ said w = ring_lines k) /\
  Z.of_nat n <= 9 * rounds /\
  (Z.of_nat n < 9 * rounds -> exists w', some_turn script w w') /\
  (Z.of_nat n = 9 * rounds -> said w = ring_lines (3 * rounds)).
Proof.
  intros Hn. destruct (ring_run n w Hn) as (Hc & k & Hi). destruct (ring_calls k w Hi) as (C1 & C2 & C3).
  pose proof (ri_k _ _ Hi) as Hk. rewrite Hc in *. split_and!.
  - destruct (ri_on _ _ Hi) as [_ _ _ S|_ _ _ _ S|_ _ _ R S]; [by exists k|by exists k|].
    exists (k + 1). split; [|done]. destruct (turns_of_next k ltac:(lia)) as (T1 & _). rewrite T1 in R. dlia.
  - done.
  - intros Hlt. apply (ring_progress k w Hi). destruct (decide (k = 3 * rounds)) as [E|]; [destruct (C3 E); lia|lia].
  - intros E. destruct (C3 (C2 E)) as [_ ->]. by rewrite (C2 E).
Qed.

End Ring.

(** ** user/app_semaphore.c *)

(** A kernel that answers [fork] as told, numbers the semaphores and records the calls
    of P, V and print.  It shows which calls a process makes. *)
Record recorder : Type := Recorder { forks : list Z; next_sem : Z; calls : list call }.

Definition record (c : call) (k : recorder) : recorder := Recorder (forks k) (next_sem k) (calls k ++ [c]).
Definition bytes_from (m : bytes) (a n : Z) : list Z := (fun i => load8 m (a + i)) <$> seqZ 0 n.

#[export] Instance recorder_kernel : UserKernel recorder := {|
  ecall n args m k :=
    let a := default 0 (args !! 0%nat) in
    let b := default 0 (args !! 1%nat) in
    if n =? SYS_user_fork then (head (forks k), m, Recorder (tail (forks k)) (next_sem k) (calls k))
    else if n =? SYS_user_sem_new then (Some (next_sem k), m, Recorder (forks k) (next_sem k + 1) (calls k))
    else if n =? SYS_user_sem_P then (Some 0, m, record (CallP a) k)
    else if n =? SYS_user_sem_V then (Some 0, m, record (CallV a) k)
    else if n =? SYS_user_print then (Some 0, m, record (Say (bytes_from m a b)) k)
    else (None, m, k)
|}.

(** The calls of a process of app_semaphore whose calls of [fork] have these answers. *)
Definition semaphore_script (answers : list Z) : list call :=
  match main_semaphore (D := unit) 0x7fff0000 (UState ∅ (Recorder answers 0 []) tt) with
  | UGone s => calls (ukern s)
  | _ => []
  end.

(** The lines of the three processes. *)
Definition semaphore_line (j r : Z) : list Z :=
  if j =? 0 then str "Parent print " ++ [48 + r; 10]
  else str "Child" ++ [47 + j] ++ str " print " ++ [48 + r; 10].

#[export] Instance call_eq_dec : EqDecision call.
Proof. solve_decision. Defined.

(** The three processes make the calls of the ring, whatever the numbers of the
    children. *)
Lemma semaphore_scripts p : 0 < p < NPROC ->
  semaphore_script [p] = ring_script (fun j => j) semaphore_line 10 0 /\
  semaphore_script [0; p] = ring_script (fun j => j) semaphore_line 10 1 /\
  semaphore_script [0; 0] = ring_script (fun j => j) semaphore_line 10 2.
Proof.
  intros Hp.
  assert (Forall (fun p => semaphore_script [p] = ring_script (fun j => j) semaphore_line 10 0 /\
    semaphore_script [0; p] = ring_script (fun j => j) semaphore_line 10 1) (seqZ 1 (NPROC - 1))) as H
    by (apply (bool_decide_unpack _); by vm_compute).
  destruct (proj1 (Forall_forall _ _) H p) as [H1 H2]; [apply elem_of_seqZ; lia|].
  split_and!; [done|done|]. by vm_compute.
Qed.

Definition three_pids (p0 p1 p2 j : Z) : Z := if j =? 0 then p0 else if j =? 1 then p1 else p2.

Lemma three_pids_inj p0 p1 p2 j j' : p0 <> p1 -> p0 <> p2 -> p1 <> p2 -> 0 <= j < 3 -> 0 <= j' < 3 ->
  three_pids p0 p1 p2 j = three_pids p0 p1 p2 j' -> j = j'.
Proof.
  intros. assert (j = 0 \/ j = 1 \/ j = 2) as [-> | [-> | ->]] by lia;
    (assert (j' = 0 \/ j' = 1 \/ j' = 2) as [-> | [-> | ->]] by lia); cbn in *; congruence.
Qed.

(** What the processes of app_semaphore do: [p0] is the parent, [p1] its child and [p2]
    the child of that one. *)
Definition semaphore_app (p0 p1 p2 p : Z) : list call :=
  if decide (p = p0) then semaphore_script [p1]
  else if decide (p = p1) then semaphore_script [0; p2]
  else if decide (p = p2) then semaphore_script [0; 0]
  else [].

Lemma semaphore_app_ring p0 p1 p2 : 0 < p1 < NPROC -> 0 < p2 < NPROC -> p0 <> p1 -> p0 <> p2 -> p1 <> p2 ->
  (forall j, 0 <= j < 3 -> semaphore_app p0 p1 p2 (three_pids p0 p1 p2 j) = ring_script (fun j => j) semaphore_line 10 j) /\
  (forall p, (forall j, 0 <= j < 3 -> p <> three_pids p0 p1 p2 j) -> semaphore_app p0 p1 p2 p = []).
Proof.
  intros H1 H2 N1 N2 N3. destruct (semaphore_scripts p1 H1) as (S0 & _ & S2). destruct (semaphore_scripts p2 H2) as (_ & S1 & _).
  unfold semaphore_app. split.
  - intros j Hj. assert (j = 0 \/ j = 1 \/ j = 2) as [-> | [-> | ->]] by lia; unfold three_pids; cbn [Z.eqb Pos.eqb];
      repeat (case_decide; try congruence).
  - intros p Hp. pose proof (Hp 0 ltac:(lia)). pose proof (Hp 1 ltac:(lia)). pose proof (Hp 2 ltac:(lia)).
    cbn in *. by repeat (case_decide; try congruence).
Qed.


