(* ===== verification/SemKernel.v ===== *)
(** * The semaphores of the kernel and the programs that use them

    A hart of the kernel that runs processes which call P and V and print: the calls
    are those of kernel/semaphore.c, and between any two of them the timer may fire
    and [rrsched] may switch to another process.  Every such run is a run of the
    machine of [SemRing], so what is proved of programs there holds on the kernel. *)

From S2P Require Import Prelude Mem Pmm StringLib Vmm Kernel Process Sched Queues Semaphore Trap UserLib Apps SemRing.
From stdpp Require Import base gmap list fin_maps relations.
From Stdlib Require Import ZArith Lia Bool.

Set Default Goal Selector "!".
Open Scope Z_scope.

Section Hart.
  Context `{Symbols} (h : Z) (script : Z -> list call).

(** The kernel, how far each process is, what was printed, and whether the hart runs a
    process or is in the waiting loop of [schedule]. *)
Record hart_state : Type := HartState {
  hs_kernel : kernel;
  hs_at : Z -> nat;
  hs_said : list (list Z);
  hs_runs : bool
}.

(** The running process makes its next call; the timer fires; the waiting loop looks
    at the ready queue. *)
Inductive event : Type := Exec | Tick | Poll.

Definition enters_user (r : control) : bool := match r with ToUser _ => true | _ => false end.
Definition goes_on {A} (r : A + control) : bool := match r with inl _ => true | inr r => enters_user r end.

(** [None] when the kernel panics, faults or does not return. *)
Definition on_event (e : event) (w : hart_state) : option hart_state :=
  let s := hs_kernel w in
  match e, hs_runs w with
  | Exec, true =>
      c ← current s !! h;
      let at' := fset c (S (hs_at w c)) (hs_at w) in
      match script c !! hs_at w c with
      | Some (CallP i) =>
          match sys_user_sem_P h i s with
          | Ok r s' => Some (HartState s' at' (hs_said w) (goes_on r))
          | _ => None
          end
      | Some (CallV i) =>
          match sys_user_sem_V h i s with
          | Ok _ s' => Some (HartState s' at' (hs_said w) true)
          | _ => None
          end
      | Some (Say t) => Some (HartState s at' (hs_said w ++ [t]) true)
      | None => Some w
      end
  | Tick, true =>
      match rrsched h s with
      | Ok r s' => Some (HartState s' (hs_at w) (hs_said w) (goes_on r))
      | _ => None
      end
  | Poll, false =>
      match resume_waiting h s with
      | Ok r s' => Some (HartState s' (hs_at w) (hs_said w) (enters_user r))
      | _ => None
      end
  | _, _ => Some w
  end.

Fixpoint on_events (es : list event) (w : hart_state) : option hart_state :=
  match es with
  | [] => Some w
  | e :: es => w ← on_event e w; on_events es w
  end.

(** ** What scheduling leaves alone *)

(** The parts of a process that the scheduler relies on. *)
Definition same_users (ps ps' : gmap Z process) : Prop :=
  forall p x, ps !! p = Some x ->
    exists x', ps' !! p = Some x' /\ trapframe x' = trapframe x /\ tick_count x' = tick_count x.

Lemma same_users_refl ps : same_users ps ps.
Proof. intros p x Hx. by exists x. Qed.
Lemma same_users_trans ps1 ps2 ps3 : same_users ps1 ps2 -> same_users ps2 ps3 -> same_users ps1 ps3.
Proof.
  intros H1 H2 p x Hx. destruct (H1 p x Hx) as (y & Hy & E1 & E2). destruct (H2 p y Hy) as (z & Hz & E3 & E4).
  exists z. by rewrite E3, E4.
Qed.
Lemma same_users_insert ps p x y : ps !! p = Some x -> trapframe y = trapframe x -> tick_count y = tick_count x ->
  same_users ps (<[p := y]> ps).
Proof.
  intros Hx E1 E2 q z Hz. rewrite lookup_insert. case_decide; [|by exists z].
  subst q. simplify_eq. by exists y.
Qed.
Lemma same_users_enq f ps p x l : ps !! p = Some x -> p ∉ l -> trapframe (f x) = trapframe x ->
  tick_count (f x) = tick_count x -> same_users ps (enq f p x l ps).
Proof.
  intros Hx Hp E1 E2 q z Hz. rewrite enq_lookup by done. case_decide; [subst; simplify_eq; by eexists|].
  rewrite Hz. case_decide; by eexists.
Qed.

(** A switch of processes from queues [Q] to [Q']: the semaphores stay as they are, no
    process appears, and a process that is entered is in no queue. *)
Record switched (Q Q' : qid -> list Z) (s s' : kernel) (runs : bool) : Prop := {
  sd_wf : sched_wf Q' s';
  sd_sem : forall i, Q' (QSem i) = Q (QSem i);
  sd_in : forall q p, p ∈ Q' q -> p ∈ Q q;
  sd_sems : semaphores s' = semaphores s;
  sd_csr : is_Some (csrs s' !! h);
  sd_procs : same_users (procs s) (procs s');
  sd_runs : runs = true -> exists p, current s' !! h = Some p /\ p ∈ Q (QReady h) /\ nowhere Q' p
}.

Context (hart_ok : 0 <= h < NCPU).

Definition ready_ok (Q : qid -> list Z) (s : kernel) : Prop :=
  forall p, p ∈ Q (QReady h) -> exists x, procs s !! p = Some x /\ tf_ok x.

(** Starting the process at the head of the ready queue. *)
Lemma run_next_switches Q s p l : sched_wf Q s -> Q (QReady h) = p :: l -> is_Some (csrs s !! h) -> ready_ok Q s ->
  exists r s' Q', run_next h s = Ok r s' /\ switched Q Q' s s' (enters_user r).
Proof.
  intros Hwf Hq [c Hc] Hr. destruct (Hr p) as (x & Hx & Htf); [rewrite Hq; set_solver|].
  destruct (run_next_run Q h p l x c s) as (s' & E & Hw & Hno & Hps & Hcur & Hsem & Hcs); try done; [lia|].
  eexists _, s', (qset Q (QReady h) l). split; [exact E|]. split; try done.
  - intros q p'. unfold qset. case_decide; [subst; rewrite Hq; set_solver|done].
  - rewrite Hps. by apply (same_users_insert _ p x).
  - intros _. exists p. rewrite Hq. split_and!; [done|set_solver|done].
Qed.

Lemma switched_peeked Q Q' s s' b : switched Q Q' (peeked h s) s' b -> switched Q Q' s s' b.
Proof. by intros []. Qed.

(** No process is entered: only flags and counters of the shutdown change. *)
Lemma switched_none Q s s' : sched_wf Q s -> same_sched s s' -> csrs s' = csrs s -> is_Some (csrs s !! h) ->
  switched Q Q s s' false.
Proof.
  intros Hwf Hs Hc Hi. split; try done.
  - by apply (same_sched_wf Q s).
  - apply Hs.
  - by rewrite Hc.
  - rewrite (ss_procs _ _ Hs). apply same_users_refl.
Qed.

Lemma schedule_switches Q s : sched_wf Q s -> is_Some (csrs s !! h) -> ready_ok Q s ->
  exists r s' Q', schedule h s = Ok r s' /\ switched Q Q' s s' (enters_user r).
Proof.
  intros Hwf Hc Hr. rewrite (schedule_run Q) by (done || lia). pose proof (peeked_wf Q h s Hwf) as Hwf'.
  destruct (Q (QReady h)) as [|p l] eqn:Hq.
  - destruct (all_done (procs s)); [|destruct (negb _)]; eexists _, _, Q; (split; [reflexivity|]);
      apply switched_peeked, switched_none; done.
  - destruct (run_next_switches Q (peeked h s) p l) as (r & s' & Q' & E & Hsw); [done..|].
    exists r, s', Q'. split; [exact E|]. by apply switched_peeked.
Qed.

Lemma resume_switches Q s : sched_wf Q s -> is_Some (csrs s !! h) -> ready_ok Q s ->
  exists r s' Q', resume_waiting h s = Ok r s' /\ switched Q Q' s s' (enters_user r).
Proof.
  intros Hwf Hc Hr. pose proof (peeked_wf Q h s Hwf) as Hwf'.
  pose proof (queue_head _ _ _ (sw_queue _ _ Hwf (QReady h))) as Hhd. simpl in Hhd.
  unfold resume_waiting, bind at 1, gets at 1. destruct (negb _).
  { eexists _, _, Q. split; [reflexivity|]. by apply switched_none. }
  unfold bind at 1, spin_lock. cbn [ready_queue_lock lget lset]. rewrite (lf_ready _ (sw_locks _ _ Hwf) h). cbn [Z.eqb].
  unfold bind at 1, gets at 1. cbn [ready_queue_head set_g_ready_queue_lock]. rewrite Hhd.
  unfold bind at 1, spin_unlock, modify at 1. cbn [ready_queue_lock lset].
  change (set_g_ready_queue_lock _ (set_g_ready_queue_lock _ s)) with (peeked h s).
  destruct (Q (QReady h)) as [|p l] eqn:Hq; cbn [head].
  - eexists _, _, Q. split; [reflexivity|]. apply switched_peeked. by apply switched_none.
  - destruct (run_next_switches Q (peeked h s) p l) as (r & s' & Q' & E & Hsw); [done..|].
    exists r, s', Q'. split; [exact E|]. by apply switched_peeked.
Qed.

(** ** The correspondence *)

(** [procs_in]: the processes; [used]: the identifiers of the semaphores, and [idx] where
    they are in the pool. *)
Context (procs_in used : list Z) (idx : Z -> Z).
Context (idx_inj : forall i j, i ∈ used -> j ∈ used -> idx i = idx j -> i = j).

Definition process_ok (x : process) : Prop := tf_ok x /\ 0 <= tick_count x < TIME_SLICE_LEN.

(** The kernel has the values [v] and the queues [u] of the semaphores. *)
Record has_sems (Q : qid -> list Z) (s : kernel) (v : Z -> Z) (u : Z -> list Z) : Prop := {
  hs_wf : sched_wf Q s;
  hs_sem : forall i, i ∈ used -> sem_ok Q s (idx i) (v i) /\ Q (QSem (idx i)) = u i;
  hs_name : forall i, i ∈ used -> get_semaphore i s = Ok (Some (idx i)) s;
  hs_rest : forall i, i ∉ used -> u i = [];
  hs_csr : is_Some (csrs s !! h);
  hs_procs : forall p, p ∈ procs_in -> exists x, procs s !! p = Some x /\ process_ok x;
  hs_in : forall q p, p ∈ Q q -> p ∈ procs_in
}.

(** The hart runs a process that is in no queue. *)
Definition running_ok (Q : qid -> list Z) (s : kernel) (c : Z) : Prop :=
  current s !! h = Some c /\ c ∈ procs_in /\ nowhere Q c.

Lemma same_users_ok ps ps' p : same_users ps ps' -> (exists x, ps !! p = Some x /\ process_ok x) ->
  exists x, ps' !! p = Some x /\ process_ok x.
Proof.
  intros Hs (x & Hx & Ht & Hk). destruct (Hs p x Hx) as (y & Hy & E1 & E2). exists y. split; [done|].
  unfold process_ok, tf_ok in *. by rewrite E1, E2.
Qed.

Lemma has_sems_ready Q s v u : has_sems Q s v u -> ready_ok Q s.
Proof. intros Hh p Hp. destruct (hs_procs _ _ _ _ Hh p) as (x & Hx & Ht & _); [by apply (hs_in _ _ _ _ Hh (QReady h))|eauto]. Qed.

(** [get_semaphore] reads only the identifiers and the status. *)
Lemma get_semaphore_ext i r s s' :
  (forall j, (fun x => (sem_id x, sem_status x)) <$> semaphores s' !! j = (fun x => (sem_id x, sem_status x)) <$> semaphores s !! j) ->
  get_semaphore i s = Ok r s -> get_semaphore i s' = Ok r s'.
Proof.
  intros He. unfold get_semaphore. set (body := fun j : Z => if j <? NSEMAPHORE then _ else _).
  assert (forall j, body j s = Fault \/ exists b, body j s = Ok b s /\ body j s' = Ok b s') as Hb.
  { intros j. unfold body. destruct (j <? NSEMAPHORE); [|right; by eexists].
    unfold get_sem, bind, gets, of_option. specialize (He j).
    destruct (semaphores s !! j) as [x|]; [|by left]. right.
    destruct (semaphores s' !! j) as [x'|]; [|done]. injection He as E1 E2.
    cbn. rewrite E1, E2. destruct (_ && _); by eexists. }
  generalize (Datatypes.S (Z.to_nat NSEMAPHORE)) as n, 0 as j. intros n.
  induction n as [|n IH]; intros j; cbn [loop]; [done|]. unfold bind.
  destruct (Hb j) as [->|([a|b] & -> & ->)]; [done|apply IH|by intros [= <-]].
Qed.

(** A change of the queues that leaves the semaphores alone. *)
Lemma has_sems_move Q Q' s s' v u : has_sems Q s v u -> sched_wf Q' s' ->
  (forall i, Q' (QSem i) = Q (QSem i)) -> (forall q p, p ∈ Q' q -> p ∈ procs_in) ->
  semaphores s' = semaphores s -> is_Some (csrs s' !! h) -> same_users (procs s) (procs s') -> has_sems Q' s' v u.
Proof.
  intros [W S N R C P I] W' S' I' E C' U'. split; try done.
  - intros i Hi. destruct (S i Hi) as [[V1 V2 V3] HQ]. rewrite S'. split; [|done].
    split; [by rewrite E|done|by rewrite S'].
  - intros i Hi. apply (get_semaphore_ext i _ s); [intros j; by rewrite E|by apply N].
  - intros p Hp. apply (same_users_ok (procs s)); [done|by apply P].
Qed.

Lemma has_sems_switch Q Q' s s' v u b : has_sems Q s v u -> switched Q Q' s s' b -> has_sems Q' s' v u.
Proof.
  intros Hh [W' S' I' E C' U' _]. apply (has_sems_move Q Q' s); try done.
  intros q p Hp. by apply (hs_in _ _ _ _ Hh q), I'.
Qed.

(** A change of one semaphore, its queue, and nothing else that matters. *)
Lemma has_sems_update Q Q' s s' v u i y v' l : has_sems Q s v u -> i ∈ used -> sched_wf Q' s' ->
  (exists x, semaphores s !! idx i = Some x /\ sem_id y = sem_id x /\ sem_status y = sem_status x) ->
  semaphores s' = <[idx i := y]> (semaphores s) -> value y = v' -> - 2 ^ 62 < v' < 2 ^ 62 ->
  Q' (QSem (idx i)) = l -> Z.of_nat (length l) = Z.max 0 (- v') ->
  (forall j, j <> idx i -> Q' (QSem j) = Q (QSem j)) ->
  (forall q p, p ∈ Q' q -> p ∈ procs_in) ->
  csrs s' = csrs s -> same_users (procs s) (procs s') ->
  has_sems Q' s' (fset i v' v) (fset i l u).
Proof.
  intros [W S N R C P I] Hi W' (x & Hx & Eid & Est) Es Ev Hr Hl Hc Hf Hin Ecs Hu. split; try done.
  - intros j Hj. destruct (decide (j = i)) as [->|Hne].
    + rewrite !fset_eq. split; [|done]. split; [by rewrite Es, lookup_insert_eq; cbn; rewrite Ev|done|by rewrite Hl].
    + rewrite !fset_ne by done. destruct (S j Hj) as [[V1 V2 V3] HQ].
      assert (idx j <> idx i) as Hij by (intros E; by apply Hne, idx_inj).
      rewrite Hf by done. split; [|done]. split; [by rewrite Es, lookup_insert_ne by done|done|by rewrite Hf].
  - intros j Hj. apply (get_semaphore_ext j _ s); [|by apply N]. intros k. rewrite Es, lookup_insert.
    case_decide; [|done]. subst k. rewrite Hx. cbn. by rewrite Eid, Est.
  - intros j Hj. rewrite fset_ne by (intros ->; done). by apply R.
  - by rewrite Ecs.
  - intros p Hp. apply (same_users_ok (procs s)); [done|by apply P].
Qed.

Lemma has_sems_ext Q s v v' u u' : (forall i, v i = v' i) -> (forall i, u i = u' i) ->
  has_sems Q s v u -> has_sems Q s v' u'.
Proof.
  intros Ev Eu [W S N R C P I]. split; try done.
  - intros i Hi. rewrite <- Ev, <- Eu. by apply S.
  - intros i Hi. rewrite <- Eu. by apply R.
Qed.

(** The semaphore with identifier [i]. *)
Lemma has_sems_lookup Q s v u i : has_sems Q s v u -> i ∈ used ->
  exists x, semaphores s !! idx i = Some x /\ value x = v i /\ - 64 <= v i < 2 ^ 62 /\
    Q (QSem (idx i)) = u i /\ Z.of_nat (length (u i)) = Z.max 0 (- v i).
Proof.
  intros Hh Hi. destruct (hs_sem _ _ _ _ Hh i Hi) as [[V R L] HQ]. apply fmap_Some in V as (x & Hx & V).
  exists x. rewrite <- HQ. split_and!; try done; [|lia].
  pose proof (queue_bounded Q s (QSem (idx i)) (hs_wf _ _ _ _ Hh)) as Hb. unfold NPROC in Hb. lia.
Qed.

(** After a switch the process that is entered is in no queue. *)
Lemma switch_running Q Q' s s' v u b : has_sems Q s v u -> switched Q Q' s s' b -> b = true ->
  exists c, running_ok Q' s' c.
Proof.
  intros Hh Hs Hb. destruct (sd_runs _ _ _ _ _ Hs Hb) as (p & Hc & Hp & Hn). exists p.
  split_and!; [done| |done]. by apply (hs_in _ _ _ _ Hh (QReady h)).
Qed.

Lemma kernel_P Q s v u c i : has_sems Q s v u -> running_ok Q s c -> i ∈ used ->
  exists r s' Q', sys_user_sem_P h i s = Ok r s' /\
    has_sems Q' s' (fset i (v i - 1) v) (if 0 <? v i then u else fset i (u i ++ [c]) u) /\
    (goes_on r = true -> exists c', running_ok Q' s' c').
Proof.
  intros Hh (Hc & Hin & Hno) Hi. pose proof (hs_wf _ _ _ _ Hh) as Hwf.
  destruct (has_sems_lookup _ _ _ _ i Hh Hi) as (x & Hx & Vx & Hv & HQ & Hlen).
  unfold sys_user_sem_P, bind at 1. rewrite (hs_name _ _ _ _ Hh i Hi). unfold bind at 1. destruct (Z.ltb_spec 0 (v i)).
  - rewrite (semaphore_P_passes Q h (idx i) c x) by (done || lia). eexists _, _, Q. split; [reflexivity|].
    split; [|by intros _; exists c]. apply (has_sems_ext Q _ (fset i (v i - 1) v) _ (fset i (u i) u)); [done| |].
    { intros j. unfold fset. case_decide; [by subst|done]. }
    eapply (has_sems_update Q Q s _ v u i (set_value (value x - 1) x)); try done.
    + by apply (set_sem_wf Q s (idx i) x).
    + by exists x.
    + cbn. lia.
    + lia.
    + lia.
    + apply (hs_in _ _ _ _ Hh).
    + apply same_users_refl.
  - destruct (hs_procs _ _ _ _ Hh c Hin) as (px & Hpx & _).
    rewrite (semaphore_P_blocks Q h (idx i) c x px) by (done || lia). set (s1 := sem_blocked _ _ _ _ _ _).
    set (Q1 := qset Q (QSem (idx i)) (Q (QSem (idx i)) ++ [c])).
    assert (has_sems Q1 s1 (fset i (v i - 1) v) (fset i (u i ++ [c]) u)) as H1.
    { eapply (has_sems_update Q Q1 s s1 v u i); try done.
      - by apply (sem_blocked_wf Q (idx i) c x px s).
      - by exists x.
      - cbn. lia.
      - lia.
      - unfold Q1. by rewrite qset_eq, HQ.
      - rewrite length_app. cbn. lia.
      - intros j Hj. unfold Q1. rewrite qset_ne; [done|congruence].
      - intros q p. unfold Q1, qset. case_decide; [|by apply (hs_in _ _ _ _ Hh q)].
        rewrite elem_of_app, list_elem_of_singleton. intros [Hp| ->]; [|done]. by apply (hs_in _ _ _ _ Hh (QSem (idx i))).
      - eapply same_users_trans; [by apply (same_users_insert _ c px (set_status BLOCKED px))|].
        apply (same_users_enq (set_status BLOCKED)); [by rewrite lookup_insert_eq|apply Hno|done|done]. }
    destruct (schedule_switches Q1 s1 (hs_wf _ _ _ _ H1) (hs_csr _ _ _ _ H1) (has_sems_ready _ _ _ _ H1))
      as (r & s' & Q' & E & Hsw).
    unfold bind. rewrite E. eexists _, s', Q'. split; [reflexivity|].
    split; [by apply (has_sems_switch Q1 Q' s1 s' _ _ (enters_user r))|]. by apply (switch_running Q1 Q' s1 s' _ _ (enters_user r) H1).
Qed.

Lemma ready_inserted_frame p x l s : p ∉ l ->
  procs (ready_inserted p x h l s) = enq readied p x l (procs s) /\
  semaphores (ready_inserted p x h l s) = semaphores s /\ csrs (ready_inserted p x h l s) = csrs s /\
  current (ready_inserted p x h l s) = current s.
Proof. intros Hp. unfold ready_inserted. rewrite decide_False by done. by destruct l. Qed.

Lemma insert_ready_exact Q s p x : sched_wf Q s -> procs s !! p = Some x -> nowhere Q p ->
  insert_to_ready_queue h p s = Ok tt (ready_inserted p x h (Q (QReady h)) s).
Proof.
  intros Hwf Hx Hno. unfold insert_to_ready_queue, assert_hart, assert. rewrite (proj2 (Z.ltb_lt h NCPU)) by lia.
  unfold bind at 1, ret at 1. destruct (sw_locks _ _ Hwf). assert (0 <= p < NPROC) by (apply (sw_procs _ _ Hwf); eauto).
  apply insert_ready_run; try done.
  - rewrite (sw_pid _ _ Hwf _ _ Hx). lia.
  - apply (sw_queue _ _ Hwf (QReady h)).
  - apply Hwf.
  - by eapply queue_bounded.
Qed.

Lemma same_users_readied ps p x l : ps !! p = Some x -> p ∉ l -> same_users ps (enq readied p x l ps).
Proof. intros Hx Hp. apply same_users_enq; try done; unfold readied; by case_bool_decide. Qed.

Lemma kernel_V Q s v u c i : has_sems Q s v u -> running_ok Q s c -> i ∈ used -> v i < 2 ^ 62 - 1 ->
  exists r s' Q', sys_user_sem_V h i s = Ok r s' /\
    has_sems Q' s' (fset i (v i + 1) v) (fset i (tail (u i)) u) /\ running_ok Q' s' c.
Proof.
  intros Hh (Hc & Hin & Hno) Hi Hhi. pose proof (hs_wf _ _ _ _ Hh) as Hwf.
  destruct (has_sems_lookup _ _ _ _ i Hh Hi) as (x & Hx & Vx & Hv & HQ & Hlen).
  unfold sys_user_sem_V, bind at 1. rewrite (hs_name _ _ _ _ Hh i Hi). unfold bind.
  destruct (u i) as [|p l] eqn:Eu; cbn [length] in Hlen; cbn [tail].
  - rewrite (semaphore_V_counts h (idx i) x) by (apply (sw_locks _ _ Hwf) || done || lia).
    eexists _, _, Q. split; [reflexivity|]. split; [|done].
    eapply (has_sems_update Q Q s _ v u i (set_value (value x + 1) x)); try done.
    + by apply (set_sem_wf Q s (idx i) x).
    + by exists x.
    + cbn. lia.
    + lia.
    + cbn. lia.
    + apply (hs_in _ _ _ _ Hh).
    + apply same_users_refl.
  - assert (p ∈ procs_in) as Hp by (apply (hs_in _ _ _ _ Hh (QSem (idx i))); rewrite HQ; set_solver).
    destruct (hs_procs _ _ _ _ Hh p Hp) as (px & Hpx & _).
    destruct (sem_woken_wf Q (idx i) p l x px s) as [Hwf1 Hno1]; try done.
    assert (p <> c) as Hpc by (intros ->; apply (Hno (QSem (idx i))); rewrite HQ; set_solver).
    rewrite (semaphore_V_wakes Q h (idx i) p l x px) by (done || lia).
    set (px' := set_status READY (set_queue_next None px)). set (s1 := sem_woken (idx i) p x px s).
    set (Q1 := qset Q (QSem (idx i)) l). assert (Q1 (QReady h) = Q (QReady h)) as HR by (by apply qset_ne).
    assert (p ∉ Q (QReady h)) as Hnr by (rewrite <- HR; apply Hno1).
    destruct (ready_inserted_frame p px' (Q (QReady h)) s1 Hnr) as (Ep & Es & Ec & Ecur).
    assert (procs s1 !! p = Some px') as Hp1 by (simpl; by rewrite lookup_insert_eq).
    pose proof (ready_inserted_wf Q1 h p px' s1 Hwf1 Hp1 Hno1 ltac:(done)) as Hwf2. rewrite HR in Hwf2.
    eexists _, _, (qset Q1 (QReady h) (Q (QReady h) ++ [p])). split; [reflexivity|]. split.
    + eapply (has_sems_update Q _ s _ v u i); [done|done|exact Hwf2| |exact Es| | | | | | | |].
      * by exists x.
      * cbn. lia.
      * lia.
      * unfold Q1. by rewrite qset_ne, qset_eq.
      * lia.
      * intros j Hj. unfold Q1. rewrite !qset_ne; congruence.
      * intros q r. unfold Q1, qset. repeat case_decide.
        -- rewrite elem_of_app, list_elem_of_singleton. intros [Hr| ->]; [|done]. by apply (hs_in _ _ _ _ Hh (QReady h)).
        -- intros Hr. apply (hs_in _ _ _ _ Hh (QSem (idx i))). rewrite HQ. set_solver.
        -- apply (hs_in _ _ _ _ Hh q).
      * by rewrite Ec.
      * rewrite Ep. eapply same_users_trans; [|by apply same_users_readied]. by apply (same_users_insert _ p px).
    + split_and!; [by rewrite Ecur|done|]. intros q. unfold Q1, qset. repeat case_decide; [| |apply Hno].
      * rewrite elem_of_app, list_elem_of_singleton. intros [Hr|Hr]; [by apply (Hno (QReady h))|congruence].
      * intros Hr. apply (Hno (QSem (idx i))). rewrite HQ. set_solver.
Qed.

(** A process whose entry changes in a way that the queues do not see. *)
Lemma has_sems_proc Q s v u c x y : has_sems Q s v u -> procs s !! c = Some x -> nowhere Q c -> pid y = pid x ->
  process_ok y -> has_sems Q (set_procs (<[c := y]> (procs s)) s) v u.
Proof.
  intros [W S N R C P I] Hx Hno Hpid Hy. split; try done.
  - apply (wf_update Q s W c x (fun _ => y)); try done. destruct (sw_locks _ _ W). by constructor.
  - intros i Hi. destruct (S i Hi) as [[V1 V2 V3] HQ]. by split; [split|].
  - intros i Hi. by apply (get_semaphore_ext i _ s), N.
  - intros p Hp. cbn. rewrite lookup_insert. case_decide; [by exists y|by apply P].
Qed.

Lemma kernel_tick Q s v u c : has_sems Q s v u -> running_ok Q s c ->
  exists r s' Q', rrsched h s = Ok r s' /\ has_sems Q' s' v u /\
    (goes_on r = true -> exists c', running_ok Q' s' c').
Proof.
  intros Hh (Hc & Hin & Hno). destruct (hs_procs _ _ _ _ Hh c Hin) as (x & Hx & Htf & Ht).
  unfold rrsched, assert_hart, assert, cur, get_current. rewrite (proj2 (Z.ltb_lt h NCPU)) by lia.
  unfold bind at 1, ret at 1. unfold bind at 1, bind at 1, gets. rewrite Hc. cbn [of_option]. unfold ret at 1, bind at 1.
  rewrite (get_proc_run c x) by done. unfold TIME_SLICE_LEN in *. rewrite s32_small by lia. destruct (Z.leb_spec 2 (tick_count x + 1)).
  - unfold bind at 1. rewrite (upd_proc_run c _ x) by done. unfold bind at 1.
    rewrite (upd_proc_run c _ (set_tick_count 0 x)) by (simpl; by rewrite lookup_insert_eq).
    set (z := set_status READY (set_tick_count 0 x)). set (s0 := set_procs _ (set_procs _ s)).
    set (s1 := set_procs (<[c := z]> (procs s)) s). replace s0 with s1 by (unfold s0, s1; simpl; by rewrite insert_insert_eq).
    clear s0. assert (has_sems Q s1 v u) as H1 by (by apply (has_sems_proc Q s v u c x z)).
    assert (procs s1 !! c = Some z) as Hz by (simpl; by rewrite lookup_insert_eq).
    unfold bind at 1. rewrite (insert_ready_exact Q s1 c z (hs_wf _ _ _ _ H1) Hz Hno).
    destruct (ready_inserted_frame c z (Q (QReady h)) s1 (Hno _)) as (Ep & Es & Ec & _). set (s2 := ready_inserted _ _ _ _ _) in *.
    set (Q2 := qset Q (QReady h) (Q (QReady h) ++ [c])). assert (has_sems Q2 s2 v u) as H2.
    { apply (has_sems_move Q Q2 s1); try done.
      - by apply ready_inserted_wf; [apply (hs_wf _ _ _ _ H1)| | |].
      - intros q p. unfold Q2, qset. case_decide; [|by apply (hs_in _ _ _ _ Hh q)].
        rewrite elem_of_app, list_elem_of_singleton. intros [Hp| ->]; [by apply (hs_in _ _ _ _ Hh (QReady h))|done].
      - rewrite Ec. apply (hs_csr _ _ _ _ Hh).
      - rewrite Ep. by apply same_users_readied. }
    destruct (schedule_switches Q2 s2 (hs_wf _ _ _ _ H2) (hs_csr _ _ _ _ H2) (has_sems_ready _ _ _ _ H2))
      as (r & s' & Q' & E & Hsw).
    unfold bind. rewrite E. eexists _, s', Q'. split; [reflexivity|].
    split; [by apply (has_sems_switch Q2 Q' s2 s' _ _ (enters_user r))|]. by apply (switch_running Q2 Q' s2 s' _ _ (enters_user r) H2).
  - unfold bind at 1. rewrite (upd_proc_run c _ x) by done. eexists _, _, Q. split; [reflexivity|].
    split; [|by intros _; exists c]. apply (has_sems_proc Q s v u c x); try done.
    split; [done|]. cbn. unfold TIME_SLICE_LEN. lia.
Qed.

(** ** The refinement *)

Context (known : forall p i, CallP i ∈ script p \/ CallV i ∈ script p -> i ∈ used).

Definition simulates (w : hart_state) (a : turns_state) : Prop :=
  exists Q, has_sems Q (hs_kernel w) (sem_value a) (sem_queue a) /\
    (forall p, hs_at w p = at_call a p) /\ hs_said w = said a /\
    (hs_runs w = true -> exists c, running_ok Q (hs_kernel w) c).

(** A running process does not wait at a semaphore. *)
Lemma running_awake Q s a c : has_sems Q s (sem_value a) (sem_queue a) -> running_ok Q s c -> awake a c.
Proof.
  intros Hh (_ & _ & Hno) i Hin. destruct (decide (i ∈ used)) as [Hi|Hi].
  - destruct (hs_sem _ _ _ _ Hh i Hi) as [_ HQ]. apply (Hno (QSem (idx i))). by rewrite HQ.
  - rewrite (hs_rest _ _ _ _ Hh i Hi) in Hin. by apply elem_of_nil in Hin.
Qed.

(** One call of the running process. *)
Lemma simulate_exec w a : simulates w a -> hs_runs w = true -> (forall i, i ∈ used -> sem_value a i < 2 ^ 62 - 1) ->
  exists w' a', on_event Exec w = Some w' /\ rtc (some_turn script) a a' /\ simulates w' a' /\
    forall i, sem_value a' i <= sem_value a i + 1.
Proof.
  intros (Q & Hh & Hat & Hs & Hr) Hrun Hhi. destruct (Hr Hrun) as [c Hc]. pose proof (running_awake _ _ _ _ Hh Hc) as Haw.
  pose proof Hc as (Hcur & _ & _). unfold on_event. rewrite Hrun, Hcur. cbn [mbind option_bind].
  assert (forall x, fset c (S (hs_at w c)) (hs_at w) x = advance a c x) as Hat'
    by (intros x; unfold advance, fset; case_decide; by rewrite Hat).
  destruct (script c !! hs_at w c) as [[i|i|t]|] eqn:E.
  - assert (i ∈ used) as Hi by (apply (known c); left; by eapply list_elem_of_lookup_2).
    destruct (kernel_P Q _ _ _ c i Hh Hc Hi) as (r & s' & Q' & -> & H1 & H2).
    eexists _, _. split; [reflexivity|]. rewrite Hat in E. split; [apply rtc_once; exists c; by apply (turn_P script c a i)|].
    split; [by exists Q'|]. intros j. cbn. unfold fset. case_decide; [subst|]; lia.
  - assert (i ∈ used) as Hi by (apply (known c); right; by eapply list_elem_of_lookup_2).
    destruct (kernel_V Q _ _ _ c i Hh Hc Hi (Hhi i Hi)) as (r & s' & Q' & -> & H1 & H2).
    eexists _, _. split; [reflexivity|]. rewrite Hat in E. split; [apply rtc_once; exists c; by apply (turn_V script c a i)|].
    split; [exists Q'; eauto|]. intros j. cbn. unfold fset. case_decide; [subst|]; lia.
  - eexists _, _. split; [reflexivity|]. rewrite Hat in E. split; [apply rtc_once; exists c; by apply (turn_say script c a t)|].
    split; [|cbn; lia]. exists Q. cbn. rewrite Hs. eauto.
  - exists w, a. split; [done|]. split; [apply rtc_refl|]. split; [by exists Q|]. lia.
Qed.

(** The timer and the waiting loop are not seen by the programs. *)
Lemma simulate_switch e w a : simulates w a -> e <> Exec -> exists w', on_event e w = Some w' /\ simulates w' a.
Proof.
  intros (Q & Hh & Hat & Hs & Hr) He. unfold on_event. destruct e; [done| |]; destruct (hs_runs w) eqn:Hrun.
  - destruct (Hr eq_refl) as [c Hc]. destruct (kernel_tick Q _ _ _ c Hh Hc) as (r & s' & Q' & -> & H1 & H2).
    eexists. split; [reflexivity|]. by exists Q'.
  - exists w. split; [done|]. exists Q. rewrite Hrun. done.
  - exists w. split; [done|]. exists Q. rewrite Hrun. done.
  - destruct (resume_switches Q _ (hs_wf _ _ _ _ Hh) (hs_csr _ _ _ _ Hh) (has_sems_ready _ _ _ _ Hh)) as (r & s' & Q' & -> & Hsw).
    eexists. split; [reflexivity|]. exists Q'. split_and!; try done; [by apply (has_sems_switch Q Q' _ s' _ _ _ Hh Hsw)|].
    by apply (switch_running Q Q' _ s' _ _ _ Hh Hsw).
Qed.

Lemma simulate_event e w a : simulates w a -> (forall i, i ∈ used -> sem_value a i < 2 ^ 62 - 1) ->
  exists w' a', on_event e w = Some w' /\ rtc (some_turn script) a a' /\ simulates w' a' /\
    forall i, sem_value a' i <= sem_value a i + 1.
Proof.
  intros Hs Hb. assert (forall w1, on_event e w = Some w1 -> simulates w1 a ->
    exists w' a', on_event e w = Some w' /\ rtc (some_turn script) a a' /\ simulates w' a' /\
      forall i, sem_value a' i <= sem_value a i + 1) as Hstay.
  { intros w1 E H1. exists w1, a. split_and!; [done|apply rtc_refl|done|lia]. }
  destruct e; [|by destruct (simulate_switch Tick w a Hs ltac:(done)) as (w1 & E & H1); apply (Hstay w1)
    |by destruct (simulate_switch Poll w a Hs ltac:(done)) as (w1 & E & H1); apply (Hstay w1)].
  destruct (hs_runs w) eqn:Hr; [by apply simulate_exec|]. apply (Hstay w); [|done]. unfold on_event. by rewrite Hr.
Qed.

Lemma simulate_events es w a : simulates w a ->
  (forall i, i ∈ used -> sem_value a i + Z.of_nat (length es) < 2 ^ 62) ->
  exists w' a', on_events es w = Some w' /\ rtc (some_turn script) a a' /\ simulates w' a'.
Proof.
  revert w a. induction es as [|e es IH]; intros w a Hs Hb.
  { exists w, a. split_and!; [done|apply rtc_refl|done]. }
  cbn [length on_events] in *.
  destruct (simulate_event e w a Hs) as (w1 & a1 & -> & Ha & H1 & Hv); [intros i Hi; specialize (Hb i Hi); lia|].
  destruct (IH w1 a1 H1) as (w' & a' & E & Ha' & H2); [intros i Hi; specialize (Hb i Hi); specialize (Hv i); lia|].
  exists w', a'. split_and!; [done|by etrans|done].
Qed.

(** C13: what the kernel's semaphores promise to programs.  Processes of a hart that
    call P and V and print, interrupted by the timer at any moment, run as processes on
    counting semaphores with a first-in first-out queue: whatever the sequence of
    events, the kernel never panics or faults, and what was printed satisfies every
    [good] that holds in all runs of the abstract machine. *)
Theorem semaphores_refine_turns es w a (good : list (list Z) -> Prop) : simulates w a ->
  (forall i, i ∈ used -> sem_value a i + Z.of_nat (length es) < 2 ^ 62) ->
  (forall a', rtc (some_turn script) a a' -> good (said a')) ->
  exists w', on_events es w = Some w' /\ good (hs_said w') /\ exists a', simulates w' a'.
Proof.
  intros Hs Hb Hg. destruct (simulate_events es w a Hs Hb) as (w' & a' & E & Hr & H1).
  exists w'. split; [done|]. split; [|by exists a']. destruct H1 as (Q & _ & _ & -> & _). by apply Hg.
Qed.

End Hart.

(** The semaphores that the processes of app_semaphore use. *)
Definition known_call (c : call) : Prop :=
  match c with CallP i | CallV i => i ∈ [0; 1; 2] | Say _ => True end.

Lemma ring_script_known j : j ∈ [0; 1; 2] -> Forall known_call (ring_script (fun j => j) semaphore_line 10 j).
Proof.
  intros Hj. unfold ring_script. apply Forall_join, Forall_fmap, Forall_true. intros r.
  apply Forall_cons_2; [exact Hj|]. apply Forall_cons_2; [exact I|]. apply Forall_singleton. cbn [known_call].
  repeat (apply elem_of_cons in Hj as [->|Hj]; [cbn; rewrite !elem_of_cons; tauto|]). by apply elem_of_nil in Hj.
Qed.

Lemma semaphore_app_known p0 p1 p2 p i : 0 < p1 < NPROC -> 0 < p2 < NPROC ->
  CallP i ∈ semaphore_app p0 p1 p2 p \/ CallV i ∈ semaphore_app p0 p1 p2 p -> i ∈ [0; 1; 2].
Proof.
  intros H1 H2 Hin. assert (Forall known_call (semaphore_app p0 p1 p2 p)) as Hk.
  { unfold semaphore_app. repeat case_decide; [| | |apply Forall_nil_2].
    - rewrite (proj1 (semaphore_scripts p1 H1)). by apply ring_script_known, list_elem_of_here.
    - rewrite (proj1 (proj2 (semaphore_scripts p2 H2))). apply ring_script_known. rewrite !elem_of_cons. tauto.
    - rewrite (proj2 (proj2 (semaphore_scripts p2 H2))). apply ring_script_known. rewrite !elem_of_cons. tauto. }
  rewrite Forall_forall in Hk. by destruct Hin as [Hi|Hi]; apply Hk in Hi.
Qed.

(** The processes of app_semaphore on the kernel: whatever the timer does, the lines
    come in turn. *)
Lemma semaphore_app_on_kernel `{Symbols} h p0 p1 p2 procs_in idx es w :
  0 <= h < NCPU -> 0 < p1 < NPROC -> 0 < p2 < NPROC -> p0 <> p1 -> p0 <> p2 -> p1 <> p2 ->
  (forall i j, i ∈ [0; 1; 2] -> j ∈ [0; 1; 2] -> idx i = idx j -> i = j) ->
  simulates h procs_in [0; 1; 2] idx w (ring_start (fun j => j)) -> Z.of_nat (length es) < 2 ^ 61 ->
  exists w' k, on_events h (semaphore_app p0 p1 p2) es w = Some w' /\ 0 <= k <= 30 /\
    hs_said w' = ring_lines semaphore_line k.
Proof.
  intros Hh H1 H2 N1 N2 N3 Hi Hs Hl.
  destruct (semaphore_app_ring p0 p1 p2 H1 H2 N1 N2 N3) as [Hr Ho].
  destruct (simulate_events h (semaphore_app p0 p1 p2) Hh procs_in [0; 1; 2] idx Hi) with (es := es) (w := w)
    (a := ring_start (fun j => j)) as (w' & a' & E & Hrun & (Q & _ & _ & Hsaid & _)); [|done| |].
  - intros p i. by apply semaphore_app_known.
  - intros i _. cbn. case_decide; lia.
  - apply rtc_nsteps in Hrun as [n Hn].
    apply (ring_in_order (three_pids p0 p1 p2) (fun j => j) semaphore_line 10) in Hn as ((k & Hk & Ek) & _); try done.
    + exists w', k. rewrite Hsaid. done.
    + intros j j'. by apply three_pids_inj.
Qed.

(** A kernel with one semaphore, on which process 1 runs. *)
Definition one_script (p : Z) : list call := if p =? 1 then [CallP 0; Say [65]; CallV 0] else [].
Definition one_hart : hart_state := HartState (sem_kernel 1) (fun _ => 0%nat) [] true.

Lemma semaphores_refine_turns_witness : exists w',
  @on_events sem_symbols 0 one_script [Exec; Tick; Exec; Tick; Exec; Exec] one_hart = Some w' /\ Forall (fun t => t = [65]) (hs_said w').
Proof.
  destruct (@semaphores_refine_turns sem_symbols 0 one_script ltac:(vm_compute; split; [discriminate|reflexivity]) [1] [0] (fun i => i))
    with (es := [Exec; Tick; Exec; Tick; Exec; Exec]) (w := one_hart) (a := ring_start (fun j => j)) (good := Forall (fun t => t = [65])) as (w' & E & Hr & _).
  - intros i j _ _ E. exact E.
  - intros p i. unfold one_script. destruct (p =? 1); set_solver.
  - exists (fun _ => []). split; [|split; [reflexivity|split; [reflexivity|]]].
    + split.
      * apply sem_kernel_wf.
      * intros i ->%list_elem_of_singleton. split; [|reflexivity]. split; [reflexivity|vm_compute; split; reflexivity|reflexivity].
      * intros i ->%list_elem_of_singleton. vm_compute. reflexivity.
      * reflexivity.
      * vm_compute. eauto.
      * intros p ->%list_elem_of_singleton. exists demo_process. split; [reflexivity|].
        split; vm_compute; split; (discriminate || reflexivity).
      * intros q p Hp. apply elem_of_nil in Hp. destruct Hp.
    + intros _. exists 1. split; [reflexivity|]. split; [set_solver|]. intros q Hp. apply elem_of_nil in Hp. destruct Hp.
  - intros i ->%list_elem_of_singleton. vm_compute. reflexivity.
  - intros a'. generalize (ring_start (fun j => j)) (Forall_nil_2 (fun t : list Z => t = [65]) : Forall _ (said (ring_start (fun j => j)))).
    intros a Ha Hr. induction Hr as [|a b c [p Ht] _ IH]; [exact Ha|]. apply IH. clear IH.
    unfold next_call, one_script in Ht. inversion Ht as [t _ E|i _ E|i _ E]; cbn; [|exact Ha|exact Ha].
    apply Forall_app. split; [exact Ha|]. apply Forall_singleton. unfold next_call, one_script in E.
    apply list_elem_of_lookup_2 in E.
    destruct (p =? 1); [|apply elem_of_nil in E; destruct E]. rewrite !elem_of_cons, elem_of_nil in E.
    destruct E as [E|[E|[E|[]]]]; congruence.
  - exists w'. split; [exact E|exact Hr].
Defined.
