(* ===== verification/Shell.v ===== *)
(** * The shell (zshell/)

    The command line parser (parser.c), the aliases (zshrc_parser.c), the built-in
    commands (command.c), the execution of command lines (execute.c) and the main
    loop (zshell.c), as a user program of [UserLib].  The characters of lines,
    names and paths are in the byte memory of the program; the structures that
    [better_malloc] allocates are records in maps by address, and using one that
    was freed is an access to memory that is not the program's. *)

From Stdlib Require Import String Ascii.
From S2P Require Import Prelude Mem StringLib Literals Printf Scanf Fs System Syscall UserLib.
From stdpp Require Import base gmap list fin_maps.
From Stdlib Require Import ZArith Lia Bool.

Set Default Goal Selector "!".
Open Scope Z_scope.
Open Scope user_scope.

(** ** Data *)

Inductive operation_t : Type := OP_DEAD | OP_EXEC | OP_PIPLINE | OP_MULTISTART | OP_MULTICORE.

#[export] Instance operation_t_dec : EqDecision operation_t.
Proof. solve_decision. Defined.

Record paras_t : Type := ParasT { para : Z; p_next : Z }.

Record command_t : Type := CommandT {
  operation : Z;
  paras : Z;
  para_num : Z;
  op_type : operation_t;
  c_next : Z
}.

Definition set_operation (x : Z) (c : command_t) : command_t :=
  CommandT x (paras c) (para_num c) (op_type c) (c_next c).
Definition set_paras (x : Z) (c : command_t) : command_t :=
  CommandT (operation c) x (para_num c) (op_type c) (c_next c).
Definition set_para_num (x : Z) (c : command_t) : command_t :=
  CommandT (operation c) (paras c) x (op_type c) (c_next c).
Definition set_op_type (x : operation_t) (c : command_t) : command_t :=
  CommandT (operation c) (paras c) (para_num c) x (c_next c).
Definition set_c_next (x : Z) (c : command_t) : command_t :=
  CommandT (operation c) (paras c) (para_num c) (op_type c) x.

(** [sizeof] of the structures. *)
Definition SIZEOF_PARAS : Z := 16.
Definition SIZEOF_COMMAND : Z := 32.
Definition SIZEOF_ALIAS : Z := 160.
Definition MAX_ALIAS_NAME : Z := 50.
Definition MAX_ALIAS_VALUE : Z := 100.
Definition ZSHRC_BUF_SIZE : Z := 512.
Definition MAX_CMD_LEN : Z := 100.

(** The arrays [name] and [value] of an alias are in memory at its address and 50
    bytes after it; [alias_next] has its link. *)
Record shell : Type := Shell {
  sh_paras : gmap Z paras_t;
  sh_cmds : gmap Z command_t;
  alias_next : gmap Z Z;
  alias_list : Z;
  current_dir : Z
}.

Definition set_sh_paras (x : gmap Z paras_t) (d : shell) : shell :=
  Shell x (sh_cmds d) (alias_next d) (alias_list d) (current_dir d).
Definition set_sh_cmds (x : gmap Z command_t) (d : shell) : shell :=
  Shell (sh_paras d) x (alias_next d) (alias_list d) (current_dir d).
Definition set_alias_next (x : gmap Z Z) (d : shell) : shell :=
  Shell (sh_paras d) (sh_cmds d) x (alias_list d) (current_dir d).
Definition set_alias_list (x : Z) (d : shell) : shell :=
  Shell (sh_paras d) (sh_cmds d) (alias_next d) x (current_dir d).
Definition set_current_dir (x : Z) (d : shell) : shell :=
  Shell (sh_paras d) (sh_cmds d) (alias_next d) (alias_list d) x.

(** Addresses of literals that are passed to the kernel and of local arrays. *)
Record layout_t : Type := Layout {
  l_empty : Z;      (* the literal for no parameter *)
  l_root : Z;       (* "/" *)
  l_zshrc : Z;      (* ZSHRC_PATH *)
  l_history : Z;    (* "/.zsh_history" *)
  l_out : Z;        (* out of printu *)
  l_path : Z;       (* path of app_pwd *)
  l_buf : Z;        (* buf of app_cat and of load_zshrc *)
  l_dir : Z;        (* dir of app_ls *)
  l_name : Z;       (* name of app_ls *)
  l_cmd : Z         (* cmd of main *)
}.

Section Shell.
  Context {K : Type} `{!UserKernel K} (L : layout_t) (fuel : nat).

Abbreviation P := (U K shell).

Definition data : P shell := fun s => UDone (udata s) s.
Definition upd (f : shell -> shell) : P unit := fun s => UDone tt (UState (umem s) (ukern s) (f (udata s))).

Definition get_cmd (a : Z) : P command_t :=
  do* d := data in match sh_cmds d !! a with Some c => uret c | None => ufault end.
Definition upd_cmd (a : Z) (f : command_t -> command_t) : P unit :=
  do* c := get_cmd a in upd (fun d => set_sh_cmds (<[a := f c]> (sh_cmds d)) d).
Definition get_paras (a : Z) : P paras_t :=
  do* d := data in match sh_paras d !! a with Some c => uret c | None => ufault end.
Definition upd_paras (a : Z) (f : paras_t -> paras_t) : P unit :=
  do* c := get_paras a in upd (fun d => set_sh_paras (<[a := f c]> (sh_paras d)) d).

(** A new structure is read only after its fields are written. *)
Definition new_paras : P Z :=
  do* r := better_malloc SIZEOF_PARAS in
  (if r =? 0 then uret tt else upd (fun d => set_sh_paras (<[r := ParasT 0 0]> (sh_paras d)) d)) ;;
  uret r.
Definition new_command : P Z :=
  do* r := better_malloc SIZEOF_COMMAND in
  (if r =? 0 then uret tt else upd (fun d => set_sh_cmds (<[r := CommandT 0 0 0 OP_DEAD 0]> (sh_cmds d)) d)) ;;
  uret r.
Definition drop_paras (a : Z) : P unit :=
  better_free a ;; upd (fun d => set_sh_paras (delete a (sh_paras d)) d).
Definition drop_command (a : Z) : P unit :=
  better_free a ;; upd (fun d => set_sh_cmds (delete a (sh_cmds d)) d).

(** [strcmp(p, l) == 0] and [startwith(p, l)] for a literal [l]. *)
Definition is_str (p : Z) (l : list Z) : P bool := fun s => UDone (streq (umem s) p l) s.
Definition starts (p : Z) (l : list Z) : P bool := fun s =>
  UDone (forallb (fun '(i, c) => load8 (umem s) (p + Z.of_nat i) =? c) (imap pair l)) s.

(** ** parser.c *)

(** Steps over the characters that are delimiters, or that are not. *)
Definition skip_while (delim : list Z) (in_delim : bool) (p : Z) : P Z :=
  uloop fuel (fun p =>
    do* c := uload 1 p in
    if negb (c =? 0) && eqb (bool_decide (c ∈ delim)) in_delim then uret (inl (p + 1))
    else uret (inr p)) p.

(** What [get_token] and [skip_current_token] share, from [p] on. *)
Definition token_from (delim : list Z) (p : Z) : P Z :=
  do* p := skip_while delim true p in
  do* c := uload 1 p in
  if c =? 0 then uret 0
  else
    let start := p in
    do* p := skip_while delim false p in
    do* c := uload 1 p in
    (if negb (c =? 0) then ustore 1 p 0 else uret tt) ;;
    uret start.

Definition get_token (input : Z) (delim : list Z) : P Z :=
  if input =? 0 then uret 0 else token_from delim input.

Definition skip_current_token (input : Z) (delim : list Z) : P Z :=
  if input =? 0 then uret 0
  else
    do* n := umemory (strlen fuel input) in
    token_from delim (input + n + 1).

Definition free_paras (command : Z) : P unit :=
  if command =? 0 then uret tt
  else
    do* c := get_cmd command in
    uloop fuel (fun p =>
      if p =? 0 then uret (inr tt)
      else
        do* x := get_paras p in
        drop_paras p ;;
        uret (inl (p_next x))) (paras c) ;;
    upd_cmd command (set_para_num 0) ;;
    upd_cmd command (set_paras 0) ;;
    upd_cmd command (set_op_type OP_DEAD).

Definition clear_command (command : Z) : P unit :=
  uloop fuel (fun cur =>
    if cur =? 0 then uret (inr tt)
    else
      do* c := get_cmd cur in
      free_paras cur ;;
      upd_cmd cur (set_operation 0) ;;
      upd_cmd cur (set_para_num 0) ;;
      upd_cmd cur (set_op_type OP_DEAD) ;;
      uret (inl (c_next c))) command.

Definition free_command (command : Z) : P unit :=
  uloop fuel (fun cur =>
    if cur =? 0 then uret (inr tt)
    else
      do* c := get_cmd cur in
      free_paras cur ;;
      drop_command cur ;;
      uret (inl (c_next c))) command.

Definition print (s : list Z) (vl : list va_slot) : P unit :=
  do* _ := printu (l_out L) s vl in uret tt.

Definition print_command (command : Z) : P unit :=
  if command =? 0 then print (str "command is NULL" ++ [10]) []
  else
    uloop fuel (fun cur =>
      if cur =? 0 then uret (inr tt)
      else
        do* c := get_cmd cur in
        do* op := (if operation c =? 0 then uret [] else ustring fuel (operation c)) in
        let ty := match op_type c with
          OP_DEAD => 0 | OP_EXEC => 1 | OP_PIPLINE => 2 | OP_MULTISTART => 3 | OP_MULTICORE => 4 end in
        print (str "operation: %s, para_num: %d, op_type: %d" ++ [10]) [VStr op; VNum (para_num c); VNum ty] ;;
        uloop fuel (fun p =>
          if p =? 0 then uret (inr tt)
          else
            do* x := get_paras p in
            do* t := ustring fuel (para x) in
            print ([9] ++ str "para: %s" ++ [10]) [VStr t] ;;
            uret (inl (p_next x))) (paras c) ;;
        uret (inl (c_next c))) command.

(** The separator that a token is. *)
Inductive separator : Type := SepMulticore | SepMultistart | SepPipline.

Definition sep_text (x : separator) : list Z :=
  match x with SepMulticore => str "&&" | SepMultistart => str "&" | SepPipline => str "|" end.
Definition sep_type (x : separator) : operation_t :=
  match x with SepMulticore => OP_MULTICORE | SepMultistart => OP_MULTISTART | SepPipline => OP_PIPLINE end.

(** The comparisons of a token with [&&], [&] and [|], in that order. *)
Definition which_sep (token : Z) : P (option separator) :=
  do* b := is_str token (sep_text SepMulticore) in
  if b : bool then uret (Some SepMulticore)
  else
    do* b := is_str token (sep_text SepMultistart) in
    if b : bool then uret (Some SepMultistart)
    else
      do* b := is_str token (sep_text SepPipline) in
      if b : bool then uret (Some SepPipline) else uret None.

(** After a separator: the next command must follow. *)
Definition after_sep (command cur token : Z) (x : separator) : P (option Z) :=
  upd_cmd cur (set_op_type (sep_type x)) ;;
  do* token := skip_current_token token [32] in
  if token =? 0 then
    print (str "Error: " ++ sep_text x ++ str " should be followed by a command" ++ [10]) [] ;;
    free_paras command ;;
    uret None
  else uret (Some token).

(** One parameter: [token] is appended after [last_para]. *)
Definition para_round (command cur head : Z) (st : Z * Z * option separator)
    : P ((Z * Z * option separator) + option (Z * option separator)) :=
  let '(token, last_para, x) := st in
  match x with
  | Some _ => uret (inr (Some (token, x)))
  | None =>
      if token =? 0 then uret (inr (Some (token, x)))
      else
        upd_cmd cur (fun c => set_para_num (s32 (para_num c + 1)) c) ;;
        do* q := new_paras in
        upd_paras last_para (fun y => ParasT (para y) q) ;;
        if q =? 0 then
          uloop fuel (fun i =>
            if i =? 0 then uret (inr tt)
            else
              drop_paras i ;;
              do* y := get_paras i in
              uret (inl (p_next y))) head ;;
          free_paras command ;;
          uret (inr None)
        else
          upd_paras q (fun _ => ParasT token 0) ;;
          do* token := skip_current_token token [32] in
          do* x := (if token =? 0 then uret None else which_sep token) in
          uret (inl (token, q, x))
  end.

(** The parameters of a command from [token] on, which is not a separator; the
    result is the token of the next command, or none when the line is done. *)
Definition read_paras (command cur token : Z) : P (option Z) :=
  do* head := new_paras in
  if head =? 0 then free_paras command ;; uret None
  else
    do* r := uloop fuel (para_round command cur head) (token, head, None) in
    match r with
    | None => uret None
    | Some (token, x) =>
        do* h := get_paras head in
        upd_cmd cur (set_paras (p_next h)) ;;
        drop_paras head ;;
        match x with
        | Some x => after_sep command cur token x
        | None => upd_cmd cur (set_op_type OP_EXEC) ;; uret None
        end
    end.

(** One command of the line. *)
Definition command_round (command : Z) (st : Z * Z) : P ((Z * Z) + unit) :=
  let '(token, cur) := st in
  upd_cmd cur (set_operation token) ;;
  do* token := skip_current_token token [32] in
  do* next :=
    (if token =? 0 then upd_cmd cur (set_op_type OP_EXEC) ;; uret None
     else
       do* x := which_sep token in
       match x with
       | Some x => after_sep command cur token x
       | None => read_paras command cur token
       end) in
  match next with
  | None => uret (inr tt)
  | Some token =>
      do* c := get_cmd cur in
      (if c_next c =? 0 then
         do* q := new_command in
         upd_cmd cur (set_c_next q) ;;
         if q =? 0 then free_paras command ;; uret (inr tt) else uret (inl (token, q))
       else uret (inl (token, c_next c)))
  end.

Definition build_command (cmdline command : Z) : P Z :=
  (if negb (command =? 0) then clear_command command else uret tt) ;;
  do* token := get_token cmdline [32] in
  if token =? 0 then uret command
  else
    do* command := (if command =? 0 then new_command else uret command) in
    if command =? 0 then uret 0
    else
      uloop fuel (command_round command) (token, command) ;;
      uret command.

(** ** zshrc_parser.c *)

Definition get_alias_next (a : Z) : P Z :=
  do* d := data in match alias_next d !! a with Some n => uret n | None => ufault end.

Definition add_alias (name value : Z) : P unit :=
  do* a := better_malloc SIZEOF_ALIAS in
  if a =? 0 then uret tt
  else
    do* _ := umemory (safestrcpy a name MAX_ALIAS_NAME) in
    do* _ := umemory (safestrcpy (a + MAX_ALIAS_NAME) value MAX_ALIAS_VALUE) in
    upd (fun d => set_alias_next (<[a := alias_list d]> (alias_next d)) d) ;;
    upd (set_alias_list a).

(** The address of the value, or 0. *)
Definition find_alias (name : Z) : P Z :=
  do* d := data in
  uloop fuel (fun a =>
    if a =? 0 then uret (inr 0)
    else
      do* next := get_alias_next a in
      do* r := umemory (strcmp fuel a name) in
      if r =? 0 then uret (inr (a + MAX_ALIAS_NAME)) else uret (inl next)) (alias_list d).

Definition free_aliases : P unit :=
  do* d := data in
  uloop fuel (fun a =>
    if a =? 0 then uret (inr tt)
    else
      do* next := get_alias_next a in
      better_free a ;;
      upd (fun d => set_alias_next (delete a (alias_next d)) d) ;;
      uret (inl next)) (alias_list d) ;;
  upd (set_alias_list 0).

(** The first place from [p] on that holds 0 or [c]. *)
Definition find_char (c p : Z) : P Z :=
  uloop fuel (fun p =>
    do* x := uload 1 p in
    if negb (x =? 0) && negb (x =? c) then uret (inl (p + 1)) else uret (inr p)) p.

(** A line [alias NAME='VALUE'] at [p], terminated. *)
Definition alias_line (p : Z) : P unit :=
  do* b := starts p (str "alias ") in
  if b : bool then
    let name_start := p + 6 in
    do* eq := find_char 61 name_start in
    do* c := uload 1 eq in
    if c =? 61 then
      ustore 1 eq 0 ;;
      let val_start := eq + 1 in
      do* c := uload 1 val_start in
      if c =? 39 then
        let val_start := val_start + 1 in
        do* val_end := find_char 39 val_start in
        do* c := uload 1 val_end in
        if c =? 39 then ustore 1 val_end 0 ;; add_alias name_start val_start else uret tt
      else uret tt
    else uret tt
  else uret tt.

Definition line_round (p : Z) : P (Z + unit) :=
  do* c := uload 1 p in
  if c =? 0 then uret (inr tt)
  else
    do* eol := find_char 10 p in
    do* saved := uload 1 eol in
    ustore 1 eol 0 ;;
    alias_line p ;;
    if saved =? 10 then uret (inl (eol + 1)) else uret (inr tt).

Definition load_zshrc : P unit :=
  do* fd := open (l_zshrc L) 2 in
  if fd <? 0 then uret tt
  else
    let buf := l_buf L in
    do* _ := umemory (memset buf 0 ZSHRC_BUF_SIZE) in
    do* n := read_u fd buf (ZSHRC_BUF_SIZE - 1) in
    do* _ := close fd in
    if n <=? 0 then uret tt
    else uloop fuel line_round buf.

(** ** command.c *)

Definition app_pwd : P unit :=
  do* _ := read_cwd (l_path L) in
  do* t := ustring fuel (l_path L) in
  print (str "%s" ++ [10]) [VStr t].

Definition app_cd (path : Z) : P unit :=
  do* r := change_cwd path in
  if negb (r =? 0) then
    do* t := ustring fuel path in
    print (str "cd: no such file or directory: %s" ++ [10]) [VStr t]
  else
    do* d := data in
    do* _ := read_cwd (current_dir d) in
    uret tt.

Definition app_cat (filename : Z) : P unit :=
  let buf := l_buf L in
  do* fd := open filename 2 in
  if fd <? 0 then
    do* t := ustring fuel filename in
    print (str "cat: %s: No such file or directory" ++ [10]) [VStr t]
  else
    uloop fuel (fun _ =>
      do* bytes_read := read_u fd buf 511 in
      if 0 <? bytes_read then
        ustore 1 (buf + bytes_read) 0 ;;
        do* t := ustring fuel buf in
        print (str "%s") [VStr t] ;;
        uret (inl tt)
      else uret (inr tt)) tt ;;
    do* _ := close fd in
    uret tt.

Definition app_echo (filepath content : Z) : P unit :=
  do* fd := open filepath (Z.lor 2 64) in
  do* n := umemory (strlen fuel content) in
  do* _ := write_u fd content n in
  do* _ := close fd in
  uret tt.

Definition app_exec (path para : Z) : P unit :=
  do* pid := fork in
  if pid =? 0 then
    do* r := exec path para in
    if r =? -1 then print (str "exec failed!" ++ [10]) [] else uret tt
  else
    do* _ := wait pid in
    uret tt.

(** [count] is never changed, so no line is broken within the list. *)
Definition ls_round (dir_fd : Z) (_ : unit) : P (unit + unit) :=
  let width := 20 in
  let name := l_name L in
  let dir := l_dir L in
  do* r := readdir_u dir_fd dir in
  if r =? 0 then
    do* _ := umemory (memset name 32 (width + 1)) in
    ustore 1 (name + width) 0 ;;
    do* n := umemory (strlen fuel dir) in
    (if n <? width then
       do* _ := umemory (strcpy fuel name dir) in
       do* n := umemory (strlen fuel dir) in
       ustore 1 (name + n) 32 ;;
       do* t := ustring fuel name in
       print (str "%s") [VStr t]
     else
       do* t := ustring fuel dir in
       print (str "%s") [VStr t]) ;;
    uret (inl tt)
  else uret (inr tt).

Definition app_ls (path : Z) : P unit :=
  do* dir_fd := opendir_u path in
  if dir_fd =? -1 then
    do* t := ustring fuel path in
    print (str "ls: %s: No such file or directory" ++ [10]) [VStr t]
  else
    uloop fuel (ls_round dir_fd) tt ;;
    print [10] [] ;;
    do* _ := closedir_u dir_fd in
    uret tt.

Definition app_mkdir (path : Z) : P unit := do* _ := mkdir_u path in uret tt.

Definition app_touch (path : Z) : P unit :=
  do* fd := open path 64 in
  do* _ := close fd in
  uret tt.

(** ** execute.c *)

(** The child goes on with the program; it never comes back.  The parent waits when
    [wait_child] is 1; [wait_count++] moves the parameter, not the counter. *)
Definition launch_child (path para : Z) : P unit :=
  do* r := exec path para in
  if r =? -1 then
    print (str "exec failed!" ++ [10]) [] ;;
    do* _ := exit (-1) in
    do* _ := exit 0 in
    uret tt
  else
    do* _ := exit 0 in
    uret tt.

Definition launch_process (path para wait_child : Z) : P Z :=
  do* pid := fork in
  if pid <? 0 then print (str "fork failed!" ++ [10]) [] ;; uret (-1)
  else
    (if pid =? 0 then launch_child path para else uret tt) ;;
    (if wait_child =? 1 then do* _ := wait pid in uret tt else uret tt) ;;
    uret 0.

Definition launch_process_to_hart (path para target_hartid wait_child : Z) : P Z :=
  do* pid := fork_to target_hartid in
  if pid <? 0 then print (str "fork_to failed!" ++ [10]) [] ;; uret (-1)
  else
    (if pid =? 0 then launch_child path para else uret tt) ;;
    (if wait_child =? 1 then do* _ := wait pid in uret tt else uret tt) ;;
    uret 0.

Definition each_para (first : Z) (f : Z -> P unit) : P unit :=
  uloop fuel (fun p =>
    if p =? 0 then uret (inr tt)
    else
      do* x := get_paras p in
      f (para x) ;;
      uret (inl (p_next x))) first.

Definition labelled (f : Z -> P unit) (p : Z) : P unit :=
  do* t := ustring fuel p in
  print (str "%s:" ++ [10]) [VStr t] ;;
  f p.

Definition exec_supported_command_t (cur_command : Z) : P Z :=
  do* c := get_cmd cur_command in
  do* b := is_str (operation c) (str "ls") in
  if b : bool then
    (if para_num c =? 0 then do* d := data in app_ls (current_dir d)
     else if para_num c =? 1 then do* x := get_paras (paras c) in app_ls (para x)
     else each_para (paras c) (labelled app_ls)) ;;
    uret 0
  else
  do* b := is_str (operation c) (str "cd") in
  if b : bool then
    (if para_num c =? 0 then app_cd (l_root L)
     else if para_num c =? 1 then do* x := get_paras (paras c) in app_cd (para x)
     else print (str "cd: too many arguments" ++ [10]) []) ;;
    uret 0
  else
  do* b := is_str (operation c) (str "cat") in
  if b : bool then
    (if para_num c =? 0 then print (str "cat: missing file operand" ++ [10]) []
     else if para_num c =? 1 then do* x := get_paras (paras c) in app_cat (para x)
     else each_para (paras c) (labelled app_cat)) ;;
    uret 0
  else
  do* b := is_str (operation c) (str "echo") in
  if b : bool then
    (if negb (para_num c =? 2) then print (str "echo: invalid input!" ++ [10]) []
     else
       do* x := get_paras (paras c) in
       do* y := get_paras (p_next x) in
       app_echo (para x) (para y)) ;;
    uret 0
  else
  do* b := is_str (operation c) (str "pwd") in
  if b : bool then
    (if para_num c =? 0 then app_pwd else print (str "pwd: too many arguments" ++ [10]) []) ;;
    uret 0
  else
  do* b := is_str (operation c) (str "mkdir") in
  if b : bool then
    (if para_num c =? 0 then print (str "mkdir: missing operand" ++ [10]) []
     else each_para (paras c) app_mkdir) ;;
    uret 0
  else
  do* b := is_str (operation c) (str "touch") in
  if b : bool then
    (if para_num c =? 0 then print (str "touch: missing operand" ++ [10]) []
     else each_para (paras c) app_touch) ;;
    uret 0
  else uret (-1).

(** [run_one_command] and [run_one_command_multicore] differ in [launch]. *)
Definition run_command (launch : Z -> Z -> P Z) (cur_command : Z) : P Z :=
  do* c := get_cmd cur_command in
  do* is_exec := is_str (operation c) (str "exec") in
  if is_exec : bool then
    if para_num c =? 2 then
      do* x := get_paras (paras c) in
      do* y := get_paras (p_next x) in
      launch (para x) (para y)
    else if para_num c =? 1 then
      do* x := get_paras (paras c) in
      launch (para x) (l_empty L)
    else print (str "exec: invalid input!" ++ [10]) [] ;; uret (-1)
  else
    let first := if paras c =? 0 then uret (l_empty L) else do* x := get_paras (paras c) in uret (para x) in
    do* dot := starts (operation c) (str "./") in
    do* slash := starts (operation c) (str "/") in
    if dot || slash then do* first := first in launch (operation c) first
    else
      do* r := exec_supported_command_t cur_command in
      if r =? 0 then uret 0
      else
        do* alias_val := find_alias (operation c) in
        if negb (alias_val =? 0) then do* first := first in launch alias_val first
        else
          do* t := ustring fuel (operation c) in
          print (str "Error: unknown command: %s" ++ [10]) [VStr t] ;;
          uret (-1).

Definition run_one_command (cur_command wait_child : Z) : P Z :=
  run_command (fun path para => launch_process path para wait_child) cur_command.
Definition run_one_command_multicore (cur_command target_hartid wait_child : Z) : P Z :=
  run_command (fun path para => launch_process_to_hart path para target_hartid wait_child) cur_command.

Definition failed (cur_command : Z) : P unit :=
  do* c := get_cmd cur_command in
  do* t := ustring fuel (operation c) in
  print (str "Error: failed to execute command: %s" ++ [10]) [VStr t].

(** The hart of the [mc_cmd_idx]-th command of a multi-core line. *)
Definition next_hart (mc_cmd_idx : Z) : P Z :=
  do* ncpu := get_ncpu in
  uret (Z.rem mc_cmd_idx (if ncpu <=? 0 then 1 else ncpu)).

(** The commands before the last of a pipe; none when one failed. *)
Definition pipe_round (cur : Z) : P (Z + option Z) :=
  do* c := get_cmd cur in
  if negb (bool_decide (op_type c = OP_PIPLINE)) then uret (inr (Some cur))
  else
    do* _ := pipline_write in
    do* r := run_one_command cur 1 in
    if negb (r =? 0) then
      do* _ := pipline_reset in
      failed cur ;;
      uret (inr None)
    else
      do* _ := pipline_read in
      uret (inl (c_next c)).

(** One command, or one pipe, of a line: [inr (Some r)] is [return r], [inr None]
    leaves the loop. *)
Definition exec_round (st : Z * Z * Z) : P ((Z * Z * Z) + (option Z * Z)) :=
  let '(cur, wait_count, mc) := st in
  if cur =? 0 then uret (inr (None, wait_count))
  else
    do* c := get_cmd cur in
    match op_type c with
    | OP_DEAD => uret (inr (None, wait_count))
    | ty =>
        do* is_exit := is_str (operation c) (str "exit") in
        if is_exit : bool then uret (inr (Some 1, wait_count))
        else
          match ty with
          | OP_EXEC =>
              if 0 <? mc then
                do* h := next_hart mc in
                do* r := run_one_command_multicore cur h (-2) in
                if r =? -1 then failed cur ;; uret (inr (Some 0, wait_count))
                else uret (inr (None, wait_count + 1))
              else
                do* _ := run_one_command cur 1 in
                uret (inr (None, wait_count))
          | OP_MULTISTART =>
              do* r := run_one_command cur (-2) in
              if r =? -1 then failed cur ;; uret (inr (Some 0, wait_count))
              else uret (inl (c_next c, wait_count + 1, mc))
          | OP_MULTICORE =>
              do* h := next_hart mc in
              do* r := run_one_command_multicore cur h (-2) in
              if r =? -1 then failed cur ;; uret (inr (Some 0, wait_count))
              else uret (inl (c_next c, wait_count + 1, mc + 1))
          | _ =>
              do* last := uloop fuel pipe_round cur in
              match last with
              | None => uret (inr (Some 0, wait_count))
              | Some last =>
                  do* r := run_one_command last 1 in
                  do* _ := pipline_reset in
                  if negb (r =? 0) then failed last ;; uret (inr (Some 0, wait_count))
                  else do* c := get_cmd last in uret (inl (c_next c, wait_count, mc))
              end
          end
    end.

Definition wait_round (n : Z) : P (Z + unit) :=
  if 0 <? n then do* _ := wait (-1) in uret (inl (n - 1)) else uret (inr tt).

(** [wait_count] and [mc_cmd_idx] count the commands of a line. *)
Definition exec_command (command : Z) : P Z :=
  if command =? 0 then uret 0
  else
    do* r := uloop fuel exec_round (command, 0, 0) in
    match r with
    | (Some v, _) => uret v
    | (None, wait_count) =>
        uloop fuel wait_round (wait_count + 1) ;;
        uret 0
    end.

(** ** zshell.c *)

Definition init_shell : P unit :=
  do* d := naive_malloc in
  upd (set_current_dir d) ;;
  do* _ := read_cwd d in
  load_zshrc.

(** One line: whether to leave, and the list of commands to use again. *)
Definition main_round (fd_history : Z) (st : Z * Z) : P ((Z * Z) + Z) :=
  let '(to_exit, command) := st in
  let cmd := l_cmd L in
  if negb (to_exit =? 0) then uret (inr command)
  else
    do* d := data in
    do* t := ustring fuel (current_dir d) in
    print (str "~%s $ ") [VStr t] ;;
    do* _ := umemory (memset cmd 0 (MAX_CMD_LEN + 5)) in
    do* _ := getsu cmd MAX_CMD_LEN in
    do* n := umemory (strlen fuel cmd) in
    ustore 1 (cmd + n + 1) 0 ;;
    ustore 1 (cmd + n) 10 ;;
    do* n := umemory (strlen fuel cmd) in
    do* _ := write_u fd_history cmd n in
    do* n := umemory (strlen fuel cmd) in
    ustore 1 (cmd + n - 1) 0 ;;
    do* command := build_command cmd command in
    do* to_exit := (if command =? 0 then print (str "Error: failed to build command" ++ [10]) [] ;; uret to_exit
                    else exec_command command) in
    clear_command command ;;
    uret (inl (to_exit, command)).

Definition main : P Z :=
  init_shell ;;
  do* fd_history := open (l_history L) (Z.lor 2 64) in
  (if fd_history <? 0 then
     print (str "Error: failed to open history file" ++ [10]) [] ;;
     do* _ := exit (-1) in uret tt
   else uret tt) ;;
  do* _ := lseek_u fd_history 0 2 in
  do* command := uloop fuel (main_round fd_history) (0, 0) in
  do* _ := close fd_history in
  free_aliases ;;
  free_command command ;;
  do* d := data in
  naive_free (current_dir d) ;;
  do* _ := exit 0 in
  uret 0.

End Shell.
