(* ===== verification/ShellParser.v ===== *)
(** * What the shell's parser builds

    [build_command] cuts the line into words in place and builds a list of
    commands from them.  It is shown to agree with a parser on lists of words, for
    every line, under what it relies on of the kernel: that allocation succeeds and
    returns memory that is not in use. *)

From Stdlib Require Import String Ascii.
From S2P Require Import Prelude Mem StringLib Literals Printf Scanf Fs System Syscall UserLib Shell.
From stdpp Require Import base gmap list fin_maps.
From Stdlib Require Import ZArith Lia Bool.

Set Default Goal Selector "!".
Open Scope Z_scope.
Open Scope user_scope.

(** ** The parser on words *)

Record pcommand : Type := PCommand {
  pc_operation : list Z;
  pc_paras : list (list Z);
  pc_type : operation_t
}.

Definition sep_of (w : list Z) : option separator :=
  if decide (w = sep_text SepMulticore) then Some SepMulticore
  else if decide (w = sep_text SepMultistart) then Some SepMultistart
  else if decide (w = sep_text SepPipline) then Some SepPipline
  else None.

(** The words up to the first separator, and what follows it. *)
Fixpoint split_sep (ws : list (list Z)) : list (list Z) * option (separator * list (list Z)) :=
  match ws with
  | [] => ([], None)
  | w :: ws =>
      match sep_of w with
      | Some x => ([], Some (x, ws))
      | None => let '(ps, r) := split_sep ws in (w :: ps, r)
      end
  end.

(** A line of words; none when nothing follows a separator. *)
Fixpoint parse (n : nat) (ws : list (list Z)) : option (list pcommand) :=
  match n, ws with
  | S n, op :: ws =>
      match split_sep ws with
      | (ps, None) => Some [PCommand op ps OP_EXEC]
      | (ps, Some (x, [])) => None
      | (ps, Some (x, ws)) => cons (PCommand op ps (sep_type x)) <$> parse n ws
      end
  | _, _ => None
  end.

(** ** What the shell relies on *)

(** [taken] are the addresses in use; [room] allocations succeed. *)
Class ShellKernel (K : Type) `{!UserKernel K} : Type := {
  taken : K -> gset Z;
  room : K -> nat;
  malloc_law : forall n m k, (0 < room k)%nat -> exists r k',
    ecall SYS_user_allocate_mem [n; 0; 0; 0; 0; 0; 0] m k = (Some r, m, k') /\
    0 < r < 2 ^ 31 /\ (r ∉ taken k) /\ taken k' = {[r]} ∪ taken k /\ (room k <= S (room k'))%nat;
  free_law : forall a m k, exists r k',
    ecall SYS_user_free_mem [a; 0; 0; 0; 0; 0; 0] m k = (Some r, m, k') /\
    taken k ∖ {[a]} ⊆ taken k' /\ (room k <= room k')%nat;
  print_law : forall a n m k, exists r k',
    ecall SYS_user_print [a; n; 0; 0; 0; 0; 0] m k = (Some r, m, k') /\
    taken k ⊆ taken k' /\ (room k <= room k')%nat
}.

(** ** The words of the line in memory *)

(** The rest of a line that ends at [E], followed by a second 0. *)
Definition rest_at (m : bytes) (E p : Z) (rest : list Z) : Prop :=
  load8 m E = 0 /\ load8 m (E + 1) = 0 /\
  (cstr m p rest /\ p + Z.of_nat (length rest) = E \/ p = E + 1 /\ rest = []).

(** The current word [w] at [tok], and the rest of the line after its 0. *)
Definition cursor (m : bytes) (E tok : Z) (w rest : list Z) : Prop :=
  0 < tok /\ w <> [] /\ cstr m tok w /\ rest_at m E (tok + Z.of_nat (length w) + 1) rest.

Lemma rest_at_cstr m E p rest : rest_at m E p rest -> cstr m p rest /\ (p + Z.of_nat (length rest) <= E + 1).
Proof. intros (? & ? & [[? ?]|[-> ->]]); cbn; split; (done || lia). Qed.

Section Parser.
  Context {K : Type} `{!UserKernel K} `{!ShellKernel K} (L : layout_t) (fuel : nat).

Abbreviation state := (ustate K shell).
Abbreviation with_mem s m := (UState m (ukern s) (udata s)).

Lemma load1 m a : load_le 1 m a = load8 m a.
Proof. unfold load_le. lia. Qed.

Lemma store1 m a v : store_le 1 m a v = store8 m a v.
Proof. done. Qed.

Lemma skip_while_loop (b : bool) l : forall n p (s : state),
  cstr (umem s) p l -> (length l < n)%nat ->
  uloop n (fun p =>
    do* c := uload 1 p in
    if negb (c =? 0) && eqb (bool_decide (c ∈ [32])) b then uret (inl (p + 1))
    else uret (inr p)) p s
  = UDone (p + Z.of_nat (length (take_while (fun c => eqb (is_delim [32] c) b) l))) s.
Proof using.
  induction l as [|c l IH]; intros [|n] p s; cbn [cstr length take_while]; intros Hl Hf; try lia;
    cbn [uloop]; unfold ubind, uload, uret; rewrite load1.
  - rewrite Hl. cbn. f_equal. lia.
  - destruct Hl as (-> & Hc & Hl). rewrite (proj2 (Z.eqb_neq _ _)) by done. cbn [negb andb].
    fold (is_delim [32] c). destruct (eqb _ b); cbn [length].
    + unfold ubind, uload, uret in IH. rewrite IH by (done || lia). f_equal. lia.
    + f_equal. lia.
Qed.

Lemma take_while_ext f g (l : list Z) : (forall c, f c = g c) -> take_while f l = take_while g l.
Proof using. intros E. induction l as [|c l IH]; cbn; [done|]. rewrite E. by destruct (g c); rewrite ?IH. Qed.

Lemma skip_delims l p (s : state) : cstr (umem s) p l -> (length l < fuel)%nat ->
  skip_while fuel [32] true p s = UDone (p + Z.of_nat (length (take_while (is_delim [32]) l))) s.
Proof using.
  intros. unfold skip_while. rewrite (skip_while_loop true l) by done.
  by rewrite (take_while_ext _ (is_delim [32])) by (intros; by destruct (is_delim [32] c)).
Qed.

Lemma skip_word l p (s : state) : cstr (umem s) p l -> (length l < fuel)%nat ->
  skip_while fuel [32] false p s
  = UDone (p + Z.of_nat (length (take_while (fun c => negb (is_delim [32] c)) l))) s.
Proof using.
  intros. unfold skip_while. rewrite (skip_while_loop false l) by done.
  by rewrite (take_while_ext _ (fun c => negb (is_delim [32] c))) by (intros; by destruct (is_delim [32] c)).
Qed.

(** The text of a word ends where a delimiter or the line does. *)
Lemma line_cut l1 l2 m a : cstr m a (l1 ++ l2) -> cstr (store8 m (a + Z.of_nat (length l1)) 0) a l1.
Proof using.
  revert a. induction l1 as [|c l1 IH]; intros a; cbn [app cstr length].
  - intros _. rewrite Z.add_0_r, load8_store8_eq. done.
  - intros (Hc & Hn & Hr). split; [rewrite load8_store8_ne by lia; done|]. split; [done|].
    replace (a + Z.of_nat (S (length l1))) with (a + 1 + Z.of_nat (length l1)) by lia. by apply IH.
Qed.

Lemma token_from_run E p rest (s : state) :
  0 < p -> rest_at (umem s) E p rest -> (length rest < fuel)%nat ->
  match words [32] rest with
  | [] => token_from fuel [32] p s = UDone 0 s
  | w :: ws => exists tok m' rest', token_from fuel [32] p s = UDone tok (with_mem s m') /\
      cursor m' E tok w rest' /\ words [32] rest' = ws /\ p <= tok /\
      (length rest' < length rest)%nat /\
      (forall a, a < tok + Z.of_nat (length w) -> load8 m' a = load8 (umem s) a)
  end.
Proof using.
  intros Hp Hrest Hf. destruct (rest_at_cstr _ _ _ _ Hrest) as [Hl _].
  remember (token_from fuel [32] p s) as T eqn:ET.
  unfold token_from, ubind at 1 in ET. rewrite (skip_delims rest) in ET by done.
  rewrite words_unfold. pose proof (take_drop_while (is_delim [32]) rest) as Hcut.
  set (pre := take_while (is_delim [32]) rest) in *. set (l' := drop_while (is_delim [32]) rest) in *.
  assert (cstr (umem s) (p + Z.of_nat (length pre)) l') as Hl' by (apply cstr_app; by rewrite Hcut).
  set (start := p + Z.of_nat (length pre)) in *. unfold ubind at 1, uload at 1 in ET. rewrite load1 in ET.
  destruct l' as [|c l''] eqn:El'; [cbn in Hl'; by rewrite Hl' in ET|].
  rewrite <- El' in *. assert ((load8 (umem s) start =? 0) = false) as Hne.
  { rewrite El' in Hl'. destruct Hl' as (-> & Hc & _). by apply Z.eqb_neq. }
  rewrite Hne in ET. assert (p + Z.of_nat (length rest) = E) as HE.
  { destruct Hrest as (_ & _ & [[_ ?]|[_ ->]]); [done|]. subst l'. done. }
  assert (length rest = length pre + length l')%nat as Hlen by (rewrite <- Hcut, length_app; done).
  unfold ubind at 1 in ET. rewrite (skip_word l') in ET by (done || lia).
  cbv zeta iota.
  pose proof (take_drop_while (fun c => negb (is_delim [32] c)) l') as Hcut'.
  set (w := take_while (fun c => negb (is_delim [32] c)) l') in *.
  assert (w <> []) as Hw.
  { subst w. rewrite El'. cbn [take_while].
    assert (is_delim [32] c = false) as -> by (by apply (drop_while_head _ rest _ l'')). done. }
  set (r := drop_while (fun c => negb (is_delim [32] c)) l') in *.
  rewrite <- Hcut' in Hl'. assert (length l' = length w + length r)%nat as Hlen' by (rewrite <- Hcut', length_app; done).
  pose proof (cstr_app _ _ _ _ Hl') as Hr. set (stop := start + Z.of_nat (length w)) in *.
  unfold ubind at 1, uload at 1 in ET. rewrite load1 in ET. destruct r as [|d r'] eqn:Er; cbn in Hr.
  - rewrite Hr in ET. cbn [Z.eqb negb] in ET. exists start, (umem s), []. rewrite app_nil_r in Hl'. destruct Hrest as (H0 & H1 & _).
    assert (E = stop) by (cbn in Hlen'; lia).
    split; [rewrite ET; by destruct s|]. split; [|split_and!; [done|lia| |done]].
    + split; [lia|]. split; [done|]. split; [done|]. split; [done|]. split; [done|]. right. split; [lia|done].
    + cbn. destruct w; [done|cbn in *; lia].
  - destruct Hr as (Hd & Hd0 & Hr). rewrite Hd, (proj2 (Z.eqb_neq d 0)) in ET by done. cbn [negb] in ET.
    exists start, (store8 (umem s) stop 0), r'. cbn in Hlen'.
    destruct Hrest as (H0 & H1 & _).
    assert (forall a, a <> stop -> load8 (store8 (umem s) stop 0) a = load8 (umem s) a) as Hsame
      by (intros; by apply load8_store8_ne).
    split; [exact ET|]. split; [|split_and!; [|lia|lia|intros; apply Hsame; lia]].
    + split; [lia|]. split; [done|]. split; [by apply (line_cut w (d :: r'))|].
      split; [rewrite Hsame; [done|lia]|]. split; [rewrite Hsame; [done|lia]|].
      left. split; [|lia]. apply (cstr_ext _ (umem s)); [done|]. intros. apply Hsame. lia.
    + rewrite (words_skip _ (d :: r')). cbn [drop_while].
      assert (is_delim [32] d = true) as ->.
      { apply (drop_while_head (fun c => negb (is_delim [32] c)) l') in Er. by destruct (is_delim [32] d). }
      apply words_skip.
Qed.

(** The line lies between [lo] and [E]. *)
Context (lo E : Z) (Hlo : 0 < lo) (Hfuel : E + 2 - lo < Z.of_nat fuel).

(** [tok] is the first of the words [ws] that are left, or 0. *)
Definition at_words (m : bytes) (tok : Z) (ws : list (list Z)) : Prop :=
  tok = 0 /\ ws = [] \/
  exists w rest, lo <= tok /\ cursor m E tok w rest /\ ws = w :: words [32] rest.

(** Everything below [before tok] belongs to words that are done. *)
Definition before (tok : Z) : Z := if tok =? 0 then E + 2 else tok.

Definition word_at (m : bytes) (b t : Z) (w : list Z) : Prop := cstr m t w /\ t + Z.of_nat (length w) < b.

Lemma word_at_frame m m' b b' t w :
  word_at m b t w -> (forall a, a < b -> load8 m' a = load8 m a) -> b <= b' -> word_at m' b' t w.
Proof using All. intros [Hc Hl] Hm Hb. split; [|lia]. apply (cstr_ext _ m); [done|]. intros. apply Hm. lia. Qed.

Lemma cursor_fits m tok w rest : lo <= tok -> cursor m E tok w rest ->
  (length w < fuel)%nat /\ (length rest < fuel)%nat /\ tok + Z.of_nat (length w) < E + 2.
Proof using All. intros Hl (_ & _ & _ & Hr). apply rest_at_cstr in Hr as [_ Hr]. lia. Qed.

Lemma skip_run tok w rest (s : state) :
  lo <= tok -> cursor (umem s) E tok w rest ->
  exists tok' m', skip_current_token fuel tok [32] s = UDone tok' (with_mem s m') /\
    at_words m' tok' (words [32] rest) /\ word_at m' (before tok') tok w /\ tok < before tok' /\
    (forall a, a <= tok + Z.of_nat (length w) -> load8 m' a = load8 (umem s) a).
Proof using All.
  intros Hl Hc. destruct (cursor_fits _ _ _ _ Hl Hc) as (Hw & Hr & HE).
  destruct Hc as (Hp & Hne & Hcs & Hrest). unfold skip_current_token.
  rewrite (proj2 (Z.eqb_neq tok 0)) by lia. unfold ubind, umemory. rewrite (strlen_run w) by done.
  pose proof (token_from_run E (tok + Z.of_nat (length w) + 1) rest s ltac:(lia) Hrest Hr) as H.
  destruct s as [m k d]. cbn [umem ukern udata] in *.
  destruct (words [32] rest) as [|w' ws].
  - exists 0, m. split; [done|]. split; [by left|]. split; [by split|]. split; [cbn; lia|done].
  - destruct H as (tok' & m' & rest' & -> & Hc' & Hws & Hle & _ & Hm).
    exists tok', m'. split; [done|].
    assert (before tok' = tok') as -> by (unfold before; rewrite (proj2 (Z.eqb_neq tok' 0)) by lia; done).
    split; [right; exists w', rest'; split; [lia|]; by rewrite Hws|].
    split; [|split; [lia|intros; apply Hm; lia]].
    split; [|lia]. apply (cstr_ext _ m); [done|]. intros. apply Hm. lia.
Qed.

Lemma sep_text_ok x : Forall (fun c => c <> 0) (sep_text x).
Proof using. destruct x; vm_compute; repeat constructor; done. Qed.

Lemma which_sep_run tok w (s : state) : cstr (umem s) tok w -> which_sep tok s = UDone (sep_of w) s.
Proof using All.
  intros Hw. unfold which_sep, sep_of.
  do 3 (unfold ubind at 1, is_str at 1; rewrite (streq_cstr _ _ _ w) by (done || apply sep_text_ok);
    case_decide; [by rewrite bool_decide_true|rewrite bool_decide_false by done]).
  done.
Qed.

(** ** Lists of parameters *)

(** The nodes from [p] on hold the words at [ts]. *)
Fixpoint plist (ps : gmap Z paras_t) (p : Z) (ts : list Z) : Prop :=
  match ts with
  | [] => p = 0
  | t :: ts => p <> 0 /\ exists q, ps !! p = Some (ParasT t q) /\ plist ps q ts
  end.

(** The same, with [last] the last of them. *)
Fixpoint plist_to (ps : gmap Z paras_t) (p : Z) (ts : list Z) (last : Z) : Prop :=
  match ts with
  | [] => False
  | [t] => p = last /\ p <> 0 /\ ps !! p = Some (ParasT t 0)
  | t :: ts => p <> 0 /\ exists q, q <> 0 /\ ps !! p = Some (ParasT t q) /\ plist_to ps q ts last
  end.

Lemma plist_to_plist ps ts last : forall p, plist_to ps p ts last -> plist ps p ts.
Proof using All.
  induction ts as [|t [|t' ts] IH]; intros p H; [done|..].
  - destruct H as (_ & ? & ?). split; [done|]. exists 0. done.
  - destruct H as (? & q & _ & ? & Hq). split; [done|]. exists q. split; [done|]. by apply IH.
Qed.

Lemma plist_to_last ps ts last : forall p, plist_to ps p ts last -> exists t, ps !! last = Some (ParasT t 0).
Proof using All.
  induction ts as [|t [|t' ts] IH]; intros p H; [done|..].
  - destruct H as (<- & _ & ?). eauto.
  - destruct H as (_ & q & _ & _ & Hq). eauto.
Qed.

Lemma plist_to_snoc ps last q tok ts : forall p t,
  plist_to ps p ts last -> ps !! last = Some (ParasT t 0) -> ps !! q = None -> q <> 0 ->
  plist_to (<[q := ParasT tok 0]> (<[last := ParasT t q]> ps)) p (ts ++ [tok]) q.
Proof using All.
  induction ts as [|t0 [|t1 ts] IH]; intros p t H Hlast Hq Hq0; [done|..].
  - destruct H as (-> & Hp & Hl). cbn. split; [done|]. exists q. split; [done|]. split.
    + rewrite lookup_insert_ne by congruence. rewrite lookup_insert_eq. congruence.
    + split; [done|]. split; [done|]. by rewrite lookup_insert_eq.
  - destruct H as (Hp & q1 & Hq1 & Hl & Hr).
    specialize (IH q1 t Hr Hlast Hq Hq0). cbn [app]. change (plist_to ?m p (t0 :: ?l) q) with
      (p <> 0 /\ exists q', q' <> 0 /\ m !! p = Some (ParasT t0 q') /\ plist_to m q' l q).
    split; [done|]. exists q1. split; [done|]. split; [|done].
    rewrite !lookup_insert_ne; [done| |congruence]. intros <-. congruence.
Qed.

Lemma plist_length ps ts : forall ts' p, plist ps p ts -> plist ps p ts' -> ts = ts'.
Proof using All.
  induction ts as [|t ts IH]; intros [|t' ts'] p; cbn; try done; [naive_solver..|].
  intros (_ & q & E1 & H1) (_ & q' & E2 & H2). rewrite E1 in E2. injection E2 as <- <-. f_equal. eauto.
Qed.

(** Freeing the first node leaves the others. *)
Lemma plist_delete ps p0 ts0 : plist ps p0 ts0 -> forall ts p,
  plist ps p ts -> (length ts < length ts0)%nat -> plist (delete p0 ps) p ts.
Proof using All.
  intros H0. induction ts as [|t ts IH]; intros p; [done|]. cbn [plist length].
  intros (Hp & q & Hl & Hq) Hlen. split; [done|]. exists q. split; [|apply IH; [done|lia]].
  rewrite lookup_delete_ne; [done|]. intros ->.
  assert (plist ps p (t :: ts)) as H1 by (cbn; eauto). pose proof (plist_length _ _ _ _ H0 H1) as ->.
  cbn in Hlen. lia.
Qed.

Lemma plist_mono ps ps' ts : forall p, ps ⊆ ps' -> plist ps p ts -> plist ps' p ts.
Proof using All.
  induction ts as [|t ts IH]; intros p Hs; [done|]. intros (Hp & q & Hl & Hq).
  split; [done|]. exists q. split; [by eapply lookup_weaken|]. by apply IH.
Qed.

(** ** Allocation *)

(** The structures of the shell are in use, and at different addresses. *)
Definition owned (s : state) : Prop := forall a,
  (is_Some (sh_paras (udata s) !! a) \/ is_Some (sh_cmds (udata s) !! a) -> a ∈ taken (ukern s)) /\
  (is_Some (sh_paras (udata s) !! a) -> sh_cmds (udata s) !! a = None).

Abbreviation with_paras d ps := (set_sh_paras ps d).

Lemma malloc_run n (s : state) : owned s -> (0 < room (ukern s))%nat ->
  exists r k', better_malloc n s = UDone r (UState (umem s) k' (udata s)) /\ 0 < r /\
    sh_paras (udata s) !! r = None /\ sh_cmds (udata s) !! r = None /\
    taken k' = {[r]} ∪ taken (ukern s) /\ (room (ukern s) <= S (room k'))%nat.
Proof using All.
  intros Ho Hr. destruct (malloc_law (u64 n) (umem s) (ukern s) Hr) as (r & k' & He & Hpos & Hn & Ht & Hro).
  exists r, k'. unfold better_malloc, do_user_call. rewrite He.
  rewrite s32_small, u64_small by lia. split_and!; try done; [lia|..]; apply eq_None_not_Some; intros Hs;
    apply Hn, (Ho r); auto.
Qed.

Lemma new_paras_run (s : state) : owned s -> (0 < room (ukern s))%nat ->
  exists r k', new_paras s
    = UDone r (UState (umem s) k' (with_paras (udata s) (<[r := ParasT 0 0]> (sh_paras (udata s))))) /\
    0 < r /\ sh_paras (udata s) !! r = None /\ sh_cmds (udata s) !! r = None /\
    taken k' = {[r]} ∪ taken (ukern s) /\ (room (ukern s) <= S (room k'))%nat.
Proof using All.
  intros Ho Hr. destruct (malloc_run SIZEOF_PARAS s Ho Hr) as (r & k' & Hm & Hpos & Hrest).
  exists r, k'. unfold new_paras, ubind at 1. rewrite Hm, (proj2 (Z.eqb_neq r 0)) by lia. by split.
Qed.

Lemma new_command_run (s : state) : owned s -> (0 < room (ukern s))%nat ->
  exists r k', new_command s
    = UDone r (UState (umem s) k'
        (set_sh_cmds (<[r := CommandT 0 0 0 OP_DEAD 0]> (sh_cmds (udata s))) (udata s))) /\
    0 < r /\ sh_paras (udata s) !! r = None /\ sh_cmds (udata s) !! r = None /\
    taken k' = {[r]} ∪ taken (ukern s) /\ (room (ukern s) <= S (room k'))%nat.
Proof using All.
  intros Ho Hr. destruct (malloc_run SIZEOF_COMMAND s Ho Hr) as (r & k' & Hm & Hpos & Hrest).
  exists r, k'. unfold new_command, ubind at 1. rewrite Hm, (proj2 (Z.eqb_neq r 0)) by lia. by split.
Qed.

Lemma drop_paras_run p (s : state) : owned s -> sh_cmds (udata s) !! p = None ->
  exists k', let s' := UState (umem s) k' (with_paras (udata s) (delete p (sh_paras (udata s)))) in
    drop_paras p s = UDone tt s' /\ owned s' /\ (room (ukern s) <= room k')%nat.
Proof using All.
  intros Ho Hp. destruct (free_law p (umem s) (ukern s)) as (r & k' & He & Ht & Hr).
  exists k'. unfold drop_paras, better_free, void_call, ubind, do_user_call. rewrite He.
  split; [done|]. split; [|done]. intros a. cbn. destruct (Ho a) as [H1 H2].
  destruct (decide (a = p)) as [->|Hne].
  - rewrite lookup_delete_eq, Hp. split; [intros [[? ?]|[? ?]]|intros [? ?]]; done.
  - rewrite lookup_delete_ne by done. split; [|done]. intros H. apply Ht. set_solver.
Qed.

(** Adding a structure at a new address. *)
Lemma owned_new_paras r v k' (s : state) : owned s -> sh_cmds (udata s) !! r = None ->
  taken k' = {[r]} ∪ taken (ukern s) ->
  owned (UState (umem s) k' (with_paras (udata s) (<[r := v]> (sh_paras (udata s))))).
Proof using All.
  intros Ho Hc Ht a. destruct (Ho a) as [H1 H2]. cbn. rewrite Ht. destruct (decide (a = r)) as [->|Hne].
  - split; [set_solver|done].
  - rewrite lookup_insert_ne by done. split; [|done]. intros H. set_solver.
Qed.

(** Changing fields of structures keeps them where they are. *)
Lemma owned_dom (s s' : state) : owned s -> taken (ukern s) ⊆ taken (ukern s') ->
  (forall a, is_Some (sh_paras (udata s') !! a) -> is_Some (sh_paras (udata s) !! a)) ->
  (forall a, is_Some (sh_cmds (udata s') !! a) -> is_Some (sh_cmds (udata s) !! a)) -> owned s'.
Proof using All.
  intros Ho Ht Hp Hc a. destruct (Ho a) as [H1 H2]. split; [naive_solver|]. intros H.
  apply eq_None_not_Some. intros H3%Hc. apply Hp, H2 in H. rewrite H in H3. by destruct H3.
Qed.

Lemma is_Some_insert {V} (m : gmap Z V) i v a : is_Some (m !! i) -> is_Some (<[i := v]> m !! a) -> is_Some (m !! a).
Proof using. intros Hi. destruct (decide (a = i)) as [->|]; [done|]. by rewrite lookup_insert_ne by done. Qed.

(** ** The parameters of a command *)

Lemma upd_cmd_run cur c f (s : state) : sh_cmds (udata s) !! cur = Some c ->
  upd_cmd cur f s = UDone tt (UState (umem s) (ukern s) (set_sh_cmds (<[cur := f c]> (sh_cmds (udata s))) (udata s))).
Proof using. intros H. unfold upd_cmd, get_cmd, ubind, data. by rewrite H. Qed.

Lemma upd_paras_run p x f (s : state) : sh_paras (udata s) !! p = Some x ->
  upd_paras p f s = UDone tt (UState (umem s) (ukern s) (with_paras (udata s) (<[p := f x]> (sh_paras (udata s))))).
Proof using. intros H. unfold upd_paras, get_paras, ubind, data. by rewrite H. Qed.

(** The separator that the next word is, if there is a next word and it is one. *)
Definition next_sep (ws : list (list Z)) : option separator :=
  match ws with [] => None | w :: _ => sep_of w end.

(** The token after the current one, and what it is. *)
Lemma skip_sep_run tok w rest (s : state) : lo <= tok -> cursor (umem s) E tok w rest ->
  exists tok' m', (do* token := skip_current_token fuel tok [32] in
      do* x := (if token =? 0 then uret None else which_sep token) in
      uret (token, x)) s = UDone (tok', next_sep (words [32] rest)) (with_mem s m') /\
    at_words m' tok' (words [32] rest) /\ word_at m' (before tok') tok w /\ tok < before tok' /\
    (forall a, a <= tok + Z.of_nat (length w) -> load8 m' a = load8 (umem s) a).
Proof using All.
  intros Hl Hc. destruct (skip_run tok w rest s Hl Hc) as (tok' & m' & Hrun & Hat & Hrest).
  exists tok', m'. split; [|done]. unfold ubind. rewrite Hrun.
  destruct Hat as [[-> ->]|(w' & rest' & Hl' & Hc' & ->)]; [done|].
  destruct Hc' as (Hpos & _ & Hcs & _). rewrite (proj2 (Z.eqb_neq tok' 0)) by lia.
  by rewrite (which_sep_run _ w').
Qed.

Lemma para_round_run command cur head last tok w rest c t (s : state) :
  lo <= tok -> cursor (umem s) E tok w rest -> owned s -> (0 < room (ukern s))%nat ->
  sh_cmds (udata s) !! cur = Some c -> sh_paras (udata s) !! last = Some (ParasT t 0) ->
  exists q tok' s', para_round fuel command cur head (tok, last, None) s
      = UDone (inl (tok', q, next_sep (words [32] rest))) s' /\
    sh_paras (udata s') = <[q := ParasT tok 0]> (<[last := ParasT t q]> (sh_paras (udata s))) /\
    sh_cmds (udata s') = <[cur := set_para_num (s32 (para_num c + 1)) c]> (sh_cmds (udata s)) /\
    sh_paras (udata s) !! q = None /\ q <> 0 /\ sh_cmds (udata s) !! q = None /\
    owned s' /\ (room (ukern s) <= S (room (ukern s')))%nat /\
    at_words (umem s') tok' (words [32] rest) /\ word_at (umem s') (before tok') tok w /\ tok < before tok' /\
    (forall a, a <= tok + Z.of_nat (length w) -> load8 (umem s') a = load8 (umem s) a).
Proof using All.
  intros Hl Hc Ho Hr Hcur Hlast. pose proof Hc as (Hpos & _).
  unfold para_round. rewrite (proj2 (Z.eqb_neq tok 0)) by lia.
  unfold ubind at 1. rewrite (upd_cmd_run _ c) by done. set (s1 := UState _ _ _).
  assert (owned s1) as Ho1.
  { apply (owned_dom s); [done|done|done|]. intros a. apply is_Some_insert. by rewrite Hcur. }
  destruct (new_paras_run s1 Ho1 Hr) as (q & k' & Hrun & Hq & Hpq & Hcq & Ht & Hro).
  unfold ubind at 1. rewrite Hrun. cbn [udata umem ukern] in *.
  assert (q <> last) as Hne by (intros ->; cbn in Hpq; congruence).
  assert (q <> cur) as Hne' by (intros ->; cbn in Hcq; by rewrite lookup_insert_eq in Hcq).
  unfold ubind at 1. rewrite (upd_paras_run _ (ParasT t 0)) by (cbn; by rewrite lookup_insert_ne).
  rewrite (proj2 (Z.eqb_neq q 0)) by lia. unfold ubind at 1. cbn [udata umem ukern].
  rewrite (upd_paras_run q (ParasT 0 0)) by (cbn; by rewrite lookup_insert_ne, lookup_insert_eq).
  set (s2 := UState _ _ _).
  destruct (skip_sep_run tok w rest s2 Hl Hc) as (tok' & m' & Hskip & Hat & Hw & Hlt & Hm).
  assert (sh_paras (udata s2) = <[q := ParasT tok 0]> (<[last := ParasT t q]> (sh_paras (udata s)))) as Hps.
  { cbn. rewrite (insert_insert_ne _ last q) by done. by rewrite insert_insert_eq. }
  exists q, tok', (with_mem s2 m'). split; [|split_and!; try done].
  - unfold ubind in Hskip |- *. destruct (skip_current_token fuel tok [32] s2) as [tk s3| | |]; try done.
    destruct ((if tk =? 0 then uret None else which_sep tk) s3) as [x s4| | |]; try done. by injection Hskip as -> -> ->.
  - lia.
  - cbn in Hcq. by rewrite lookup_insert_ne in Hcq by done.
  - apply (owned_dom (UState (umem s1) k' (with_paras (udata s1) (<[q := ParasT 0 0]> (sh_paras (udata s1))))));
      [by apply owned_new_paras|done| |done].
    intros a. cbn [udata]. rewrite Hps. cbn. intros H.
    destruct (decide (a = q)) as [->|]; [by rewrite lookup_insert_eq|]. rewrite lookup_insert_ne in H |- * by done.
    eapply is_Some_insert; [|exact H]. by rewrite Hlast.
Qed.

Lemma sep_of_text w x : sep_of w = Some x -> w = sep_text x.
Proof using. unfold sep_of. repeat case_decide; intros [= <-]; done. Qed.

Lemma before_pos tok : 0 < tok -> before tok = tok.
Proof using All. intros. unfold before. by rewrite (proj2 (Z.eqb_neq tok 0)) by lia. Qed.

(** What is left of the line after the parameters. *)
Definition after_paras (m : bytes) (tok : Z) (r : option (separator * list (list Z))) : Prop :=
  match r with
  | None => tok = 0
  | Some (x, ws) => exists rest, lo <= tok /\ cursor m E tok (sep_text x) rest /\ ws = words [32] rest
  end.

Record paras_read (s s' : state) (cur head : Z) (c : command_t) (toks : list Z) (last tok tok' : Z)
    (ps : list (list Z)) (ts : list Z) : Prop := {
  pr_list : exists last', plist_to (sh_paras (udata s')) head (toks ++ ts) last';
  pr_words : Forall2 (word_at (umem s') (before tok')) ts ps;
  pr_cmds : sh_cmds (udata s') =
    <[cur := set_para_num (para_num c + Z.of_nat (length ps)) c]> (sh_cmds (udata s));
  pr_mem : forall a, a < before tok -> load8 (umem s') a = load8 (umem s) a;
  pr_before : before tok <= before tok';
  pr_owned : owned s';
  pr_room : (room (ukern s) <= room (ukern s') + length ps)%nat;
  pr_keep : forall p y, p <> last -> sh_paras (udata s) !! p = Some y -> sh_paras (udata s') !! p = Some y
}.

Lemma paras_read_nil s cur head c toks last tok : owned s ->
  plist_to (sh_paras (udata s)) head toks last -> sh_cmds (udata s) !! cur = Some c ->
  paras_read s s cur head c toks last tok tok [] [].
Proof using All.
  intros Ho Hpl Hcur. split; try done.
  - exists last. by rewrite app_nil_r.
  - cbn [length]. rewrite Z.add_0_r. symmetry. apply insert_id. rewrite Hcur. by destruct c.
  - cbn. lia.
Qed.

Lemma para_loop command cur head ws : forall n s tok last toks c ps r,
  at_words (umem s) tok ws -> split_sep ws = (ps, r) -> owned s ->
  plist_to (sh_paras (udata s)) head toks last -> sh_cmds (udata s) !! cur = Some c ->
  (length ps < n)%nat -> (length ps <= room (ukern s))%nat ->
  0 <= para_num c -> para_num c + Z.of_nat (length ps) < 2 ^ 31 ->
  exists tok' s' ts,
    uloop n (para_round fuel command cur head) (tok, last, next_sep ws) s = UDone (Some (tok', fst <$> r)) s' /\
    paras_read s s' cur head c toks last tok tok' ps ts /\ after_paras (umem s') tok' r.
Proof using All.
  induction ws as [|w ws IH]; intros [|n] s tok last toks c ps r Hat Hsp Ho Hpl Hcur Hn Hroom Hnum Hmax; [lia| |lia|].
  - destruct Hat as [[-> _]|(? & ? & _ & _ & ?)]; [|done]. injection Hsp as <- <-.
    exists 0, s, []. split; [done|]. split; [|done].
    by apply paras_read_nil.
  - cbn [split_sep next_sep] in *. destruct (sep_of w) as [x|] eqn:Ex.
    + injection Hsp as <- <-. apply sep_of_text in Ex. subst w.
      destruct Hat as [[_ ?]|(w & rest & Hl & Hc & [= <- ->])]; [done|].
      exists tok, s, []. split; [done|]. split; [|by exists rest].
      by apply paras_read_nil.
    + destruct (split_sep ws) as [ps' r'] eqn:Esp. injection Hsp as <- <-. cbn [length] in *.
      destruct Hat as [[_ ?]|(w' & rest & Hl & Hc & [= <- ->])]; [done|].
      pose proof (plist_to_last _ _ _ _ Hpl) as [t Hlast].
      destruct (para_round_run command cur head last tok w rest c t s) as
        (q & tok1 & s1 & Hrun & Hps & Hcm & Hq & Hq0 & Hqc & Ho1 & Hro & Hat1 & Hw1 & Hlt & Hm1); [done|done|done|lia|done|done|].
      cbn [uloop]. unfold ubind. rewrite Hrun. fold (@ubind K shell).
      destruct (IH n s1 tok1 q (toks ++ [tok]) (set_para_num (s32 (para_num c + 1)) c) ps' r')
        as (tok' & s' & ts & Hloop & Hpr & Haft); try done.
      { rewrite Hps. by apply plist_to_snoc. }
      { rewrite Hcm. by rewrite lookup_insert_eq. }
      { lia. } { lia. } { cbn. rewrite s32_small by lia. lia. } { cbn. rewrite s32_small by lia. lia. }
      exists tok', s', (tok :: ts). split; [exact Hloop|]. split; [|done].
      destruct Hpr as [[last' Hl1] Hw2 Hc2 Hm2 Hb2 Ho2 Hr2 Hk2].
      destruct Hc as (Hpos & _). pose proof (before_pos tok Hpos) as Hb.
      split.
      * exists last'. by rewrite <- app_assoc in Hl1.
      * constructor; [|done]. eapply word_at_frame; [exact Hw1|done|lia].
      * rewrite Hc2, Hcm, insert_insert_eq. unfold set_para_num. cbn [operation paras para_num op_type c_next length].
        rewrite s32_small by lia.
        by replace (para_num c + 1 + Z.of_nat (length ps')) with (para_num c + Z.of_nat (S (length ps'))) by lia.
      * intros a Ha. rewrite Hm2 by lia. apply Hm1. lia.
      * lia.
      * done.
      * cbn [length]. lia.
      * intros p y Hp Hy. apply Hk2; [congruence|]. rewrite Hps.
        rewrite !lookup_insert_ne by congruence. done.
Qed.

(** The command with its parameters, before its kind is set. *)
Record command_read (s s' : state) (cur : Z) (c : command_t) (tok tok' : Z)
    (ps : list (list Z)) (first : Z) (ts : list Z) : Prop := {
  cr_list : plist (sh_paras (udata s')) first ts;
  cr_words : Forall2 (word_at (umem s') (before tok')) ts ps;
  cr_cmds : sh_cmds (udata s') =
    <[cur := CommandT (operation c) first (Z.of_nat (length ps)) (op_type c) (c_next c)]> (sh_cmds (udata s));
  cr_mem : forall a, a < before tok -> load8 (umem s') a = load8 (umem s) a;
  cr_before : before tok <= before tok';
  cr_owned : owned s';
  cr_room : (room (ukern s) <= room (ukern s') + S (length ps))%nat;
  cr_keep : sh_paras (udata s) ⊆ sh_paras (udata s')
}.

(** What follows the parameters. *)
Definition finish (command cur tok : Z) (r : option (separator * list (list Z))) : U K shell (option Z) :=
  match r with
  | None => upd_cmd cur (set_op_type OP_EXEC) ;; uret None
  | Some (x, _) => after_sep L fuel command cur tok x
  end.

Lemma command_read_nil s cur c tok : owned s -> sh_cmds (udata s) !! cur = Some c -> paras c = 0 -> para_num c = 0 ->
  command_read s s cur c tok tok [] 0 [].
Proof using All.
  intros Ho Hcur Hp Hn. split; try done.
  - symmetry. apply insert_id. rewrite Hcur. destruct c; cbn in *. by subst.
  - cbn. lia.
Qed.

Lemma read_paras_run command cur tok w ws c ps r (s : state) :
  at_words (umem s) tok (w :: ws) -> sep_of w = None -> split_sep (w :: ws) = (ps, r) -> owned s ->
  sh_cmds (udata s) !! cur = Some c -> para_num c = 0 ->
  (length ps < fuel)%nat -> (length ps < room (ukern s))%nat -> Z.of_nat (length ps) < 2 ^ 31 ->
  exists tok' s' first ts, read_paras L fuel command cur tok s = finish command cur tok' r s' /\
    command_read s s' cur c tok tok' ps first ts /\ after_paras (umem s') tok' r.
Proof using All.
  intros Hat Hw Hsp Ho Hcur Hnum Hf Hroom Hmax. unfold read_paras.
  destruct (new_paras_run s Ho ltac:(lia)) as (h & k1 & Hnew & Hh & Hph & Hch & Ht1 & Hr1).
  unfold ubind at 1. rewrite Hnew, (proj2 (Z.eqb_neq h 0)) by lia. set (s1 := UState _ _ _).
  assert (owned s1) as Ho1 by (by apply owned_new_paras).
  destruct (para_loop command cur h (w :: ws) fuel s1 tok h [0] c ps r) as (tok' & s2 & ts & Hloop & Hpr & Haft); try done.
  { cbn. split; [done|]. split; [lia|]. by rewrite lookup_insert_eq. }
  { cbn. lia. } { lia. } { lia. }
  cbn [next_sep] in Hloop. rewrite Hw in Hloop. destruct Hpr as [[last Hl] Hws Hc Hm Hb Ho2 Hro Hk].
  apply plist_to_plist in Hl. cbn [app plist] in Hl. destruct Hl as (_ & first & Hhead & Hlist).
  unfold ubind at 1. rewrite Hloop. unfold ubind at 1, get_paras at 1, data, ubind at 1. rewrite Hhead.
  cbn [uret p_next]. set (c1 := set_para_num (para_num c + Z.of_nat (length ps)) c) in *.
  unfold ubind at 1. rewrite (upd_cmd_run _ c1) by (rewrite Hc, lookup_insert_eq; done).
  set (s3 := UState _ _ _). assert (owned s3) as Ho3.
  { apply (owned_dom s2); [done|done|done|]. intros a. apply is_Some_insert. rewrite Hc. by rewrite lookup_insert_eq. }
  assert (sh_cmds (udata s3) !! h = None) as Hh3.
  { apply (Ho3 h). cbn. by rewrite Hhead. }
  destruct (drop_paras_run h s3 Ho3 Hh3) as (k4 & Hdrop & Ho4 & Hr4).
  unfold ubind at 1. rewrite Hdrop. set (s4 := UState (umem s3) k4 _) in *.
  exists tok', s4, first, ts. split; [by destruct r as [[? ?]|]|]. split; [|done].
  split; try done.
  - cbn. apply (plist_delete _ h (0 :: ts)); [|done|cbn; lia]. cbn. split; [lia|]. by exists first.
  - cbn. rewrite Hc, insert_insert_eq. subst c1. unfold set_paras, set_para_num. by rewrite Hnum.
  - cbn in *. lia.
  - cbn. apply map_subseteq_spec. intros p y Hy. rewrite lookup_delete_ne by congruence.
    apply Hk; [congruence|]. cbn. by rewrite lookup_insert_ne by congruence.
Qed.

(** The three ways of [build_command] after the name of a command. *)
Lemma after_name_run command cur tok ws c ps r (s : state) :
  at_words (umem s) tok ws -> split_sep ws = (ps, r) -> owned s ->
  sh_cmds (udata s) !! cur = Some c -> paras c = 0 -> para_num c = 0 ->
  (length ps < fuel)%nat -> (length ps < room (ukern s))%nat -> Z.of_nat (length ps) < 2 ^ 31 ->
  exists tok' s' first ts,
    (if tok =? 0 then upd_cmd cur (set_op_type OP_EXEC) ;; uret None
     else
       do* x := which_sep tok in
       match x with
       | Some x => after_sep L fuel command cur tok x
       | None => read_paras L fuel command cur tok
       end) s = finish command cur tok' r s' /\
    command_read s s' cur c tok tok' ps first ts /\ after_paras (umem s') tok' r.
Proof using All.
  intros Hat Hsp Ho Hcur Hp Hn Hf Hroom Hmax.
  destruct ws as [|w ws].
  - destruct Hat as [[-> _]|(? & ? & _ & _ & ?)]; [|done]. injection Hsp as <- <-.
    exists 0, s, 0, []. split; [done|]. split; [|done]. by apply command_read_nil.
  - pose proof Hat as [[_ ?]|(w' & rest & Hl & Hc & [= <- ->])]; [done|].
    pose proof Hc as (Hpos & _ & Hcs & _). rewrite (proj2 (Z.eqb_neq tok 0)) by lia.
    unfold ubind at 1. rewrite (which_sep_run _ w) by done.
    destruct (sep_of w) as [x|] eqn:Ex; [|by apply (read_paras_run command cur tok w (words [32] rest))].
    cbn [split_sep] in Hsp. rewrite Ex in Hsp. injection Hsp as <- <-. apply sep_of_text in Ex. subst w.
    exists tok, s, 0, []. split; [done|]. split; [by apply command_read_nil|]. by exists rest.
Qed.

(** ** Errors *)

Lemma run_format_plain out n fmt : Forall (fun c => c <> 37) fmt -> forall longarg st,
  exists st', run_format out n fmt false longarg st [] = Some st'.
Proof using.
  induction 1 as [|c fmt Hc _ IH]; intros longarg st; cbn [run_format]; [eauto|].
  unfold format_step. rewrite (proj2 (Z.eqb_neq c 37)) by done. cbn. apply IH.
Qed.

Lemma print_run fmt (s : state) : Forall (fun c => c <> 37) fmt ->
  exists m' k', print L fmt [] s = UDone tt (UState m' k' (udata s)) /\
    taken (ukern s) ⊆ taken k' /\ (room (ukern s) <= room k')%nat.
Proof using All.
  intros Hf. unfold print, printu, format_out, vsnprintf.
  destruct (run_format_plain (l_out L) 256 fmt Hf false (0, umem s)) as ([pos m1] & Hrun).
  unfold ubind at 1, ubind at 1. rewrite Hrun. cbn [mbind option_bind].
  set (m' := if pos <? 256 then _ else _). set (n := if u64 (s32 pos) <? 256 then _ else _).
  destruct (print_law (l_out L) n m' (ukern s)) as (r & k' & He & Ht & Hr).
  exists m', k'. split; [|done]. unfold int_call, ubind, do_user_call. cbn [umem ukern udata]. by rewrite He.
Qed.

Lemma sep_error_plain x :
  Forall (fun c => c <> 37) (str "Error: " ++ sep_text x ++ str " should be followed by a command" ++ [10]).
Proof using. destruct x; vm_compute; repeat constructor; done. Qed.

Lemma free_nodes_loop ts : forall n p (s : state), plist (sh_paras (udata s)) p ts -> owned s -> (length ts < n)%nat ->
  exists s', uloop n (fun p =>
      if p =? 0 then uret (inr tt)
      else
        do* x := get_paras p in
        drop_paras p ;;
        uret (inl (p_next x))) p s = UDone tt s' /\
    sh_cmds (udata s') = sh_cmds (udata s) /\ umem s' = umem s /\ owned s' /\ (room (ukern s) <= room (ukern s'))%nat.
Proof using All.
  induction ts as [|t ts IH]; intros [|n] p s Hp Ho Hn; cbn [length] in *; try lia; cbn [uloop].
  - cbn in Hp. subst p. exists s. split_and!; (done || lia).
  - destruct Hp as (Hp0 & q & Hl & Hq). unfold ubind at 1. rewrite (proj2 (Z.eqb_neq p 0)) by done.
    unfold ubind at 1, get_paras at 1, data, ubind at 1. rewrite Hl.
    destruct (drop_paras_run p s Ho) as (k' & Hd & Ho' & Hr); [apply (Ho p); by rewrite Hl|].
    cbn [uret]. unfold ubind at 1. rewrite Hd. set (s1 := UState _ _ _) in *.
    destruct (IH n q s1) as (s' & Hrun & Hc & Hm & Ho2 & Hr2); [|done|lia|].
    { cbn. apply (plist_delete _ p (t :: ts)); [cbn; eauto|done|cbn; lia]. }
    exists s'. split; [exact Hrun|]. split_and!; try done. cbn in *. lia.
Qed.

Lemma free_paras_run command c ts (s : state) :
  command <> 0 -> sh_cmds (udata s) !! command = Some c -> plist (sh_paras (udata s)) (paras c) ts -> owned s ->
  (length ts < fuel)%nat ->
  exists s', free_paras fuel command s = UDone tt s' /\ umem s' = umem s /\ owned s' /\
    (room (ukern s) <= room (ukern s'))%nat /\
    sh_cmds (udata s') = <[command := CommandT (operation c) 0 0 OP_DEAD (c_next c)]> (sh_cmds (udata s)).
Proof using All.
  intros H0 Hc Hp Ho Hf. unfold free_paras. rewrite (proj2 (Z.eqb_neq command 0)) by done.
  unfold ubind at 1, get_cmd at 1, data, ubind at 1. rewrite Hc. cbn [uret].
  destruct (free_nodes_loop ts fuel (paras c) s Hp Ho Hf) as (s1 & Hrun & Hc1 & Hm1 & Ho1 & Hr1).
  unfold ubind at 1. rewrite Hrun.
  unfold ubind at 1. rewrite (upd_cmd_run _ c) by (by rewrite Hc1).
  unfold ubind at 1. erewrite upd_cmd_run by (cbn; by rewrite lookup_insert_eq).
  erewrite upd_cmd_run by (cbn; by rewrite lookup_insert_eq).
  eexists. split; [done|]. split; [done|]. split.
  - apply (owned_dom s1); [done|done|done|]. intros a. cbn. rewrite !insert_insert_eq.
    apply is_Some_insert. by rewrite Hc1, Hc.
  - split; [done|]. cbn. rewrite !insert_insert_eq, Hc1. done.
Qed.

(** The list of parameters of the first command, which an error frees. *)
Definition first_ok (s : state) (command : Z) : Prop :=
  command <> 0 /\ exists c ts, sh_cmds (udata s) !! command = Some c /\
    plist (sh_paras (udata s)) (paras c) ts /\ (length ts < fuel)%nat.

Definition dead (s : state) (command : Z) : Prop :=
  exists c, sh_cmds (udata s) !! command = Some c /\ op_type c = OP_DEAD.

Lemma first_ok_upd s s' command cur c c' : first_ok s command ->
  sh_cmds (udata s) !! cur = Some c -> paras c' = paras c ->
  sh_cmds (udata s') = <[cur := c']> (sh_cmds (udata s)) -> sh_paras (udata s) ⊆ sh_paras (udata s') ->
  first_ok s' command.
Proof using All.
  intros (H0 & c0 & ts & Hc0 & Hp & Hl) Hc Hpc Hcm Hps. split; [done|].
  destruct (decide (cur = command)) as [->|Hne].
  - exists c', ts. rewrite Hcm, lookup_insert_eq, Hpc. rewrite Hc in Hc0. injection Hc0 as ->.
    split_and!; [done|by eapply plist_mono|done].
  - exists c0, ts. rewrite Hcm, lookup_insert_ne by done. split_and!; [done|by eapply plist_mono|done].
Qed.

Lemma after_sep_run command cur tok x rest c (s : state) :
  lo <= tok -> cursor (umem s) E tok (sep_text x) rest -> owned s -> first_ok s command ->
  sh_cmds (udata s) !! cur = Some c ->
  match words [32] rest with
  | [] => exists s', after_sep L fuel command cur tok x s = UDone None s' /\ owned s' /\ dead s' command
  | w :: ws => exists tok' rest' m', after_sep L fuel command cur tok x s
        = UDone (Some tok') (UState m' (ukern s)
            (set_sh_cmds (<[cur := set_op_type (sep_type x) c]> (sh_cmds (udata s))) (udata s))) /\
      lo <= tok' /\ cursor m' E tok' w rest' /\ ws = words [32] rest' /\ tok < tok' /\
      (forall a, a < tok -> load8 m' a = load8 (umem s) a)
  end.
Proof using All.
  intros Hl Hc Ho Hfirst Hcur.
  remember (after_sep L fuel command cur tok x s) as T eqn:ET. unfold after_sep, ubind at 1 in ET.
  rewrite (upd_cmd_run _ c) in ET by done. set (s1 := UState _ _ _) in ET.
  destruct (skip_run tok (sep_text x) rest s1 Hl Hc) as (tok' & m' & Hskip & Hat & Hw & Hlt & Hm).
  unfold ubind at 1 in ET. rewrite Hskip in ET. destruct (words [32] rest) as [|w ws].
  - destruct Hat as [[-> _]|(? & ? & _ & _ & ?)]; [|done]. cbn [Z.eqb] in ET.
    destruct (print_run _ (with_mem s1 m') (sep_error_plain x)) as (m2 & k2 & Hp & Ht & _).
    unfold ubind at 1 in ET. rewrite Hp in ET. set (s2 := UState m2 k2 _) in ET.
    assert (owned s2) as Ho2.
    { apply (owned_dom s); [done|done|done|]. intros a. apply is_Some_insert. by rewrite Hcur. }
    assert (first_ok s2 command) as (H0 & c0 & ts & Hc0 & Hpl & Hlen).
    { by apply (first_ok_upd s s2 command cur c (set_op_type (sep_type x) c)). }
    destruct (free_paras_run command c0 ts s2 H0 Hc0 Hpl Ho2 Hlen) as (s3 & Hf & _ & Ho3 & _ & Hc3).
    unfold ubind at 1 in ET. rewrite Hf in ET. exists s3. split; [done|]. split; [done|].
    eexists. rewrite Hc3, lookup_insert_eq. by split.
  - destruct Hat as [[_ ?]|(w' & rest' & Hl' & Hc' & [= <- ->])]; [done|]. pose proof Hc' as (Hpos & _).
    rewrite (proj2 (Z.eqb_neq tok' 0)) in ET by lia. rewrite before_pos in Hlt by done.
    exists tok', rest', m'. split; [done|]. split_and!; try done. intros a Ha. apply Hm. lia.
Qed.

(** ** Commands *)

Record command_is (m : bytes) (ps : gmap Z paras_t) (b : Z) (c : command_t) (pc : pcommand) : Prop := {
  ci_operation : word_at m b (operation c) (pc_operation pc);
  ci_paras : exists ts, plist ps (paras c) ts /\ Forall2 (word_at m b) ts (pc_paras pc);
  ci_num : para_num c = Z.of_nat (length (pc_paras pc));
  ci_type : op_type c = pc_type pc
}.

Lemma command_is_frame m m' ps ps' b b' c pc :
  command_is m ps b c pc -> (forall a, a < b -> load8 m' a = load8 m a) -> ps ⊆ ps' -> b <= b' ->
  command_is m' ps' b' c pc.
Proof using All.
  intros [Ho (ts & Hp & Hw) Hn Ht] Hm Hs Hb. split; try done.
  - by eapply word_at_frame.
  - exists ts. split; [by eapply plist_mono|]. eapply Forall2_impl; [exact Hw|]. intros. by eapply word_at_frame.
Qed.

(** The list of commands from [c] on, ending with the last of [pcs]. *)
Fixpoint commands_are (m : bytes) (ps : gmap Z paras_t) (cmds : gmap Z command_t) (c : Z) (pcs : list pcommand) : Prop :=
  match pcs with
  | [] => False
  | pc :: pcs => c <> 0 /\ exists r, cmds !! c = Some r /\ command_is m ps (E + 2) r pc /\
      match pcs with [] => True | _ => commands_are m ps cmds (c_next r) pcs end
  end.

(** Nodes that can be used again: linked from [c], without parameters. *)
Fixpoint chain (cmds : gmap Z command_t) (c : Z) (ns : list Z) : Prop :=
  match ns with
  | [] => c = 0
  | n :: ns => c = n /\ c <> 0 /\ exists r, cmds !! c = Some r /\ paras r = 0 /\ para_num r = 0 /\
      chain cmds (c_next r) ns
  end.

Lemma chain_frame cmds cmds' ns : forall c,
  chain cmds c ns -> (forall a, a ∈ ns -> cmds' !! a = cmds !! a) -> chain cmds' c ns.
Proof using All.
  induction ns as [|n ns IH]; intros c; [done|]. intros (-> & H0 & r & Hr & Hp & Hn & Hc) Hsame.
  split; [done|]. split; [done|]. exists r. rewrite Hsame by set_solver. split_and!; try done.
  apply IH; [done|]. intros a Ha. apply Hsame. set_solver.
Qed.

(** What a round leaves as it was. *)
Record keeps (s s' : state) (tok : Z) (n : nat) : Prop := {
  kp_owned : owned s';
  kp_paras : sh_paras (udata s) ⊆ sh_paras (udata s');
  kp_mem : forall a, a < tok -> load8 (umem s') a = load8 (umem s) a;
  kp_room : (room (ukern s) <= room (ukern s') + n)%nat
}.

Lemma first_ok_read s s' command cur c tok tok' ps first ts :
  first_ok s command -> command_read s s' cur c tok tok' ps first ts -> (length ps < fuel)%nat -> first_ok s' command.
Proof using All.
  intros (H0 & c0 & ts0 & Hc0 & Hp & Hl) [Hlist Hw Hcm _ _ _ _ Hk] Hf. split; [done|].
  rewrite Hcm. destruct (decide (cur = command)) as [->|Hne].
  - eexists _, ts. rewrite lookup_insert_eq. split_and!; [done|done|]. by rewrite (Forall2_length _ _ _ Hw).
  - exists c0, ts0. rewrite lookup_insert_ne by done. split_and!; [done|by eapply plist_mono|done].
Qed.

(** The first part of a round: the name and the parameters are in place. *)
Lemma round_read command cur tok w rest c ps r (s : state) :
  lo <= tok -> cursor (umem s) E tok w rest -> owned s ->
  sh_cmds (udata s) !! cur = Some c -> paras c = 0 -> para_num c = 0 -> first_ok s command ->
  split_sep (words [32] rest) = (ps, r) ->
  (length ps < fuel)%nat -> (length ps + 1 < room (ukern s))%nat -> Z.of_nat (length ps) < 2 ^ 31 ->
  exists tok' s' c', command_round L fuel command (tok, cur) s =
      (do* next := finish command cur tok' r in
       match next with
       | None => uret (inr tt)
       | Some token =>
           do* c := get_cmd cur in
           (if c_next c =? 0 then
              do* q := new_command in
              upd_cmd cur (set_c_next q) ;;
              if q =? 0 then free_paras fuel command ;; uret (inr tt) else uret (inl (token, q))
            else uret (inl (token, c_next c)))
       end) s' /\
    after_paras (umem s') tok' r /\ first_ok s' command /\ keeps s s' tok (S (length ps)) /\ tok < before tok' /\
    sh_cmds (udata s') = <[cur := c']> (sh_cmds (udata s)) /\ c_next c' = c_next c /\
    (forall ty nx, command_is (umem s') (sh_paras (udata s')) (before tok')
       (CommandT (operation c') (paras c') (para_num c') ty nx) (PCommand w ps ty)).
Proof using All.
  intros Hl Hc Ho Hcur Hp0 Hn0 Hfirst Hsp Hf Hroom Hmax. unfold command_round.
  unfold ubind at 1. rewrite (upd_cmd_run _ c) by done. set (c1 := set_operation tok c). set (s1 := UState _ _ _).
  assert (owned s1) as Ho1.
  { apply (owned_dom s); [done|done|done|]. intros a. apply is_Some_insert. by rewrite Hcur. }
  assert (first_ok s1 command) as Hf1 by (by apply (first_ok_upd s s1 command cur c c1)).
  destruct (skip_run tok w rest s1 Hl Hc) as (tok1 & m1 & Hskip & Hat & Hw & Hlt & Hm1).
  unfold ubind at 1. rewrite Hskip. set (s2 := with_mem s1 m1).
  destruct (after_name_run command cur tok1 (words [32] rest) c1 ps r s2) as
    (tok' & s' & first & ts & Hrun & Hread & Haft); try done; [by cbn; rewrite lookup_insert_eq|cbn; lia|].
  exists tok', s', (CommandT tok first (Z.of_nat (length ps)) (op_type c) (c_next c)).
  split; [unfold ubind at 1; rewrite Hrun; done|].
  split; [done|]. split; [by eapply (first_ok_read s2)|].
  destruct Hread as [Hlist Hws Hcm Hm Hb Ho' Hro Hk].
  split.
  { split; [done|done| |cbn in Hro; lia]. intros a Ha. rewrite Hm by lia. cbn. apply Hm1. lia. }
  split; [lia|]. split; [rewrite Hcm; cbn; by rewrite insert_insert_eq|]. split; [done|].
  intros ty nx. split; cbn; try done.
  - eapply word_at_frame; [exact Hw|done|done].
  - by exists ts.
Qed.

(** The next node: the one that is there, or a new one. *)
Lemma next_node_run command cur c ns (tok : Z) (s : state) :
  owned s -> (0 < room (ukern s))%nat -> sh_cmds (udata s) !! cur = Some c ->
  chain (sh_cmds (udata s)) (c_next c) ns -> NoDup (cur :: ns) ->
  exists q ns' s', (do* c := get_cmd cur in
       (if c_next c =? 0 then
          do* q := new_command in
          upd_cmd cur (set_c_next q) ;;
          if q =? 0 then free_paras fuel command ;; uret (inr tt) else uret (inl (tok, q))
        else uret (inl (tok, c_next c)))) s = UDone (inl (tok, q)) s' /\
    umem s' = umem s /\ sh_paras (udata s') = sh_paras (udata s) /\ owned s' /\
    (room (ukern s) <= S (room (ukern s')))%nat /\
    chain (sh_cmds (udata s')) q (q :: ns') /\ NoDup (cur :: q :: ns') /\
    sh_cmds (udata s') !! cur = Some (set_c_next q c) /\
    (forall a, a <> cur -> is_Some (sh_cmds (udata s) !! a) -> sh_cmds (udata s') !! a = sh_cmds (udata s) !! a) /\
    (forall a, a ∈ q :: ns' -> a ∈ ns \/ sh_cmds (udata s) !! a = None).
Proof using All.
  intros Ho Hr Hcur Hch Hnd. unfold ubind at 1, get_cmd at 1, data, ubind at 1. rewrite Hcur. cbn [uret].
  destruct (Z.eqb_spec (c_next c) 0) as [E0|E0].
  - destruct (new_command_run s Ho Hr) as (q & k' & Hnew & Hq & Hpq & Hcq & Ht & Hro).
    assert (q <> cur) as Hne by congruence.
    unfold ubind at 1. rewrite Hnew. unfold ubind at 1.
    rewrite (upd_cmd_run _ c) by (cbn; by rewrite lookup_insert_ne). rewrite (proj2 (Z.eqb_neq q 0)) by lia.
    eexists q, [], _. split; [done|]. cbn. split_and!; try done.
    + intros a. destruct (Ho a) as [H1 H2]. cbn. rewrite Ht. destruct (decide (a = q)) as [->|Hq'].
      { rewrite Hpq. split; [set_solver|intros [? ?]; done]. }
      destruct (decide (a = cur)) as [->|Hc'].
      { rewrite lookup_insert_eq. rewrite Hcur in H1, H2. split; [intros _; set_solver|]. intros H. by apply H2 in H. }
      rewrite !lookup_insert_ne by done. split; [intros H; set_solver|done].
    + lia.
    + exists (CommandT 0 0 0 OP_DEAD 0). rewrite lookup_insert_ne, lookup_insert_eq by done. done.
    + repeat constructor; set_solver.
    + by rewrite lookup_insert_eq.
    + intros a Ha [x Hx]. rewrite !lookup_insert_ne by congruence. done.
    + intros a. rewrite list_elem_of_singleton. intros ->. by right.
  - destruct ns as [|n ns]; [done|]. pose proof Hch as (<- & _). eexists (c_next c), ns, s.
    split; [done|]. split_and!; try done; [lia|rewrite Hcur; by destruct c|by left].
Qed.

Lemma split_sep_length ws : forall ps r, split_sep ws = (ps, r) ->
  length ws = (length ps + match r with None => 0 | Some (_, ws') => S (length ws') end)%nat.
Proof using.
  induction ws as [|w ws IH]; intros ps r; cbn [split_sep]; [by intros [= <- <-]|].
  destruct (sep_of w); [by intros [= <- <-]|]. destruct (split_sep ws) as [ps' r'].
  intros [= <- <-]. cbn. by rewrite (IH ps' r').
Qed.

Lemma first_ok_same s s' command : first_ok s command ->
  (forall a c, sh_cmds (udata s) !! a = Some c -> exists c', sh_cmds (udata s') !! a = Some c' /\ paras c' = paras c) ->
  sh_paras (udata s) ⊆ sh_paras (udata s') -> first_ok s' command.
Proof using All.
  intros (H0 & c & ts & Hc & Hp & Hl) Hsame Hps. split; [done|]. destruct (Hsame _ _ Hc) as (c' & Hc' & E').
  exists c', ts. rewrite E'. split_and!; [done|by eapply plist_mono|done].
Qed.

(** The commands from [cur] on are built; the rest of the structures is as before. *)
Record built (s s' : state) (tok cur : Z) (ns : list Z) (pcs : list pcommand) : Prop := {
  bu_commands : commands_are (umem s') (sh_paras (udata s')) (sh_cmds (udata s')) cur pcs;
  bu_paras : sh_paras (udata s) ⊆ sh_paras (udata s');
  bu_mem : forall a, a < tok -> load8 (umem s') a = load8 (umem s) a;
  bu_cmds : forall a, a ∉ cur :: ns -> is_Some (sh_cmds (udata s) !! a) ->
    sh_cmds (udata s') !! a = sh_cmds (udata s) !! a
}.

Lemma command_loop command n : forall N tok w rest cur c ns (s : state),
  lo <= tok -> cursor (umem s) E tok w rest -> owned s -> cur <> 0 ->
  sh_cmds (udata s) !! cur = Some c -> paras c = 0 -> para_num c = 0 ->
  chain (sh_cmds (udata s)) (c_next c) ns -> NoDup (cur :: ns) -> first_ok s command ->
  let W := S (length (words [32] rest)) in
  (W <= n)%nat -> (W <= N)%nat -> (W < fuel)%nat -> (2 * W <= room (ukern s))%nat -> Z.of_nat W < 2 ^ 31 ->
  exists s', uloop N (command_round L fuel command) (tok, cur) s = UDone tt s' /\ owned s' /\
    match parse n (w :: words [32] rest) with
    | Some pcs => built s s' tok cur ns pcs
    | None => dead s' command
    end.
Proof using All.
  induction n as [|n IH]; intros N tok w rest cur c ns s Hl Hc Ho Hcur0 Hcur Hp0 Hn0 Hch Hnd Hfirst W HWn HWN HWf HWr HWm;
    [subst W; lia|]. destruct N as [|N]; [subst W; lia|].
  destruct (split_sep (words [32] rest)) as [ps r] eqn:Esp.
  pose proof (split_sep_length _ _ _ Esp) as Hlen.
  destruct (round_read command cur tok w rest c ps r s) as
    (tok1 & s1 & c1 & Hround & Haft & Hf1 & [Ho1 Hk1 Hm1 Hr1] & Hlt1 & Hcm1 & Hnx1 & Hci); try done; [lia..|].
  assert (sh_cmds (udata s1) !! cur = Some c1) as Hcur1 by (by rewrite Hcm1, lookup_insert_eq).
  assert (forall a, a <> cur -> sh_cmds (udata s1) !! a = sh_cmds (udata s) !! a) as Hoth1
    by (intros; by rewrite Hcm1, lookup_insert_ne).
  destruct (cursor_fits _ _ _ _ Hl Hc) as (_ & _ & HE).
  cbn [uloop parse]. rewrite Esp. unfold ubind at 1. rewrite Hround.
  destruct r as [[x ws']|]; cbn [finish].
  2: { cbn in Haft. subst tok1. unfold ubind. rewrite (upd_cmd_run _ c1) by done. cbn [uret].
    eexists. split; [done|]. split.
    { apply (owned_dom s1); [done|done|done|]. intros a. apply is_Some_insert. by rewrite Hcur1. }
    split; cbn; try done.
    - split; [done|]. eexists. rewrite lookup_insert_eq. split; [done|]. split; [|done]. apply Hci.
    - intros a Ha _. rewrite lookup_insert_ne by set_solver. apply Hoth1. set_solver. }
  destruct Haft as (rest1 & Hl1 & Hc1 & ->).
  pose proof (after_sep_run command cur tok1 x rest1 c1 s1 Hl1 Hc1 Ho1 Hf1 Hcur1) as Hsep.
  destruct (words [32] rest1) as [|w2 ws2] eqn:Ews.
  { destruct Hsep as (s2 & Hs2 & Ho2 & Hd2). unfold ubind. rewrite Hs2. exists s2. by split_and!. }
  destruct Hsep as (tok2 & rest2 & m2 & Hs2 & Hl2 & Hc2 & -> & Hlt2 & Hm2).
  unfold ubind at 1. rewrite Hs2. set (s2 := UState m2 _ _).
  assert (owned s2) as Ho2.
  { apply (owned_dom s1); [done|done|done|]. intros a. apply is_Some_insert. by rewrite Hcur1. }
  set (c2 := set_op_type (sep_type x) c1) in *.
  assert (forall a, a <> cur -> sh_cmds (udata s2) !! a = sh_cmds (udata s) !! a) as Hoth2
    by (intros; cbn; rewrite lookup_insert_ne by done; by apply Hoth1).
  destruct (next_node_run command cur c2 ns tok2 s2) as
    (q & ns' & s3 & Hnext & Hm3 & Hp3 & Ho3 & Hr3 & Hch3 & Hnd3 & Hcur3 & Hoth3 & Hns3); try done.
  { cbn in *. lia. } { cbn. by rewrite lookup_insert_eq. }
  { cbn. rewrite Hnx1. apply (chain_frame (sh_cmds (udata s))); [done|]. intros a Ha.
    apply Hoth2. intros ->. inversion_clear Hnd. done. }
  cbv iota beta. rewrite Hnext. pose proof Hch3 as (_ & Hq0 & cq & Hcq & Hpq & Hnq & Hchq).
  destruct (IH N tok2 w2 rest2 q cq ns' s3) as (s' & Hrun & Ho' & Hres); try done.
  { by rewrite Hm3. } { by inversion_clear Hnd3. }
  { apply (first_ok_same s1); [done| |by rewrite Hp3]. intros a ca Ha. destruct (decide (a = cur)) as [->|Hne].
    - exists (set_c_next q c2). rewrite Hcur1 in Ha. injection Ha as <-. by split.
    - exists ca. rewrite Hoth3, Hoth2, <- Hoth1; [done..|]. rewrite Hoth2, <- Hoth1, Ha; done. }
  { cbn in Hlen. lia. } { cbn in Hlen. lia. } { cbn in Hlen. lia. } { cbn in Hlen, Hr3. lia. } { cbn in Hlen. lia. }
  exists s'. split; [exact Hrun|]. split; [done|].
  destruct (parse n (w2 :: words [32] rest2)) as [pcs|]; [|done]. cbn.
  destruct Hres as [Hcs Hps Hms Hcms]. pose proof Hc1 as (Hpos1 & _). rewrite before_pos in Hlt1, Hci by done.
  destruct (cursor_fits _ _ _ _ Hl1 Hc1) as (_ & _ & HE1).
  split.
  - split; [done|]. exists (set_c_next q c2). rewrite Hcms; [|by inversion_clear Hnd3|by rewrite Hcur3].
    split; [done|]. split; [|by destruct pcs].
    eapply command_is_frame; [apply (Hci (sep_type x) q)| |by rewrite Hp3 in Hps|lia].
    intros a Ha. rewrite Hms by lia. rewrite Hm3. apply Hm2. lia.
  - transitivity (sh_paras (udata s1)); [done|]. by rewrite Hp3 in Hps.
  - intros a Ha. rewrite Hms, Hm3 by lia. cbn. rewrite Hm2 by lia. by apply Hm1.
  - intros a Ha Hs. assert (a <> cur) as Hne by set_solver.
    assert (is_Some (sh_cmds (udata s2) !! a)) as Hs2' by (by rewrite Hoth2).
    pose proof (Hoth3 a Hne Hs2') as H3. rewrite Hcms; [by rewrite H3, Hoth2| |by rewrite H3].
    intros Hin. destruct (Hns3 a Hin) as [H|H]; [set_solver|]. rewrite H in Hs2'. by destruct Hs2'.
Qed.

(** ** Clearing the nodes of the line before *)

Lemma clear_loop ns : forall n c (s : state), chain (sh_cmds (udata s)) c ns -> NoDup ns -> owned s ->
  (length ns < n)%nat -> (0 < fuel)%nat ->
  exists s', uloop n (fun cur =>
      if cur =? 0 then uret (inr tt)
      else
        do* c := get_cmd cur in
        free_paras fuel cur ;;
        upd_cmd cur (set_operation 0) ;;
        upd_cmd cur (set_para_num 0) ;;
        upd_cmd cur (set_op_type OP_DEAD) ;;
        uret (inl (c_next c))) c s = UDone tt s' /\
    umem s' = umem s /\ owned s' /\ (room (ukern s) <= room (ukern s'))%nat /\
    chain (sh_cmds (udata s')) c ns /\ (forall a, a ∈ ns -> dead s' a) /\
    (forall a, a ∉ ns -> sh_cmds (udata s') !! a = sh_cmds (udata s) !! a).
Proof using All.
  induction ns as [|a ns IH]; intros [|n] c s Hch Hnd Ho Hn Hf; cbn [length] in *; try lia; cbn [uloop].
  - cbn in Hch. subst c. exists s. split_and!; (done || lia || set_solver).
  - destruct Hch as (-> & H0 & r & Hr & Hp & Hnum & Hch). apply NoDup_cons in Hnd as [Hnin Hnd].
    unfold ubind at 1. rewrite (proj2 (Z.eqb_neq a 0)) by done.
    unfold ubind at 1, get_cmd at 1, data, ubind at 1. rewrite Hr. cbn [uret].
    destruct (free_paras_run a r [] s) as (s1 & Hrun & Hm1 & Ho1 & Hr1 & Hc1); try done.
    unfold ubind at 1. rewrite Hrun.
    do 3 (unfold ubind at 1; erewrite upd_cmd_run by (cbn; rewrite ?Hc1; by rewrite lookup_insert_eq)).
    cbn [uret]. set (s2 := UState _ _ _).
    assert (sh_cmds (udata s2) = <[a := CommandT 0 0 0 OP_DEAD (c_next r)]> (sh_cmds (udata s))) as Hc2.
    { cbn. by rewrite Hc1, !insert_insert_eq. }
    destruct (IH n (c_next r) s2) as (s' & Hrun' & Hm' & Ho' & Hr' & Hch' & Hd' & Hk'); try done.
    { apply (chain_frame (sh_cmds (udata s))); [done|]. intros b Hb. rewrite Hc2, lookup_insert_ne; [done|congruence]. }
    { apply (owned_dom s1); [done|done|done|]. intros b. rewrite Hc2. cbn. rewrite Hc1. intros H.
      destruct (decide (b = a)) as [->|]; [by rewrite lookup_insert_eq|]. by rewrite lookup_insert_ne in H |- * by done. }
    { lia. }
    exists s'. split; [exact Hrun'|]. split; [by rewrite Hm'|]. split; [done|]. split; [cbn in Hr'; lia|].
    assert (sh_cmds (udata s') !! a = Some (CommandT 0 0 0 OP_DEAD (c_next r))) as Ha
      by (by rewrite Hk', Hc2, lookup_insert_eq).
    split; [|split].
    + split; [done|]. split; [done|]. eexists. split; [exact Ha|]. done.
    + intros b Hb. destruct (decide (b = a)) as [->|]; [by eexists|]. apply Hd'. set_solver.
    + intros b Hb. rewrite Hk', Hc2, lookup_insert_ne by set_solver. done.
Qed.

End Parser.

Lemma line_words_length ds l : forall cur,
  (length (words_from ds cur l) <= length l + match cur with [] => 0 | _ => 1 end)%nat.
Proof.
  induction l as [|c l IH]; intros cur; cbn [words_from]; [destruct cur; cbn; lia|].
  destruct (is_delim ds c); [|specialize (IH (cur ++ [c])); destruct cur; cbn in *; lia].
  rewrite length_app. specialize (IH []). destruct cur; cbn in *; lia.
Qed.

Lemma words_length ds l : (length (words ds l) <= length l)%nat.
Proof. pose proof (line_words_length ds l []). cbn in *. unfold words. lia. Qed.

Lemma rest_at_start m cmd l : cstr m cmd l -> load8 m (cmd + Z.of_nat (length l) + 1) = 0 ->
  rest_at m (cmd + Z.of_nat (length l)) cmd l.
Proof.
  intros Hl H1. split; [|split; [done|by left]].
  pose proof (cstr_app l [] m cmd) as H. rewrite app_nil_r in H. by apply H.
Qed.

Section Build.
  Context {K : Type} `{!UserKernel K} `{!ShellKernel K} (L : layout_t) (fuel : nat).
  Context (lo E : Z) (Hlo : 0 < lo) (Hfuel : E + 2 - lo < Z.of_nat fuel).

(** The first node: the one that is there, or a new one. *)
Lemma first_node_run command ns (s : ustate K shell) :
  owned s -> (0 < room (ukern s))%nat -> chain (sh_cmds (udata s)) command ns -> NoDup ns ->
  exists q c ns' s', (if command =? 0 then new_command else uret command) s = UDone q s' /\
    umem s' = umem s /\ owned s' /\ (room (ukern s) <= S (room (ukern s')))%nat /\ q <> 0 /\
    sh_cmds (udata s') !! q = Some c /\ paras c = 0 /\ para_num c = 0 /\
    chain (sh_cmds (udata s')) (c_next c) ns' /\ NoDup (q :: ns').
Proof using All.
  intros Ho Hr Hch Hnd. destruct ns as [|n ns].
  - cbn in Hch. subst command. cbn [Z.eqb].
    destruct (new_command_run L fuel lo E Hlo Hfuel s Ho Hr) as (q & k' & Hnew & Hq & Hpq & Hcq & Ht & Hro).
    eexists q, (CommandT 0 0 0 OP_DEAD 0), [], _. split; [exact Hnew|]. cbn.
    split_and!; try done; [|lia|by rewrite lookup_insert_eq|repeat constructor; set_solver].
    intros a. destruct (Ho a) as [H1 H2]. cbn. rewrite Ht. destruct (decide (a = q)) as [->|Hq'].
    + rewrite Hpq. split; [set_solver|intros [? ?]; done].
    + rewrite !lookup_insert_ne by done. split; [intros H; set_solver|done].
  - destruct Hch as (-> & H0 & r & Hr0 & Hp & Hn & Hch). rewrite (proj2 (Z.eqb_neq n 0)) by done.
    exists n, r, ns, s. split_and!; try done. lia.
Qed.

End Build.


(** ** A kernel that allocates from 0x400000 on *)

Definition demo_ecall (n : Z) (args : list Z) (m : bytes) (k : nat) : option Z * bytes * nat :=
  if n =? SYS_user_allocate_mem then (Some (0x400000 + 32 * Z.of_nat k), m, S k) else (Some 0, m, k).

#[export] Instance demo_user_kernel : UserKernel nat := { ecall := demo_ecall }.

#[export] Program Instance demo_shell_kernel : ShellKernel nat := {
  taken := fun k => list_to_set ((fun i => 0x400000 + 32 * Z.of_nat i) <$> seq 0 k);
  room := fun k => (1000 - k)%nat
}.
Next Obligation.
  intros n m k Hk. cbn beta in Hk. eexists _, _. split; [reflexivity|]. split; [lia|].
  rewrite seq_S, fmap_app, list_to_set_app_L. cbn [fmap list_fmap list_to_set Nat.add]. split_and!; [|set_solver|lia].
  intros (i & Hi & Hin)%elem_of_list_to_set%list_elem_of_fmap. apply elem_of_seq in Hin. lia.
Qed.
Next Obligation. intros a m k. eexists _, _. split; [reflexivity|]. split; [set_solver|lia]. Qed.
Next Obligation. intros a n m k. eexists _, _. split; [reflexivity|]. split; [set_solver|lia]. Qed.

Definition demo_line : list Z := str "ls  /a & ./b x y && pwd".
Definition demo_ustate : ustate nat shell :=
  UState (list_to_map (zip (seqZ 0x1000 100) (demo_line ++ [0; 0]))) 0%nat (Shell ∅ ∅ ∅ 0 0).

